(* ===== verification/_CoqProject ===== *)
-Q . S2P
Prelude.v
RustStd.v
Float.v
FloatProps.v
External.v
RuleTypes.v
Error.v
Wire.v
ControlFrame.v
PubKey.v
Instances.v
Auth.v
Rule.v
RuleSet.v
Predicate.v
Derive.v
Reliability.v
PeerState.v
HeartbeatServer.v
Canary.v
ChainTypes.v
Acceptor.v
Publisher.v
LanCidrs.v
NetFmt.v
ProxyProtocol.v
NatWire.v
NatMapper.v
NatMapperProps.v
NatDiscovery.v
QueryRouter.v
ChainClient.v
Resolver.v
TcpProxy.v
UdpProxy.v
UdpFlows.v
UdpBatch.v
Interpose.v
UdpChain.v
Certs.v
HttpForward.v
Companion.v
Supervisor.v
Reload.v
HttpsReload.v
TlsFrontend.v
TcpChain.v
Config.v
Acme.v
AcmeOrder.v
Startup.v
CanaryProbe.v
Control.v
Ctl.v
RulesWatch.v
Enrollment.v
