(* ===== verification/Prelude.v ===== *)
(** * yggdrasil: a verification library

    yggdrasil is a reverse proxy for a residential network and the control
    plane of a chain of such proxies.  A _terminal_ holds the rules and the HTTP
    routes, dials a _relay_ and keeps an authenticated UDP session to it; a
    relay (or _gateway_, the outermost one) accepts one downstream, learns its
    address from its heartbeats, derives listeners from the predicates the
    downstream publishes, forwards traffic to that address and passes the
    predicates on.  The crates are [ratatoskr] (types, wire format, sessions,
    rules), [yggdrasil] (the daemon) and [yggdrasilctl] (the operator's tool);
    paths below are relative to [src/crates].

    ** How the model reads

    A Rust function is a Coq function with its name.  [Result] is [result],
    [Option] is [option]; a panic is [None] or [Panic] and shown not to occur.
    Code that mutates through [&mut self] returns the new value, on its failing
    paths too.  Integers are [Z] with the width, wrap-around or saturation
    written out; durations are nanoseconds; strings are their UTF-8 bytes; maps
    are [gmap]s.  A task is a function of one turn of its loop, and what the
    turn reads from outside (clock, randomness, readiness, the result of a system
    call) is an argument.  Where threads share state, a step is one atomic action
    and theorems quantify over all interleavings.  Crates that are not in the
    tree are classes whose laws state their documented behaviour ([External] and
    the head of the file that uses them); [Instances] and the [Demo] parts give
    each a concrete instance on which the witnesses run.

    ** Files

    Foundations.  [Prelude]: results, machine integers, bytes, automation.
    [RustStd], [NetFmt], [Float], [FloatProps]: the standard library that is used
    (UTF-8, number and address parsers and printers, ordered maps, doubles and
    how they round).  [External],
    [Instances]: third-party interfaces and their instances.

    Wire format and sessions ([ratatoskr]).  [Wire]: [wire.rs].  [ControlFrame]:
    [control_frame.rs].  [PubKey]: [pubkey.rs].  [Auth]: [auth.rs], handshakes
    and sessions.  [Error]: [error.rs].  [ChainTypes]: the bodies of the chain
    RPCs.  [Enrollment]: [enrollment.rs] and [yggdrasilctl/src/identity.rs].

    Rules.  [RuleTypes], [Rule], [RuleSet]: [ratatoskr/src/rule].  [Predicate]:
    [predicate.rs] and [chain/predicate_extractor.rs].  [Derive]:
    [chain/derive.rs].  [RulesWatch]: [yggdrasil/src/rules], with the
    supervisor.

    Chain.  [Reliability]: [chain/reliability.rs].  [PeerState],
    [HeartbeatServer]: [heartbeat], [pending_peers.rs].  [Acceptor]:
    [chain/acceptor.rs], [introspection.rs].  [Publisher]:
    [chain/predicate_publisher.rs].  [QueryRouter], [ChainClient]:
    [chain/query_router.rs], [chain/client].  The acceptor is the instance of
    [HeartbeatServer]'s [Dispatcher] class, so the server is verified against
    any acceptor.

    Proxies.  [ProxyProtocol], [Resolver], [TcpProxy], [UdpProxy] with
    [UdpFlows] and [UdpBatch] (flow table, races, batched system calls),
    [Interpose], [Canary]: [proxy].  [Certs], [HttpForward], [Companion],
    [TlsFrontend]: the HTTPS frontend.  [Supervisor], [Reload], [HttpsReload]:
    [proxy/supervisor].  [UdpChain], [TcpChain]: whole chains of proxies.
    [Acme], [AcmeOrder]: [proxy/acme].  [LanCidrs]: [lan_cidrs.rs].

    NAT.  [NatWire], [NatMapper], [NatMapperProps], [NatDiscovery]: [nat].

    Operation.  [Config]: [config.rs].  [Startup]: [lib.rs].  [Control],
    [CanaryProbe]: the control socket.  [Ctl]: [yggdrasilctl/src/chain.rs], [local.rs].

    ** What the theorems show

    - Sessions: no packet is accepted twice and none that was not sealed for the
      session; the published peer address always comes from an authenticated
      heartbeat, and a forged packet changes nothing ([Auth],
      [HeartbeatServer]).
    - Control channel: a waiter is told once, over reconnects too; an
      unacknowledged send times out; the duplicate window refines its
      specification; a query gets its own reply ([Reliability], [ChainClient],
      [QueryRouter]).
    - Rules: which rule sets derive and what they derive to; a relay accepts what
      a terminal extracts; a relay applies, acks and forwards as it should; the
      publisher converges; edited files reach the running proxies ([Derive],
      [Acceptor], [Publisher], [RulesWatch]).
    - Proxies: the client's address and bytes arrive unchanged at the end of a
      chain; the flow cap, the life of a flow and its target over all
      interleavings; batched receives stay inside their buffer and lose nothing;
      graceful stop; reloads keep what did not change; every route is served by
      exactly the listener that should; a certificate is served only for the
      names it covers; what a backend receives.
    - NAT: the mapper's tables are sound, and it converges once the gateway
      grants.
    - Operation: which configurations and hosts let the daemon get ready and what
      it then relies on, what [chain apply] acknowledges, what [chain diff] and
      [chain canary] report, when a certificate is renewed, what an order does,
      why it fails and what it leaves behind, whom an enrollment pins.

    Lemmas named in the manifest's findings prove the behaviours that differ
    from what the code or its comments intend.

    ** Bounds and fuel

    Most recursion is structural: over the input, over the turns of a run, or
    over the events a task sees.  [AcmeOrder.POLL_FUEL] (62) bounds the polls of
    an order and [PROPAGATION_FUEL] (61) the wait for a DNS record: a poll of
    two seconds gives up after 120, one of five after 300.  With a clock that
    advances by the sleep of each round neither runs out, which is proved.  The
    fuel of the digit and character loops is the length of the text or a bound on
    the number of digits.
    The canary's loss rule is exact for probes of fewer than 2^40 events, where
    rounding cannot move the quotient across its threshold.
    Retries of an interrupted system call recurse on the retry budget of the
    source.  Instants are unbounded; every counter that can wrap has its width.

    ** Not modelled

    - Serialisation done by crates (postcard, TOML, JSON), TLS, QUIC, HTTP
      framing, Noise, X.509 and PEM: parameters with documented laws.
    - Sockets, file watching threads and signals: inputs of the modelled steps.
      Of [run_relay] and [run_terminal], the wiring of the components and the
      shutdown; the steps that can fail are modelled.
    - Datagrams that the kernel coalesces in one receive buffer ([Interpose]): the
      code does not tell them apart, and the model counts buffers.
    - [proxy/acme/account.rs]: a call of instant-acme and a file; the account is
      an input of the order.
    - Metrics, logs, [profile.rs], [health.rs], [systemd.rs]: no effect on what
      is proxied.
    - Text the tools print, [cli-defs], [yggdrasilctl]'s [main.rs] and
      [validate.rs]: argument declarations, printing, and calls of functions that
      are modelled.
    - Response bodies and the copying of an upgraded connection; the
      upstream-to-client bytes of a TCP connection.
    - Non-Linux variants, benchmarks, fuzz targets and tests. *)

From Stdlib Require Export ZArith Lia Strings.Byte.
From stdpp Require Export base tactics list gmap strings numbers option.
From Stdlib Require Export Sorted Ascii String.
From stdpp Require Export list strings sorting.

#[global] Open Scope string_scope.
#[global] Open Scope list_scope.
#[global] Open Scope Z_scope.

(** ** Fallible code

    [result E A] is Rust's [Result<A, E>]; stdpp's monad notation
    [x ← m; k] is the [?] operator. *)

Inductive result (E A : Type) : Type :=
  | Ok (a : A)
  | Err (e : E).
Arguments Ok {E A} a.
Arguments Err {E A} e.

#[global] Instance result_ret {E} : MRet (result E) := fun A a => Ok a.
#[global] Instance result_bind {E} : MBind (result E) := fun A B f m =>
  match m with Ok a => f a | Err e => Err e end.
#[global] Instance result_fmap {E} : FMap (result E) := fun A B f m =>
  match m with Ok a => Ok (f a) | Err e => Err e end.
#[global] Instance result_eq_dec {E A} `{EqDecision E, EqDecision A} :
  EqDecision (result E A).
Proof. solve_decision. Defined.

Definition map_err {E F A} (f : E -> F) (m : result E A) : result F A :=
  match m with Ok a => Ok a | Err e => Err (f e) end.

Definition ok_or {E A} (e : E) (m : option A) : result E A :=
  match m with Some a => Ok a | None => Err e end.

Definition is_ok {E A} (m : result E A) : bool :=
  match m with Ok _ => true | Err _ => false end.

(** [for x in l { f(x)?; }]: stops at the first error. *)
Fixpoint try_each {E A} (f : A -> result E unit) (l : list A) : result E unit :=
  match l with
  | [] => Ok tt
  | x :: l' => _ ← f x; try_each f l'
  end.

(** [iter.map(f).collect::<Result<Vec<_>, _>>()]. *)
Fixpoint try_collect {E A B} (f : A -> result E B) (l : list A) : result E (list B) :=
  match l with
  | [] => Ok []
  | x :: l' => y ← f x; ys ← try_collect f l'; Ok (y :: ys)
  end.

Lemma result_bind_ok {E A B} (m : result E A) (f : A -> result E B) b :
  (m ≫= f) = Ok b <-> exists a, m = Ok a /\ f a = Ok b.
Proof. destruct m; cbn; naive_solver. Qed.

Lemma result_bind_err {E A B} (m : result E A) (f : A -> result E B) e :
  (m ≫= f) = Err e <-> m = Err e \/ exists a, m = Ok a /\ f a = Err e.
Proof. destruct m; cbn; naive_solver. Qed.

Lemma try_each_ok {E A} (f : A -> result E unit) l :
  try_each f l = Ok tt <-> Forall (fun x => f x = Ok tt) l.
Proof.
  induction l as [|x l IH]; cbn; [split; auto|].
  rewrite Forall_cons_iff, <- IH. destruct (f x) as [[]|]; cbn; naive_solver.
Qed.

Lemma try_collect_ok {E A B} (f : A -> result E B) l ys :
  try_collect f l = Ok ys <-> Forall2 (fun x y => f x = Ok y) l ys.
Proof.
  revert ys; induction l as [|x l IH]; intros ys; cbn.
  { split; [intros [= <-]; constructor | by intros ->%Forall2_nil_inv_l]. }
  rewrite result_bind_ok; split.
  - intros (y & Hy & Hrest). apply result_bind_ok in Hrest as (ys' & Hc & [= <-]).
    constructor; [done|by apply IH].
  - intros (y & ys' & Hy & Hf & ->)%Forall2_cons_inv_l.
    exists y; split; [done|]. apply result_bind_ok. exists ys'; split; [by apply IH|done].
Qed.

(** ** Lists *)

(** A key that is unique in a list identifies its element. *)
Lemma NoDup_fmap_elem {A B} (f : A -> B) (l : list A) x y :
  NoDup (f <$> l) -> x ∈ l -> y ∈ l -> f x = f y -> x = y.
Proof.
  induction l as [|z l IH]; [set_solver|]. cbn. intros [Hz Hl]%NoDup_cons Hx Hy Heq.
  rewrite elem_of_cons in Hx, Hy. destruct Hx as [->|Hx], Hy as [->|Hy]; [done|..|by apply IH].
  - exfalso. apply Hz. rewrite Heq. set_solver.
  - exfalso. apply Hz. rewrite <- Heq. set_solver.
Qed.

Lemma find_None_Forall {A} (f : A -> bool) (l : list A) :
  List.find f l = None <-> Forall (fun x => f x = false) l.
Proof.
  induction l as [|x l IH]; cbn; [split; auto|]. rewrite Forall_cons_iff, <- IH.
  destruct (f x); [split; [done|by intros [? _]]|]. split; [auto|by intros [_ ?]].
Qed.

Lemma find_Some_elem {A} (f : A -> bool) (l : list A) x :
  List.find f l = Some x -> x ∈ l /\ f x = true.
Proof. intros [Hin Hf]%List.find_some. by rewrite list_elem_of_In. Qed.

(** ** Machine integers

    A [w]-bit unsigned integer is a [Z] in [0, 2^w); the places where the
    source wraps, saturates or checks say so explicitly. *)

(** [Vec::len] and slice lengths as [usize]. *)
Definition zlen {A} (l : list A) : Z := Z.of_nat (length l).

Definition fits (w : Z) (z : Z) : Prop := 0 <= z < 2 ^ w.
Definition u8_max : Z := 2 ^ 8 - 1.
Definition u16_max : Z := 2 ^ 16 - 1.
Definition u32_max : Z := 2 ^ 32 - 1.
Definition u64_max : Z := 2 ^ 64 - 1.

Definition wrap (w z : Z) : Z := z mod 2 ^ w.
Definition saturating_add (w a b : Z) : Z := Z.min (2 ^ w - 1) (a + b).
Definition saturating_sub (a b : Z) : Z := Z.max 0 (a - b).
Definition checked_add (w a b : Z) : option Z :=
  if decide (a + b < 2 ^ w) then Some (a + b) else None.

#[global] Instance fits_dec w z : Decision (fits w z).
Proof. unfold fits. apply _. Defined.

Lemma zlen_app {A} (l k : list A) : zlen (l ++ k) = zlen l + zlen k.
Proof. unfold zlen. rewrite length_app. lia. Qed.
Lemma zlen_cons {A} (x : A) l : zlen (x :: l) = 1 + zlen l.
Proof. unfold zlen. cbn [length]. lia. Qed.
Lemma zlen_nonneg {A} (l : list A) : 0 <= zlen l.
Proof. unfold zlen. lia. Qed.

Lemma saturating_add_fits w a b : 0 <= w -> fits w a -> 0 <= b -> fits w (saturating_add w a b).
Proof. unfold fits, saturating_add. lia. Qed.

Lemma wrap_small w z : fits w z -> wrap w z = z.
Proof. intros [??]. by apply Z.mod_small. Qed.

(** ** Bytes *)

#[global] Instance byte_eq_dec : EqDecision byte := Byte.byte_eq_dec.
#[global] Instance byte_countable : Countable byte :=
  inj_countable Byte.to_N Byte.of_N Byte.of_to_N.

Definition byte_to_Z (b : byte) : Z := Z.of_N (Byte.to_N b).
Definition byte_of_Z (z : Z) : byte :=
  default x00 (Byte.of_N (Z.to_N (z mod 256))).

Lemma byte_to_Z_range b : 0 <= byte_to_Z b < 256.
Proof. unfold byte_to_Z. pose proof (Byte.to_N_bounded b). lia. Qed.

Lemma byte_of_to_Z b : byte_of_Z (byte_to_Z b) = b.
Proof.
  unfold byte_of_Z. rewrite Z.mod_small by apply byte_to_Z_range.
  unfold byte_to_Z. by rewrite N2Z.id, Byte.of_to_N.
Qed.

Lemma byte_to_of_Z z : byte_to_Z (byte_of_Z z) = z mod 256.
Proof.
  unfold byte_of_Z, byte_to_Z.
  assert (0 <= z mod 256 < 256) by (apply Z.mod_pos_bound; lia).
  destruct (Byte.of_N (Z.to_N (z mod 256))) as [b|] eqn:Hb; cbn.
  - apply Byte.to_of_N in Hb. rewrite Hb. lia.
  - apply Byte.of_N_None_iff in Hb. lia.
Qed.

Lemma byte_to_of_Z_small z : fits 8 z -> byte_to_Z (byte_of_Z z) = z.
Proof. intros [??]. rewrite byte_to_of_Z. by apply Z.mod_small. Qed.

Lemma byte_to_Z_inj b1 b2 : byte_to_Z b1 = byte_to_Z b2 -> b1 = b2.
Proof. intros H. by rewrite <- (byte_of_to_Z b1), H, byte_of_to_Z. Qed.

(** Big-endian coding: [to_be n] is [uN::to_be_bytes], [from_be] is
    [uN::from_be_bytes]. *)

Fixpoint to_be (n : nat) (z : Z) : list byte :=
  match n with
  | O => []
  | S m => byte_of_Z (z / 256 ^ Z.of_nat m) :: to_be m z
  end.

Definition from_be (l : list byte) : Z :=
  foldl (fun acc b => acc * 256 + byte_to_Z b) 0 l.

Lemma length_to_be n z : length (to_be n z) = n.
Proof. induction n; cbn; auto. Qed.

Lemma zlen_to_be n z : zlen (to_be n z) = Z.of_nat n.
Proof. unfold zlen. by rewrite length_to_be. Qed.

Lemma from_be_snoc l b : from_be (l ++ [b]) = from_be l * 256 + byte_to_Z b.
Proof. unfold from_be. by rewrite foldl_app. Qed.

Lemma from_be_app l1 l2 :
  from_be (l1 ++ l2) = from_be l1 * 256 ^ Z.of_nat (length l2) + from_be l2.
Proof.
  induction l2 as [|b l2 IH] using rev_ind.
  { rewrite app_nil_r. change (from_be []) with 0. cbn. lia. }
  rewrite app_assoc, !from_be_snoc, IH, length_app; cbn [length].
  rewrite Nat2Z.inj_add, Z.pow_add_r by lia. lia.
Qed.

Lemma from_be_cons b l :
  from_be (b :: l) = byte_to_Z b * 256 ^ Z.of_nat (length l) + from_be l.
Proof. exact (from_be_app [b] l). Qed.

Lemma from_be_range l : 0 <= from_be l < 256 ^ Z.of_nat (length l).
Proof.
  induction l as [|b l IH]; [cbn; lia|].
  rewrite from_be_cons. pose proof (byte_to_Z_range b). cbn [length].
  rewrite Nat2Z.inj_succ, Z.pow_succ_r by lia. nia.
Qed.

Lemma from_to_be_mod n z : from_be (to_be n z) = z mod 256 ^ Z.of_nat n.
Proof.
  induction n as [|n IH]; [by rewrite Z.mod_1_r|].
  cbn [to_be]. rewrite from_be_cons, IH, byte_to_of_Z, length_to_be.
  rewrite Nat2Z.inj_succ, Z.pow_succ_r by lia.
  rewrite (Z.mul_comm 256), Z.rem_mul_r by lia. lia.
Qed.

Lemma from_to_be n z : fits (8 * Z.of_nat n) z -> from_be (to_be n z) = z.
Proof.
  intros [??]. rewrite from_to_be_mod. apply Z.mod_small.
  change 256 with (2 ^ 8). rewrite <- Z.pow_mul_r; lia.
Qed.

Lemma to_be_mod m n z :
  (m <= n)%nat -> to_be m (z mod 256 ^ Z.of_nat n) = to_be m z.
Proof.
  induction m as [|m IH]; intros Hm; [done|cbn].
  f_equal; [|apply IH; lia]. unfold byte_of_Z. do 3 f_equal.
  replace (Z.of_nat n) with (Z.of_nat m + (1 + Z.of_nat (n - S m))) by lia.
  rewrite Z.pow_add_r, Z.rem_mul_r by lia.
  rewrite Z.mul_comm, Z.div_add, Z.div_small, Z.add_0_l by (apply Z.mod_pos_bound || idtac; lia).
  rewrite Z.pow_add_r, Z.rem_mul_r by lia.
  rewrite Z.add_mod, Z.mul_comm, Z_mod_mult, Z.add_0_r, !Z.mod_mod by lia. done.
Qed.

Lemma to_be_add_mul n k z : to_be n (k * 256 ^ Z.of_nat n + z) = to_be n z.
Proof.
  rewrite <- (to_be_mod n n) by lia. rewrite Z.add_comm, Z_mod_plus_full.
  by apply to_be_mod.
Qed.

Lemma to_from_be l : to_be (length l) (from_be l) = l.
Proof.
  induction l as [|b l IH]; [done|]. cbn [length to_be].
  rewrite from_be_cons. pose proof (from_be_range l).
  f_equal; [|by rewrite to_be_add_mul, IH].
  rewrite Z.div_add_l by lia. rewrite Z.div_small by lia.
  by rewrite Z.add_0_r, byte_of_to_Z.
Qed.

(** [buf[a..b]] on indices already checked, and [buf[i]]. *)
Definition slice (l : list byte) (a b : nat) : list byte := firstn (b - a) (skipn a l).
Definition byte_at (l : list byte) (i : nat) : Z := match l !! i with Some b => byte_to_Z b | None => 0 end.

(** ** Automation *)

(** [z] is a value of the [w]-bit unsigned type. *)
Declare Scope rust_scope.
Notation "z '∈u' w" := (fits w z) (at level 70, no associativity) : rust_scope.
#[global] Open Scope rust_scope.

(** Lengths of lists and of what is built from them. *)
Create HintDb rust_len.
#[export] Hint Rewrite @length_app @length_take @length_drop @length_fmap @length_imap @length_replicate @length_insert @length_alter @length_seq length_to_be : rust_len.

Ltac solve_len := unfold zlen in *; autorewrite with rust_len in *; cbn [length] in *; lia.

(** Ranges. *)
Create HintDb rust.
#[export] Hint Resolve zlen_nonneg byte_to_Z_range from_be_range saturating_add_fits : rust.

(** From [H : (x ← m; k) = Ok b], that [m] succeeded and [k] gave [b]. *)
Ltac bind_step H := let a := fresh "a" in let Ha := fresh "Hbind" in apply result_bind_ok in H as (a & Ha & H).
