(* ===== verification/RustStd.v ===== *)
(** * The parts of Rust's [core]/[std] the sources rely on

    Strings are [String.string]s read as the UTF-8 bytes of a Rust [str], so
    [len], equality, [cmp], concatenation and every search for an ASCII
    delimiter are literally bytewise; only [chars] and [trim] decode.
    Addresses follow [core::net], with the parsers of [core::net::parser].
    A [Duration] and an [Instant] are nanosecond counts. *)

From S2P Require Import Prelude.


(** ** [str] *)

Module Str.

Definition to_bytes (s : string) : list byte := list_byte_of_string s.
Definition of_bytes (l : list byte) : string := string_of_list_byte l.
Definition to_list (s : string) : list ascii := list_ascii_of_string s.
Definition of_list (l : list ascii) : string := string_of_list_ascii l.

Definition code (c : ascii) : Z := Z.of_N (N_of_ascii c).

Definition len (s : string) : nat := String.length s.
Definition is_empty (s : string) : bool := (String.length s =? 0)%nat.

(** The number of bytes of the UTF-8 sequence a lead byte opens. *)
Definition utf8_width (lead : Z) : nat :=
  if lead <? 128 then 1%nat else if lead <? 224 then 2%nat
  else if lead <? 240 then 3%nat else 4%nat.

(** Cut a (valid UTF-8) string into the byte sequences of its [char]s. *)
Fixpoint char_slices_aux (fuel : nat) (l : list ascii) : list (list ascii) :=
  match fuel, l with
  | S n, c :: _ =>
      let w := utf8_width (code c) in
      firstn w l :: char_slices_aux n (skipn w l)
  | _, _ => []
  end.

Definition char_slices (s : string) : list (list ascii) :=
  char_slices_aux (String.length s) (to_list s).

(** The scalar value of one UTF-8 sequence. *)
Definition scalar (sl : list ascii) : Z :=
  match code <$> sl with
  | [b0] => b0
  | [b0; b1] => Z.lor (Z.shiftl (Z.land b0 31) 6) (Z.land b1 63)
  | [b0; b1; b2] =>
      Z.lor (Z.shiftl (Z.land b0 15) 12)
            (Z.lor (Z.shiftl (Z.land b1 63) 6) (Z.land b2 63))
  | [b0; b1; b2; b3] =>
      Z.lor (Z.shiftl (Z.land b0 7) 18)
            (Z.lor (Z.shiftl (Z.land b1 63) 12)
                   (Z.lor (Z.shiftl (Z.land b2 63) 6) (Z.land b3 63)))
  | _ => 0
  end.

Definition chars (s : string) : list Z := scalar <$> char_slices s.

(** [char::is_whitespace]: the Unicode [White_Space] property. *)
Definition is_whitespace (c : Z) : bool :=
  (9 <=? c) && (c <=? 13) || (c =? 32) || (c =? 133) || (c =? 160)
  || (c =? 5760) || (8192 <=? c) && (c <=? 8202) || (c =? 8232) || (c =? 8233)
  || (c =? 8239) || (c =? 8287) || (c =? 12288).

(** [char::is_control]: general category [Cc]. *)
Definition is_control (c : Z) : bool :=
  (0 <=? c) && (c <=? 31) || (127 <=? c) && (c <=? 159).

Fixpoint drop_while {A} (f : A -> bool) (l : list A) : list A :=
  match l with
  | [] => []
  | x :: l' => if f x then drop_while f l' else l
  end.

(** [str::trim]. *)
Definition trim (s : string) : string :=
  let ws sl := is_whitespace (scalar sl) in
  of_list (concat (rev (drop_while ws (rev (drop_while ws (char_slices s)))))).

Definition is_ascii_digit (c : ascii) : bool := (48 <=? code c) && (code c <=? 57).
Definition is_ascii_upper (c : ascii) : bool := (65 <=? code c) && (code c <=? 90).
Definition is_ascii_lower (c : ascii) : bool := (97 <=? code c) && (code c <=? 122).
Definition is_ascii_alphanumeric (c : ascii) : bool :=
  is_ascii_digit c || is_ascii_upper c || is_ascii_lower c.
Definition is_ascii_hexdigit (c : ascii) : bool :=
  is_ascii_digit c || (65 <=? code c) && (code c <=? 70)
  || (97 <=? code c) && (code c <=? 102).

Definition ascii_lower (c : ascii) : ascii :=
  if is_ascii_upper c then ascii_of_N (Z.to_N (code c + 32)) else c.
Definition to_ascii_lowercase (s : string) : string :=
  of_list (ascii_lower <$> to_list s).

Definition all_bytes (f : ascii -> bool) (s : string) : bool := forallb f (to_list s).

Fixpoint starts_with_list (p l : list ascii) : bool :=
  match p, l with
  | [], _ => true
  | a :: p', b :: l' => bool_decide (a = b) && starts_with_list p' l'
  | _ :: _, [] => false
  end.
Definition starts_with (s p : string) : bool := starts_with_list (to_list p) (to_list s).

Definition strip_prefix (s p : string) : option string :=
  if starts_with s p then Some (of_list (skipn (String.length p) (to_list s))) else None.

(** [str::split(sep)]: always at least one piece. *)
Fixpoint split_list (sep : ascii) (l : list ascii) : list (list ascii) :=
  match l with
  | [] => [[]]
  | c :: l' =>
      if bool_decide (c = sep) then [] :: split_list sep l'
      else match split_list sep l' with
           | p :: ps => (c :: p) :: ps
           | [] => [[c]]
           end
  end.
Definition split (sep : ascii) (s : string) : list string := of_list <$> split_list sep (to_list s).

(** [str::split_once(sep)] and [str::rsplit_once(sep)]. *)
Fixpoint split_once_list (sep : ascii) (l : list ascii) : option (list ascii * list ascii) :=
  match l with
  | [] => None
  | c :: l' =>
      if bool_decide (c = sep) then Some ([], l')
      else '(a, b) ← split_once_list sep l'; Some (c :: a, b)
  end.
Definition split_once (sep : ascii) (s : string) : option (string * string) :=
  '(a, b) ← split_once_list sep (to_list s); Some (of_list a, of_list b).
Definition rsplit_once (sep : ascii) (s : string) : option (string * string) :=
  '(a, b) ← split_once_list sep (rev (to_list s)); Some (of_list (rev b), of_list (rev a)).

(** [str::strip_suffix('.')] with the [unwrap_or] of its caller. *)
Definition strip_suffix_or (c : ascii) (s : string) : string :=
  match rev (to_list s) with
  | d :: r => if bool_decide (c = d) then of_list (rev r) else s
  | [] => s
  end.

(** [char::to_digit(radix)] for radix 10 and 16. *)
Definition to_digit (radix : Z) (c : ascii) : option Z :=
  let n := code c in
  let v := if is_ascii_digit c then Some (n - 48)
           else if (97 <=? n) && (n <=? 122) then Some (n - 87)
           else if (65 <=? n) && (n <=? 90) then Some (n - 55)
           else None in
  d ← v; if d <? radix then Some d else None.

(** [u8::from_str] / [u16::from_str]: an optional [+], then at least one
    decimal digit, with overflow checked digit by digit. *)
Fixpoint parse_digits (w acc : Z) (l : list ascii) : option Z :=
  match l with
  | [] => Some acc
  | c :: l' =>
      d ← to_digit 10 c;
      let acc' := acc * 10 + d in
      if acc' <? 2 ^ w then parse_digits w acc' l' else None
  end.
Definition parse_uint (w : Z) (s : string) : option Z :=
  match to_list s with
  | [] => None
  | c :: l => if bool_decide (c = "+"%char)
              then match l with [] => None | _ => parse_digits w 0 l end
              else parse_digits w 0 (c :: l)
  end.

(** Decimal rendering of an unsigned integer ([Display]). *)
Fixpoint digits_aux (fuel : nat) (n : Z) (acc : list ascii) : list ascii :=
  match fuel with
  | O => acc
  | S f =>
      let acc' := ascii_of_N (Z.to_N (48 + n mod 10)) :: acc in
      if n <? 10 then acc' else digits_aux f (n / 10) acc'
  end.
Definition show_uint (n : Z) : string := of_list (digits_aux 40 n []).

Lemma of_to_list s : of_list (to_list s) = s.
Proof. apply string_of_list_ascii_of_string. Qed.
Lemma to_of_list l : to_list (of_list l) = l.
Proof. apply list_ascii_of_string_of_list_ascii. Qed.
Lemma of_to_bytes s : of_bytes (to_bytes s) = s.
Proof. apply string_of_list_byte_of_string. Qed.
Lemma to_of_bytes l : to_bytes (of_bytes l) = l.
Proof. apply list_byte_of_string_of_list_byte. Qed.

Lemma to_list_app s1 s2 : to_list (s1 +:+ s2) = to_list s1 ++ to_list s2.
Proof.
  induction s1 as [|c s1 IH]; [done|].
  exact (f_equal (cons c) IH).
Qed.

Lemma length_to_list s : List.length (to_list s) = String.length s.
Proof. induction s as [|c s IH]; [done|]. cbn. by f_equal. Qed.

Lemma to_digit_10 c d : to_digit 10 c = Some d -> 0 <= d < 10 /\ c = ascii_of_N (Z.to_N (48 + d)).
Proof.
  destruct c as [[] [] [] [] [] [] [] []]; vm_compute; intros Hd; try discriminate Hd;
    injection Hd as <-; (split; [split; [discriminate|reflexivity]|reflexivity]).
Qed.

Lemma to_digit_show d : 0 <= d < 10 -> to_digit 10 (ascii_of_N (Z.to_N (48 + d))) = Some d.
Proof.
  intros Hd. assert (d ∈ seqZ 0 10) as Hin by (apply elem_of_seqZ; lia). revert d Hin Hd.
  cbn. intros d Hin _. repeat (apply elem_of_cons in Hin as [->|Hin]; [by vm_compute|]). set_solver.
Qed.

Lemma parse_digits_fits w l : forall acc n, fits w acc -> parse_digits w acc l = Some n -> fits w n.
Proof.
  induction l as [|c l IH]; intros acc n Hacc; cbn; [by intros [= <-]|].
  destruct (to_digit 10 c) as [d|] eqn:Hd; [cbn|done]. apply to_digit_10 in Hd as [Hd _].
  case_match eqn:Hlt; [|done]. apply IH. unfold fits in *. lia.
Qed.

Lemma parse_uint_fits w s n : 0 < w -> parse_uint w s = Some n -> fits w n.
Proof.
  intros Hw. unfold parse_uint. assert (fits w 0) as H0 by (split; [done|by apply Z.pow_pos_nonneg; lia]).
  destruct (to_list s) as [|c l]; [done|]. case_bool_decide.
  - destruct l; [done|]. by apply parse_digits_fits.
  - by apply parse_digits_fits.
Qed.

(** Digits are written most significant first. *)
Lemma parse_digits_app w l1 : forall acc l2,
  parse_digits w acc (l1 ++ l2) = (m ← parse_digits w acc l1; parse_digits w m l2).
Proof.
  induction l1 as [|c l1 IH]; intros acc l2; cbn; [done|].
  destruct (to_digit 10 c); [cbn|done]. case_match; [apply IH|done].
Qed.

Lemma digits_aux_acc fuel : forall n acc, digits_aux fuel n acc = digits_aux fuel n [] ++ acc.
Proof.
  induction fuel as [|f IH]; intros n acc; cbn; [done|]. case_match; [done|].
  rewrite IH, (IH _ [_]), <- app_assoc. done.
Qed.

Lemma parse_digits_aux w fuel : forall n,
  0 <= n < 10 ^ Z.of_nat fuel -> n < 2 ^ w -> (0 < fuel)%nat ->
  parse_digits w 0 (digits_aux fuel n []) = Some n.
Proof.
  induction fuel as [|f IH]; intros n Hn Hw Hf; [lia|]. cbn [digits_aux].
  destruct (n <? 10) eqn:Hlt.
  - cbn -[to_digit]. rewrite Z.mod_small, to_digit_show by lia. cbn. by rewrite (proj2 (Z.ltb_lt _ _)).
  - rewrite digits_aux_acc, parse_digits_app.
    assert (10 ^ Z.of_nat (S f) = 10 * 10 ^ Z.of_nat f) as Hpow by (rewrite Nat2Z.inj_succ, Z.pow_succ_r; lia).
    assert (0 <= n / 10 < 10 ^ Z.of_nat f) as Hd by (split; [apply Z.div_pos|apply Z.div_lt_upper_bound]; lia).
    assert (n / 10 <= n) by (apply Z.div_le_upper_bound; lia).
    destruct f as [|f]; [cbn in Hd; lia|].
    rewrite IH by lia. cbn -[to_digit].
    rewrite to_digit_show by (apply Z.mod_pos_bound; lia). cbn -[Z.mul].
    pose proof (Z.div_mod n 10). rewrite (proj2 (Z.ltb_lt _ _)) by lia. f_equal. lia.
Qed.

Lemma digits_aux_cons fuel : forall n,
  0 <= n -> (0 < fuel)%nat ->
  exists d l, digits_aux fuel n [] = ascii_of_N (Z.to_N (48 + d)) :: l /\ 0 <= d < 10.
Proof.
  induction fuel as [|f IH]; intros n Hn Hf; [lia|]. cbn [digits_aux].
  assert (0 <= n mod 10 < 10) by (apply Z.mod_pos_bound; lia).
  case_match; [by exists (n mod 10), []|].
  destruct f as [|f]; [by exists (n mod 10), []|].
  destruct (IH (n / 10)) as (d & l & He & Hd); [apply Z.div_pos; lia|lia|].
  rewrite digits_aux_acc, He. by eexists d, _.
Qed.

(** Printing a number and parsing it at a width that holds it. *)
Lemma parse_show_uint w n : 0 <= n < 2 ^ w -> w <= 128 -> parse_uint w (show_uint n) = Some n.
Proof.
  intros Hn Hw. unfold parse_uint, show_uint. rewrite to_of_list.
  assert (n < 10 ^ Z.of_nat 40) as H40.
  { eapply Z.lt_le_trans; [apply Hn|]. transitivity (2 ^ 128); [apply Z.pow_le_mono_r; lia|by vm_compute]. }
  pose proof (parse_digits_aux w 40 n ltac:(lia) ltac:(lia) ltac:(lia)) as Hp.
  destruct (digits_aux_cons 40 n) as (d & l & He & Hd); [lia|lia|]. rewrite He in *.
  rewrite bool_decide_false; [done|]. intros Hplus.
  pose proof (to_digit_show d Hd) as Ht. by rewrite Hplus in Ht.
Qed.

Lemma is_empty_true s : is_empty s = true <-> s = EmptyString.
Proof. destruct s; cbn; naive_solver. Qed.
Lemma is_empty_false s : is_empty s = false <-> s <> EmptyString.
Proof. destruct s; cbn; naive_solver. Qed.

Lemma starts_with_list_app p l : starts_with_list p (p ++ l) = true.
Proof. induction p as [|c p IH]; [done|]. cbn. by rewrite bool_decide_true. Qed.

(** *** Concatenation and [chars]

    A Rust [String] is valid UTF-8, so in particular its last multi-byte
    sequence is complete. *)

Definition complete (sl : list ascii) : bool :=
  match sl with c :: _ => (List.length sl =? utf8_width (code c))%nat | [] => false end.

Definition well_cut (s : string) : bool := forallb complete (char_slices s).

Lemma utf8_width_pos z : (1 <= utf8_width z <= 4)%nat.
Proof. unfold utf8_width. repeat case_match; lia. Qed.

Lemma char_slices_fuel n l :
  (List.length l <= n)%nat -> char_slices_aux n l = char_slices_aux (List.length l) l.
Proof.
  revert l; induction n as [n IH] using lt_wf_ind; intros l Hn.
  destruct l as [|c l]; [by destruct n|]. destruct n as [|n]; [cbn in Hn; lia|].
  cbn [List.length char_slices_aux]. pose proof (utf8_width_pos (code c)).
  f_equal. destruct (utf8_width (code c)) as [|w]; [lia|]. cbn [skipn]. cbn in Hn.
  pose proof (length_drop l w).
  rewrite (IH n) by lia. rewrite (IH (List.length l)) by lia. done.
Qed.

Lemma char_slices_app l1 l2 :
  forallb complete (char_slices_aux (List.length l1) l1) = true ->
  char_slices_aux (List.length (l1 ++ l2)) (l1 ++ l2)
  = char_slices_aux (List.length l1) l1 ++ char_slices_aux (List.length l2) l2.
Proof.
  remember (List.length l1) as n eqn:Hn. revert l1 Hn.
  induction n as [n IH] using lt_wf_ind; intros l1 -> Hok.
  destruct l1 as [|c l1]; [done|]. cbn [List.length char_slices_aux app] in Hok |- *.
  pose proof (utf8_width_pos (code c)).
  apply andb_true_iff in Hok as [Hc Hok].
  destruct (utf8_width (code c)) as [|w] eqn:Hw; [lia|].
  cbn [firstn skipn] in Hc, Hok |- *. cbn in Hc. rewrite Hw in Hc.
  apply Nat.eqb_eq in Hc. rewrite length_take in Hc.
  assert (w <= List.length l1)%nat by lia.
  rewrite take_app_le, drop_app_le by lia. cbn [app]. f_equal.
  pose proof (length_drop l1 w).
  rewrite char_slices_fuel in Hok by lia.
  rewrite char_slices_fuel by (rewrite !length_app; lia).
  rewrite (char_slices_fuel (List.length l1) (drop w l1)) by lia.
  eapply IH; [|reflexivity|done]. cbn. lia.
Qed.

Lemma chars_app s1 s2 :
  well_cut s1 = true -> chars (s1 +:+ s2) = chars s1 ++ chars s2.
Proof.
  unfold well_cut, chars, char_slices. rewrite <- !length_to_list, to_list_app. intros Hc.
  by rewrite char_slices_app, fmap_app.
Qed.

(** *** [Ord for str]: bytewise lexicographic order *)

Definition le (a b : string) : Prop := String.leb a b = true.

#[global] Instance le_dec : RelDecision le.
Proof. intros a b. unfold le. apply _. Defined.

#[global] Instance le_total : Total le.
Proof. intros a b. unfold le. destruct (String.leb_total a b); auto. Qed.

#[global] Instance le_antisymm : AntiSymm (=) le.
Proof. intros a b Ha Hb. by apply String.leb_antisym. Qed.

Lemma le_cons c a d b :
  le (String c a) (String d b)
  <-> (N_of_ascii c < N_of_ascii d)%N \/ (c = d /\ le a b).
Proof.
  unfold le, String.leb. cbn. unfold Ascii.compare.
  destruct (N.compare_spec (N_of_ascii c) (N_of_ascii d)) as [He|Hl|Hg].
  - apply (f_equal ascii_of_N) in He. rewrite !ascii_N_embedding in He. subst d.
    split; [auto|]. intros [?|[_ ?]]; [lia|done].
  - split; auto.
  - split; [done|]. intros [?|[-> _]]; lia.
Qed.

#[global] Instance le_trans : Transitive le.
Proof.
  intros a; induction a as [|c a IH]; intros b d Hab Hbd; [by destruct d|].
  destruct b as [|c' b]; [done|]. destruct d as [|c'' d]; [done|].
  apply le_cons in Hab, Hbd. apply le_cons.
  destruct Hab as [?|[-> ?]], Hbd as [?|[-> ?]]; [left; lia|left; lia|left; lia|right].
  split; [done|]. by eapply IH.
Qed.

(** Strings of ASCII characters that are not white space. *)
Definition plain (c : ascii) : bool := (code c <? 128) && negb (is_whitespace (code c)).

Lemma char_slices_ascii l :
  Forall (fun c => code c < 128) l ->
  char_slices_aux (List.length l) l = (fun c => [c]) <$> l.
Proof.
  induction l as [|c l IH]; intros Hl; [done|]. apply Forall_cons_iff in Hl as [Hc Hl].
  cbn. unfold utf8_width. rewrite (proj2 (Z.ltb_lt _ _)) by done. cbn. f_equal. by apply IH.
Qed.

Lemma drop_while_id {A} (f : A -> bool) l :
  Forall (fun x => f x = false) l -> drop_while f l = l.
Proof. destruct l as [|x l]; [done|]. intros [Hx _]%Forall_cons_iff. cbn. by rewrite Hx. Qed.

Lemma concat_singletons {A} (l : list A) : concat ((fun x => [x]) <$> l) = l.
Proof. induction l as [|x l IH]; [done|]. cbn. by f_equal. Qed.

(** [trim] leaves a string without white space alone. *)
Lemma trim_plain s : Forall (fun c => plain c = true) (to_list s) -> trim s = s.
Proof.
  intros Hs. unfold trim, char_slices. rewrite <- length_to_list, char_slices_ascii.
  2:{ eapply Forall_impl; [exact Hs|]. intros c [?%Z.ltb_lt _]%andb_true_iff. done. }
  assert (Forall (fun sl => is_whitespace (scalar sl) = false) ((fun c => [c]) <$> to_list s)) as Hw.
  { apply Forall_fmap. eapply Forall_impl; [exact Hs|].
    intros c [_ Hc]%andb_true_iff. by apply negb_true_iff in Hc. }
  rewrite (drop_while_id _ (_ <$> _)) by done.
  rewrite drop_while_id by (by apply Forall_rev).
  by rewrite rev_involutive, concat_singletons, of_to_list.
Qed.

(** Splitting at the first separator. *)
Lemma split_once_list_app sep a b :
  sep ∉ a -> split_once_list sep (a ++ sep :: b) = Some (a, b).
Proof.
  induction a as [|c a IH]; intros Ha; cbn.
  - by rewrite bool_decide_true.
  - rewrite bool_decide_false by set_solver. rewrite IH by set_solver. done.
Qed.

Lemma split_once_app sep a b :
  sep ∉ to_list a -> split_once sep (a +:+ String sep b) = Some (a, b).
Proof.
  intros Ha. unfold split_once. rewrite to_list_app.
  change (to_list (String sep b)) with (sep :: to_list b).
  rewrite split_once_list_app by done. cbn. by rewrite !of_to_list.
Qed.

Lemma split_once_Some sep s a b :
  split_once sep s = Some (a, b) -> s = a +:+ String sep b /\ sep ∉ to_list a.
Proof.
  unfold split_once. destruct (split_once_list sep (to_list s)) as [[la lb]|] eqn:Hs; [|done].
  cbn. intros [= <- <-].
  assert (to_list s = la ++ sep :: lb /\ sep ∉ la) as [Heq Hn].
  { revert la lb Hs. generalize (to_list s). clear. intros l.
    induction l as [|c l IH]; intros la lb; [done|]. cbn.
    case_bool_decide as Hc; [intros [= <- <-]; subst; split; [done|set_solver]|].
    destruct (split_once_list sep l) as [[a b]|]; [|done]. cbn. intros [= <- <-].
    destruct (IH a b eq_refl) as [-> ?]. set_solver. }
  rewrite to_of_list. split; [|done].
  rewrite <- (of_to_list s), Heq. rewrite <- (of_to_list (_ +:+ _)), to_list_app. f_equal.
  change (to_list (String sep (of_list lb))) with (sep :: to_list (of_list lb)).
  by rewrite !to_of_list.
Qed.

End Str.

(** ** [core::net] *)

Module Net.

(** Four octets, most significant first. *)
Record Ipv4Addr := mkIpv4 { v4_a : byte; v4_b : byte; v4_c : byte; v4_d : byte }.

(** Sixteen octets, held as four groups of four. *)
Record Ipv6Addr := mkIpv6 {
  v6_q0 : Ipv4Addr; v6_q1 : Ipv4Addr; v6_q2 : Ipv4Addr; v6_q3 : Ipv4Addr }.

Inductive IpAddr :=
  | IpV4 (ip : Ipv4Addr)
  | IpV6 (ip : Ipv6Addr).

Record SocketAddrV4 := mkSockV4 { sv4_ip : Ipv4Addr; sv4_port : Z }.
Record SocketAddrV6 := mkSockV6 {
  sv6_ip : Ipv6Addr; sv6_port : Z; sv6_flowinfo : Z; sv6_scope_id : Z }.

Inductive SocketAddr :=
  | V4 (a : SocketAddrV4)
  | V6 (a : SocketAddrV6).

#[global] Instance Ipv4Addr_eq_dec : EqDecision Ipv4Addr.
Proof. solve_decision. Defined.
#[global] Instance Ipv6Addr_eq_dec : EqDecision Ipv6Addr.
Proof. solve_decision. Defined.
#[global] Instance IpAddr_eq_dec : EqDecision IpAddr.
Proof. solve_decision. Defined.
#[global] Instance SocketAddrV4_eq_dec : EqDecision SocketAddrV4.
Proof. solve_decision. Defined.
#[global] Instance SocketAddrV6_eq_dec : EqDecision SocketAddrV6.
Proof. solve_decision. Defined.
#[global] Instance SocketAddr_eq_dec : EqDecision SocketAddr.
Proof. solve_decision. Defined.

#[global] Instance Ipv4Addr_countable : Countable Ipv4Addr.
Proof.
  refine (inj_countable' (fun a => (v4_a a, v4_b a, v4_c a, v4_d a))
            (fun '(a, b, c, d) => mkIpv4 a b c d) _). by intros [].
Defined.
#[global] Instance Ipv6Addr_countable : Countable Ipv6Addr.
Proof.
  refine (inj_countable' (fun a => (v6_q0 a, v6_q1 a, v6_q2 a, v6_q3 a))
            (fun '(a, b, c, d) => mkIpv6 a b c d) _). by intros [].
Defined.
#[global] Instance IpAddr_countable : Countable IpAddr.
Proof.
  refine (inj_countable' (fun i => match i with IpV4 a => inl a | IpV6 a => inr a end)
            (fun i => match i with inl a => IpV4 a | inr a => IpV6 a end) _). by intros [].
Defined.
#[global] Instance SocketAddr_countable : Countable SocketAddr.
Proof.
  refine (inj_countable'
    (fun s => match s with
              | V4 (mkSockV4 i p) => inl (i, p)
              | V6 (mkSockV6 i p f d) => inr (i, p, f, d)
              end)
    (fun s => match s with
              | inl (i, p) => V4 (mkSockV4 i p)
              | inr (i, p, f, d) => V6 (mkSockV6 i p f d)
              end) _). by intros [[]|[]].
Defined.

Definition v4_octets (a : Ipv4Addr) : list byte := [v4_a a; v4_b a; v4_c a; v4_d a].
Definition v6_octets (a : Ipv6Addr) : list byte :=
  v4_octets (v6_q0 a) ++ v4_octets (v6_q1 a) ++ v4_octets (v6_q2 a) ++ v4_octets (v6_q3 a).

Definition v4_of_octets (l : list byte) : option Ipv4Addr :=
  match l with [a; b; c; d] => Some (mkIpv4 a b c d) | _ => None end.
Definition v6_of_octets (l : list byte) : option Ipv6Addr :=
  match l with
  | [a0;a1;a2;a3; b0;b1;b2;b3; c0;c1;c2;c3; d0;d1;d2;d3] =>
      Some (mkIpv6 (mkIpv4 a0 a1 a2 a3) (mkIpv4 b0 b1 b2 b3)
                   (mkIpv4 c0 c1 c2 c3) (mkIpv4 d0 d1 d2 d3))
  | _ => None
  end.

Lemma v4_of_octets_octets a : v4_of_octets (v4_octets a) = Some a.
Proof. by destruct a. Qed.
Lemma v6_of_octets_octets a : v6_of_octets (v6_octets a) = Some a.
Proof. by destruct a as [[] [] [] []]. Qed.
Lemma v4_octets_length a : length (v4_octets a) = 4%nat.
Proof. done. Qed.
Lemma v6_octets_length a : length (v6_octets a) = 16%nat.
Proof. done. Qed.

(** [u32::from(ip)] and [u128::from(ip)]. *)
Definition v4_to_bits (a : Ipv4Addr) : Z := from_be (v4_octets a).
Definition v6_to_bits (a : Ipv6Addr) : Z := from_be (v6_octets a).

Definition v4_new (a b c d : Z) : Ipv4Addr :=
  mkIpv4 (byte_of_Z a) (byte_of_Z b) (byte_of_Z c) (byte_of_Z d).
Definition V4_UNSPECIFIED : Ipv4Addr := v4_new 0 0 0 0.
Definition V6_UNSPECIFIED : Ipv6Addr :=
  mkIpv6 V4_UNSPECIFIED V4_UNSPECIFIED V4_UNSPECIFIED V4_UNSPECIFIED.
Definition V6_LOCALHOST : Ipv6Addr :=
  mkIpv6 V4_UNSPECIFIED V4_UNSPECIFIED V4_UNSPECIFIED (v4_new 0 0 0 1).

Definition is_unspecified (ip : IpAddr) : bool :=
  match ip with
  | IpV4 a => bool_decide (a = V4_UNSPECIFIED)
  | IpV6 a => bool_decide (a = V6_UNSPECIFIED)
  end.
(** 127.0.0.0/8, and [::1]. *)
Definition is_loopback (ip : IpAddr) : bool :=
  match ip with
  | IpV4 a => byte_to_Z (v4_a a) =? 127
  | IpV6 a => bool_decide (a = V6_LOCALHOST)
  end.

(** [::ffff:a.b.c.d]. *)
Definition to_ipv6_mapped (a : Ipv4Addr) : Ipv6Addr :=
  mkIpv6 V4_UNSPECIFIED V4_UNSPECIFIED (v4_new 0 0 255 255) a.
Definition to_ipv4_mapped (a : Ipv6Addr) : option Ipv4Addr :=
  if bool_decide (v6_q0 a = V4_UNSPECIFIED /\ v6_q1 a = V4_UNSPECIFIED
                  /\ v6_q2 a = v4_new 0 0 255 255)
  then Some (v6_q3 a) else None.

Definition ip (s : SocketAddr) : IpAddr :=
  match s with V4 a => IpV4 (sv4_ip a) | V6 a => IpV6 (sv6_ip a) end.
Definition port (s : SocketAddr) : Z :=
  match s with V4 a => sv4_port a | V6 a => sv6_port a end.

(** [SocketAddr::new]: IPv6 flow info and scope id are zero. *)
Definition SocketAddr_new (i : IpAddr) (p : Z) : SocketAddr :=
  match i with
  | IpV4 a => V4 (mkSockV4 a p)
  | IpV6 a => V6 (mkSockV6 a p 0 0)
  end.
(** [SocketAddr::set_ip] keeps the port, and flow info and scope only within
    the IPv6 family. *)
Definition set_ip (s : SocketAddr) (i : IpAddr) : SocketAddr :=
  match s, i with
  | V6 a, IpV6 b => V6 (mkSockV6 b (sv6_port a) (sv6_flowinfo a) (sv6_scope_id a))
  | _, _ => SocketAddr_new i (port s)
  end.

Lemma ip_SocketAddr_new i p : ip (SocketAddr_new i p) = i.
Proof. by destruct i. Qed.
Lemma port_SocketAddr_new i p : port (SocketAddr_new i p) = p.
Proof. by destruct i. Qed.
Lemma to_ipv4_mapped_mapped a : to_ipv4_mapped (to_ipv6_mapped a) = Some a.
Proof. unfold to_ipv4_mapped. by rewrite bool_decide_true. Qed.

(** *** [core::net::parser]

    Each reader takes the remaining input and returns the value with what is
    left, or [None] with nothing consumed ([read_atomically]). *)

Definition reader A := list ascii -> option (A * list ascii).

Definition read_given_char (c : ascii) : reader unit := fun l =>
  match l with d :: l' => if bool_decide (c = d) then Some (tt, l') else None | [] => None end.

(** The longest run of digits; [max_digits] bounds it where given, and the
    unbounded form checks [u32] arithmetic. *)
Fixpoint read_digits (radix : Z) (max_digits : option nat) (result : Z) (count : nat)
    (l : list ascii) : option (Z * nat * list ascii) :=
  match l with
  | [] => Some (result, count, l)
  | c :: l' =>
      match Str.to_digit radix c with
      | None => Some (result, count, l)
      | Some d =>
          let result' := result * radix + d in
          match max_digits with
          | Some m => if (m <? S count)%nat then None
                      else read_digits radix max_digits result' (S count) l'
          | None => if result' <? 2 ^ 32
                    then read_digits radix max_digits result' (S count) l' else None
          end
      end
  end.

Definition read_number (w radix : Z) (max_digits : option nat) (allow_zero_prefix : bool) :
    reader Z := fun l =>
  let leading_zero := match l with c :: _ => bool_decide (c = "0"%char) | [] => false end in
  '(r, n, l') ← read_digits radix max_digits 0 0 l;
  if (n =? 0)%nat then None
  else if negb allow_zero_prefix && leading_zero && (1 <? n)%nat then None
  else if r <? 2 ^ w then Some (r, l') else None.

(** [read_separator(sep, index, inner)]. *)
Definition read_separator {A} (sep : ascii) (index : nat) (inner : reader A) : reader A := fun l =>
  if (0 <? index)%nat then '(_, l') ← read_given_char sep l; inner l' else inner l.

Definition read_ipv4_addr : reader Ipv4Addr := fun l =>
  let octet i := read_separator "."%char i (read_number 8 10 (Some 3%nat) false) in
  '(a, l) ← octet 0%nat l; '(b, l) ← octet 1%nat l;
  '(c, l) ← octet 2%nat l; '(d, l) ← octet 3%nat l;
  Some (v4_new a b c d, l).

(** [read_groups]: up to [limit] sixteen-bit groups, an embedded IPv4 address
    counting for two and ending the run.  Returns the groups, whether they end
    in IPv4, and the rest. *)
Fixpoint read_groups (todo i : nat) (l : list ascii) : list Z * bool * list ascii :=
  match todo with
  | O => ([], false, l)
  | S todo' =>
      let embedded := if (0 <? todo')%nat
                      then read_separator ":"%char i read_ipv4_addr l else None in
      match embedded with
      | Some (a, l') =>
          ([from_be [v4_a a; v4_b a]; from_be [v4_c a; v4_d a]], true, l')
      | None =>
          match read_separator ":"%char i (read_number 16 16 (Some 4%nat) true) l with
          | Some (g, l') => let '(gs, b, l'') := read_groups todo' (S i) l' in (g :: gs, b, l'')
          | None => ([], false, l)
          end
      end
  end.

Definition v6_of_groups (gs : list Z) : option Ipv6Addr :=
  v6_of_octets (gs ≫= to_be 2).

Definition read_ipv6_addr : reader Ipv6Addr := fun l =>
  let '(head, head_ipv4, l) := read_groups 8 0 l in
  if (length head =? 8)%nat then a ← v6_of_groups head; Some (a, l)
  else if (head_ipv4 : bool) then None
  else
    '(_, l) ← read_given_char ":"%char l;
    '(_, l) ← read_given_char ":"%char l;
    let '(tail, _, l) := read_groups (8 - (length head + 1)) 0 l in
    a ← v6_of_groups (head ++ replicate (8 - length head - length tail) 0 ++ tail);
    Some (a, l).

Definition read_port : reader Z := fun l =>
  '(_, l) ← read_given_char ":"%char l; read_number 16 10 None true l.
Definition read_scope_id : reader Z := fun l =>
  '(_, l) ← read_given_char "%"%char l; read_number 32 10 None true l.

Definition read_socket_addr_v4 : reader SocketAddr := fun l =>
  '(a, l) ← read_ipv4_addr l; '(p, l) ← read_port l; Some (V4 (mkSockV4 a p), l).
Definition read_socket_addr_v6 : reader SocketAddr := fun l =>
  '(_, l) ← read_given_char "["%char l;
  '(a, l) ← read_ipv6_addr l;
  let '(scope, l) := match read_scope_id l with Some (s, l') => (s, l') | None => (0, l) end in
  '(_, l) ← read_given_char "]"%char l;
  '(p, l) ← read_port l;
  Some (V6 (mkSockV6 a p 0 scope), l).
Definition read_socket_addr : reader SocketAddr := fun l =>
  match read_socket_addr_v4 l with Some r => Some r | None => read_socket_addr_v6 l end.
Definition read_ip_addr : reader IpAddr := fun l =>
  match read_ipv4_addr l with
  | Some (a, l') => Some (IpV4 a, l')
  | None => '(a, l') ← read_ipv6_addr l; Some (IpV6 a, l')
  end.

(** [parse_with]: the whole input must be consumed. *)
Definition parse_with {A} (r : reader A) (s : string) : option A :=
  '(a, l) ← r (Str.to_list s);
  match l with [] => Some a | _ => None end.

Definition parse_ipv4 (s : string) : option Ipv4Addr :=
  if (15 <? String.length s)%nat then None else parse_with read_ipv4_addr s.
Definition parse_ipv6 (s : string) : option Ipv6Addr := parse_with read_ipv6_addr s.
Definition parse_ip (s : string) : option IpAddr := parse_with read_ip_addr s.
Definition parse_socket_addr (s : string) : option SocketAddr := parse_with read_socket_addr s.

Example parse_examples :
  parse_socket_addr "192.168.1.10:8080" = Some (V4 (mkSockV4 (v4_new 192 168 1 10) 8080))
  /\ parse_socket_addr "[::1]:443" = Some (V6 (mkSockV6 V6_LOCALHOST 443 0 0))
  /\ parse_ip "::ffff:10.0.0.1" = Some (IpV6 (to_ipv6_mapped (v4_new 10 0 0 1)))
  /\ parse_ipv4 "010.0.0.1" = None
  /\ parse_socket_addr "1.2.3.4:65536" = None
  /\ parse_ip "1:2:3:4:5:6:7::" <> None /\ parse_ip "1::2::3" = None.
Proof. by vm_compute. Qed.

(** [Display] of an IPv4 address. *)
Definition show_ipv4 (a : Ipv4Addr) : string :=
  Str.show_uint (byte_to_Z (v4_a a)) +:+ "." +:+ Str.show_uint (byte_to_Z (v4_b a)) +:+ "."
  +:+ Str.show_uint (byte_to_Z (v4_c a)) +:+ "." +:+ Str.show_uint (byte_to_Z (v4_d a)).

End Net.

(** ** [core::time] *)

Module Time.

(** Nanoseconds. *)
Definition NANOS_PER_SEC : Z := 1000000000.
Definition from_secs (s : Z) : Z := s * NANOS_PER_SEC.
Definition from_millis (ms : Z) : Z := ms * 1000000.
Definition as_secs (d : Z) : Z := d / NANOS_PER_SEC.
Definition as_millis (d : Z) : Z := d / 1000000.

End Time.

(** ** [BTreeMap] with integer keys, as its entries in key order *)

Module BTree.

Fixpoint insert {V} (k : Z) (v : V) (m : list (Z * V)) : list (Z * V) :=
  match m with
  | [] => [(k, v)]
  | (k', v') :: m' =>
      if k <? k' then (k, v) :: m
      else if k =? k' then (k, v) :: m'
      else (k', v') :: insert k v m'
  end.

Fixpoint get {V} (k : Z) (m : list (Z * V)) : option V :=
  match m with
  | [] => None
  | (k', v) :: m' => if k =? k' then Some v else get k m'
  end.

Fixpoint remove {V} (k : Z) (m : list (Z * V)) : list (Z * V) :=
  match m with
  | [] => []
  | (k', v) :: m' => if k =? k' then m' else (k', v) :: remove k m'
  end.

Definition sorted {V} (m : list (Z * V)) : Prop := StronglySorted Z.lt m.*1.

Lemma insert_last {V} k (v : V) m :
  Forall (fun x => x < k) m.*1 -> insert k v m = m ++ [(k, v)].
Proof.
  induction m as [|[k' v'] m IH]; [done|]. cbn. intros [Hk Hm]%Forall_cons_iff.
  rewrite (proj2 (Z.ltb_ge _ _)) by lia. rewrite (proj2 (Z.eqb_neq _ _)) by lia. by rewrite IH.
Qed.

Lemma get_None {V} k (m : list (Z * V)) : get k m = None <-> k ∉ m.*1.
Proof.
  induction m as [|[k' v'] m IH]; cbn; [set_solver|].
  rewrite elem_of_cons. destruct (Z.eqb_spec k k') as [->|Hne]; [naive_solver|].
  rewrite IH. naive_solver.
Qed.

Lemma get_split {V} k (v : V) m :
  get k m = Some v ->
  exists m1 m2, m = m1 ++ (k, v) :: m2 /\ remove k m = m1 ++ m2 /\ k ∉ m1.*1.
Proof.
  induction m as [|[k' v'] m IH]; cbn; [done|]. destruct (Z.eqb_spec k k') as [->|Hne].
  - intros [= ->]. exists [], m. set_solver.
  - intros (m1 & m2 & -> & -> & Hk)%IH. exists ((k', v') :: m1), m2. set_solver.
Qed.

Lemma remove_None {V} k (m : list (Z * V)) : get k m = None -> remove k m = m.
Proof.
  induction m as [|[k' v'] m IH]; cbn; [done|]. destruct (Z.eqb_spec k k'); [done|].
  intros Hg. by rewrite IH.
Qed.

Lemma remove_sublist {V} k (m : list (Z * V)) : remove k m `sublist_of` m.
Proof.
  induction m as [|[k' v'] m IH]; cbn; [done|]. destruct (k =? k').
  - by apply sublist_cons.
  - by apply sublist_skip.
Qed.

Lemma sublist_sorted {A} (R : A -> A -> Prop) (l1 l2 : list A) :
  l1 `sublist_of` l2 -> StronglySorted R l2 -> StronglySorted R l1.
Proof.
  induction 1 as [|x l1 l2 Hs IH|x l1 l2 Hs IH]; intros Hl; [constructor|..];
    apply StronglySorted_inv in Hl as [Hl Hx]; [|by apply IH].
  constructor; [by apply IH|]. rewrite Forall_forall in Hx |- *. intros y Hy.
  apply Hx. by eapply elem_of_submseteq; [|apply sublist_submseteq].
Qed.

End BTree.

(** ** [core::str::from_utf8] *)

Module Utf8.

Definition between (lo hi : Z) (b : byte) : bool := (lo <=? byte_to_Z b) && (byte_to_Z b <=? hi).
Definition cont : byte -> bool := between 0x80 0xBF.

(** The well-formed sequences of one to four bytes. *)
Fixpoint valid (l : list byte) : bool :=
  match l with
  | [] => true
  | b :: r =>
      if between 0 0x7F b then valid r
      else
        match r with
        | [] => false
        | c :: r2 =>
            if between 0xC2 0xDF b then cont c && valid r2
            else
              match r2 with
              | [] => false
              | d :: r3 =>
                  if between 0xE0 0xE0 b then between 0xA0 0xBF c && cont d && valid r3
                  else if between 0xE1 0xEC b || between 0xEE 0xEF b then cont c && cont d && valid r3
                  else if between 0xED 0xED b then between 0x80 0x9F c && cont d && valid r3
                  else
                    match r3 with
                    | [] => false
                    | e :: r4 =>
                        if between 0xF0 0xF0 b then between 0x90 0xBF c && cont d && cont e && valid r4
                        else if between 0xF1 0xF3 b then cont c && cont d && cont e && valid r4
                        else if between 0xF4 0xF4 b then between 0x80 0x8F c && cont d && cont e && valid r4
                        else false
                    end
              end
        end
  end.

Definition from_utf8 (l : list byte) : option string := if valid l then Some (Str.of_bytes l) else None.

Lemma valid_ascii l : Forall (fun b => byte_to_Z b < 128) l -> valid l = true.
Proof.
  induction 1 as [|b l Hb _ IH]; [done|]. cbn. unfold between at 1.
  pose proof (byte_to_Z_range b). rewrite (proj2 (Z.leb_le 0 _)), (proj2 (Z.leb_le _ 127)) by lia. done.
Qed.

End Utf8.
