(* ===== verification/Float.v ===== *)
(** * [f64] arithmetic

    IEEE 754 binary64, with the rounding of every operation: the standard
    library's executable specification at 53 bits of precision. *)

From S2P Require Import Prelude RustStd.
From Stdlib Require Import Floats.SpecFloat.

Module F64.

Definition prec : Z := 53.
Definition emax : Z := 1024.

(** [as f64] of an integer. *)
Definition of_Z (z : Z) : spec_float := binary_normalize prec emax z 0 false.

Definition add : spec_float -> spec_float -> spec_float := SFadd prec emax.
Definition sub : spec_float -> spec_float -> spec_float := SFsub prec emax.
Definition mul : spec_float -> spec_float -> spec_float := SFmul prec emax.
Definition div : spec_float -> spec_float -> spec_float := SFdiv prec emax.
Definition lt : spec_float -> spec_float -> bool := SFltb.

(** [f64::min] and [f64::max] of numbers. *)
Definition min (a b : spec_float) : spec_float := if lt b a then b else a.
Definition max (a b : spec_float) : spec_float := if lt a b then b else a.

(** [as u64]: towards zero, saturating. *)
Definition to_u64 (x : spec_float) : Z :=
  match x with
  | S754_finite false m e => Z.min u64_max (if 0 <=? e then Z.pos m * 2 ^ e else Z.pos m / 2 ^ (- e))
  | S754_infinity false => u64_max
  | _ => 0
  end.

(** [Duration::as_secs_f64]. *)
Definition as_secs (d : Z) : spec_float :=
  add (of_Z (d / Time.NANOS_PER_SEC)) (div (of_Z (d mod Time.NANOS_PER_SEC)) (of_Z Time.NANOS_PER_SEC)).

(** [0.001] and [0.005], as the compiler rounds them. *)
Definition MILLI : spec_float := div (of_Z 1) (of_Z 1000).
Definition FIVE_MILLI : spec_float := div (of_Z 5) (of_Z 1000).

End F64.
