(* ===== verification/FloatProps.v ===== *)
(** * Rounding of [f64]

    What the executable specification of [Float.v] computes, in integers: the
    result of rounding a positive rational is a normal number within half a
    unit in the last place of it, for conversion, division and subtraction;
    and so the loss threshold of the canary, which the code evaluates in
    floating point, is decided exactly. *)

From S2P Require Import Prelude RustStd Float.
From Stdlib Require Import Floats.SpecFloat ZifyBool.

(** ** Digits *)

Lemma digits2_pos_bounds p : 2 ^ (Z.pos (digits2_pos p) - 1) <= Z.pos p < 2 ^ Z.pos (digits2_pos p).
Proof.
  induction p as [p IH|p IH|]; cbn [digits2_pos]; [| |done]; rewrite Pos2Z.inj_succ;
    replace (Z.succ (Z.pos (digits2_pos p)) - 1) with (Z.succ (Z.pos (digits2_pos p) - 1)) by lia;
    rewrite !Z.pow_succ_r by lia; lia.
Qed.

Lemma digits_unique m d : 2 ^ d <= m < 2 ^ (d + 1) -> 0 <= d -> Zdigits2 m = d + 1.
Proof.
  intros Hm Hd. pose proof (Z.pow_pos_nonneg 2 d ltac:(lia) Hd). destruct m as [|p|p]; [lia| |lia]. cbn [Zdigits2].
  pose proof (digits2_pos_bounds p) as [H1 H2]. set (n := Z.pos (digits2_pos p)) in *.
  assert (n - 1 < d + 1) by (apply (Z.pow_lt_mono_r_iff 2); lia).
  assert (d < n) by (apply (Z.pow_lt_mono_r_iff 2); lia). lia.
Qed.

Lemma digits_of m : 0 < m -> 2 ^ (Zdigits2 m - 1) <= m < 2 ^ Zdigits2 m.
Proof. destruct m as [|p|p]; [lia| |lia]. intros _. apply digits2_pos_bounds. Qed.

(** ** Records of a shift *)

(** The record stands for [N / D]: its mantissa is the integral part, and its
    two bits place the rest with respect to one half. *)
Definition stands (mrs : shr_record) (N D : Z) : Prop :=
  let f := N - shr_m mrs * D in
  0 <= f < D /\ shr_r mrs = (D <=? 2 * f) /\ shr_s mrs = negb ((f =? 0) || (2 * f =? D)).

Lemma stands_shr_1 mrs N D : 0 <= shr_m mrs -> stands mrs N D -> stands (shr_1 mrs) N (2 * D) /\ 0 <= shr_m (shr_1 mrs).
Proof.
  destruct mrs as [m r s]. unfold stands. cbn [shr_m shr_r shr_s]. intros Hm (Hf & -> & ->).
  set (f := N - m * D) in *.
  assert (exists m' b, m = 2 * m' + Z.b2z b /\ 0 <= m' /\
    shr_1 {| shr_m := m; shr_r := D <=? 2 * f; shr_s := negb ((f =? 0) || (2 * f =? D)) |}
    = {| shr_m := m'; shr_r := b; shr_s := (D <=? 2 * f) || negb ((f =? 0) || (2 * f =? D)) |}) as (m' & b & -> & Hm' & ->).
  { destruct m as [|[p|p|]|p]; [exists 0, false|exists (Z.pos p), true|exists (Z.pos p), false|exists 0, true|lia];
      cbn [Z.b2z shr_1]; split_and!; try done; lia. }
  cbn [shr_m shr_r shr_s]. split; [|done]. destruct b; cbn [Z.b2z] in *; unfold f in *; split_and!; lia.
Qed.

Lemma stands_iter p : forall mrs N D, 0 <= shr_m mrs -> stands mrs N D ->
  stands (iter_pos shr_1 p mrs) N (2 ^ Z.pos p * D) /\ 0 <= shr_m (iter_pos shr_1 p mrs).
Proof.
  induction p as [p IH|p IH|]; intros mrs N D Hm Hs; cbn [iter_pos].
  - destruct (stands_shr_1 mrs N D Hm Hs) as [H1 Hm1]. destruct (IH _ _ _ Hm1 H1) as [H2 Hm2].
    destruct (IH _ _ _ Hm2 H2) as [H3 Hm3]. split; [|done].
    replace (2 ^ Z.pos p~1 * D) with (2 ^ Z.pos p * (2 ^ Z.pos p * (2 * D))); [done|].
    replace (Z.pos p~1) with (Z.pos p + Z.pos p + 1) by lia. rewrite !Z.pow_add_r by lia. lia.
  - destruct (IH _ _ _ Hm Hs) as [H2 Hm2]. destruct (IH _ _ _ Hm2 H2) as [H3 Hm3]. split; [|done].
    replace (2 ^ Z.pos p~0 * D) with (2 ^ Z.pos p * (2 ^ Z.pos p * D)); [done|].
    replace (Z.pos p~0) with (Z.pos p + Z.pos p) by lia. rewrite !Z.pow_add_r by lia. lia.
  - by apply stands_shr_1.
Qed.

Lemma stands_shr mrs N D e n : 0 <= shr_m mrs -> 0 <= n -> stands mrs N D ->
  exists mrs', shr mrs e n = (mrs', e + n) /\ stands mrs' N (2 ^ n * D).
Proof.
  intros Hm Hn Hs. destruct n as [|p|p]; [| |lia]; cbn [shr].
  - exists mrs. by rewrite Z.add_0_r, Z.pow_0_r, Z.mul_1_l.
  - eexists. split; [done|]. by apply stands_iter.
Qed.

(** Rounding to nearest even is within one half. *)
Lemma round_half mrs N D : stands mrs N D ->
  let m := round_nearest_even (shr_m mrs) (loc_of_shr_record mrs) in
  2 * Z.abs (m * D - N) <= D /\ shr_m mrs <= m <= shr_m mrs + 1.
Proof.
  destruct mrs as [m r s]. unfold stands. cbn [shr_m shr_r shr_s]. intros (Hf & Hr & Hs).
  destruct r, s; cbn [loc_of_shr_record round_nearest_even]; try case_match; lia.
Qed.

(** ** Rounding *)

(** A normal number of 53 bits. *)
Definition normal (m : Z) : Prop := 2 ^ 52 <= m < 2 ^ 53.

Lemma normal_digits m : normal m -> Zdigits2 m = 53.
Proof. intros Hm. by apply (digits_unique m 52). Qed.

Lemma fexp_normal k : -1000 <= k -> fexp F64.prec F64.emax k = k - 53.
Proof. unfold fexp, emin, F64.prec, F64.emax. lia. Qed.

(** No shift of a mantissa that is normal. *)
Lemma shr_fexp_normal m e l : normal m -> -1000 <= e ->
  shr_fexp F64.prec F64.emax m e l = (shr_record_of_loc m l, e).
Proof.
  intros Hm He. unfold shr_fexp. rewrite (normal_digits m Hm), fexp_normal by lia.
  by replace (53 + e - 53 - e) with 0 by lia.
Qed.

Definition finish (sx : bool) (me : shr_record * Z) : spec_float :=
  match shr_m (fst me) with
  | Z0 => S754_zero sx
  | Zpos m => if snd me <=? F64.emax - F64.prec then S754_finite sx m (snd me) else S754_infinity sx
  | _ => S754_nan
  end.

Lemma finish_normal r s m e : normal m -> e <= 900 ->
  exists p, Z.pos p = m /\ finish false ({| shr_m := m; shr_r := r; shr_s := s |}, e) = S754_finite false p e.
Proof.
  unfold normal. intros Hm He. destruct m as [|p|p]; [lia| |lia]. exists p. split; [done|]. cbn.
  destruct (Z.leb_spec e (F64.emax - F64.prec)) as [|H]; [done|]. unfold F64.emax, F64.prec in H. lia.
Qed.

(** [x] is a normal number within half a unit of [N / D * 2 ^ e]. *)
Definition rounded (N D e : Z) (x : spec_float) : Prop :=
  exists p E, x = S754_finite false p E /\ normal (Z.pos p) /\ -400 <= E <= 400 /\
    2 * Z.abs (Z.pos p * 2 ^ (E + 400) * D - N * 2 ^ (e + 400)) <= 2 ^ (E + 400) * D.

(** The second normalisation, after a carry. *)
Lemma renormalise m e : 2 ^ 52 <= m <= 2 ^ 53 -> -400 <= e < 400 ->
  exists p E, finish false (shr_fexp F64.prec F64.emax m e loc_Exact) = S754_finite false p E /\ normal (Z.pos p) /\
    Z.pos p * 2 ^ (E + 400) = m * 2 ^ (e + 400) /\ e <= E <= e + 1.
Proof.
  intros Hm He. destruct (decide (m = 2 ^ 53)) as [->|Hne].
  - exists (2 ^ 52)%positive, (e + 1). split_and!; [|by split| |lia|lia].
    + unfold shr_fexp. rewrite (digits_unique (2 ^ 53) 53), fexp_normal by lia.
      replace (53 + 1 + e - 53 - e) with 1 by lia. cbn [shr shr_record_of_loc iter_pos]. unfold finish. cbn [fst snd].
      change (shr_m (shr_1 {| shr_m := 2 ^ 53; shr_r := false; shr_s := false |})) with (Z.pos (2 ^ 52)). cbv iota.
      destruct (Z.leb_spec (e + 1) (F64.emax - F64.prec)) as [|H]; [done|]. unfold F64.emax, F64.prec in H. lia.
    + replace (e + 1 + 400) with (Z.succ (e + 400)) by lia. rewrite Z.pow_succ_r by lia. lia.
  - assert (normal m) as Hn by (unfold normal; lia). rewrite shr_fexp_normal by (done || lia). cbn [shr_record_of_loc].
    destruct (finish_normal false false m e Hn ltac:(lia)) as (p & Hp & ->). exists p, e. rewrite Hp. split_and!; (done || lia).
Qed.

Lemma round_aux_rounded m e l N D :
  stands (shr_record_of_loc m l) N D -> 2 ^ 52 <= m -> Zdigits2 m <= 200 -> -200 <= e <= 0 ->
  rounded N D e (binary_round_aux F64.prec F64.emax false m e l).
Proof.
  intros Hs Hm Hd He. pose proof (digits_of m ltac:(lia)) as Hdig. set (d := Zdigits2 m) in *.
  assert (0 <= d) by (unfold d; by destruct m).
  assert (53 <= d) as Hd53. { assert (52 < d); [|lia]. apply (Z.pow_lt_mono_r_iff 2); lia. }
  assert (shr_m (shr_record_of_loc m l) = m) as Hrm by (by destruct l as [|[]]).
  destruct (stands_shr _ N D e (d - 53) ltac:(rewrite Hrm; lia) ltac:(lia) Hs) as (mrs & Hshr & Hs').
  unfold binary_round_aux. unfold shr_fexp at 1. fold d. rewrite fexp_normal by lia.
  replace (d + e - 53 - e) with (d - 53) by lia. rewrite Hshr. set (K := 2 ^ (d - 53)) in *.
  assert (0 < K) as HK by (apply Z.pow_pos_nonneg; lia).
  assert (0 < D) as HD by (unfold stands in Hs; lia).
  destruct (round_half _ _ _ Hs') as [Hhalf Hbetween]. set (m'' := round_nearest_even _ _) in *.
  assert (2 ^ 52 <= shr_m mrs < 2 ^ 53) as Hm'.
  { unfold stands in Hs, Hs'. rewrite Hrm in Hs. destruct Hs as [Hs _], Hs' as [Hs' _].
    assert (2 ^ (d - 1) = 2 ^ 52 * K) as E1 by (unfold K; rewrite <- Z.pow_add_r by lia; f_equal; lia).
    assert (2 ^ d = 2 ^ 53 * K) as E2 by (unfold K; rewrite <- Z.pow_add_r by lia; f_equal; lia).
    rewrite E1, E2 in Hdig. clear Hbetween Hhalf. set (m' := shr_m mrs) in *. clearbody m'. split; nia. }
  destruct (renormalise m'' (e + (d - 53)) ltac:(lia) ltac:(lia)) as (p & E & Hfin & Hp & Heq & HE).
  exists p, E. split; [rewrite <- Hfin; unfold finish; by destruct (shr_fexp _ _ m'' _ _)|]. split; [done|]. split; [lia|].
  assert (2 ^ (e + (d - 53) + 400) = K * 2 ^ (e + 400)) as Hpow by (unfold K; rewrite <- Z.pow_add_r by lia; f_equal; lia).
  assert (K * 2 ^ (e + 400) <= 2 ^ (E + 400)) as Hle by (rewrite <- Hpow; apply Z.pow_le_mono_r; lia).
  rewrite Heq, Hpow. set (S := 2 ^ (e + 400)) in *. assert (0 < S) by (apply Z.pow_pos_nonneg; lia).
  transitivity (K * S * D); [|by apply Z.mul_le_mono_nonneg_r; [lia|]].
  replace (m'' * (K * S) * D - N * S) with ((m'' * (K * D) - N) * S) by lia. rewrite Z.abs_mul, (Z.abs_eq S) by lia. nia.
Qed.

(** ** The operations *)

Lemma iter_xO m d : Z.pos (Pos.iter xO m d) = Z.pos m * 2 ^ Z.pos d.
Proof.
  rewrite (Pos.iter_swap_gen _ _ Z.pos xO (Z.mul 2)) by done.
  change (Pos.iter (Z.mul 2) (Z.pos m) d) with (Z.shiftl (Z.pos m) (Z.pos d)). by rewrite Z.shiftl_mul_pow2.
Qed.

Lemma shl_align_spec m e e' : e' <= e -> Z.pos (fst (shl_align m e e')) = Z.pos m * 2 ^ (e - e').
Proof.
  intros He. unfold shl_align. destruct (e' - e) as [|n|n] eqn:Hd; [|lia|]; cbn [fst].
  - replace (e - e') with 0 by lia. lia.
  - rewrite iter_xO. f_equal. f_equal. lia.
Qed.

(** A mantissa of at most 53 bits is only shifted. *)
Lemma align_normal m d :
  2 ^ (d - 1) <= m < 2 ^ d -> 1 <= d <= 53 -> normal (m * 2 ^ (53 - d)).
Proof.
  intros Hm Hd. unfold normal. replace (2 ^ 52) with (2 ^ (d - 1) * 2 ^ (53 - d)) by (rewrite <- Z.pow_add_r by lia; f_equal; lia).
  replace (2 ^ 53) with (2 ^ d * 2 ^ (53 - d)) by (rewrite <- Z.pow_add_r by lia; f_equal; lia).
  pose proof (Z.pow_pos_nonneg 2 (53 - d) ltac:(lia) ltac:(lia)). nia.
Qed.

Lemma round_aux_exact m e : normal m -> -400 <= e <= 400 ->
  exists p, Z.pos p = m /\ binary_round_aux F64.prec F64.emax false m e loc_Exact = S754_finite false p e.
Proof.
  intros Hm He. destruct (finish_normal false false m e Hm ltac:(lia)) as (p & Hp & Hf). exists p. split; [done|].
  unfold binary_round_aux. rewrite shr_fexp_normal by (done || lia). cbn [shr_record_of_loc shr_m loc_of_shr_record round_nearest_even].
  rewrite shr_fexp_normal by (done || lia). exact Hf.
Qed.

Lemma normalize_align m e : 0 < m -> -200 <= e -> Zdigits2 m <= 53 ->
  exists p, binary_normalize F64.prec F64.emax m e false = binary_round_aux F64.prec F64.emax false (Z.pos p) (e + Zdigits2 m - 53) loc_Exact
    /\ Z.pos p = m * 2 ^ (53 - Zdigits2 m) /\ normal (Z.pos p) /\ 1 <= Zdigits2 m.
Proof.
  intros Hm He Hd. pose proof (digits_of m Hm) as Hdig. destruct m as [|m|m]; [lia| |lia].
  assert (1 <= Zdigits2 (Z.pos m)) as Hd1 by (cbn; lia). set (d := Zdigits2 (Z.pos m)) in *.
  cbn [binary_normalize]. unfold binary_round. change (Z.pos (digits2_pos m)) with d. rewrite fexp_normal by lia.
  destruct (shl_align m e (d + e - 53)) as [p ez] eqn:Hs.
  pose proof (shl_align_spec m e (d + e - 53) ltac:(lia)) as Hp. rewrite Hs in Hp. cbn [fst] in Hp.
  replace (e - (d + e - 53)) with (53 - d) in Hp by lia. exists p.
  assert (ez = e + d - 53) as ->.
  { unfold shl_align in Hs. destruct (d + e - 53 - e) eqn:Hk; injection Hs as _ <-; lia. }
  split; [done|]. split; [done|]. split; [|done]. rewrite Hp. by apply align_normal.
Qed.

Lemma stands_exact m : stands (shr_record_of_loc m loc_Exact) m 1.
Proof. unfold stands. cbn. lia. Qed.

Lemma normalize_rounded m e :
  0 < m -> Zdigits2 m <= 200 -> -140 <= e <= 0 -> rounded m 1 e (binary_normalize F64.prec F64.emax m e false).
Proof.
  intros Hm Hd He. destruct (Z.le_gt_cases (Zdigits2 m) 53) as [Hs|Hl].
  - destruct (normalize_align m e Hm ltac:(lia) Hs) as (p & -> & Hp & Hn & H1).
    destruct (round_aux_exact (Z.pos p) (e + Zdigits2 m - 53) Hn ltac:(lia)) as (p' & Hp' & ->).
    exists p', (e + Zdigits2 m - 53). rewrite Hp'. split_and!; [done|done|lia|lia|].
    rewrite Hp, <- (Z.mul_assoc m), <- Z.pow_add_r by lia.
    replace (53 - Zdigits2 m + (e + Zdigits2 m - 53 + 400)) with (e + 400) by lia.
    pose proof (Z.pow_pos_nonneg 2 (e + Zdigits2 m - 53 + 400) ltac:(lia) ltac:(lia)). lia.
  - pose proof (digits_of m Hm) as [Hlow _]. destruct m as [|m|m]; [lia| |lia].
    cbn [binary_normalize]. unfold binary_round. change (Z.pos (digits2_pos m)) with (Zdigits2 (Z.pos m)). rewrite fexp_normal by lia.
    unfold shl_align. destruct (Zdigits2 (Z.pos m) + e - 53 - e) as [|k|k] eqn:Hk; [lia| |lia].
    apply round_aux_rounded; [apply stands_exact| |done|lia].
    transitivity (2 ^ (Zdigits2 (Z.pos m) - 1)); [apply Z.pow_le_mono_r; lia|done].
Qed.

(** [as f64] of an integer below 2^53 is exact. *)
Lemma of_Z_exact z : 0 < z < 2 ^ 53 ->
  exists p e, F64.of_Z z = S754_finite false p e /\ normal (Z.pos p) /\ -52 <= e <= 0 /\ Z.pos p * 2 ^ (e + 400) = z * 2 ^ 400.
Proof.
  intros Hz. pose proof (digits_of z ltac:(lia)) as [Hlow _].
  assert (Zdigits2 z <= 53) as Hd.
  { assert (Zdigits2 z - 1 < 53); [|lia]. apply (Z.pow_lt_mono_r_iff 2); lia. }
  destruct (normalize_align z 0 ltac:(lia) ltac:(lia) Hd) as (p & Heq & Hp & Hn & H1).
  destruct (round_aux_exact (Z.pos p) (0 + Zdigits2 z - 53) Hn ltac:(lia)) as (p' & Hp' & Hr).
  exists p', (0 + Zdigits2 z - 53). unfold F64.of_Z. rewrite Heq, Hr, Hp'. split_and!; [done|done|lia|lia|].
  rewrite Hp, <- Z.mul_assoc, <- Z.pow_add_r by lia. f_equal. f_equal. lia.
Qed.

(** The location of a remainder. *)
Lemma new_location_stands q D r : 0 < D -> 0 <= r < D -> stands (shr_record_of_loc q (new_location D r)) (q * D + r) D.
Proof.
  intros HD Hr. unfold new_location, new_location_even, new_location_odd.
  destruct (Z.even D) eqn:He; destruct (Z.eqb_spec r 0) as [->|Hne]; cbn [shr_record_of_loc]; try (unfold stands; cbn; lia).
  - destruct (Z.compare_spec (2 * r) D); unfold stands; cbn; lia.
  - assert (Z.odd D = true) as Hodd by (by rewrite <- Z.negb_even, He).
    apply Z.odd_spec in Hodd as [k Hk]. destruct (Z.compare_spec (2 * r + 1) D); unfold stands; cbn; lia.
Qed.

(** The quotient of two integers is the rounded quotient. *)
Lemma div_rounded r s : 0 < r < 2 ^ 53 -> 0 < s < 2 ^ 53 -> rounded r s 0 (F64.div (F64.of_Z r) (F64.of_Z s)).
Proof.
  intros Hr Hs. destruct (of_Z_exact r Hr) as (m1 & e1 & -> & Hm1 & He1 & Hr'). destruct (of_Z_exact s Hs) as (m2 & e2 & -> & Hm2 & He2 & Hs').
  unfold F64.div, SFdiv, SFdiv_core_binary. rewrite (normal_digits _ Hm1), (normal_digits _ Hm2), fexp_normal by lia.
  replace (Z.min (53 + e1 - (53 + e2) - 53) (e1 - e2)) with (e1 - e2 - 53) by lia.
  replace (e1 - e2 - (e1 - e2 - 53)) with 53 by lia. rewrite Z.shiftl_mul_pow2 by lia.
  pose proof (Z_div_mod (Z.pos m1 * 2 ^ 53) (Z.pos m2) ltac:(lia)) as Hdm.
  destruct (Z.div_eucl (Z.pos m1 * 2 ^ 53) (Z.pos m2)) as [q rem]. destruct Hdm as [Hq Hrem]. unfold normal in Hm1, Hm2.
  assert (2 ^ 52 <= q < 2 ^ 54) as Hqb by (split; nia).
  assert (Zdigits2 q <= 200) as Hqd.
  { pose proof (digits_of q ltac:(lia)) as [Hlow _]. assert (Zdigits2 q - 1 < 54); [|lia]. apply (Z.pow_lt_mono_r_iff 2); lia. }
  change (xorb false false) with false.
  pose proof (round_aux_rounded q (e1 - e2 - 53) _ _ (Z.pos m2) (new_location_stands q (Z.pos m2) rem ltac:(lia) ltac:(lia))
    ltac:(lia) Hqd ltac:(lia)) as (p & E & -> & Hp & HE & Herr).
  exists p, E. split; [done|]. split; [done|]. split; [done|]. replace (q * Z.pos m2 + rem) with (Z.pos m1 * 2 ^ 53) in Herr by lia.
  set (V := 2 ^ (E + 400)) in *. set (T := 2 ^ 400) in *. set (B := 2 ^ (e2 + 400)) in *.
  assert (2 ^ 53 * 2 ^ (e1 - e2 - 53 + 400) * B = 2 ^ (e1 + 400) * T) as HAB.
  { unfold B, T. rewrite <- !Z.pow_add_r by lia. f_equal. lia. }
  assert (0 < B) by (apply Z.pow_pos_nonneg; lia). assert (0 < T) by (apply Z.pow_pos_nonneg; lia).
  set (X := Z.pos p * V * Z.pos m2 - _) in Herr. set (Y := Z.pos p * V * s - r * 2 ^ (0 + 400)).
  assert (X * B = Y * T) as HXY.
  { unfold X, Y. change (2 ^ (0 + 400)) with T. rewrite !Z.mul_sub_distr_r. f_equal; [nia|].
    transitivity (Z.pos m1 * (2 ^ (e1 + 400) * T)); [rewrite <- HAB; lia|nia]. }
  apply (f_equal Z.abs) in HXY. rewrite !Z.abs_mul, (Z.abs_eq B), (Z.abs_eq T) in HXY by lia.
  apply (Z.mul_le_mono_pos_r _ _ T); [done|]. replace (V * s * T) with (V * Z.pos m2 * B) by nia. nia.
Qed.

Lemma lt_normal p e q f : F64.lt (S754_finite false p e) (S754_finite false q f) = (e <? f) || (e =? f) && (Z.pos p <? Z.pos q).
Proof.
  unfold F64.lt, SFltb, SFcompare. destruct (Z.compare_spec e f) as [->|He|He].
  - rewrite Z.ltb_irrefl, Z.eqb_refl. cbn. unfold Pos.compare_cont, Z.ltb. cbn. fold (Pos.compare p q). done.
  - by rewrite (proj2 (Z.ltb_lt _ _) He).
  - rewrite (proj2 (Z.ltb_ge _ _)) by lia. rewrite (proj2 (Z.eqb_neq _ _)) by lia. done.
Qed.

Definition ONE : spec_float := S754_finite false (2 ^ 52) (-52).
Lemma of_Z_1 : F64.of_Z 1 = ONE.
Proof. by vm_compute. Qed.

(** One minus a normal number below it. *)
Lemma sub_rounded p E : normal (Z.pos p) -> -140 <= E <= -53 ->
  rounded (2 ^ (- E) - Z.pos p) 1 E (F64.sub ONE (S754_finite false p E)).
Proof.
  intros Hp HE. unfold F64.sub, ONE, SFsub, cond_Zopp. rewrite Z.min_r by lia.
  rewrite shl_align_spec by lia. rewrite shl_align_spec by lia. rewrite Z.sub_diag, Z.mul_1_r.
  replace (Z.pos (2 ^ 52) * 2 ^ (-52 - E)) with (2 ^ (- E)).
  2:{ change (Z.pos (2 ^ 52)) with (2 ^ 52). rewrite <- Z.pow_add_r by lia. f_equal. lia. }
  assert (2 ^ 53 <= 2 ^ (- E)) as H53 by (apply Z.pow_le_mono_r; lia). unfold normal in Hp.
  apply normalize_rounded; [lia| |lia]. set (m := 2 ^ (- E) - Z.pos p).
  pose proof (digits_of m ltac:(lia)) as [Hlow _]. assert (Zdigits2 m - 1 < - E); [|lia]. apply (Z.pow_lt_mono_r_iff 2); lia.
Qed.

(** The error, in units of the smaller exponent. *)
Lemma rounded_below N D e p E : rounded N D e (S754_finite false p E) -> -400 <= e -> E <= e ->
  2 * Z.abs (Z.pos p * D - N * 2 ^ (e - E)) <= D.
Proof.
  intros (p' & E' & [= <- <-] & _ & HE & Herr) He Hle. set (V := 2 ^ (E + 400)) in *.
  replace (2 ^ (e + 400)) with (2 ^ (e - E) * V) in Herr by (unfold V; rewrite <- Z.pow_add_r by lia; f_equal; lia).
  assert (0 < V) as HV by (apply Z.pow_pos_nonneg; lia).
  replace (Z.pos p * V * D - N * (2 ^ (e - E) * V)) with ((Z.pos p * D - N * 2 ^ (e - E)) * V) in Herr by lia.
  rewrite Z.abs_mul, (Z.abs_eq V) in Herr by lia. nia.
Qed.

Lemma rounded_above N D e p E : rounded N D e (S754_finite false p E) -> -400 <= e -> e <= E ->
  2 * Z.abs (Z.pos p * 2 ^ (E - e) * D - N) <= 2 ^ (E - e) * D.
Proof.
  intros (p' & E' & [= <- <-] & _ & HE & Herr) He Hle. set (V := 2 ^ (e + 400)) in *.
  replace (2 ^ (E + 400)) with (2 ^ (E - e) * V) in Herr by (unfold V; rewrite <- Z.pow_add_r by lia; f_equal; lia).
  assert (0 < V) as HV by (apply Z.pow_pos_nonneg; lia). set (K := 2 ^ (E - e)) in *.
  replace (Z.pos p * (K * V) * D - N * V) with ((Z.pos p * K * D - N) * V) in Herr by lia.
  rewrite Z.abs_mul, (Z.abs_eq V) in Herr by lia. nia.
Qed.

(** ** The threshold on a loss *)

Definition FIVE : positive := 5764607523034235.
Lemma FIVE_MILLI_is : F64.FIVE_MILLI = S754_finite false FIVE (-60).
Proof. by vm_compute. Qed.

Section Threshold.
Context (r s : Z) (Hr : 0 < r < 2 ^ 53) (Hs : 1 <= s < 2 ^ 40).
Context (p : positive) (E : Z) (Hq : rounded r s 0 (S754_finite false p E)).

Lemma quotient_normal : normal (Z.pos p).
Proof. by destruct Hq as (p' & E' & [= <- <-] & Hp & _). Qed.

Lemma quotient_large : s <= r -> -52 <= E.
Proof using Type*.
  intros Hle. pose proof quotient_normal as Hp. unfold normal in Hp. destruct (Z.le_gt_cases (-52) E); [done|exfalso].
  pose proof (rounded_below _ _ _ _ _ Hq ltac:(lia) ltac:(lia)) as Herr.
  assert (2 ^ 53 <= 2 ^ (0 - E)) by (apply Z.pow_le_mono_r; lia). nia.
Qed.

Lemma quotient_small : r < s -> E <= -53.
Proof using Type*.
  intros Hlt. pose proof quotient_normal as Hp. unfold normal in Hp. destruct (Z.le_gt_cases E (-53)); [done|exfalso].
  destruct (Z.le_gt_cases E 0) as [H0|H0].
  - pose proof (rounded_below _ _ _ _ _ Hq ltac:(lia) ltac:(lia)) as Herr.
    assert (2 ^ (0 - E) <= 2 ^ 52) by (apply Z.pow_le_mono_r; lia). nia.
  - pose proof (rounded_above _ _ _ _ _ Hq ltac:(lia) ltac:(lia)) as Herr.
    pose proof (Z.pow_pos_nonneg 2 (E - 0) ltac:(lia) ltac:(lia)). nia.
Qed.

Lemma quotient_not_tiny : r < s -> -140 <= E.
Proof using Type*.
  intros Hlt. pose proof quotient_normal as Hp. unfold normal in Hp. pose proof (quotient_small Hlt).
  destruct (Z.le_gt_cases (-140) E); [done|exfalso].
  pose proof (rounded_below _ _ _ _ _ Hq ltac:(lia) ltac:(lia)) as Herr.
  assert (2 ^ 140 <= 2 ^ (0 - E)) by (apply Z.pow_le_mono_r; lia). nia.
Qed.

(** A quotient of at most 0.995 leaves more than 0.005. *)
Lemma above_threshold p2 E2 :
  200 * r <= 199 * s -> -140 <= E <= -53 -> rounded (2 ^ (- E) - Z.pos p) 1 E (S754_finite false p2 E2) ->
  F64.lt F64.FIVE_MILLI (S754_finite false p2 E2) = true.
Proof using Type*.
  intros Hrs HE Hl. rewrite FIVE_MILLI_is, lt_normal. pose proof quotient_normal as Hp.
  assert (normal (Z.pos p2)) as Hp2 by (by destruct Hl as (? & ? & [= <- <-] & ? & _)). unfold normal in Hp, Hp2.
  destruct (Z.ltb_spec (-60) E2) as [|HE2]; [done|]. cbn [orb]. pose proof (rounded_below _ _ _ _ _ Hq ltac:(lia) ltac:(lia)) as Herr.
  destruct (decide (E = -53)) as [->|Hne].
  - pose proof (rounded_below _ _ _ _ _ Hl ltac:(lia) ltac:(lia)) as Herr2. change (- -53) with 53 in Herr2. change (0 - -53) with 53 in Herr.
    assert (400 * Z.pos p <= 200 + 2 ^ 54 * 199) as Hpb by nia.
    destruct (decide (E2 = -60)) as [->|Hne2].
    + change (-53 - -60) with 7 in Herr2. apply andb_true_intro. split; [done|]. apply Z.ltb_lt. unfold FIVE. lia.
    + exfalso. assert (2 ^ 8 <= 2 ^ (-53 - E2)) by (apply Z.pow_le_mono_r; lia). nia.
  - exfalso. assert (2 ^ (- E) = 2 * 2 ^ (- E - 1)) as HW by (rewrite <- Z.pow_succ_r by lia; f_equal; lia).
    assert (2 ^ 53 <= 2 ^ (- E - 1)) as H53 by (apply Z.pow_le_mono_r; lia).
    destruct (Z.le_gt_cases E2 E) as [Hle|Hgt].
    + pose proof (rounded_below _ _ _ _ _ Hl ltac:(lia) Hle) as Herr2.
      assert (2 ^ 59 <= 2 ^ (- E - 1) * 2 ^ (E - E2)) by (rewrite <- Z.pow_add_r by lia; apply Z.pow_le_mono_r; lia). nia.
    + pose proof (rounded_above _ _ _ _ _ Hl ltac:(lia) ltac:(lia)) as Herr2.
      assert (2 ^ 59 * 2 ^ (E2 - E) <= 2 ^ (- E - 1)) by (rewrite <- Z.pow_add_r by lia; apply Z.pow_le_mono_r; lia).
      pose proof (Z.pow_pos_nonneg 2 (E2 - E) ltac:(lia) ltac:(lia)). nia.
Qed.

(** A larger one does not. *)
Lemma below_threshold p2 E2 :
  199 * s < 200 * r -> -140 <= E <= -53 -> rounded (2 ^ (- E) - Z.pos p) 1 E (S754_finite false p2 E2) ->
  F64.lt F64.FIVE_MILLI (S754_finite false p2 E2) = false.
Proof using Type*.
  intros Hrs HE Hl. rewrite FIVE_MILLI_is, lt_normal. pose proof quotient_normal as Hp.
  assert (normal (Z.pos p2)) as Hp2 by (by destruct Hl as (? & ? & [= <- <-] & ? & _)). unfold normal in Hp, Hp2.
  pose proof (rounded_below _ _ _ _ _ Hq ltac:(lia) ltac:(lia)) as Herr.
  assert (E = -53) as ->.
  { destruct (decide (E = -53)) as [|Hne]; [done|exfalso].
    assert (2 ^ 54 <= 2 ^ (0 - E)) by (apply Z.pow_le_mono_r; lia). nia. }
  change (- -53) with 53 in Hl. change (0 - -53) with 53 in Herr.
  assert (199 * 2 ^ 54 + 16200 <= 200 * (2 * Z.pos p + 1)) as Hpb by nia.
  destruct (Z.le_gt_cases E2 (-53)) as [Hle|Hgt].
  - pose proof (rounded_below _ _ _ _ _ Hl ltac:(lia) Hle) as Herr2.
    destruct (Z.ltb_spec (-60) E2) as [Hlt|Hge].
    + exfalso. assert (2 ^ (-53 - E2) <= 2 ^ 6) by (apply Z.pow_le_mono_r; lia).
      pose proof (Z.pow_pos_nonneg 2 (-53 - E2) ltac:(lia) ltac:(lia)). nia.
    + cbn [orb]. destruct (Z.eqb_spec (-60) E2) as [<-|]; [|done]. cbn [andb]. apply Z.ltb_ge.
      change (-53 - -60) with 7 in Herr2. unfold FIVE. lia.
  - exfalso. pose proof (rounded_above _ _ _ _ _ Hl ltac:(lia) ltac:(lia)) as Herr2.
    assert (2 ^ 1 <= 2 ^ (E2 - -53)) by (apply Z.pow_le_mono_r; lia). nia.
Qed.

End Threshold.

(** The loss of [received] out of [sent], as [classify] computes it. *)
Definition lost_fraction (sent received : Z) := F64.sub (F64.of_Z 1) (F64.min (F64.div (F64.of_Z received) (F64.of_Z sent)) (F64.of_Z 1)).

(** It is above [0.005] exactly when at least one in two hundred was lost. *)
Lemma loss_exact s r : 1 <= s < 2 ^ 40 -> 0 <= r < 2 ^ 53 -> F64.lt F64.FIVE_MILLI (lost_fraction s r) = (s <=? 200 * (s - r)).
Proof.
  intros Hs Hr. unfold lost_fraction. rewrite of_Z_1. destruct (decide (r = 0)) as [->|Hr0].
  { destruct (of_Z_exact s ltac:(lia)) as (m & e & -> & _). rewrite (proj2 (Z.leb_le _ _)) by lia. by vm_compute. }
  pose proof (div_rounded r s ltac:(lia) ltac:(lia)) as Hq. destruct Hq as (p & E & -> & Hp & HE & Herr).
  assert (rounded r s 0 (S754_finite false p E)) as Hq by (by exists p, E).
  unfold F64.min. rewrite (lt_normal (2 ^ 52) (-52)). destruct (Z.le_gt_cases s r) as [Hle|Hlt].
  - rewrite (proj2 (Z.leb_gt _ _)) by lia. pose proof (quotient_large r s ltac:(lia) Hs p E Hq Hle) as HEl. unfold normal in Hp.
    destruct ((-52 <? E) || (-52 =? E) && (Z.pos (2 ^ 52) <? Z.pos p)) eqn:Hc; [by vm_compute|].
    apply orb_false_elim in Hc as [Hc1 Hc2]. apply Z.ltb_ge in Hc1. assert (E = -52) as -> by lia. apply Z.ltb_ge in Hc2.
    assert (p = (2 ^ 52)%positive) as -> by lia. by vm_compute.
  - pose proof (quotient_small r s ltac:(lia) Hs p E Hq Hlt) as HEs. pose proof (quotient_not_tiny r s ltac:(lia) Hs p E Hq Hlt) as HEt.
    rewrite (proj2 (Z.ltb_ge _ _)) by lia. rewrite (proj2 (Z.eqb_neq _ _)) by lia. cbn [orb andb].
    pose proof (sub_rounded p E Hp ltac:(lia)) as Hl. destruct Hl as (p2 & E2 & Heq & Hl'). rewrite Heq.
    assert (rounded (2 ^ (- E) - Z.pos p) 1 E (S754_finite false p2 E2)) as Hl by (by exists p2, E2).
    destruct (Z.leb_spec s (200 * (s - r))).
    + apply (above_threshold r s ltac:(lia) Hs p E Hq); [lia|lia|done].
    + apply (below_threshold r s ltac:(lia) Hs p E Hq); [lia|lia|done].
Qed.
