(* ===== verification/External.v ===== *)
(** * Interfaces of the crates the sources call

    Nothing here is modelled: each third-party crate is a class whose fields
    are the functions the sources call, and the properties of those functions
    the sources rely on are a second class of documented laws, assumed only by
    the theorems that need them. *)

From S2P Require Import Prelude.

(** The error types that [ratatoskr::Error] wraps. *)
Class Extern := {
  io_error : Type;
  toml_error : Type;
  postcard_error : Type;
  hex_error : Type;
  base64_error : Type;
  snow_error : Type
}.

(** ** postcard *)

Class Postcard `{Extern} (A : Type) := {
  to_allocvec : A -> result postcard_error (list byte);
  from_bytes : list byte -> result postcard_error A
}.

(** Decoding inverts encoding. *)
Class PostcardLaws `{Extern} (A : Type) `{!Postcard A} : Prop := {
  from_to_allocvec (a : A) b : to_allocvec a = Ok b -> from_bytes b = Ok a
}.

(** ** hex *)

Class Hex `{Extern} := {
  hex_encode : list byte -> string;
  hex_decode : string -> result hex_error (list byte)
}.

Definition lower_hex_digit (c : ascii) : bool :=
  let n := Z.of_N (N_of_ascii c) in
  (48 <=? n) && (n <=? 57) || (97 <=? n) && (n <=? 102).

Class HexLaws `{Hex} : Prop := {
  hex_decode_encode b : hex_decode (hex_encode b) = Ok b;
  hex_encode_length b : String.length (hex_encode b) = (2 * length b)%nat;
  hex_encode_digits b :
    Forall (fun c => lower_hex_digit c = true) (list_ascii_of_string (hex_encode b))
}.

(** ** blake2 *)

Class Blake2 := { blake2s_128 : list byte -> list byte }.
Class Blake2Laws `{Blake2} : Prop := {
  blake2s_128_length b : length (blake2s_128 b) = 16%nat
}.

(** ** url *)

Class UrlLib := {
  Url : Type;
  #[global] Url_eq_dec :: EqDecision Url;
  url_scheme : Url -> string;
  url_host_str : Url -> option string;
  url_port_or_known_default : Url -> option Z
}.

(** ** snow

    Every operation that needs fresh randomness takes it as an argument; a
    [read_message] or [write_message] takes the size of the caller's output
    buffer and returns the bytes it wrote there. *)

Module Snow.

Class Lib `{Extern} := {
  Entropy : Type;
  HandshakeState : Type;
  TransportState : Type;
  build_initiator : Entropy -> string -> list byte -> list byte ->
                    result snow_error HandshakeState;
  build_responder : Entropy -> string -> list byte -> result snow_error HandshakeState;
  hs_write_message : HandshakeState -> list byte -> Z ->
                     result snow_error (HandshakeState * list byte);
  hs_read_message : HandshakeState -> list byte -> Z ->
                    result snow_error (HandshakeState * list byte);
  get_remote_static : HandshakeState -> option (list byte);
  is_handshake_finished : HandshakeState -> bool;
  into_transport_mode : HandshakeState -> result snow_error TransportState;
  sending_nonce : TransportState -> Z;
  set_receiving_nonce : TransportState -> Z -> TransportState;
  write_message : TransportState -> list byte -> Z ->
                  TransportState * result snow_error (list byte);
  read_message : TransportState -> list byte -> Z ->
                 TransportState * result snow_error (list byte)
}.

(** What the session layer relies on.  [paired s r]: [s]'s sending cipher and
    [r]'s receiving cipher were split from the same handshake.  A message
    written by [s] under its current sending nonce is read back by [r] once
    its receiving nonce is set to that value; the AEAD tag adds 16 bytes; a
    successful write advances the sending nonce by one; the two directions of
    a transport are independent. *)
Class Laws `{Lib} := {
  paired : TransportState -> TransportState -> Prop;
  read_write s r pt cap s' ct cap' :
    paired s r -> write_message s pt cap = (s', Ok ct) -> zlen pt <= cap' ->
    snd (read_message (set_receiving_nonce r (sending_nonce s)) ct cap') = Ok pt;
  write_paired s r pt cap : paired s r -> paired (fst (write_message s pt cap)) r;
  write_paired_back s r pt cap : paired s r -> paired s (fst (write_message r pt cap));
  read_paired s r ct cap : paired s r -> paired s (fst (read_message r ct cap));
  read_paired_back s r ct cap : paired s r -> paired (fst (read_message s ct cap)) r;
  set_nonce_paired s r n : paired s r -> paired s (set_receiving_nonce r n);
  set_nonce_paired_back s r n : paired s r -> paired (set_receiving_nonce s n) r;
  write_nonce s pt cap s' ct :
    write_message s pt cap = (s', Ok ct) -> sending_nonce s' = sending_nonce s + 1;
  write_length s pt cap s' ct :
    write_message s pt cap = (s', Ok ct) -> zlen ct = zlen pt + 16;
  write_bound s pt cap s' ct : write_message s pt cap = (s', Ok ct) -> zlen ct <= cap;
  write_total s pt cap :
    zlen pt + 16 <= cap -> zlen pt + 16 <= 65535 -> sending_nonce s < 2 ^ 64 - 1 ->
    exists s' ct, write_message s pt cap = (s', Ok ct);
  read_nonce r ct cap : sending_nonce (fst (read_message r ct cap)) = sending_nonce r;
  set_nonce_nonce r n : sending_nonce (set_receiving_nonce r n) = sending_nonce r;
  sending_nonce_fits s : fits 64 (sending_nonce s)
}.

End Snow.
