(* ===== verification/RuleTypes.v ===== *)
(** * Leaf types of the rule module ([ratatoskr/src/rule/types.rs]) *)

From S2P Require Import Prelude.

Inductive Protocol := Tcp | Udp | Https.
Inductive ProxyProto := ProxyV1 | ProxyV2.

Record HstsConfig := mkHsts {
  max_age : Z;
  include_subdomains : bool;
  preload : bool
}.

#[global] Instance Protocol_eq_dec : EqDecision Protocol.
Proof. solve_decision. Defined.
#[global] Instance ProxyProto_eq_dec : EqDecision ProxyProto.
Proof. solve_decision. Defined.
#[global] Instance HstsConfig_eq_dec : EqDecision HstsConfig.
Proof. solve_decision. Defined.

Definition DEFAULT_HSTS_MAX_AGE : Z := 31536000.
Definition HstsConfig_default : HstsConfig := mkHsts DEFAULT_HSTS_MAX_AGE false false.

Definition Protocol_as_str (p : Protocol) : string :=
  match p with Tcp => "tcp" | Udp => "udp" | Https => "https" end.

Lemma Protocol_as_str_inj p q : Protocol_as_str p = Protocol_as_str q -> p = q.
Proof. by destruct p, q. Qed.

#[global] Instance Protocol_countable : Countable Protocol.
Proof.
  refine (inj_countable'
    (fun p => match p with Tcp => 0%nat | Udp => 1%nat | Https => 2%nat end)
    (fun n => match n with 0%nat => Tcp | 1%nat => Udp | _ => Https end) _). by intros [].
Defined.
