(* ===== verification/Error.v ===== *)
(** * [ratatoskr::Error] ([ratatoskr/src/error.rs])

    A variant whose payload is a formatted message carries, instead of the
    text, a constructor per [format!] call of the sources with the values it
    interpolates.  The two variants holding a [&'static str] keep the text. *)

From S2P Require Import Prelude RustStd External RuleTypes.

(** [Target::parse]'s messages. *)
Inductive TargetReason :=
  | TargetPortZero (s : string)
  | TargetNoColon (s : string)
  | TargetEmptyHost (s : string)
  | TargetBadPort (s port_str : string)
  | TargetBadHost (s host : string).

(** Messages of [Error::InvalidRule]. *)
Inductive RuleReason :=
  | RuleNameEmpty
  | RuleNameBadChars (name : string)
  | RuleListenPortZero (name : string)
  | RuleHttpsProtocol (name : string)
  | RuleBothTargets (name : string)
  | RuleNoTarget (name : string)
  | RuleTargetPortZero (name : string)
  | RuleBadTarget (name : string) (detail : TargetReason)
  | RuleProxyOnTerminal (name : string)
  | RuleIdleTimeoutOnTcp (name : string)
  | RuleProxyV1OnUdp (name : string)
  | RouteHostnameEmpty (rule : string)
  | RouteHostnameInvalid (rule hostname : string)
  | RouteBadScheme (rule hostname scheme : string)
  | RouteNoHost (rule hostname : string)
  | RouteNoPort (rule hostname : string)
  | HeaderNameEmpty (rule hostname : string)
  | HeaderNameInvalid (rule hostname name : string)
  | HeaderReserved (rule hostname name : string)
  | HeaderValueInvalid (rule hostname name : string)
  | DuplicateRuleName (name : string)
  | DuplicateListen (listen : Net.SocketAddr) (protocol : Protocol) (name other : string)
  | DuplicateRouteHostname (hostname : string).

Inductive PredicateReason :=
  | Http3OnNonHttps (name : string) (protocol : Protocol).

Section Error.
Context `{Extern}.

Inductive PubKeyReason :=
  | UnknownKeyAlgorithm (algorithm : string)
  | NoSuiteFor (algorithm : string)
  | PubKeyNotTagged (s : string)
  | PubKeyHexDecode (e : hex_error)
  | PubKeyWrongLength (got : Z)
  | UnknownPubKeyAlgorithm (algorithm : string).

Inductive EnrollmentReason :=
  | RequestVersionUnsupported (version : Z)
  | RequestFingerprintMismatch (got expected : string)
  | GrantVersionUnsupported (version : Z)
  | GrantAcceptFingerprintMismatch (got expected : string)
  | GrantDialFingerprintMismatch (got expected : string)
  | GrantEndpointEmpty.

Inductive Error :=
  | Io (source : io_error)
  | ReadFile (path : string) (source : io_error)
  | WriteFile (path : string) (source : io_error)
  | TomlParse (path : string) (source : toml_error)
  | PostcardErr (e : postcard_error)
  | HexErr (e : hex_error)
  | Base64Err (e : base64_error)
  | InvalidRule (reason : RuleReason)
  | InvalidEnrollmentToken (reason : EnrollmentReason)
  | InvalidPubKey (reason : PubKeyReason)
  | InvalidPredicate (reason : PredicateReason)
  | NoiseErr (e : snow_error)
  | AuthErr (what : string)
  | Replay (counter last_seen : Z)
  | MalformedPacket (what : string)
  | UnknownPacketType (tag : Z).

End Error.

Notation Result A := (result Error A).
