(* ===== verification/Wire.v ===== *)
(** * The packet preamble ([ratatoskr/src/wire.rs])

    A packet is a one-byte tag, a four-byte session id, and for every
    post-handshake type a big-endian [u64] counter, followed by the body. *)

From S2P Require Import Prelude RustStd External Error.

Definition TAG_HANDSHAKE_1 : Z := 0x01.
Definition TAG_HANDSHAKE_2 : Z := 0x02.
Definition TAG_HEARTBEAT : Z := 0x03.
Definition TAG_HEARTBEAT_ACK : Z := 0x04.
Definition TAG_REKEY : Z := 0x05.
Definition TAG_CONTROL : Z := 0x06.
Definition TAG_CONTROL_ACK : Z := 0x07.

Definition PREAMBLE_LEN : Z := 1 + 4.
Definition COUNTER_LEN : Z := 8.
Definition HEARTBEAT_PT_LEN : Z := 8 + 1.
Definition HEARTBEAT_ACK_PT_LEN : Z := 8 + 8.
Definition AEAD_TAG_LEN : Z := 16.
Definition MAX_CONTROL_PLAINTEXT_LEN : Z := 17 * 1024.
Definition MAX_PACKET_LEN : Z :=
  PREAMBLE_LEN + COUNTER_LEN + MAX_CONTROL_PLAINTEXT_LEN + AEAD_TAG_LEN.

(** [SessionId([u8; 4])]. *)
Record SessionId := mkSessionId { sid_0 : byte; sid_1 : byte; sid_2 : byte; sid_3 : byte }.

Definition sid_bytes (s : SessionId) : list byte := [sid_0 s; sid_1 s; sid_2 s; sid_3 s].

Inductive PacketType :=
  | Handshake1 | Handshake2 | Heartbeat | HeartbeatAck | Rekey | Control | ControlAckPkt.

#[global] Instance SessionId_eq_dec : EqDecision SessionId.
Proof. solve_decision. Defined.
#[global] Instance SessionId_countable : Countable SessionId.
Proof.
  refine (inj_countable' (fun s => (sid_0 s, sid_1 s, sid_2 s, sid_3 s))
            (fun '(a, b, c, d) => mkSessionId a b c d) _).
  by intros [].
Defined.
#[global] Instance PacketType_eq_dec : EqDecision PacketType.
Proof. solve_decision. Defined.

(** [pt as u8]. *)
Definition PacketType_as_u8 (pt : PacketType) : Z :=
  match pt with
  | Handshake1 => TAG_HANDSHAKE_1
  | Handshake2 => TAG_HANDSHAKE_2
  | Heartbeat => TAG_HEARTBEAT
  | HeartbeatAck => TAG_HEARTBEAT_ACK
  | Rekey => TAG_REKEY
  | Control => TAG_CONTROL
  | ControlAckPkt => TAG_CONTROL_ACK
  end.

Definition has_counter (pt : PacketType) : bool :=
  match pt with
  | Heartbeat | HeartbeatAck | Rekey | Control | ControlAckPkt => true
  | Handshake1 | Handshake2 => false
  end.

Record PacketView := mkPacketView {
  packet_type : PacketType;
  session_id : SessionId;
  counter : option Z;
  body : list byte
}.

Section Wire.
Context `{Extern}.

Definition from_tag (tag : Z) : Result PacketType :=
  if tag =? TAG_HANDSHAKE_1 then Ok Handshake1
  else if tag =? TAG_HANDSHAKE_2 then Ok Handshake2
  else if tag =? TAG_HEARTBEAT then Ok Heartbeat
  else if tag =? TAG_HEARTBEAT_ACK then Ok HeartbeatAck
  else if tag =? TAG_REKEY then Ok Rekey
  else if tag =? TAG_CONTROL then Ok Control
  else if tag =? TAG_CONTROL_ACK then Ok ControlAckPkt
  else Err (UnknownPacketType tag).

Definition parse (buf : list byte) : Result PacketView :=
  match buf with
  | tag :: s0 :: s1 :: s2 :: s3 :: rest =>
      pt ← from_tag (byte_to_Z tag);
      let sid := mkSessionId s0 s1 s2 s3 in
      if has_counter pt then
        if zlen buf <? PREAMBLE_LEN + COUNTER_LEN
        then Err (MalformedPacket "packet shorter than preamble + counter")
        else
          let ctr := from_be (firstn (Z.to_nat COUNTER_LEN) rest) in
          Ok (mkPacketView pt sid (Some ctr) (skipn (Z.to_nat COUNTER_LEN) rest))
      else Ok (mkPacketView pt sid None rest)
  | _ => Err (MalformedPacket "packet shorter than preamble")
  end.

Definition write_preamble (out : list byte) (pt : PacketType) (sid : SessionId) : list byte :=
  out ++ [byte_of_Z (PacketType_as_u8 pt)] ++ sid_bytes sid.

Definition write_counter (out : list byte) (ctr : Z) : list byte := out ++ to_be 8 ctr.

Definition encode_heartbeat_plaintext (timestamp_ms flags : Z) : list byte :=
  to_be 8 timestamp_ms ++ [byte_of_Z flags].

Definition decode_heartbeat_plaintext (buf : list byte) : Result (Z * Z) :=
  if negb (zlen buf =? HEARTBEAT_PT_LEN)
  then Err (MalformedPacket "heartbeat plaintext wrong length")
  else Ok (from_be (firstn 8 buf), from_be (skipn 8 buf)).

Definition encode_heartbeat_ack_plaintext (echoed_counter server_ts_ms : Z) : list byte :=
  to_be 8 echoed_counter ++ to_be 8 server_ts_ms.

Definition decode_heartbeat_ack_plaintext (buf : list byte) : Result (Z * Z) :=
  if negb (zlen buf =? HEARTBEAT_ACK_PT_LEN)
  then Err (MalformedPacket "heartbeat-ack plaintext wrong length")
  else Ok (from_be (firstn 8 buf), from_be (skipn 8 buf)).

(** What a sender puts on the wire for a view. *)
Definition write_packet (v : PacketView) : list byte :=
  let pre := write_preamble [] (packet_type v) (session_id v) in
  match counter v with Some c => write_counter pre c | None => pre end ++ body v.

(** A view as [parse] builds it: the counter is a [u64] present exactly on
    post-handshake packets. *)
Definition view_wf (v : PacketView) : Prop :=
  match counter v with
  | Some c => has_counter (packet_type v) = true /\ fits 64 c
  | None => has_counter (packet_type v) = false
  end.

Lemma from_tag_ok t pt : from_tag t = Ok pt <-> t = PacketType_as_u8 pt.
Proof.
  split; [|intros ->; by destruct pt].
  unfold from_tag.
  repeat (case_match eqn:Ht; [apply Z.eqb_eq in Ht as ->; by intros [= <-]|clear Ht]). done.
Qed.

Lemma from_tag_err t e : from_tag t = Err e -> e = UnknownPacketType t.
Proof. unfold from_tag. repeat case_match; congruence. Qed.

Lemma tag_fits pt : 0 <= PacketType_as_u8 pt < 256.
Proof. destruct pt; by vm_compute. Qed.

#[local] Arguments PacketType_as_u8 : simpl never.
#[local] Arguments from_tag : simpl never.
#[local] Arguments byte_of_Z : simpl never.
#[local] Arguments byte_to_Z : simpl never.
#[local] Arguments to_be : simpl never.

Lemma parse_write_packet v : view_wf v -> parse (write_packet v) = Ok v.
Proof.
  destruct v as [pt [s0 s1 s2 s3] [c|] b]; unfold view_wf, write_packet; cbn.
  - intros [Hc Hf]. rewrite byte_to_of_Z_small by apply tag_fits.
    rewrite (proj2 (from_tag_ok _ pt) eq_refl). cbn. rewrite Hc.
    rewrite (proj2 (Z.ltb_ge _ _))
      by (rewrite !zlen_cons, zlen_app; unfold zlen; rewrite length_to_be; cbv [PREAMBLE_LEN COUNTER_LEN]; lia).
    rewrite take_app_length', drop_app_length' by (by rewrite length_to_be).
    by rewrite from_to_be by apply Hf.
  - intros Hc. rewrite byte_to_of_Z_small by apply tag_fits.
    rewrite (proj2 (from_tag_ok _ pt) eq_refl). cbn. by rewrite Hc.
Qed.

Lemma parse_ok_inv buf v : parse buf = Ok v -> view_wf v /\ buf = write_packet v.
Proof.
  unfold parse. do 5 (destruct buf as [|? buf]; [done|]).
  intros (pt & Ht & Hv)%result_bind_ok. apply from_tag_ok in Ht.
  unfold view_wf, write_packet, write_preamble, write_counter, sid_bytes.
  destruct (has_counter pt) eqn:Hc; [case_match eqn:Hl; [done|]|]; injection Hv as <-; cbn;
    rewrite <- Ht, byte_of_to_Z; [|done].
  rewrite Z.ltb_ge, !zlen_cons in Hl. cbv [PREAMBLE_LEN COUNTER_LEN] in *.
  assert (length (take 8 buf) = 8%nat) as H8 by (rewrite length_take; unfold zlen in Hl; lia).
  change (Z.to_nat 8) with 8%nat.
  split.
  - split; [done|]. pose proof (from_be_range (take 8 buf)) as Hr. by rewrite H8 in Hr.
  - rewrite <- H8 at 1. rewrite to_from_be. by rewrite take_drop.
Qed.

Lemma heartbeat_plaintext_roundtrip ts fl :
  fits 64 ts -> fits 8 fl ->
  decode_heartbeat_plaintext (encode_heartbeat_plaintext ts fl) = Ok (ts, fl).
Proof.
  intros Ht Hf. unfold decode_heartbeat_plaintext, encode_heartbeat_plaintext.
  rewrite zlen_app. unfold zlen at 1. rewrite length_to_be. cbn.
  rewrite take_app_length', drop_app_length' by (by rewrite length_to_be).
  rewrite from_to_be by apply Ht. unfold from_be. cbn.
  by rewrite byte_to_of_Z_small by apply Hf.
Qed.

Lemma heartbeat_ack_plaintext_roundtrip ec ts :
  fits 64 ec -> fits 64 ts ->
  decode_heartbeat_ack_plaintext (encode_heartbeat_ack_plaintext ec ts) = Ok (ec, ts).
Proof.
  intros He Ht. unfold decode_heartbeat_ack_plaintext, encode_heartbeat_ack_plaintext.
  rewrite zlen_app. unfold zlen. rewrite !length_to_be. cbn.
  rewrite take_app_length', drop_app_length' by (by rewrite length_to_be).
  by rewrite !from_to_be by assumption.
Qed.

End Wire.

Module WireProps.

(** The framing is exact: a buffer parses to a view precisely when it is
    the bytes written for that view, with the counter a [u64] present on the
    post-handshake types and absent on the handshake ones. *)
Theorem parse_exact `{Extern} (buf : list byte) (v : PacketView) :
  parse buf = Ok v <-> view_wf v /\ buf = write_packet v.
Proof. split; [apply parse_ok_inv|]. intros [Hwf ->]. by apply parse_write_packet. Qed.

(** Every way [parse] refuses a buffer, with the error it gives. *)
Theorem parse_errors `{Extern} (buf : list byte) :
  match parse buf with
  | Ok _ => True
  | Err (MalformedPacket _) =>
      zlen buf < PREAMBLE_LEN
      \/ exists tag rest pt, buf = tag :: rest /\ byte_to_Z tag = PacketType_as_u8 pt
           /\ has_counter pt = true /\ zlen buf < PREAMBLE_LEN + COUNTER_LEN
  | Err (UnknownPacketType t) =>
      PREAMBLE_LEN <= zlen buf
      /\ exists tag rest, buf = tag :: rest /\ t = byte_to_Z tag
           /\ forall pt, PacketType_as_u8 pt <> t
  | Err _ => False
  end.
Proof.
  unfold parse. do 5 (destruct buf as [|? buf]; [left; by vm_compute|]).
  destruct (from_tag (byte_to_Z b)) as [pt|e] eqn:Ht; cbn [mbind result_bind].
  - apply from_tag_ok in Ht. destruct (has_counter pt) eqn:Hc; [|done].
    destruct (_ <? _) eqn:Hl; [|done]. right. exists b; do 2 eexists. split; [done|].
    apply Z.ltb_lt in Hl. by split_and!.
  - pose proof (from_tag_err _ _ Ht) as ->. split.
    + rewrite !zlen_cons. pose proof (zlen_nonneg buf). unfold PREAMBLE_LEN. lia.
    + exists b; eexists. split; [done|]. split; [done|]. intros pt Hpt.
      apply eq_sym, from_tag_ok in Hpt. congruence.
Qed.

End WireProps.
