(* ===== verification/ControlFrame.v ===== *)
(** * Control envelopes ([ratatoskr/src/control_frame.rs]) *)

From S2P Require Import Prelude.

Record ControlEnvelope := mkEnvelope {
  env_seq : Z;
  env_body_type : Z;
  env_body : list byte
}.

Inductive AckStatus :=
  | AckOk
  | AckReject (code : Z)
  | AckUnknown.

Record ControlAck := mkAck {
  ack_seq : Z;
  ack_status : AckStatus
}.

Inductive ControlBodyType :=
  | Reserved | Noop | PredicateSetUpdate | ChainHopQuery | ChainHopReply | CanaryArm | CanaryReply.

#[global] Instance ControlEnvelope_eq_dec : EqDecision ControlEnvelope.
Proof. solve_decision. Defined.
#[global] Instance AckStatus_eq_dec : EqDecision AckStatus.
Proof. solve_decision. Defined.
#[global] Instance ControlAck_eq_dec : EqDecision ControlAck.
Proof. solve_decision. Defined.
#[global] Instance ControlBodyType_eq_dec : EqDecision ControlBodyType.
Proof. solve_decision. Defined.

#[global] Instance ControlEnvelope_countable : Countable ControlEnvelope.
Proof.
  refine (inj_countable' (fun e => (env_seq e, env_body_type e, env_body e))
            (fun '(a, b, c) => mkEnvelope a b c) _).
  by intros [].
Defined.
#[global] Instance AckStatus_countable : Countable AckStatus.
Proof.
  refine (inj_countable'
    (fun a => match a with AckOk => None | AckUnknown => Some None | AckReject c => Some (Some c) end)
    (fun x => match x with None => AckOk | Some None => AckUnknown | Some (Some c) => AckReject c end) _).
  by intros [].
Defined.
#[global] Instance ControlAck_countable : Countable ControlAck.
Proof.
  refine (inj_countable' (fun a => (ack_seq a, ack_status a)) (fun '(a, b) => mkAck a b) _).
  by intros [].
Defined.

Definition as_byte (t : ControlBodyType) : Z :=
  match t with
  | Reserved => 0x00
  | Noop => 0x01
  | PredicateSetUpdate => 0x02
  | ChainHopQuery => 0x03
  | ChainHopReply => 0x04
  | CanaryArm => 0x05
  | CanaryReply => 0x06
  end.

Definition from_byte (b : Z) : option ControlBodyType :=
  match b with
  | 0x00 => Some Reserved
  | 0x01 => Some Noop
  | 0x02 => Some PredicateSetUpdate
  | 0x03 => Some ChainHopQuery
  | 0x04 => Some ChainHopReply
  | 0x05 => Some CanaryArm
  | 0x06 => Some CanaryReply
  | _ => None
  end.

Lemma from_byte_as_byte t : from_byte (as_byte t) = Some t.
Proof. by destruct t. Qed.

(** [from_byte] recognises exactly the bytes of the registry. *)
Lemma from_byte_Some b t : from_byte b = Some t <-> b = as_byte t.
Proof.
  split; [|intros ->; apply from_byte_as_byte].
  unfold from_byte. repeat case_match; intros [=]; by subst.
Qed.
