(* ===== verification/PubKey.v ===== *)
(** * Tagged public keys ([ratatoskr/src/pubkey.rs]) *)

From S2P Require Import Prelude RustStd External Error.

Definition X25519_PUBLIC_LEN : Z := 32.

Inductive PubKey := X25519 (bytes : list byte).

#[global] Instance PubKey_eq_dec : EqDecision PubKey.
Proof. solve_decision. Defined.
#[global] Instance PubKey_countable : Countable PubKey.
Proof.
  refine (inj_countable' (fun '(X25519 b) => b) X25519 _). by intros [].
Defined.

Definition algorithm (k : PubKey) : string := match k with X25519 _ => "x25519" end.
Definition raw_bytes (k : PubKey) : list byte := match k with X25519 b => b end.
Definition as_x25519 (k : PubKey) : option (list byte) := match k with X25519 b => Some b end.

(** The payload is a [[u8; 32]]. *)
Definition PubKey_wf (k : PubKey) : Prop := zlen (raw_bytes k) = X25519_PUBLIC_LEN.

Lemma hex_digit_plain c : lower_hex_digit c = true -> Str.plain c = true.
Proof. destruct c as [[] [] [] [] [] [] [] []]; by vm_compute. Qed.

Section PubKey.
Context `{Hex} `{Blake2}.

Definition x25519_fingerprint_hex (public : list byte) : string :=
  hex_encode (blake2s_128 public).

Definition fingerprint (k : PubKey) : string :=
  match k with X25519 b => "x25519:" +:+ x25519_fingerprint_hex b end.

(** [Display]. *)
Definition to_string (k : PubKey) : string :=
  match k with X25519 b => "x25519:" +:+ hex_encode b end.

(** [FromStr]. *)
Definition from_str (s0 : string) : Result PubKey :=
  let s := Str.trim s0 in
  '(algo, hex_str) ← ok_or (InvalidPubKey (PubKeyNotTagged s)) (Str.split_once ":"%char s);
  if bool_decide (algo = "x25519") then
    bytes ← map_err (fun e => InvalidPubKey (PubKeyHexDecode e)) (hex_decode hex_str);
    if zlen bytes =? X25519_PUBLIC_LEN then Ok (X25519 bytes)
    else Err (InvalidPubKey (PubKeyWrongLength (zlen bytes)))
  else Err (InvalidPubKey (UnknownPubKeyAlgorithm algo)).

(** Parsing a rendered key gives the key back. *)
Lemma from_str_to_string `{!HexLaws} k : PubKey_wf k -> from_str (to_string k) = Ok k.
Proof.
  destruct k as [b]; intros Hwf. unfold from_str, to_string.
  assert (Forall (fun c => Str.plain c = true) (Str.to_list ("x25519:" +:+ hex_encode b))) as Hp.
  { rewrite Str.to_list_app. apply Forall_app; split; [by repeat constructor|].
    eapply Forall_impl; [apply hex_encode_digits|]. apply hex_digit_plain. }
  rewrite Str.trim_plain by done.
  change ("x25519:" +:+ hex_encode b) with ("x25519" +:+ String ":"%char (hex_encode b)).
  rewrite Str.split_once_app by (vm_compute; set_solver). cbn.
  rewrite bool_decide_true, hex_decode_encode by done. cbn.
  unfold PubKey_wf in Hwf. cbn in Hwf. by rewrite (proj2 (Z.eqb_eq _ _) Hwf).
Qed.

(** Whatever [from_str] accepts is a well-formed key. *)
Lemma from_str_wf s k : from_str s = Ok k -> PubKey_wf k.
Proof.
  unfold from_str. intros ([algo h] & _ & Hk)%result_bind_ok. cbn in Hk.
  case_bool_decide; [|done]. apply result_bind_ok in Hk as (b & _ & Hk).
  case_match eqn:Hl; [|done]. injection Hk as <-. by apply Z.eqb_eq.
Qed.

Lemma to_string_inj `{!HexLaws} k1 k2 :
  PubKey_wf k1 -> PubKey_wf k2 -> to_string k1 = to_string k2 -> k1 = k2.
Proof.
  intros Hw1 Hw2 Heq. apply (f_equal from_str) in Heq.
  rewrite !from_str_to_string in Heq by done. congruence.
Qed.

Lemma fingerprint_length `{!HexLaws, !Blake2Laws} k :
  String.length (fingerprint k) = 39%nat.
Proof.
  destruct k as [b]. unfold fingerprint, x25519_fingerprint_hex.
  rewrite <- Str.length_to_list, Str.to_list_app, length_app, !Str.length_to_list.
  by rewrite hex_encode_length, blake2s_128_length.
Qed.

End PubKey.
