(* ===== verification/Instances.v ===== *)
(** * Concrete models of the external interfaces

    Every class of [External] has an instance that satisfies its laws, so
    that theorems stated over them can be evaluated on closed inputs.  The
    functions here stand for no particular crate version: the serialiser
    writes one byte per bit of a [Countable] encoding, the cipher appends the
    nonce as an unkeyed 16-byte tag. *)

From S2P Require Import Prelude RustStd External.

#[export] Instance demo_extern : Extern := {|
  io_error := string; toml_error := string; postcard_error := string;
  hex_error := string; base64_error := string; snow_error := string |}.

(** ** Serialiser *)

Fixpoint pos_bytes (p : positive) : list byte :=
  match p with
  | xH => []
  | xO p => "000"%byte :: pos_bytes p
  | xI p => "001"%byte :: pos_bytes p
  end.

Fixpoint bytes_pos (l : list byte) : option positive :=
  match l with
  | [] => Some xH
  | "000"%byte :: l' => xO <$> bytes_pos l'
  | "001"%byte :: l' => xI <$> bytes_pos l'
  | _ => None
  end.

Lemma bytes_pos_bytes p : bytes_pos (pos_bytes p) = Some p.
Proof. induction p as [p IH|p IH|]; cbn; by rewrite ?IH. Qed.

#[export] Instance demo_postcard `{Countable A} : Postcard A := {|
  to_allocvec a := Ok (pos_bytes (encode a));
  from_bytes b := ok_or "decode" (bytes_pos b ≫= decode) |}.

#[export] Instance demo_postcard_laws `{Countable A} : PostcardLaws A.
Proof. constructor. intros a b [= <-]. cbn. rewrite bytes_pos_bytes. cbn. by rewrite decode_encode. Qed.

(** ** Hex *)

Definition nibble_char (n : Z) : ascii :=
  ascii_of_N (Z.to_N (if n <? 10 then 48 + n else 87 + n)).

Definition demo_hex_encode (l : list byte) : list ascii :=
  l ≫= fun b => [nibble_char (byte_to_Z b / 16); nibble_char (byte_to_Z b mod 16)].

Fixpoint demo_hex_decode (l : list ascii) : option (list byte) :=
  match l with
  | [] => Some []
  | [_] => None
  | a :: b :: l' =>
      x ← Str.to_digit 16 a; y ← Str.to_digit 16 b; r ← demo_hex_decode l';
      Some (byte_of_Z (16 * x + y) :: r)
  end.

#[export] Instance demo_hex : Hex := {|
  hex_encode b := Str.of_list (demo_hex_encode b);
  hex_decode s := ok_or "hex" (demo_hex_decode (Str.to_list s)) |}.

Lemma demo_hex_byte b :
  Str.to_digit 16 (nibble_char (byte_to_Z b / 16)) = Some (byte_to_Z b / 16)
  /\ Str.to_digit 16 (nibble_char (byte_to_Z b mod 16)) = Some (byte_to_Z b mod 16)
  /\ lower_hex_digit (nibble_char (byte_to_Z b / 16)) = true
  /\ lower_hex_digit (nibble_char (byte_to_Z b mod 16)) = true.
Proof. destruct b; by vm_compute. Qed.

#[export] Instance demo_hex_laws : HexLaws.
Proof.
  constructor; cbn; intros l.
  - rewrite Str.to_of_list. induction l as [|b l IH]; [done|].
    destruct (demo_hex_byte b) as (Hx & Hy & _ & _). cbn -[Str.to_digit nibble_char].
    rewrite Hx, Hy. cbn -[Z.mul]. unfold demo_hex_encode in IH.
    destruct (demo_hex_decode (l ≫= _)) as [r|]; [|done]. cbn in IH |- *.
    injection IH as ->. by rewrite <- Z.div_mod, byte_of_to_Z by done.
  - rewrite <- Str.length_to_list, Str.to_of_list.
    induction l as [|b l IH]; [done|].
    change (length (demo_hex_encode (b :: l))) with (2 + length (demo_hex_encode l))%nat.
    rewrite IH. cbn. lia.
  - change (list_ascii_of_string (Str.of_list (demo_hex_encode l)))
      with (Str.to_list (Str.of_list (demo_hex_encode l))). rewrite Str.to_of_list.
    induction l as [|b l IH]; [constructor|]. destruct (demo_hex_byte b) as (_ & _ & Hx & Hy).
    cbn. by repeat constructor.
Qed.

(** ** Hash and URLs *)

#[export] Instance demo_blake2 : Blake2 := {| blake2s_128 b := firstn 16 (b ++ replicate 16 "000"%byte) |}.
#[export] Instance demo_blake2_laws : Blake2Laws.
Proof. constructor. intros b. unfold blake2s_128, demo_blake2. rewrite length_take, length_app, length_replicate. lia. Qed.

#[export] Instance demo_url : UrlLib := {|
  Url := string * string * Z;
  url_scheme u := u.1.1; url_host_str u := Some u.1.2;
  url_port_or_known_default u := Some u.2 |}.

(** ** Noise *)

Definition demo_tag (n : Z) : list byte := to_be 16 n.

Record demo_transport := mkDemoTransport { dt_send : Z; dt_recv : Z }.
Record demo_handshake := mkDemoHandshake {
  dh_local : list byte; dh_remote : option (list byte); dh_done : bool }.

Definition demo_write (t : demo_transport) (pt : list byte) (cap : Z) :
    demo_transport * result string (list byte) :=
  let n := wrap 64 (dt_send t) in
  if decide (zlen pt + 16 <= cap /\ zlen pt + 16 <= 65535 /\ n < 2 ^ 64 - 1)
  then (mkDemoTransport (n + 1) (dt_recv t), Ok (pt ++ demo_tag n))
  else (t, Err "write").

Definition demo_read (t : demo_transport) (ct : list byte) (cap : Z) :
    demo_transport * result string (list byte) :=
  let k := (length ct - 16)%nat in
  let pt := firstn k ct in
  if decide (skipn k ct = demo_tag (dt_recv t) /\ zlen pt <= cap)
  then (mkDemoTransport (dt_send t) (dt_recv t + 1), Ok pt)
  else (t, Err "decrypt").

#[export] Instance demo_snow : Snow.Lib := {|
  Snow.Entropy := unit;
  Snow.HandshakeState := demo_handshake;
  Snow.TransportState := demo_transport;
  Snow.build_initiator _ _ sk _ := Ok (mkDemoHandshake sk None false);
  Snow.build_responder _ _ sk := Ok (mkDemoHandshake sk None false);
  Snow.hs_write_message h _ _ :=
    Ok (mkDemoHandshake (dh_local h) (dh_remote h) (bool_decide (is_Some (dh_remote h))), dh_local h);
  Snow.hs_read_message h m _ := Ok (mkDemoHandshake (dh_local h) (Some m) true, []);
  Snow.get_remote_static h := dh_remote h;
  Snow.is_handshake_finished h := dh_done h;
  Snow.into_transport_mode _ := Ok (mkDemoTransport 0 0);
  Snow.sending_nonce t := wrap 64 (dt_send t);
  Snow.set_receiving_nonce t n := mkDemoTransport (dt_send t) n;
  Snow.write_message := demo_write;
  Snow.read_message := demo_read |}.

Lemma demo_write_ok t pt cap t' ct :
  demo_write t pt cap = (t', Ok ct) ->
  ct = pt ++ demo_tag (wrap 64 (dt_send t)) /\ dt_send t' = wrap 64 (dt_send t) + 1
  /\ zlen pt + 16 <= cap /\ wrap 64 (dt_send t) < 2 ^ 64 - 1.
Proof. unfold demo_write. case_decide; [|done]. intros [= <- <-]. naive_solver. Qed.

#[export] Program Instance demo_snow_laws : Snow.Laws := {| Snow.paired _ _ := True |}.
Next Obligation.
  cbn. intros s r pt cap s' ct cap' _ (-> & _)%demo_write_ok Hcap. unfold demo_read.
  replace (length (pt ++ _) - 16)%nat with (length pt)
    by (rewrite length_app; unfold demo_tag; rewrite length_to_be; lia).
  rewrite take_app_length, drop_app_length. by rewrite decide_True.
Qed.
Next Obligation. done. Qed.
Next Obligation. done. Qed.
Next Obligation. done. Qed.
Next Obligation. done. Qed.
Next Obligation. done. Qed.
Next Obligation. done. Qed.
Next Obligation.
  cbn. intros s pt cap s' ct (_ & -> & _ & Hn)%demo_write_ok. apply wrap_small.
  split; [|lia]. pose proof (Z.mod_pos_bound (dt_send s) (2 ^ 64) ltac:(lia)). unfold wrap. lia.
Qed.
Next Obligation.
  cbn. intros s pt cap s' ct (-> & _)%demo_write_ok.
  unfold demo_tag. by rewrite zlen_app, zlen_to_be.
Qed.
Next Obligation.
  cbn. intros s pt cap s' ct (-> & _ & Hc & _)%demo_write_ok.
  unfold demo_tag. rewrite zlen_app, zlen_to_be. lia.
Qed.
Next Obligation.
  cbn. intros s pt cap Hc Hm Hn. unfold demo_write. rewrite decide_True by done. eauto.
Qed.
Next Obligation. cbn. intros r ct cap. unfold demo_read. by case_decide. Qed.
Next Obligation. done. Qed.
Next Obligation. cbn. intros s. apply Z.mod_pos_bound. lia. Qed.
