(* ===== verification/Auth.v ===== *)
(** * Identities and authenticated sessions ([ratatoskr/src/auth.rs])

    A [Session] is mutated through [&mut self] also on the failing paths, so
    its operations return the new session beside the result. *)

From S2P Require Import Prelude RustStd External Error Wire ControlFrame PubKey Instances.

Definition X25519_SECRET_LEN : Z := 32.
Definition IDENTITY_FILE_MAGIC : list byte := Str.to_bytes "YGGID".
Definition IDENTITY_FILE_VERSION : Z := 0x01.
Definition IDENTITY_ALGO_X25519 : Z := 0x00.

Inductive StaticKeyPair := KeyPair (secret public : list byte).

Inductive NoiseSuite := X25519ChaChaPolyBlake2s.

Definition kp_algorithm (kp : StaticKeyPair) : string :=
  match kp with KeyPair _ _ => "x25519" end.
Definition public_key (kp : StaticKeyPair) : PubKey :=
  match kp with KeyPair _ public => X25519 public end.
Definition raw_secret_bytes (kp : StaticKeyPair) : list byte :=
  match kp with KeyPair secret _ => secret end.
Definition noise_suite (kp : StaticKeyPair) : NoiseSuite :=
  match kp with KeyPair _ _ => X25519ChaChaPolyBlake2s end.
Definition pattern_str (n : NoiseSuite) : string :=
  match n with X25519ChaChaPolyBlake2s => "Noise_IK_25519_ChaChaPoly_BLAKE2s" end.
Definition key_algorithm (n : NoiseSuite) : string :=
  match n with X25519ChaChaPolyBlake2s => "x25519" end.

(** Both halves are [[u8; 32]]. *)
Definition StaticKeyPair_wf (kp : StaticKeyPair) : Prop :=
  zlen (raw_secret_bytes kp) = X25519_SECRET_LEN /\ PubKey_wf (public_key kp).

Section Identity.
Context `{Extern}.

Definition for_key_algorithm (a : string) : Result NoiseSuite :=
  if bool_decide (a = "x25519") then Ok X25519ChaChaPolyBlake2s
  else Err (InvalidPubKey (NoSuiteFor a)).

Definition from_identity_bytes (bytes : list byte) : Result StaticKeyPair :=
  let m := length IDENTITY_FILE_MAGIC in
  if (length bytes <? m + 2)%nat then Err (AuthErr "identity file truncated")
  else if negb (bool_decide (firstn m bytes = IDENTITY_FILE_MAGIC))
  then Err (AuthErr "identity file: bad magic (not a yggdrasil identity)")
  else
    match skipn m bytes with
    | version :: algo :: payload =>
        if negb (byte_to_Z version =? IDENTITY_FILE_VERSION)
        then Err (AuthErr "identity file: unsupported version")
        else if byte_to_Z algo =? IDENTITY_ALGO_X25519 then
          if negb (zlen payload =? X25519_SECRET_LEN + X25519_PUBLIC_LEN)
          then Err (AuthErr "identity file: X25519 payload has wrong length")
          else Ok (KeyPair (firstn (Z.to_nat X25519_SECRET_LEN) payload)
                           (skipn (Z.to_nat X25519_SECRET_LEN) payload))
        else Err (AuthErr "identity file: unknown algorithm")
    | _ => Err (AuthErr "identity file truncated")
    end.

Definition to_identity_bytes (kp : StaticKeyPair) : list byte :=
  IDENTITY_FILE_MAGIC ++ [byte_of_Z IDENTITY_FILE_VERSION] ++
  match kp with
  | KeyPair secret public => [byte_of_Z IDENTITY_ALGO_X25519] ++ secret ++ public
  end.

End Identity.

(** ** Handshakes and sessions *)

Section Session.
Context `{Snow.Lib}.
Import Snow.

Record Initiator := mkInitiator {
  ini_inner : HandshakeState;
  ini_session_id : SessionId
}.
Record HalfHandshake := mkHalf {
  half_inner : HandshakeState;
  half_session_id : SessionId;
  half_remote_public : PubKey
}.
Record Session := mkSession {
  transport : TransportState;
  sess_id : SessionId;
  last_seen_counter : option Z
}.
Record DecodedHeartbeat := mkDecodedHeartbeat {
  dh_counter : Z; dh_timestamp_ms : Z; dh_flags : Z }.
Record DecodedHeartbeatAck := mkDecodedHeartbeatAck {
  dha_counter : Z; dha_echoed_counter : Z; dha_server_ts_ms : Z }.

Definition sending_counter (s : Session) : Z := sending_nonce (transport s).

(** [Initiator::start]. *)
Definition initiator_start (rng : Entropy) (local : StaticKeyPair) (remote_public : PubKey)
    (sid : SessionId) : Result (Initiator * list byte) :=
  let suite := noise_suite local in
  if negb (bool_decide (key_algorithm suite = algorithm remote_public))
  then Err (AuthErr "local and remote key algorithms differ; cannot establish Noise session")
  else
    inner ← map_err NoiseErr
      (build_initiator rng (pattern_str suite) (raw_secret_bytes local) (raw_bytes remote_public));
    '(inner, msg) ← map_err NoiseErr (hs_write_message inner [] 256);
    Ok (mkInitiator inner sid, write_preamble [] Handshake1 sid ++ msg).

(** [Initiator::complete]. *)
Definition initiator_complete (i : Initiator) (v : PacketView) : Result Session :=
  if negb (bool_decide (packet_type v = Handshake2)) then Err (AuthErr "expected Handshake2")
  else if negb (bool_decide (session_id v = ini_session_id i))
  then Err (AuthErr "Handshake2 session id mismatch")
  else
    '(inner, _) ← map_err NoiseErr (hs_read_message (ini_inner i) (body v) 256);
    if negb (is_handshake_finished inner)
    then Err (AuthErr "handshake unexpectedly incomplete")
    else
      t ← map_err NoiseErr (into_transport_mode inner);
      Ok (mkSession t (ini_session_id i) None).

(** [Responder::process_handshake_1]. *)
Definition process_handshake_1 (rng : Entropy) (local : StaticKeyPair) (v : PacketView) :
    Result HalfHandshake :=
  if negb (bool_decide (packet_type v = Handshake1)) then Err (AuthErr "expected Handshake1")
  else
    inner ← map_err NoiseErr
      (build_responder rng (pattern_str (noise_suite local)) (raw_secret_bytes local));
    '(inner, _) ← map_err NoiseErr (hs_read_message inner (body v) 256);
    remote_static ← ok_or (AuthErr "Handshake1 carried no static key") (get_remote_static inner);
    match local with
    | KeyPair _ _ =>
        if negb (zlen remote_static =? X25519_PUBLIC_LEN)
        then Err (AuthErr "remote static key has wrong length")
        else Ok (mkHalf inner (session_id v) (X25519 remote_static))
    end.

(** [HalfHandshake::complete]. *)
Definition half_complete (h : HalfHandshake) : Result (Session * list byte) :=
  '(inner, msg) ← map_err NoiseErr (hs_write_message (half_inner h) [] 256);
  if negb (is_handshake_finished inner)
  then Err (AuthErr "handshake unexpectedly incomplete after msg 2")
  else
    let packet := write_preamble [] Handshake2 (half_session_id h) ++ msg in
    t ← map_err NoiseErr (into_transport_mode inner);
    Ok (mkSession t (half_session_id h) None, packet).

Definition encode_packet (s : Session) (pt : PacketType) (ctr : Z) (plaintext : list byte) :
    Session * Result (list byte) :=
  let '(t, r) := write_message (transport s) plaintext MAX_PACKET_LEN in
  (mkSession t (sess_id s) (last_seen_counter s),
   ct ← map_err NoiseErr r;
   Ok (write_counter (write_preamble [] pt (sess_id s)) ctr ++ ct)).

Definition decode_packet (s : Session) (expected : PacketType) (v : PacketView) :
    Session * Result (list byte) :=
  if negb (bool_decide (packet_type v = expected)) then (s, Err (AuthErr "unexpected packet type"))
  else if negb (bool_decide (session_id v = sess_id s))
  then (s, Err (AuthErr "session id mismatch"))
  else
    match counter v with
    | None => (s, Err (MalformedPacket "post-handshake packet missing counter"))
    | Some ctr =>
        let proceed :=
          let t := set_receiving_nonce (transport s) ctr in
          let '(t, r) := read_message t (body v) MAX_PACKET_LEN in
          match r with
          | Err e => (mkSession t (sess_id s) (last_seen_counter s), Err (NoiseErr e))
          | Ok pt => (mkSession t (sess_id s) (Some ctr), Ok pt)
          end in
        match last_seen_counter s with
        | Some last => if ctr <=? last then (s, Err (Replay ctr last)) else proceed
        | None => proceed
        end
    end.

(** The [.map(|p| (counter, p))] every encoder ends with. *)
Definition with_counter (ctr : Z) (r : Session * Result (list byte)) :
    Session * Result (Z * list byte) := (fst r, (fun p => (ctr, p)) <$> snd r).

Definition encode_heartbeat (s : Session) (timestamp_ms flags : Z) :
    Session * Result (Z * list byte) :=
  let ctr := sending_nonce (transport s) in
  with_counter ctr (encode_packet s Heartbeat ctr (encode_heartbeat_plaintext timestamp_ms flags)).

Definition encode_heartbeat_ack (s : Session) (echoed_counter server_ts_ms : Z) :
    Session * Result (Z * list byte) :=
  let ctr := sending_nonce (transport s) in
  with_counter ctr
    (encode_packet s HeartbeatAck ctr (encode_heartbeat_ack_plaintext echoed_counter server_ts_ms)).

Definition encode_rekey (s : Session) : Session * Result (Z * list byte) :=
  let ctr := sending_nonce (transport s) in
  with_counter ctr (encode_packet s Rekey ctr []).

(** [view.counter.expect(..)]: only reached after [decode_packet] succeeded. *)
Definition expect_counter (v : PacketView) : Z := default 0 (counter v).

Definition decode_heartbeat (s : Session) (v : PacketView) : Session * Result DecodedHeartbeat :=
  let '(s, r) := decode_packet s Heartbeat v in
  (s, pt ← r; '(ts, fl) ← decode_heartbeat_plaintext pt;
      Ok (mkDecodedHeartbeat (expect_counter v) ts fl)).

Definition decode_heartbeat_ack (s : Session) (v : PacketView) :
    Session * Result DecodedHeartbeatAck :=
  let '(s, r) := decode_packet s HeartbeatAck v in
  (s, pt ← r; '(ec, ts) ← decode_heartbeat_ack_plaintext pt;
      Ok (mkDecodedHeartbeatAck (expect_counter v) ec ts)).

Definition decode_rekey (s : Session) (v : PacketView) : Session * Result Z :=
  let '(s, r) := decode_packet s Rekey v in
  (s, pt ← r;
      match pt with
      | [] => Ok (expect_counter v)
      | _ => Err (MalformedPacket "rekey payload must be empty")
      end).

Context `{!Postcard ControlEnvelope} `{!Postcard ControlAck}.

Definition encode_control (s : Session) (e : ControlEnvelope) : Session * Result (Z * list byte) :=
  let ctr := sending_nonce (transport s) in
  match to_allocvec e with
  | Err err => (s, Err (PostcardErr err))
  | Ok plaintext => with_counter ctr (encode_packet s Control ctr plaintext)
  end.

Definition encode_control_ack (s : Session) (a : ControlAck) : Session * Result (Z * list byte) :=
  let ctr := sending_nonce (transport s) in
  match to_allocvec a with
  | Err err => (s, Err (PostcardErr err))
  | Ok plaintext => with_counter ctr (encode_packet s ControlAckPkt ctr plaintext)
  end.

Definition decode_control (s : Session) (v : PacketView) : Session * Result ControlEnvelope :=
  let '(s, r) := decode_packet s Control v in
  (s, pt ← r; map_err PostcardErr (from_bytes pt)).

Definition decode_control_ack (s : Session) (v : PacketView) : Session * Result ControlAck :=
  let '(s, r) := decode_packet s ControlAckPkt v in
  (s, pt ← r; map_err PostcardErr (from_bytes pt)).

End Session.

(** ** Identity files *)

Section IdentityFacts.
Context `{Extern}.

Lemma from_to_identity_bytes kp :
  StaticKeyPair_wf kp -> from_identity_bytes (to_identity_bytes kp) = Ok kp.
Proof.
  destruct kp as [sk pk]. intros [Hs Hp]. unfold PubKey_wf in Hp. cbn in Hs, Hp.
  unfold to_identity_bytes, from_identity_bytes. cbn.
  rewrite zlen_app, Hs, Hp. cbn.
  assert (length sk = 32%nat) as Hl by (unfold zlen, X25519_SECRET_LEN in Hs; lia).
  change (Pos.to_nat 32) with 32%nat.
  by rewrite take_app_length', drop_app_length' by done.
Qed.

Lemma from_identity_bytes_inv b kp :
  from_identity_bytes b = Ok kp -> StaticKeyPair_wf kp /\ b = to_identity_bytes kp.
Proof.
  unfold from_identity_bytes. case_match eqn:Hlen; [done|]. apply Nat.ltb_ge in Hlen.
  case_bool_decide as Hm; [cbn|done].
  destruct (skipn _ b) as [|v [|a payload]] eqn:Hskip; [done..|].
  case_match eqn:Hv; [done|]. apply negb_false_iff, Z.eqb_eq in Hv.
  case_match eqn:Ha; [|done]. apply Z.eqb_eq in Ha.
  case_match eqn:Hp; [done|]. apply negb_false_iff, Z.eqb_eq in Hp.
  intros [= <-]. unfold zlen, X25519_SECRET_LEN, X25519_PUBLIC_LEN in Hp.
  split.
  - split; unfold PubKey_wf, zlen; cbn [raw_secret_bytes raw_bytes public_key];
      [rewrite length_take|rewrite length_drop];
      unfold X25519_SECRET_LEN, X25519_PUBLIC_LEN; lia.
  - unfold to_identity_bytes. rewrite take_drop.
    rewrite <- (take_drop 5 b) at 1. cbn in Hm. rewrite Hm, Hskip.
    cbn [app]. by rewrite <- Hv, <- Ha, !byte_of_to_Z.
Qed.

End IdentityFacts.

(** ** Sessions: replay protection *)

Section Replay.
Context `{Snow.Lib}.

Definition newer (last : option Z) (c : Z) : Prop := match last with Some l => l < c | None => True end.

Lemma decode_packet_ok s ex v s' pt :
  decode_packet s ex v = (s', Ok pt) ->
  exists c, counter v = Some c /\ packet_type v = ex /\ session_id v = sess_id s
            /\ newer (last_seen_counter s) c
            /\ last_seen_counter s' = Some c /\ sess_id s' = sess_id s.
Proof.
  unfold decode_packet. repeat case_bool_decide; cbn; [|done..].
  destruct (counter v) as [c|]; [|done].
  destruct (last_seen_counter s) as [l|]; cbn; [case_match eqn:Hl; [done|]|];
    (destruct (Snow.read_message _ _ _) as [t [p|e]]; [|done]); intros [= <- <-];
    exists c; cbn; repeat split; try done; lia.
Qed.

Lemma decode_packet_err s ex v s' e :
  decode_packet s ex v = (s', Err e) ->
  last_seen_counter s' = last_seen_counter s /\ sess_id s' = sess_id s.
Proof.
  unfold decode_packet. repeat case_bool_decide; cbn; [|by intros [= <- _]..].
  destruct (counter v) as [c|]; [|by intros [= <- _]].
  destruct (last_seen_counter s) as [l|] eqn:Hs; cbn; [case_match eqn:Hl; [by intros [= <- _]|]|];
    (destruct (Snow.read_message _ _ _) as [t [p|?]]; [done|]); by intros [= <- _].
Qed.

Lemma encode_packet_last_seen s pt c p :
  last_seen_counter (fst (encode_packet s pt c p)) = last_seen_counter s
  /\ sess_id (fst (encode_packet s pt c p)) = sess_id s.
Proof. unfold encode_packet. by destruct (Snow.write_message _ _ _) as [t [?|?]]. Qed.

(** What a successful encode puts on the wire. *)
Lemma encode_packet_ok s pt c p s' w :
  encode_packet s pt c p = (s', Ok w) ->
  exists t ct, Snow.write_message (transport s) p MAX_PACKET_LEN = (t, Ok ct)
    /\ s' = mkSession t (sess_id s) (last_seen_counter s)
    /\ w = write_packet (mkPacketView pt (sess_id s) (Some c) ct).
Proof.
  unfold encode_packet. destruct (Snow.write_message _ _ _) as [t [ct|e]]; [|done].
  cbn [map_err mbind result_bind]. intros [= <- <-]. by exists t, ct.
Qed.

Context `{!Postcard ControlEnvelope} `{!Postcard ControlAck}.

(** The public operations of a session. *)
Inductive SessionOp :=
  | EncHeartbeat (timestamp_ms flags : Z)
  | EncHeartbeatAck (echoed_counter server_ts_ms : Z)
  | EncRekey
  | EncControl (e : ControlEnvelope)
  | EncControlAck (a : ControlAck)
  | DecHeartbeat (v : PacketView)
  | DecHeartbeatAck (v : PacketView)
  | DecRekey (v : PacketView)
  | DecControl (v : PacketView)
  | DecControlAck (v : PacketView).

(** One operation, with the view it accepted, if it was a decode that
    returned [Ok]. *)
Definition accepted {A} (v : PacketView) (r : Session * Result A) : Session * option PacketView :=
  (fst r, if is_ok (snd r) then Some v else None).

Definition session_step (s : Session) (op : SessionOp) : Session * option PacketView :=
  match op with
  | EncHeartbeat ts fl => (fst (encode_heartbeat s ts fl), None)
  | EncHeartbeatAck ec ts => (fst (encode_heartbeat_ack s ec ts), None)
  | EncRekey => (fst (encode_rekey s), None)
  | EncControl e => (fst (encode_control s e), None)
  | EncControlAck a => (fst (encode_control_ack s a), None)
  | DecHeartbeat v => accepted v (decode_heartbeat s v)
  | DecHeartbeatAck v => accepted v (decode_heartbeat_ack s v)
  | DecRekey v => accepted v (decode_rekey s v)
  | DecControl v => accepted v (decode_control s v)
  | DecControlAck v => accepted v (decode_control_ack s v)
  end.

(** The views a session accepts over a sequence of operations, in order. *)
Fixpoint session_run (s : Session) (ops : list SessionOp) : Session * list PacketView :=
  match ops with
  | [] => (s, [])
  | op :: ops' =>
      let '(s1, a) := session_step s op in
      let '(s2, l) := session_run s1 ops' in
      (s2, match a with Some v => v :: l | None => l end)
  end.

(** A step either accepts a view newer than everything seen and records it,
    or accepts nothing; [last_seen_counter] never goes back. *)
Definition step_ok (s s' : Session) (a : option PacketView) : Prop :=
  sess_id s' = sess_id s
  /\ match a with
     | Some v => exists c, counter v = Some c /\ session_id v = sess_id s
                           /\ newer (last_seen_counter s) c /\ last_seen_counter s' = Some c
     | None => forall c, newer (last_seen_counter s') c -> newer (last_seen_counter s) c
     end.

Lemma decode_step_ok {A} s ex v (k : list byte -> Result A) s' r :
  decode_packet s ex v = (s', r) ->
  step_ok s s' (if is_ok (r ≫= k) then Some v else None).
Proof.
  unfold step_ok. destruct r as [pt|e]; cbn; intros Hd.
  - apply decode_packet_ok in Hd as (c & Hc & _ & Hsid & Hn & Hl & Hid).
    split; [done|]. destruct (is_ok (k pt)); [by exists c|].
    intros c'. rewrite Hl. cbn. intros Hc'. destruct (last_seen_counter s); cbn in *; [lia|done].
  - apply decode_packet_err in Hd as [-> ->]. done.
Qed.

Lemma encode_step_ok s pt c p : step_ok s (fst (encode_packet s pt c p)) None.
Proof. unfold step_ok. destruct (encode_packet_last_seen s pt c p) as [-> ->]. done. Qed.

Lemma session_step_ok s op s' a : session_step s op = (s', a) -> step_ok s s' a.
Proof.
  destruct op; cbn; unfold accepted, encode_control, encode_control_ack;
    try (case_match; cbn; [|by intros [= <- <-]]); try (intros [= <- <-]; apply encode_step_ok);
    unfold decode_heartbeat, decode_heartbeat_ack, decode_rekey, decode_control, decode_control_ack;
    destruct (decode_packet _ _ _) as [s1 r] eqn:Hd; cbn; intros [= <- <-];
    by eapply decode_step_ok.
Qed.

Lemma newer_trans last c d : newer last c -> c < d -> newer last d.
Proof. destruct last; cbn; lia. Qed.

Lemma session_run_counters s ops s' vs :
  session_run s ops = (s', vs) ->
  exists cs, Forall2 (fun v c => counter v = Some c) vs cs
             /\ StronglySorted Z.lt cs /\ Forall (newer (last_seen_counter s)) cs
             /\ Forall (fun v => session_id v = sess_id s) vs.
Proof.
  revert s vs; induction ops as [|op ops IH]; intros s vs; cbn.
  { intros [= <- <-]. exists []. repeat constructor. }
  destruct (session_step s op) as [s1 a] eqn:Hstep.
  destruct (session_run s1 ops) as [s2 l] eqn:Hrun. intros [= <- <-].
  apply session_step_ok in Hstep as [Hid Ha].
  destruct (IH _ _ Hrun) as (cs & Hcs & Hsort & Hnew & Hsid). rewrite Hid in Hsid.
  destruct a as [v|].
  - destruct Ha as (c & Hc & Hv & Hn & Hl). rewrite Hl in Hnew. cbn in Hnew.
    exists (c :: cs). repeat constructor; try done.
    eapply Forall_impl; [exact Hnew|]. intros d Hd. by eapply newer_trans.
  - exists cs. split_and!; try done. eapply Forall_impl; [exact Hnew|]. apply Ha.
Qed.

End Replay.

(** ** Sessions: delivery *)

Section Delivery.
Context `{Snow.Laws}.
Import Snow.

(** Receiver [r] is ready for what sender [s] emits next. *)
Definition in_step (s r : Session) : Prop :=
  paired (transport s) (transport r) /\ sess_id s = sess_id r
  /\ newer (last_seen_counter r) (sending_counter s).

(** Encode, parse at the other end, decode. *)
Lemma encode_decode_packet s r pt p s' w :
  in_step s r -> has_counter pt = true ->
  encode_packet s pt (sending_counter s) p = (s', Ok w) ->
  exists v r', parse w = Ok v /\ packet_type v = pt /\ counter v = Some (sending_counter s)
    /\ decode_packet r pt v = (r', Ok p)
    /\ in_step s' r'
    /\ sending_nonce (transport r') = sending_nonce (transport r).
Proof.
  intros (Hp & Hid & Hn) Hpt (t & ct & Hw & -> & ->)%encode_packet_ok.
  set (v := mkPacketView pt (sess_id s) (Some (sending_counter s)) ct).
  assert (view_wf v) as Hwf by (split; [done|apply sending_nonce_fits]).
  exists v. rewrite (parse_write_packet v Hwf).
  assert (zlen p <= MAX_PACKET_LEN) as Hlen.
  { pose proof (write_bound _ _ _ _ _ Hw). pose proof (write_length _ _ _ _ _ Hw). lia. }
  pose proof (read_write _ _ _ _ _ _ _ Hp Hw Hlen) as Hr.
  pose proof (read_paired _ _ ct MAX_PACKET_LEN
                (set_nonce_paired _ _ (sending_counter s) (write_paired _ _ p MAX_PACKET_LEN Hp))) as Hp'.
  pose proof (read_nonce (set_receiving_nonce (transport r) (sending_counter s)) ct MAX_PACKET_LEN) as Hrn.
  rewrite set_nonce_nonce in Hrn. rewrite Hw in Hp'. cbn [fst] in Hp'.
  unfold decode_packet. cbn [v packet_type session_id counter body].
  rewrite !bool_decide_true by done. cbn [negb].
  fold (sending_counter s) in Hr.
  destruct (read_message (set_receiving_nonce (transport r) (sending_counter s)) ct MAX_PACKET_LEN)
    as [t' res]. cbn in Hr, Hp', Hrn. subst res.
  exists (mkSession t' (sess_id r) (Some (sending_counter s))).
  split; [done|]. split; [done|]. split; [done|]. split; [|split; [|done]].
  - destruct (last_seen_counter r) as [l|]; [|done]. cbn in Hn.
    by rewrite (proj2 (Z.leb_gt _ _)).
  - repeat split; cbn; try done. unfold sending_counter; cbn.
    rewrite (write_nonce _ _ _ _ _ Hw). lia.
Qed.

(** Sender-side: encode a list of payloads one after another. *)
Fixpoint emit_all (s : Session) (msgs : list (PacketType * list byte)) :
    option (list (PacketType * list byte * list byte)) :=
  match msgs with
  | [] => Some []
  | (pt, p) :: msgs' =>
      match encode_packet s pt (sending_counter s) p with
      | (s', Ok w) => es ← emit_all s' msgs'; Some ((pt, p, w) :: es)
      | (_, Err _) => None
      end
  end.

(** Receiver-side: parse and decode packets one after another. *)
Fixpoint receive_all (r : Session) (ws : list (PacketType * list byte)) : list (Result (list byte)) :=
  match ws with
  | [] => []
  | (pt, w) :: ws' =>
      match parse w with
      | Err e => Err e :: receive_all r ws'
      | Ok v => let '(r', res) := decode_packet r pt v in res :: receive_all r' ws'
      end
  end.

Lemma in_step_skip s r pt p s' w :
  in_step s r -> encode_packet s pt (sending_counter s) p = (s', Ok w) -> in_step s' r.
Proof.
  intros (Hp & Hid & Hn) (t & ct & Hw & -> & ->)%encode_packet_ok. pose proof (write_paired _ _ p MAX_PACKET_LEN Hp) as Hp'.
  rewrite Hw in Hp'. repeat split; try done. cbn.
  eapply newer_trans; [exact Hn|]. unfold sending_counter; cbn.
  rewrite (write_nonce _ _ _ _ _ Hw). lia.
Qed.

Lemma receive_sublist msgs s r es kept :
  in_step s r -> Forall (fun m => has_counter (fst m) = true) msgs ->
  emit_all s msgs = Some es -> kept `sublist_of` es ->
  receive_all r ((fun '(pt, _, w) => (pt, w)) <$> kept) = (fun '(_, p, _) => Ok p) <$> kept.
Proof.
  revert s r es kept; induction msgs as [|[pt p] msgs IH]; intros s r es kept Hin Hpts; cbn.
  { intros [= <-] ->%sublist_nil_r. done. }
  apply Forall_cons_iff in Hpts as [Hpt Hpts]; cbn in Hpt.
  destruct (encode_packet s pt (sending_counter s) p) as [s' [w|]] eqn:Henc; [|done].
  destruct (emit_all s' msgs) as [es'|] eqn:Hes; [|done]. cbn. intros [= <-].
  rewrite sublist_cons_r. intros [Hk|(kept' & -> & Hk)].
  - eapply (IH s'); [by eapply in_step_skip|done..].
  - destruct (encode_decode_packet _ _ _ _ _ _ Hin Hpt Henc)
      as (v & r' & Hv & _ & _ & Hd & Hin' & _).
    cbn. rewrite Hv, Hd. f_equal. by eapply (IH s').
Qed.

End Delivery.

Section Bounds.
Context `{Snow.Laws}.
Import Snow.

Lemma zlen_write_packet v c :
  counter v = Some c -> zlen (write_packet v) = PREAMBLE_LEN + COUNTER_LEN + zlen (body v).
Proof.
  intros Hc. unfold write_packet, write_counter, write_preamble. rewrite Hc.
  rewrite !zlen_app, zlen_to_be. unfold zlen, PREAMBLE_LEN, COUNTER_LEN. cbn [length sid_bytes]. lia.
Qed.

(** The encoder's capacity: its scratch buffer is [MAX_PACKET_LEN] bytes. *)
Lemma encode_packet_capacity s pt c p :
  sending_counter s < 2 ^ 64 - 1 ->
  (exists s' w, encode_packet s pt c p = (s', Ok w))
  <-> zlen p <= MAX_CONTROL_PLAINTEXT_LEN + PREAMBLE_LEN + COUNTER_LEN.
Proof.
  intros Hn. split.
  - intros (s' & w & (t & ct & Hw & _)%encode_packet_ok).
    pose proof (write_bound _ _ _ _ _ Hw). pose proof (write_length _ _ _ _ _ Hw).
    unfold MAX_PACKET_LEN, AEAD_TAG_LEN in *. lia.
  - intros Hp. unfold encode_packet.
    destruct (write_total (transport s) p MAX_PACKET_LEN) as (t & ct & ->); [..|by eauto].
    + unfold MAX_PACKET_LEN, AEAD_TAG_LEN. lia.
    + unfold MAX_CONTROL_PLAINTEXT_LEN, PREAMBLE_LEN, COUNTER_LEN in Hp. lia.
    + done.
Qed.

Lemma encode_packet_length s pt c p s' w :
  encode_packet s pt c p = (s', Ok w) ->
  zlen w = zlen p + PREAMBLE_LEN + COUNTER_LEN + AEAD_TAG_LEN.
Proof.
  intros (t & ct & Hw & _ & ->)%encode_packet_ok.
  rewrite (zlen_write_packet _ c) by done. cbn [body].
  rewrite (write_length _ _ _ _ _ Hw). unfold AEAD_TAG_LEN. lia.
Qed.

End Bounds.

(** ** Properties *)

Module AuthProps.

(** C1: Replay protection.  Whatever interleaving of encodes and decodes of
    arbitrary inbound views a session processes, the views whose decode
    returned [Ok] carry the session's id and strictly increasing counters,
    all above the [last_seen_counter] it started with; so no packet is ever
    accepted twice. *)
Theorem session_replay_protection `{Snow.Lib} `{!Postcard ControlEnvelope} `{!Postcard ControlAck}
    (s : Session) (ops : list SessionOp) :
  exists cs,
    Forall2 (fun v c => counter v = Some c) (snd (session_run s ops)) cs
    /\ StronglySorted Z.lt cs
    /\ Forall (newer (last_seen_counter s)) cs
    /\ Forall (fun v => session_id v = sess_id s) (snd (session_run s ops)).
Proof. destruct (session_run s ops) as [s' vs] eqn:Hrun. by eapply session_run_counters. Qed.

(** A packet that is rejected leaves the replay window alone, and one that
    is accepted moves it exactly to that packet's counter. *)
Theorem decode_packet_window `{Snow.Lib} (s : Session) (ex : PacketType) (v : PacketView) :
  last_seen_counter (fst (decode_packet s ex v))
  = if is_ok (snd (decode_packet s ex v)) then counter v else last_seen_counter s.
Proof.
  destruct (decode_packet s ex v) as [s' [pt|e]] eqn:Hd; cbn.
  - apply decode_packet_ok in Hd as (c & -> & _ & _ & _ & -> & _). done.
  - by apply decode_packet_err in Hd as [-> _].
Qed.

(** In-order delivery with loss.  For a sender and receiver whose ciphers
    are paired, any subsequence of the packets the sender emits, delivered in
    order, is accepted packet for packet and decrypts to the plaintexts that
    were sent. *)
Theorem lossy_in_order_delivery `{Snow.Laws} (s r : Session)
    (msgs : list (PacketType * list byte)) es kept :
  in_step s r -> Forall (fun m => has_counter (fst m) = true) msgs ->
  emit_all s msgs = Some es -> kept `sublist_of` es ->
  receive_all r ((fun '(pt, _, w) => (pt, w)) <$> kept) = (fun '(_, p, _) => Ok p) <$> kept.
Proof. apply receive_sublist. Qed.

Definition demo_session : Session := mkSession (mkDemoTransport 0 0) (mkSessionId "001" "002" "003" "004") None.
Definition demo_msgs : list (PacketType * list byte) :=
  [(Heartbeat, encode_heartbeat_plaintext 7 1); (Rekey, []); (Control, Str.to_bytes "abc")].

Lemma lossy_in_order_delivery_witness :
  exists es, emit_all demo_session demo_msgs = Some es
  /\ receive_all demo_session ((fun '(pt, _, w) => (pt, w)) <$> tail es)
     = [Ok []; Ok (Str.to_bytes "abc")].
Proof.
  eexists. split; [vm_compute; reflexivity|].
  refine (lossy_in_order_delivery demo_session demo_session demo_msgs _ _ _ _ _ _).
  - by repeat split.
  - by repeat constructor.
  - vm_compute. reflexivity.
  - cbn [tail]. apply sublist_cons, sublist_inserts_l with (k := []). reflexivity.
Defined.

(** C39: A control envelope survives the whole path: serialise, encrypt, frame,
    parse the frame, decrypt, deserialise; and the pair is ready for the next
    one. *)
Theorem control_roundtrip `{Snow.Laws} `{!Postcard ControlEnvelope, !Postcard ControlAck}
    `{!PostcardLaws ControlEnvelope} (s r s' : Session) (e : ControlEnvelope) c w :
  in_step s r -> encode_control s e = (s', Ok (c, w)) ->
  exists v r', parse w = Ok v /\ decode_control r v = (r', Ok e) /\ in_step s' r'.
Proof.
  intros Hin. unfold encode_control, decode_control.
  destruct (to_allocvec e) as [p|] eqn:Hp; [|done].
  unfold with_counter. destruct (encode_packet s Control _ p) as [s1 [w1|]] eqn:He; [|done].
  cbn. intros [= <- _ <-].
  destruct (encode_decode_packet _ _ Control _ _ _ Hin eq_refl He)
    as (v & r' & Hv & _ & _ & Hd & Hin' & _).
  exists v, r'. rewrite Hd. cbn. by rewrite (from_to_allocvec _ _ Hp).
Qed.

Definition demo_envelope : ControlEnvelope := mkEnvelope 3 2 (Str.to_bytes "xyz").
Definition demo_encoded : Session * Result (Z * list byte) :=
  Eval vm_compute in encode_control demo_session demo_envelope.

Lemma control_roundtrip_witness :
  exists s' c w v r',
    encode_control demo_session demo_envelope = (s', Ok (c, w))
    /\ parse w = Ok v /\ decode_control demo_session v = (r', Ok demo_envelope).
Proof.
  assert (encode_control demo_session demo_envelope = demo_encoded) as He
    by vm_cast_no_check (eq_refl demo_encoded).
  destruct (control_roundtrip demo_session demo_session _ demo_envelope _ _
              ltac:(by repeat split) He) as (v & r' & Hv & Hd & _).
  exact (ex_intro _ _ (ex_intro _ _ (ex_intro _ _ (ex_intro _ v (ex_intro _ r' (conj He (conj Hv Hd))))))).
Defined.

(** Identity files.  [from_identity_bytes] accepts exactly the bytes
    [to_identity_bytes] writes for a key pair of the right sizes, and gives
    that key pair back. *)
Theorem identity_file_exact `{Extern} (b : list byte) (kp : StaticKeyPair) :
  from_identity_bytes b = Ok kp <-> StaticKeyPair_wf kp /\ b = to_identity_bytes kp.
Proof.
  split; [apply from_identity_bytes_inv|]. intros [Hwf ->]. by apply from_to_identity_bytes.
Qed.

(** What the encoder accepts.  While the nonce is not exhausted a payload
    is encoded exactly when it is at most 13 bytes over
    [MAX_CONTROL_PLAINTEXT_LEN], and the packet outgrows [MAX_PACKET_LEN], the
    size every receive buffer has, exactly when the payload is over
    [MAX_CONTROL_PLAINTEXT_LEN]. *)
Theorem encode_packet_bounds `{Snow.Laws} (s : Session) pt c p :
  sending_counter s < 2 ^ 64 - 1 ->
  ((exists s' w, encode_packet s pt c p = (s', Ok w))
   <-> zlen p <= MAX_CONTROL_PLAINTEXT_LEN + 13)
  /\ (forall s' w, encode_packet s pt c p = (s', Ok w) ->
      (MAX_PACKET_LEN < zlen w <-> MAX_CONTROL_PLAINTEXT_LEN < zlen p)).
Proof.
  intros Hn. split; [rewrite encode_packet_capacity by done; unfold PREAMBLE_LEN, COUNTER_LEN; lia|].
  intros s' w Hw%encode_packet_length. unfold MAX_PACKET_LEN. lia.
Qed.

Lemma encode_packet_bounds_witness :
  exists s' w, encode_packet demo_session Control 0 (replicate 17421 "000"%byte) = (s', Ok w)
               /\ MAX_PACKET_LEN < zlen w.
Proof.
  destruct (encode_packet_bounds demo_session Control 0 (replicate 17421 "000"%byte)) as [H1 H2].
  - by vm_compute.
  - destruct (proj2 H1) as (s' & w & Hw); [vm_compute; discriminate|].
    exists s', w. split; [exact Hw|]. apply (H2 s' w Hw). by vm_compute.
Defined.

End AuthProps.
