(* ===== verification/Rule.v ===== *)
(** * Rules and routes ([ratatoskr/src/rule/])

    [Target::parse], the per-rule and per-route validators, and the shared
    DNS-name and header checks. *)

From S2P Require Import Prelude RustStd External RuleTypes Error.

(** ** Targets *)

Inductive Target :=
  | Static (addr : Net.SocketAddr)
  | Dns (host : string) (port : Z).

#[global] Instance Target_eq_dec : EqDecision Target.
Proof. solve_decision. Defined.

Definition target_port_of (t : Target) : Z :=
  match t with Static addr => Net.port addr | Dns _ port => port end.

(** [bytes[bytes.len() - 1]], on a non-empty label. *)
Definition last_byte (l : list ascii) : option ascii := last l.

Definition is_valid_label (label : string) : bool :=
  if Str.is_empty label || (63 <? String.length label)%nat then false
  else
    match head (Str.to_list label), last_byte (Str.to_list label) with
    | Some f, Some l =>
        if negb (Str.is_ascii_alphanumeric f) || negb (Str.is_ascii_alphanumeric l) then false
        else Str.all_bytes (fun b => Str.is_ascii_alphanumeric b || bool_decide (b = "-"%char)) label
    | _, _ => false
    end.

Definition is_valid_dns_hostname (s0 : string) : bool :=
  let s := Str.strip_suffix_or "."%char s0 in
  if Str.is_empty s || (253 <? String.length s)%nat then false
  else forallb is_valid_label (Str.split "."%char s).

Definition target_parse (s : string) : result TargetReason Target :=
  match Net.parse_socket_addr s with
  | Some addr => if Net.port addr =? 0 then Err (TargetPortZero s) else Ok (Static addr)
  | None =>
      '(host, port_str) ← ok_or (TargetNoColon s) (Str.rsplit_once ":"%char s);
      if Str.is_empty host then Err (TargetEmptyHost s)
      else
        port ← ok_or (TargetBadPort s port_str) (Str.parse_uint 16 port_str);
        if port =? 0 then Err (TargetPortZero s)
        else if negb (is_valid_dns_hostname host) then Err (TargetBadHost s host)
        else Ok (Dns host port)
  end.

(** ** Rules *)

Record Rule := mkRule {
  name : string;
  listen : Net.SocketAddr;
  protocol : Protocol;
  target_port : option Z;
  target : option string;
  idle_timeout : option Z;
  proxy_protocol : option ProxyProto
}.

#[global] Instance Rule_eq_dec : EqDecision Rule.
Proof. solve_decision. Defined.

Definition DEFAULT_UDP_IDLE_TIMEOUT : Z := Time.from_secs 60.

Definition resolved_idle_timeout (r : Rule) : Z := default DEFAULT_UDP_IDLE_TIMEOUT (idle_timeout r).

Definition same_family (a b : Net.IpAddr) : bool :=
  match a, b with
  | Net.IpV4 _, Net.IpV4 _ | Net.IpV6 _, Net.IpV6 _ => true
  | _, _ => false
  end.

Definition with_bind_override (r : Rule) (bind_ip : option Net.IpAddr) : Rule :=
  match bind_ip with
  | None => r
  | Some i =>
      let cur_ip := Net.ip (listen r) in
      if negb (Net.is_unspecified cur_ip) || negb (same_family cur_ip i) then r
      else mkRule (name r) (Net.SocketAddr_new i (Net.port (listen r))) (protocol r)
                  (target_port r) (target r) (idle_timeout r) (proxy_protocol r)
  end.

Section RuleValidate.
Context `{Extern}.

Definition validate_l4 (r : Rule) : Result unit :=
  _ ← match target_port r, target r with
      | Some _, Some _ => Err (InvalidRule (RuleBothTargets (name r)))
      | None, None => Err (InvalidRule (RuleNoTarget (name r)))
      | Some p, None =>
          if p =? 0 then Err (InvalidRule (RuleTargetPortZero (name r))) else Ok tt
      | None, Some s =>
          _ ← map_err (fun d => InvalidRule (RuleBadTarget (name r) d)) (target_parse s);
          Ok tt
      end;
  if bool_decide (is_Some (target r)) && bool_decide (is_Some (proxy_protocol r))
  then Err (InvalidRule (RuleProxyOnTerminal (name r)))
  else
    match protocol r with
    | Tcp =>
        if bool_decide (is_Some (idle_timeout r))
        then Err (InvalidRule (RuleIdleTimeoutOnTcp (name r))) else Ok tt
    | Udp =>
        if bool_decide (proxy_protocol r = Some ProxyV1)
        then Err (InvalidRule (RuleProxyV1OnUdp (name r))) else Ok tt
    | Https => Ok tt (* unreachable: dispatched in [rule_validate] *)
    end.

Definition rule_validate (r : Rule) : Result unit :=
  if Str.is_empty (name r) then Err (InvalidRule RuleNameEmpty)
  else if existsb (fun c => Str.is_whitespace c || Str.is_control c) (Str.chars (name r))
  then Err (InvalidRule (RuleNameBadChars (name r)))
  else if Net.port (listen r) =? 0 then Err (InvalidRule (RuleListenPortZero (name r)))
  else
    match protocol r with
    | Tcp | Udp => validate_l4 r
    | Https => Err (InvalidRule (RuleHttpsProtocol (name r)))
    end.

End RuleValidate.

(** ** HTTPS routes *)

Section Route.
Context `{UrlLib}.

(** [headers] lists the entries of the [BTreeMap] in key order. *)
Record HttpRoute := mkRoute {
  hostname : string;
  route_target : Url;
  hsts : option HstsConfig;
  headers : list (string * string)
}.

#[global] Instance HttpRoute_eq_dec : EqDecision HttpRoute.
Proof. solve_decision. Defined.

End Route.

Definition RESERVED : list string :=
  [ "connection"; "keep-alive"; "proxy-authenticate"; "proxy-authorization"; "te"; "trailer";
    "transfer-encoding"; "upgrade";
    "strict-transport-security"; "alt-svc";
    "x-forwarded-for"; "x-forwarded-proto"; "x-forwarded-protocol"; "x-forwarded-host";
    "x-forwarded-port"; "x-real-ip"; "forwarded" ].

Definition reserved_static_header (nm : string) : bool :=
  let lower := Str.to_ascii_lowercase nm in
  existsb (fun r => bool_decide (r = lower)) RESERVED.

Definition is_token_byte (b : ascii) : bool :=
  bool_decide (b ∈ ["!"; "#"; "$"; "%"; "&"; "'"; "*"; "+"; "-"; "."; "^"; "_"; "`"; "|"; "~"]%char)
  || Str.is_ascii_digit b || Str.is_ascii_upper b || Str.is_ascii_lower b.

Definition is_field_value_byte (b : ascii) : bool :=
  (Str.code b =? 9) || (0x20 <=? Str.code b) && (Str.code b <=? 0x7E).

Section RouteValidate.
Context `{Extern} `{UrlLib}.

Definition validate_static_header (rule_name host nm value : string) : Result unit :=
  if Str.is_empty nm then Err (InvalidRule (HeaderNameEmpty rule_name host))
  else if negb (Str.all_bytes is_token_byte nm)
  then Err (InvalidRule (HeaderNameInvalid rule_name host nm))
  else if reserved_static_header nm then Err (InvalidRule (HeaderReserved rule_name host nm))
  else if negb (Str.all_bytes is_field_value_byte value)
  then Err (InvalidRule (HeaderValueInvalid rule_name host nm))
  else Ok tt.

Definition validate_http_route (rule_name : string) (route : HttpRoute) : Result unit :=
  if Str.is_empty (hostname route) then Err (InvalidRule (RouteHostnameEmpty rule_name))
  else if negb (is_valid_dns_hostname (hostname route))
  then Err (InvalidRule (RouteHostnameInvalid rule_name (hostname route)))
  else if negb (bool_decide (url_scheme (route_target route) = "http"))
  then Err (InvalidRule (RouteBadScheme rule_name (hostname route) (url_scheme (route_target route))))
  else if bool_decide (url_host_str (route_target route) = None)
  then Err (InvalidRule (RouteNoHost rule_name (hostname route)))
  else if bool_decide (url_port_or_known_default (route_target route) = None)
  then Err (InvalidRule (RouteNoPort rule_name (hostname route)))
  else try_each (fun '(nm, v) => validate_static_header rule_name (hostname route) nm v) (headers route).

(** ** Rule files *)

Record RuleFile := mkRuleFile { file_rule : list Rule; file_route : list HttpRoute }.

Definition validate_each (f : RuleFile) : Result unit :=
  _ ← try_each rule_validate (file_rule f);
  try_each (validate_http_route "<route>") (file_route f).

End RouteValidate.

(** ** What the validators accept *)

(** A rule the runtime can use, stated without the code's control flow. *)
Record rule_valid (r : Rule) : Prop := {
  valid_name : name r <> "";
  valid_name_chars : Forall (fun c => Str.is_whitespace c = false /\ Str.is_control c = false)
                            (Str.chars (name r));
  valid_listen : Net.port (listen r) <> 0;
  valid_l4 : protocol r = Tcp \/ protocol r = Udp;
  valid_dest :
    (exists p, target_port r = Some p /\ p <> 0 /\ target r = None)
    \/ (exists s t, target_port r = None /\ target r = Some s /\ target_parse s = Ok t
                    /\ proxy_protocol r = None);
  valid_tcp : protocol r = Tcp -> idle_timeout r = None;
  valid_udp : protocol r = Udp -> proxy_protocol r <> Some ProxyV1
}.

Section RuleFacts.
Context `{Extern}.

Lemma existsb_false_Forall {A} (f : A -> bool) l :
  existsb f l = false <-> Forall (fun x => f x = false) l.
Proof.
  induction l as [|x l IH]; cbn; [split; auto|].
  rewrite orb_false_iff, IH. by rewrite Forall_cons_iff.
Qed.

Lemma validate_l4_ok r :
  validate_l4 r = Ok tt <->
  ((exists p, target_port r = Some p /\ p <> 0 /\ target r = None)
   \/ (exists s t, target_port r = None /\ target r = Some s /\ target_parse s = Ok t
                   /\ proxy_protocol r = None))
  /\ (protocol r = Tcp -> idle_timeout r = None)
  /\ (protocol r = Udp -> proxy_protocol r <> Some ProxyV1).
Proof.
  unfold validate_l4.
  destruct (target_port r) as [p|], (target r) as [s|]; cbn.
  - split; [done|]. intros [[(?&_&_&?)|(?&?&?&_)] _]; done.
  - destruct (p =? 0) eqn:Hp; cbn.
    + apply Z.eqb_eq in Hp as ->. split; [done|]. intros [[(?&[= <-]&?&_)|(?&?&?&_)] _]; done.
    + apply Z.eqb_neq in Hp.
      destruct (proxy_protocol r) as [[]|], (idle_timeout r), (protocol r); cbn; naive_solver.
  - destruct (target_parse s) as [t|] eqn:Ht; cbn.
    + destruct (proxy_protocol r), (idle_timeout r), (protocol r); cbn; naive_solver.
    + split; [done|]. intros [[(?&?&_)|(?&?&_&[= <-]&?&_)] _]; congruence.
  - split; [done|]. intros [[(?&?&_)|(?&?&_&?&_)] _]; done.
Qed.

Lemma rule_validate_valid r : rule_validate r = Ok tt <-> rule_valid r.
Proof.
  unfold rule_validate. split.
  - destruct (Str.is_empty (name r)) eqn:Hn; [done|]. apply Str.is_empty_false in Hn.
    destruct (existsb _ _) eqn:Hc; [done|]. apply existsb_false_Forall in Hc.
    destruct (_ =? 0) eqn:Hl; [done|]. apply Z.eqb_neq in Hl.
    intros Hv. assert (protocol r = Tcp \/ protocol r = Udp) as Hp by (destruct (protocol r); auto; done).
    assert (validate_l4 r = Ok tt) as (Hd & Ht & Hu)%validate_l4_ok by (by destruct (protocol r)).
    split; try done. eapply Forall_impl; [exact Hc|]. intros c. by rewrite orb_false_iff.
  - intros [Hn Hc Hl Hp Hd Ht Hu]. rewrite (proj2 (Str.is_empty_false _)) by done.
    rewrite (proj2 (existsb_false_Forall _ _)).
    2:{ eapply Forall_impl; [exact Hc|]. intros c. by rewrite orb_false_iff. }
    rewrite (proj2 (Z.eqb_neq _ _)) by done.
    assert (validate_l4 r = Ok tt) by (by apply validate_l4_ok). by destruct Hp as [->| ->].
Qed.

End RuleFacts.

