(* ===== verification/RuleSet.v ===== *)
(** * The validated rule set and its reload diff ([ratatoskr/src/rule/set.rs]) *)

From S2P Require Import Prelude RustStd External RuleTypes Error Instances Rule.

Record RuleChange := mkChange { change_old : Rule; change_new : Rule }.

Record RuleDiff := mkDiff {
  added : list Rule;
  removed : list Rule;
  changed : list RuleChange;
  unchanged : list string;
  routes_changed : bool
}.

Definition is_noop (d : RuleDiff) : bool :=
  bool_decide (added d = []) && bool_decide (removed d = [])
  && bool_decide (changed d = []) && negb (routes_changed d).

Definition touched (d : RuleDiff) : Z := zlen (added d) + zlen (removed d) + zlen (changed d).

#[global] Instance RuleChange_eq_dec : EqDecision RuleChange.
Proof. solve_decision. Defined.

Definition rule_le (a b : Rule) : Prop := Str.le (name a) (name b).
#[global] Instance rule_le_dec : RelDecision rule_le.
Proof. intros a b. unfold rule_le. apply _. Defined.

Section RuleSet.
Context `{Extern} `{UrlLib}.

Record RuleSet := mkRuleSet { rules : list Rule; routes : list HttpRoute }.

(** The [HashSet::insert] scan the name and hostname checks share. *)
Fixpoint check_unique {A} (key : A -> string) (dup : A -> RuleReason) (seen : gset string)
    (l : list A) : Result unit :=
  match l with
  | [] => Ok tt
  | x :: l' =>
      if bool_decide (key x ∈ seen) then Err (InvalidRule (dup x))
      else check_unique key dup ({[key x]} ∪ seen) l'
  end.

Definition check_names : list Rule -> Result unit :=
  check_unique name (fun r => DuplicateRuleName (name r)) ∅.

Fixpoint check_listens (listens : gmap Net.SocketAddr (list (string * Protocol)))
    (l : list Rule) : Result unit :=
  match l with
  | [] => Ok tt
  | r :: l' =>
      let existing := default [] (listens !! listen r) in
      match List.find (fun '(_, p) => bool_decide (protocol r = p)) existing with
      | Some (other, _) =>
          Err (InvalidRule (DuplicateListen (listen r) (protocol r) (name r) other))
      | None => check_listens (<[listen r := existing ++ [(name r, protocol r)]]> listens) l'
      end
  end.

Definition lc_hostname (r : HttpRoute) : string := Str.to_ascii_lowercase (hostname r).

Definition check_hosts : list HttpRoute -> Result unit :=
  check_unique lc_hostname (fun r => DuplicateRouteHostname (hostname r)) ∅.

Definition from_parts_unchecked_individuals (rs : list Rule) (ts : list HttpRoute) : Result RuleSet :=
  _ ← check_names rs;
  _ ← check_listens ∅ rs;
  _ ← check_hosts ts;
  Ok (mkRuleSet rs ts).

Definition from_files (files : list RuleFile) : Result RuleSet :=
  _ ← try_each validate_each files;
  from_parts_unchecked_individuals (files ≫= file_rule) (files ≫= file_route).

Definition from_rules (rs : list Rule) : Result RuleSet :=
  _ ← try_each rule_validate rs;
  from_parts_unchecked_individuals rs [].

Definition from_parts (rs : list Rule) (ts : list HttpRoute) : Result RuleSet :=
  _ ← try_each rule_validate rs;
  _ ← try_each (validate_http_route "<route>") ts;
  from_parts_unchecked_individuals rs ts.

Definition set_is_empty (s : RuleSet) : bool :=
  bool_decide (rules s = []) && bool_decide (routes s = []).

Definition find_rule (s : RuleSet) (nm : string) : option Rule :=
  List.find (fun r => bool_decide (name r = nm)) (rules s).

(** [iter().map(|r| (name, r)).collect::<HashMap>()]: a later entry wins. *)
Definition by_name (l : list Rule) : gmap string Rule :=
  foldl (fun m r => <[name r := r]> m) ∅ l.

(** One iteration of [diff]'s loop over the new rules. *)
Definition diff_step (st : gmap string Rule * RuleDiff) (n : Rule) : gmap string Rule * RuleDiff :=
  let '(old_by_name, d) := st in
  match old_by_name !! name n with
  | Some old =>
      (delete (name n) old_by_name,
       if bool_decide (old = n)
       then mkDiff (added d) (removed d) (changed d) (unchanged d ++ [name n]) (routes_changed d)
       else mkDiff (added d) (removed d) (changed d ++ [mkChange old n]) (unchanged d) (routes_changed d))
  | None =>
      (old_by_name,
       mkDiff (added d ++ [n]) (removed d) (changed d) (unchanged d) (routes_changed d))
  end.

Definition diff (old new : RuleSet) : RuleDiff :=
  let '(left_over, d) := foldl diff_step (by_name (rules old), mkDiff [] [] [] [] false) (rules new) in
  mkDiff (added d) (merge_sort rule_le (snd <$> map_to_list left_over))
         (changed d) (unchanged d) (negb (bool_decide (routes old = routes new))).

Definition as_initial_diff (s : RuleSet) : RuleDiff :=
  mkDiff (rules s) [] [] [] (negb (bool_decide (routes s = []))).

End RuleSet.

(** ** The rule-set invariant *)

Definition listen_claim (r : Rule) : Net.SocketAddr * Protocol := (listen r, protocol r).

Section RuleSetFacts.
Context `{Extern} `{UrlLib}.

Record rule_set_wf (s : RuleSet) : Prop := {
  wf_rules : Forall rule_valid (rules s);
  wf_routes : Forall (fun t => validate_http_route "<route>" t = Ok tt) (routes s);
  wf_names : NoDup (name <$> rules s);
  wf_listens : NoDup (listen_claim <$> rules s);
  wf_hosts : NoDup (lc_hostname <$> routes s)
}.

Lemma check_unique_ok {A} (key : A -> string) dup seen l :
  check_unique key dup seen l = Ok tt <-> NoDup (key <$> l) /\ Forall (fun x => key x ∉ seen) l.
Proof.
  revert seen; induction l as [|x l IH]; intros seen; cbn; [by repeat constructor|].
  rewrite NoDup_cons, Forall_cons_iff. case_bool_decide as Hx; [split; [done|by intros (_ & ? & _)]|].
  rewrite IH, list_elem_of_fmap. split.
  - intros [Hn Hf]. rewrite Forall_forall in Hf |- *.
    split_and!; [|done|done|]; [intros (y & Hy & Hin); set_solver|set_solver].
  - intros [[Hnx Hn] [_ Hf]]. split; [done|]. rewrite Forall_forall in Hf |- *.
    intros y Hy. rewrite not_elem_of_union, not_elem_of_singleton. naive_solver.
Qed.

Definition claimed (m : gmap Net.SocketAddr (list (string * Protocol))) (r : Rule) : Prop :=
  protocol r ∈ (default [] (m !! listen r)).*2.

Lemma find_proto_None (r : Rule) (l : list (string * Protocol)) :
  List.find (fun '(_, p) => bool_decide (protocol r = p)) l = None <-> protocol r ∉ l.*2.
Proof.
  induction l as [|[n p] l IH]; cbn; [set_solver|].
  case_bool_decide; [set_solver|]. rewrite IH. set_solver.
Qed.

Lemma claimed_insert m r x :
  claimed (<[listen r := default [] (m !! listen r) ++ [(name r, protocol r)]]> m) x
  <-> claimed m x \/ listen_claim x = listen_claim r.
Proof.
  unfold claimed, listen_claim. destruct (decide (listen x = listen r)) as [->|Hne].
  - rewrite lookup_insert_eq. cbn. rewrite fmap_app, elem_of_app. cbn.
    rewrite list_elem_of_singleton. split; (intros [?|Hp]; [by left|right]); congruence.
  - rewrite lookup_insert_ne by done. split; [by left|]. intros [?|Hp]; congruence.
Qed.

Lemma check_listens_ok m l :
  check_listens m l = Ok tt <-> NoDup (listen_claim <$> l) /\ Forall (fun r => ~ claimed m r) l.
Proof.
  revert m; induction l as [|r l IH]; intros m; cbn; [by repeat constructor|].
  rewrite NoDup_cons, Forall_cons_iff, list_elem_of_fmap.
  destruct (List.find _ _) as [[o p]|] eqn:Hf.
  - split; [done|]. intros [_ [Hc _]]. apply find_proto_None in Hc. by rewrite Hf in Hc.
  - apply find_proto_None in Hf. rewrite IH, !Forall_forall.
    setoid_rewrite claimed_insert. split.
    + intros [Hn Hc]. split_and!; [|done|done|intros x Hx Hm; apply (Hc x Hx); by left].
      intros (y & Hy & Hin). apply (Hc y Hin). by right.
    + intros [[Hr Hn] [_ Hc]]. split; [done|]. intros x Hx [Hm|Heq]; [by apply (Hc x Hx)|].
      apply Hr. by exists x.
Qed.

Lemma from_parts_unchecked_ok rs ts s :
  from_parts_unchecked_individuals rs ts = Ok s <->
  s = mkRuleSet rs ts /\ NoDup (name <$> rs) /\ NoDup (listen_claim <$> rs)
  /\ NoDup (lc_hostname <$> ts).
Proof.
  unfold from_parts_unchecked_individuals, check_names, check_hosts.
  rewrite result_bind_ok. setoid_rewrite result_bind_ok. setoid_rewrite result_bind_ok. split.
  - intros ([] & (Hn & _)%check_unique_ok & [] & (Hl & _)%check_listens_ok &
            [] & (Hh & _)%check_unique_ok & [= <-]). done.
  - intros (-> & Hn & Hl & Hh).
    exists tt; split; [apply check_unique_ok; split; [done|]; by apply Forall_true|].
    exists tt; split; [apply check_listens_ok; split; [done|]; apply Forall_true; intros r; unfold claimed; rewrite lookup_empty; set_solver|].
    exists tt; split; [apply check_unique_ok; split; [done|]; by apply Forall_true|]. done.
Qed.

Lemma try_rules_valid rs : try_each rule_validate rs = Ok tt <-> Forall rule_valid rs.
Proof. rewrite try_each_ok. apply Forall_iff. intros r. apply rule_validate_valid. Qed.

Lemma from_parts_ok rs ts s :
  from_parts rs ts = Ok s <-> s = mkRuleSet rs ts /\ rule_set_wf (mkRuleSet rs ts).
Proof.
  unfold from_parts. rewrite result_bind_ok. setoid_rewrite result_bind_ok.
  setoid_rewrite from_parts_unchecked_ok. split.
  - intros ([] & Hr%try_rules_valid & [] & Ht%try_each_ok & -> & ? & ? & ?). done.
  - intros [-> [Hr Ht ? ? ?]]. exists tt. rewrite try_rules_valid. split; [done|].
    exists tt. rewrite try_each_ok. done.
Qed.

Lemma from_rules_ok rs s :
  from_rules rs = Ok s <-> s = mkRuleSet rs [] /\ rule_set_wf (mkRuleSet rs []).
Proof. rewrite <- from_parts_ok. done. Qed.

Lemma validate_each_files files :
  try_each validate_each files = Ok tt <->
  Forall rule_valid (files ≫= file_rule)
  /\ Forall (fun t => validate_http_route "<route>" t = Ok tt) (files ≫= file_route).
Proof.
  rewrite try_each_ok. induction files as [|f fs IH]; cbn; [by repeat constructor|].
  rewrite Forall_cons_iff, IH, !Forall_app. unfold validate_each at 1.
  rewrite result_bind_ok, <- !try_rules_valid, <- !(try_each_ok (validate_http_route "<route>")). split.
  - intros [([] & ? & ?) [? ?]]. done.
  - intros [[? ?] [? ?]]. split; [by exists tt|done].
Qed.

Lemma from_files_ok files s :
  from_files files = Ok s <->
  s = mkRuleSet (files ≫= file_rule) (files ≫= file_route) /\ rule_set_wf s.
Proof.
  unfold from_files. rewrite result_bind_ok. setoid_rewrite from_parts_unchecked_ok. split.
  - intros ([] & [Hr Ht]%validate_each_files & -> & ? & ? & ?). done.
  - intros [-> [Hr Ht ? ? ?]]. exists tt. by rewrite validate_each_files.
Qed.

End RuleSetFacts.

(** ** The diff *)

Section Diff.
Context `{UrlLib}.

Lemma omap_ext_in {A B} (f g : A -> option B) (l : list A) :
  (forall x, x ∈ l -> f x = g x) -> omap f l = omap g l.
Proof.
  induction l as [|x l IH]; intros Hfg; [done|]. cbn.
  rewrite Hfg by set_solver. by rewrite IH by set_solver.
Qed.

(** Where a new rule lands, given the old rules by name. *)
Definition added_of (m : gmap string Rule) (n : Rule) : option Rule :=
  match m !! name n with None => Some n | Some _ => None end.
Definition changed_of (m : gmap string Rule) (n : Rule) : option RuleChange :=
  match m !! name n with
  | Some o => if bool_decide (o = n) then None else Some (mkChange o n)
  | None => None
  end.
Definition unchanged_of (m : gmap string Rule) (n : Rule) : option string :=
  match m !! name n with
  | Some o => if bool_decide (o = n) then Some (name n) else None
  | None => None
  end.

Lemma diff_loop new m d :
  NoDup (name <$> new) ->
  foldl diff_step (m, d) new
  = (foldl (fun m n => delete (name n) m) m new,
     mkDiff (added d ++ omap (added_of m) new) (removed d)
            (changed d ++ omap (changed_of m) new)
            (unchanged d ++ omap (unchanged_of m) new) (routes_changed d)).
Proof.
  revert m d; induction new as [|n new IH]; intros m d; cbn.
  { intros _. rewrite !app_nil_r. by destruct d. }
  intros [Hn Hnew]%NoDup_cons.
  assert (forall x, x ∈ new -> delete (name n) m !! name x = m !! name x) as Hdel.
  { intros x Hx. apply lookup_delete_ne. intros Heq. apply Hn. rewrite Heq. set_solver. }
  assert (omap (added_of (delete (name n) m)) new = omap (added_of m) new) as Ha
    by (apply omap_ext_in; intros x Hx; unfold added_of; by rewrite Hdel).
  assert (omap (changed_of (delete (name n) m)) new = omap (changed_of m) new) as Hc
    by (apply omap_ext_in; intros x Hx; unfold changed_of; by rewrite Hdel).
  assert (omap (unchanged_of (delete (name n) m)) new = omap (unchanged_of m) new) as Hu
    by (apply omap_ext_in; intros x Hx; unfold unchanged_of; by rewrite Hdel).
  change (added_of m n) with (match m !! name n with None => Some n | Some _ => None end).
  change (changed_of m n) with
    (o ← m !! name n; if bool_decide (o = n) then None else Some (mkChange o n)).
  change (unchanged_of m n) with
    (o ← m !! name n; if bool_decide (o = n) then Some (name n) else None).
  destruct (m !! name n) as [o|] eqn:Ho; cbn.
  - case_bool_decide; rewrite IH by done; cbn; rewrite Ha, Hc, Hu; by rewrite <- ?app_assoc.
  - rewrite IH by done. cbn. rewrite delete_id by done. by rewrite <- ?app_assoc.
Qed.

Lemma by_name_lookup (l : list Rule) (m : gmap string Rule) k r :
  NoDup (name <$> l) -> (forall x, x ∈ l -> m !! name x = None) ->
  foldl (fun m r => <[name r := r]> m) m l !! k = Some r
  <-> (r ∈ l /\ name r = k) \/ m !! k = Some r.
Proof.
  revert m; induction l as [|x l IH]; intros m; cbn; [set_solver|].
  intros [Hx Hl]%NoDup_cons Hm. rewrite IH; [|done|].
  - destruct (decide (name x = k)) as [<-|Hne].
    + rewrite lookup_insert_eq, (Hm x) by set_solver. rewrite elem_of_cons. split.
      * intros [[? ?]|[= ->]]; [left; split; [by right|done]|left; split; [by left|done]].
      * intros [[[->|Hr] Heq]|?]; [by right|left|done]. done.
    + rewrite lookup_insert_ne by done. rewrite elem_of_cons. split.
      * intros [[? ?]|?]; [left; split; [by right|done]|by right].
      * intros [[[->|Hr] Heq]|?]; [done|by left|by right].
  - intros y Hy. rewrite lookup_insert_ne; [apply Hm; set_solver|].
    intros Heq. apply Hx. rewrite Heq. set_solver.
Qed.

Lemma by_name_Some l k r :
  NoDup (name <$> l) -> by_name l !! k = Some r <-> r ∈ l /\ name r = k.
Proof.
  intros Hl. unfold by_name. rewrite by_name_lookup by (try done; intros; apply lookup_empty).
  rewrite lookup_empty. split; [by intros [?|?]|by left].
Qed.

Lemma by_name_None l k :
  NoDup (name <$> l) -> by_name l !! k = None <-> k ∉ name <$> l.
Proof.
  intros Hl. rewrite eq_None_not_Some, list_elem_of_fmap. split.
  - intros Hn (r & -> & Hr). apply Hn. exists r. by apply by_name_Some.
  - intros Hn [r [Hr Hk]%by_name_Some]; [|done]. apply Hn. by exists r.
Qed.

Lemma delete_all_lookup (l : list Rule) (m : gmap string Rule) k r :
  foldl (fun m n => delete (name n) m) m l !! k = Some r
  <-> m !! k = Some r /\ k ∉ name <$> l.
Proof.
  revert m; induction l as [|x l IH]; intros m; cbn; [set_solver|].
  rewrite IH, lookup_delete_Some, elem_of_cons. split.
  - intros ([? ?] & ?). split; [done|]. intros [?|?]; congruence.
  - intros (? & Hk). split; [split; [|done]|]; intros ?; apply Hk; auto.
Qed.

(** The four parts of a diff, each as a list over the new or old rules. *)
Lemma diff_unfold old new :
  NoDup (name <$> rules new) ->
  diff old new =
  mkDiff (omap (added_of (by_name (rules old))) (rules new))
         (merge_sort rule_le
            (snd <$> map_to_list (foldl (fun m n => delete (name n) m) (by_name (rules old)) (rules new))))
         (omap (changed_of (by_name (rules old))) (rules new))
         (omap (unchanged_of (by_name (rules old))) (rules new))
         (negb (bool_decide (routes old = routes new))).
Proof. intros Hn. unfold diff. by rewrite diff_loop. Qed.

Variables old new : RuleSet.
Hypothesis Hold : NoDup (name <$> rules old).
Hypothesis Hnew : NoDup (name <$> rules new).

Lemma diff_added r : r ∈ added (diff old new) <-> r ∈ rules new /\ name r ∉ name <$> rules old.
Proof.
  rewrite diff_unfold by done. cbn [added]. rewrite list_elem_of_omap.
  setoid_rewrite <- by_name_None; [|done]. unfold added_of. split.
  - intros (x & Hx & Ho). case_match eqn:Hm; [done|]. by injection Ho as ->.
  - intros [Hr Hn]. exists r. by rewrite Hn.
Qed.

Lemma diff_removed r : r ∈ removed (diff old new) <-> r ∈ rules old /\ name r ∉ name <$> rules new.
Proof.
  rewrite diff_unfold by done. cbn [removed]. rewrite merge_sort_Permutation, list_elem_of_fmap.
  setoid_rewrite elem_of_map_to_list'. setoid_rewrite delete_all_lookup.
  setoid_rewrite by_name_Some; [|done]. split.
  - intros ([k x] & -> & [Hx <-] & Hk). done.
  - intros [Hr Hn]. by exists (name r, r).
Qed.

Lemma diff_changed o n :
  mkChange o n ∈ changed (diff old new)
  <-> o ∈ rules old /\ n ∈ rules new /\ name o = name n /\ o <> n.
Proof.
  rewrite diff_unfold by done. cbn [changed]. rewrite list_elem_of_omap. unfold changed_of. split.
  - intros (x & Hx & Ho). case_match eqn:Hm; [|done]. case_bool_decide; [done|].
    injection Ho as -> ->. apply by_name_Some in Hm as [??]; [|done]. done.
  - intros (Ho & Hn & Heq & Hne). exists n. split; [done|].
    rewrite (proj2 (by_name_Some _ _ o Hold)) by done. by rewrite bool_decide_false.
Qed.

Lemma diff_unchanged k :
  k ∈ unchanged (diff old new) <-> exists r, r ∈ rules old /\ r ∈ rules new /\ name r = k.
Proof.
  rewrite diff_unfold by done. cbn [unchanged]. rewrite list_elem_of_omap. unfold unchanged_of. split.
  - intros (x & Hx & Ho). case_match eqn:Hm; [|done]. case_bool_decide; [|done].
    injection Ho as <-. apply by_name_Some in Hm as [??]; [|done]. subst. by exists x.
  - intros (r & Ho & Hn & <-). exists r. split; [done|].
    rewrite (proj2 (by_name_Some _ _ r Hold)) by done. by rewrite bool_decide_true.
Qed.

Lemma diff_sizes :
  (length (added (diff old new)) + length (changed (diff old new))
   + length (unchanged (diff old new)) = length (rules new))%nat.
Proof.
  rewrite diff_unfold by done. cbn [added changed unchanged]. clear Hnew.
  induction (rules new) as [|n l IH]; [done|]. cbn.
  unfold added_of at 1, changed_of at 1, unchanged_of at 1.
  destruct (by_name (rules old) !! name n); [case_bool_decide|]; cbn; rewrite <- IH; lia.
Qed.

#[local] Instance rule_le_trans : Transitive rule_le.
Proof. intros a b c. unfold rule_le. apply Str.le_trans. Qed.
#[local] Instance rule_le_total : Total rule_le.
Proof. intros a b. unfold rule_le. apply Str.le_total. Qed.

Lemma diff_removed_sorted : StronglySorted rule_le (removed (diff old new)).
Proof. rewrite diff_unfold by done. cbn [removed]. apply StronglySorted_merge_sort; apply _. Qed.

Lemma rule_same_name o n :
  o ∈ rules old -> n ∈ rules new -> name o = name n -> changed (diff old new) = [] -> o = n.
Proof.
  intros Ho Hn Heq Hc. destruct (decide (o = n)) as [|Hne]; [done|].
  assert (mkChange o n ∈ changed (diff old new)) as Hin by (by apply diff_changed).
  rewrite Hc in Hin. set_solver.
Qed.

(** Nothing to do exactly when the two sets hold the same rules and routes. *)
Lemma diff_noop :
  is_noop (diff old new) = true <-> rules old ≡ₚ rules new /\ routes old = routes new.
Proof.
  assert (routes_changed (diff old new) = negb (bool_decide (routes old = routes new))) as Hrt
    by (by rewrite diff_unfold).
  unfold is_noop. rewrite Hrt, !andb_true_iff, !bool_decide_eq_true, negb_involutive, bool_decide_eq_true.
  split.
  - intros [[[Ha Hr] Hc] ->]. split; [|done]. apply NoDup_Permutation.
    { by eapply NoDup_fmap_1. } { by eapply NoDup_fmap_1. }
    intros r. split; intros Hin.
    + destruct (decide (name r ∈ name <$> rules new)) as [(n & Hn & Hnn)%list_elem_of_fmap|Hn].
      * by rewrite (rule_same_name r n).
      * assert (r ∈ removed (diff old new)) as Hx by (by apply diff_removed).
        rewrite Hr in Hx. set_solver.
    + destruct (decide (name r ∈ name <$> rules old)) as [(o & Hn & Ho)%list_elem_of_fmap|Hn].
      * by rewrite <- (rule_same_name o r).
      * assert (r ∈ added (diff old new)) as Hx by (by apply diff_added).
        rewrite Ha in Hx. set_solver.
  - intros [Hp Hrts]. split; [|done].
    assert (forall {A} (l : list A), (forall x, x ∉ l) -> l = []) as Hnil
      by (intros A [|x l] Hl; [done|]; exfalso; apply (Hl x); set_solver).
    split; [split|]; apply Hnil.
    + intros r [Hr Hn]%diff_added. apply Hn. rewrite Hp. set_solver.
    + intros r [Hr Hn]%diff_removed. apply Hn. rewrite <- Hp. set_solver.
    + intros [o n] (Ho & Hn & Heq & Hne)%diff_changed. apply Hne.
      rewrite Hp in Ho. by eapply (NoDup_fmap_elem name _ o n).
Qed.

End Diff.

(** ** Properties *)

Module RuleSetProps.

(** A rule set loads exactly when every rule and route is valid on its own
    and, across all files, rule names, (listen address, protocol) claims and
    case-folded route hostnames are pairwise distinct; the set then holds the
    files' rules and routes in order. *)
Theorem from_files_exact `{Extern} `{UrlLib} (files : list RuleFile) (s : RuleSet) :
  from_files files = Ok s <->
  s = mkRuleSet (files ≫= file_rule) (files ≫= file_route) /\ rule_set_wf s.
Proof. apply from_files_ok. Qed.

(** The reload diff is a partition keyed by name: what is added, removed,
    changed and unchanged is exactly what the two sets say, every new rule is
    in exactly one of the three lists that mention it, and [removed] is sorted
    by name whatever order the hash map iterates in. *)
Theorem diff_partition `{UrlLib} (old new : RuleSet) :
  NoDup (name <$> rules old) -> NoDup (name <$> rules new) ->
  let d := diff old new in
  (forall r, r ∈ added d <-> r ∈ rules new /\ name r ∉ name <$> rules old)
  /\ (forall r, r ∈ removed d <-> r ∈ rules old /\ name r ∉ name <$> rules new)
  /\ (forall o n, mkChange o n ∈ changed d
        <-> o ∈ rules old /\ n ∈ rules new /\ name o = name n /\ o <> n)
  /\ (forall k, k ∈ unchanged d <-> exists r, r ∈ rules old /\ r ∈ rules new /\ name r = k)
  /\ (length (added d) + length (changed d) + length (unchanged d) = length (rules new))%nat
  /\ StronglySorted rule_le (removed d).
Proof.
  intros Hold Hnew d. split_and!; intros.
  - by apply diff_added.
  - by apply diff_removed.
  - by apply diff_changed.
  - by apply diff_unchanged.
  - by apply diff_sizes.
  - by apply diff_removed_sorted.
Qed.

(** [is_noop] is exact: a reload is skipped precisely when the new set has
    the same rules, in any order, and the same routes. *)
Theorem diff_noop_exact `{UrlLib} (old new : RuleSet) :
  NoDup (name <$> rules old) -> NoDup (name <$> rules new) ->
  is_noop (diff old new) = true <-> rules old ≡ₚ rules new /\ routes old = routes new.
Proof. apply diff_noop. Qed.

Definition demo_rule (nm : string) (p : Z) : Rule :=
  mkRule nm (Net.V4 (Net.mkSockV4 Net.V4_UNSPECIFIED p)) Tcp (Some p) None None None.
Definition demo_old : RuleSet := mkRuleSet [demo_rule "a" 1; demo_rule "c" 3; demo_rule "b" 2] [].
Definition demo_new : RuleSet := mkRuleSet [demo_rule "d" 4; demo_rule "a" 9] [].
Definition demo_perm : RuleSet := mkRuleSet [demo_rule "b" 2; demo_rule "a" 1; demo_rule "c" 3] [].

Lemma demo_names_nodup (s : RuleSet) : bool_decide (NoDup (name <$> rules s)) = true -> NoDup (name <$> rules s).
Proof. apply bool_decide_eq_true. Qed.

Lemma diff_partition_witness :
  demo_rule "d" 4 ∈ added (diff demo_old demo_new)
  /\ name <$> removed (diff demo_old demo_new) = ["b"; "c"].
Proof.
  split; [|vm_compute; reflexivity].
  apply (diff_partition demo_old demo_new); [by apply demo_names_nodup..|].
  split; [constructor|]. by refine (bool_decide_eq_false_1 _ _).
Defined.

Lemma diff_noop_exact_witness : is_noop (diff demo_old demo_perm) = true.
Proof.
  apply (diff_noop_exact demo_old demo_perm); [by apply demo_names_nodup..|].
  split; [|reflexivity]. symmetry. apply (Permutation_cons_append [_; _] _).
Defined.

End RuleSetProps.
