(* ===== verification/Predicate.v ===== *)
(** * Predicates ([ratatoskr/src/predicate.rs]) and their extraction from a
    rule set ([yggdrasil/src/chain/predicate_extractor.rs]) *)

From S2P Require Import Prelude RustStd External RuleTypes Error Instances PubKey Rule RuleSet.

Record Predicate := mkPredicate {
  pred_name : string;
  listen_port : Z;
  pred_protocol : Protocol;
  idle_timeout_ms : option Z;
  https_http3 : bool
}.

Record PredicateSet := mkPredicateSet {
  predicates : list Predicate;
  origin : PubKey
}.

(** The shape on the wire before [https_http3] existed. *)
Record LegacyPredicate := mkLegacyPredicate {
  lp_name : string;
  lp_listen_port : Z;
  lp_protocol : Protocol;
  lp_idle_timeout_ms : option Z
}.
Record LegacyPredicateSet := mkLegacySet {
  legacy_predicates : list LegacyPredicate;
  legacy_origin : PubKey
}.

#[global] Instance Predicate_eq_dec : EqDecision Predicate.
Proof. solve_decision. Defined.
#[global] Instance PredicateSet_eq_dec : EqDecision PredicateSet.
Proof. solve_decision. Defined.
#[global] Instance Predicate_countable : Countable Predicate.
Proof.
  refine (inj_countable'
    (fun p => (pred_name p, listen_port p, pred_protocol p, idle_timeout_ms p, https_http3 p))
    (fun '(a, b, c, d, e) => mkPredicate a b c d e) _). by intros [].
Defined.
#[global] Instance PredicateSet_countable : Countable PredicateSet.
Proof.
  refine (inj_countable' (fun s => (predicates s, origin s)) (fun '(a, b) => mkPredicateSet a b) _).
  by intros [].
Defined.
#[global] Instance LegacyPredicate_eq_dec : EqDecision LegacyPredicate.
Proof. solve_decision. Defined.
#[global] Instance LegacyPredicateSet_eq_dec : EqDecision LegacyPredicateSet.
Proof. solve_decision. Defined.
#[global] Instance LegacyPredicate_countable : Countable LegacyPredicate.
Proof.
  refine (inj_countable'
    (fun p => (lp_name p, lp_listen_port p, lp_protocol p, lp_idle_timeout_ms p))
    (fun '(a, b, c, d) => mkLegacyPredicate a b c d) _). by intros [].
Defined.
#[global] Instance LegacyPredicateSet_countable : Countable LegacyPredicateSet.
Proof.
  refine (inj_countable' (fun s => (legacy_predicates s, legacy_origin s))
            (fun '(a, b) => mkLegacySet a b) _).
  by intros [].
Defined.

Definition PREDICATE_SET_TOO_LARGE : Z := 101.
Definition INVALID_PREDICATE : Z := 102.
Definition LOCKED_PREDICATES_VIOLATION : Z := 103.
Definition PREDICATE_SET_MAX_WIRE_BYTES : Z := 8 * 1024.

Definition into_current (l : LegacyPredicateSet) : PredicateSet :=
  mkPredicateSet
    ((fun p => mkPredicate (lp_name p) (lp_listen_port p) (lp_protocol p) (lp_idle_timeout_ms p) false)
     <$> legacy_predicates l)
    (legacy_origin l).

Section Decode.
Context `{Extern} `{!Postcard PredicateSet} `{!Postcard LegacyPredicateSet}.

Definition predicate_validate (p : Predicate) : Result unit :=
  if https_http3 p && negb (bool_decide (pred_protocol p = Https))
  then Err (InvalidPredicate (Http3OnNonHttps (pred_name p) (pred_protocol p)))
  else Ok tt.

Definition predicate_set_validate (s : PredicateSet) : Result unit :=
  try_each predicate_validate (predicates s).

Definition from_wire_bytes (bytes : list byte) : Result PredicateSet :=
  match from_bytes (A := PredicateSet) bytes with
  | Ok set => _ ← predicate_set_validate set; Ok set
  | Err current_err =>
      legacy ← map_err (fun _ => PostcardErr current_err) (from_bytes (A := LegacyPredicateSet) bytes);
      let set := into_current legacy in
      _ ← predicate_set_validate set; Ok set
  end.

End Decode.

(** ** Extraction *)

Record HttpsPredicateMeta := mkMeta { meta_listen_port : Z; meta_http3 : bool }.
Definition HttpsPredicateMeta_default : HttpsPredicateMeta := mkMeta 443 true.

(** [u64::try_from(d.as_millis()).unwrap_or(u64::MAX)]. *)
Definition millis_u64 (d : Z) : Z :=
  if Time.as_millis d <? 2 ^ 64 then Time.as_millis d else u64_max.

Definition project_rule (r : Rule) : Predicate :=
  mkPredicate (name r) (Net.port (listen r)) (protocol r)
    (match protocol r with Udp => millis_u64 <$> idle_timeout r | _ => None end) false.

Definition project_routes (meta : HttpsPredicateMeta) : Predicate :=
  mkPredicate "public-https" (meta_listen_port meta) Https None (meta_http3 meta).

Definition pred_le (a b : Predicate) : Prop := Str.le (pred_name a) (pred_name b).
#[global] Instance pred_le_dec : RelDecision pred_le.
Proof. intros a b. unfold pred_le. apply _. Defined.
#[global] Instance pred_le_trans : Transitive pred_le.
Proof. intros a b c. unfold pred_le. apply Str.le_trans. Qed.
#[global] Instance pred_le_total : Total pred_le.
Proof. intros a b. unfold pred_le. apply Str.le_total. Qed.

Section Extract.
Context `{UrlLib}.

(** What is pushed before the sort.  A rule with [protocol = Https] is the
    source's [unreachable!]; rule sets never hold one. *)
Definition projected (s : RuleSet) (meta : HttpsPredicateMeta) : list Predicate :=
  (project_rule <$> rules s) ++ (if bool_decide (routes s = []) then [] else [project_routes meta]).

Definition extract (s : RuleSet) (meta : HttpsPredicateMeta) (o : PubKey) : PredicateSet :=
  mkPredicateSet (merge_sort pred_le (projected s meta)) o.

(** Two lists sorted by a key that is unique in them, with the same
    elements, are the same list. *)
Lemma sorted_by_key_unique (l1 l2 : list Predicate) :
  NoDup (pred_name <$> l1) -> StronglySorted pred_le l1 -> StronglySorted pred_le l2 ->
  l1 ≡ₚ l2 -> l1 = l2.
Proof.
  revert l2; induction l1 as [|x l1 IH]; intros l2 Hnd Hs1 Hs2 Hp.
  { by apply Permutation_nil_l in Hp as ->. }
  destruct l2 as [|y l2]; [by apply Permutation_nil_r in Hp|].
  apply StronglySorted_inv in Hs1 as [Hs1 Hx], Hs2 as [Hs2 Hy].
  rewrite Forall_forall in Hx, Hy.
  assert (x = y) as <-.
  { assert (x ∈ y :: l2) as Hxin by (rewrite <- Hp; set_solver).
    assert (y ∈ x :: l1) as Hyin by (rewrite Hp; set_solver).
    apply (NoDup_fmap_elem pred_name (x :: l1)); [done|set_solver|done|].
    rewrite elem_of_cons in Hxin, Hyin. destruct Hxin as [->|Hxin]; [done|].
    destruct Hyin as [->|Hyin]; [done|].
    apply (anti_symm Str.le); [by apply Hx|by apply Hy]. }
  f_equal. cbn in Hnd. apply NoDup_cons in Hnd as [_ Hnd].
  apply IH; try done. by apply Permutation_cons_inv in Hp.
Qed.

Lemma extract_Permutation s meta o : predicates (extract s meta o) ≡ₚ projected s meta.
Proof. apply merge_sort_Permutation. Qed.

Lemma extract_sorted s meta o : StronglySorted pred_le (predicates (extract s meta o)).
Proof. apply StronglySorted_merge_sort; apply _. Qed.

Lemma projected_names s meta :
  pred_name <$> projected s meta
  = (name <$> rules s) ++ (if bool_decide (routes s = []) then [] else ["public-https"]).
Proof.
  unfold projected. rewrite fmap_app, <- list_fmap_compose. f_equal. by case_bool_decide.
Qed.

Lemma extract_deterministic s1 s2 meta o :
  NoDup (pred_name <$> projected s1 meta) ->
  rules s1 ≡ₚ rules s2 -> (routes s1 = [] <-> routes s2 = []) ->
  extract s1 meta o = extract s2 meta o.
Proof.
  intros Hnd Hp Hr. unfold extract. f_equal.
  assert (projected s1 meta ≡ₚ projected s2 meta) as Hpp.
  { unfold projected. rewrite Hp. f_equiv. by rewrite (bool_decide_ext _ _ Hr). }
  apply sorted_by_key_unique.
  - by rewrite merge_sort_Permutation.
  - apply StronglySorted_merge_sort; apply _.
  - apply StronglySorted_merge_sort; apply _.
  - by rewrite !merge_sort_Permutation.
Qed.

End Extract.

(** ** Decoding *)

Section DecodeFacts.
Context `{Extern} `{!Postcard PredicateSet} `{!Postcard LegacyPredicateSet}.

(** Only an HTTPS predicate asks for HTTP/3. *)
Definition http3_only_https (s : PredicateSet) : Prop :=
  Forall (fun p => https_http3 p = true -> pred_protocol p = Https) (predicates s).

Lemma predicate_set_validate_ok s : predicate_set_validate s = Ok tt <-> http3_only_https s.
Proof.
  unfold predicate_set_validate, http3_only_https. rewrite try_each_ok. apply Forall_iff. intros p.
  unfold predicate_validate. destruct (https_http3 p); cbn; [|done].
  case_bool_decide; cbn; naive_solver.
Qed.

Lemma from_wire_bytes_ok b s :
  from_wire_bytes b = Ok s <->
  http3_only_https s
  /\ (from_bytes b = Ok s
      \/ exists e l, from_bytes (A := PredicateSet) b = Err e /\ from_bytes b = Ok l /\ s = into_current l).
Proof.
  unfold from_wire_bytes. destruct (from_bytes (A := PredicateSet) b) as [s'|e].
  - rewrite result_bind_ok. split.
    + intros ([] & ?%predicate_set_validate_ok & [= <-]). auto.
    + intros [Hv [[= ->]|(? & ? & ? & _)]]; [|done]. exists tt. by rewrite predicate_set_validate_ok.
  - destruct (from_bytes (A := LegacyPredicateSet) b) as [l|e'] eqn:Hl; cbn [map_err mbind result_bind].
    + rewrite result_bind_ok. split.
      * intros ([] & ?%predicate_set_validate_ok & [= <-]). split; [done|]. right. by exists e, l.
      * intros [Hv [?|(? & ? & _ & [= <-] & ->)]]; [done|]. exists tt.
        by rewrite predicate_set_validate_ok.
    + split; [done|]. intros [_ [?|(? & ? & _ & ? & _)]]; done.
Qed.

Lemma extract_http3_only_https `{UrlLib} s meta o :
  http3_only_https (extract s meta o).
Proof.
  unfold http3_only_https. rewrite extract_Permutation. unfold projected.
  apply Forall_app. split; [by apply Forall_fmap, Forall_true|].
  case_bool_decide; [constructor|]. by apply Forall_singleton.
Qed.

End DecodeFacts.

Module PredicateProps.

(** Extraction is deterministic: two rule sets with the same rules in any
    order, and both or neither with HTTPS routes, give the same predicate set,
    hence the same wire bytes, provided the projected names are distinct. *)
Theorem extract_order_insensitive `{UrlLib} (s1 s2 : RuleSet) (meta : HttpsPredicateMeta) (o : PubKey) :
  NoDup (pred_name <$> projected s1 meta) ->
  rules s1 ≡ₚ rules s2 -> (routes s1 = [] <-> routes s2 = []) ->
  extract s1 meta o = extract s2 meta o.
Proof. apply extract_deterministic. Qed.

Lemma extract_order_insensitive_witness :
  extract RuleSetProps.demo_old HttpsPredicateMeta_default (X25519 [])
  = extract RuleSetProps.demo_perm HttpsPredicateMeta_default (X25519 []).
Proof.
  apply (extract_order_insensitive RuleSetProps.demo_old RuleSetProps.demo_perm).
  - by apply (bool_decide_eq_true_1 (NoDup _)).
  - symmetry. apply (Permutation_cons_append [_; _] _).
  - done.
Defined.

(** A decoded predicate set never carries the HTTP/3 flag on a non-HTTPS
    predicate, whichever of the two wire shapes it came in, and every encoding
    of a set without such a flag decodes back to that set. *)
Theorem from_wire_bytes_sound `{Extern} `{!Postcard PredicateSet, !Postcard LegacyPredicateSet}
    `{!PostcardLaws PredicateSet} (s : PredicateSet) (b : list byte) :
  (forall t, from_wire_bytes b = Ok t -> http3_only_https t)
  /\ (to_allocvec s = Ok b -> http3_only_https s -> from_wire_bytes b = Ok s).
Proof.
  split.
  - by intros t [? _]%from_wire_bytes_ok.
  - intros Hb Hv. apply from_wire_bytes_ok. split; [done|]. left. by apply from_to_allocvec.
Qed.

Definition demo_set : PredicateSet :=
  mkPredicateSet [mkPredicate "web" 443 Https None true] (X25519 [x01]).

Lemma from_wire_bytes_sound_witness :
  exists b, to_allocvec demo_set = Ok b /\ from_wire_bytes b = Ok demo_set.
Proof.
  eexists. split; [reflexivity|].
  apply (from_wire_bytes_sound demo_set); [reflexivity|]. by apply Forall_singleton.
Defined.

End PredicateProps.
