(* ===== verification/Derive.v ===== *)
(** * Deriving a relay's rules from a predicate set
    ([yggdrasil/src/chain/derive.rs]) *)

From S2P Require Import Prelude RustStd External RuleTypes Error Instances PubKey Rule RuleSet Predicate.

Record DeriveConfig := mkDeriveConfig {
  bind_addr : Net.IpAddr;
  cfg_proxy_protocol : option ProxyProto
}.

Inductive DeriveError :=
  | InvalidName (nm : string)
  | ZeroListenPort (nm : string)
  | DuplicateName (nm : string)
  | DuplicateDerivedName (rule_name first second : string)
  | DuplicateListenPort (first second proto : string) (port : Z)
  | HttpsListenCollision (https_name other_name proto : string) (port : Z).

Definition reject_code (e : DeriveError) : Z :=
  match e with
  | InvalidName _ | ZeroListenPort _ | DuplicateName _ | DuplicateDerivedName _ _ _
  | DuplicateListenPort _ _ _ _ | HttpsListenCollision _ _ _ _ => INVALID_PREDICATE
  end.

Record ListenClaim := mkClaim {
  cl_protocol : Protocol;
  cl_port : Z;
  cl_predicate_name : string;
  derived_from_https : bool
}.

Definition claim_l4 (p : Predicate) : ListenClaim :=
  mkClaim (pred_protocol p) (listen_port p) (pred_name p) false.
Definition claim_https (p : Predicate) (derived : Protocol) : ListenClaim :=
  mkClaim derived (listen_port p) (pred_name p) true.

Definition derived_https_rule_name (p : Predicate) (derived : Protocol) : string :=
  let suffix := match derived with Tcp => "tcp" | Udp => "udp" | Https => "" (* unreachable *) end in
  pred_name p +:+ "-" +:+ suffix.

Definition validate_predicate (p : Predicate) : result DeriveError unit :=
  if Str.is_empty (pred_name p)
     || existsb (fun c => Str.is_whitespace c || Str.is_control c) (Str.chars (pred_name p))
  then Err (InvalidName (pred_name p))
  else if listen_port p =? 0 then Err (ZeroListenPort (pred_name p))
  else Ok tt.

Definition rule_from_predicate_l4 (p : Predicate) (cfg : DeriveConfig) : Rule :=
  mkRule (pred_name p) (Net.SocketAddr_new (bind_addr cfg) (listen_port p)) (pred_protocol p)
    (Some (listen_port p)) None
    (match pred_protocol p with Udp => Time.from_millis <$> idle_timeout_ms p | _ => None end)
    (match pred_protocol p with Tcp => cfg_proxy_protocol cfg | _ => None end).

Definition rule_from_https_predicate (p : Predicate) (cfg : DeriveConfig) (derived : Protocol) : Rule :=
  mkRule (derived_https_rule_name p derived) (Net.SocketAddr_new (bind_addr cfg) (listen_port p))
    derived (Some (listen_port p)) None
    (match derived with Udp => Some (Time.from_secs 30) | _ => None end)
    (Some ProxyV2).

Definition insert_rule_name_claim (seen : gmap string string) (rule_name predicate_name : string) :
    result DeriveError (gmap string string) :=
  match seen !! rule_name with
  | Some first => Err (DuplicateDerivedName rule_name first predicate_name)
  | None => Ok (<[rule_name := predicate_name]> seen)
  end.

Definition listen_collision_error (existing incoming : ListenClaim) : DeriveError :=
  if derived_from_https existing && negb (derived_from_https incoming)
  then HttpsListenCollision (cl_predicate_name existing) (cl_predicate_name incoming)
         (Protocol_as_str (cl_protocol incoming)) (cl_port existing)
  else if derived_from_https incoming && negb (derived_from_https existing)
  then HttpsListenCollision (cl_predicate_name incoming) (cl_predicate_name existing)
         (Protocol_as_str (cl_protocol existing)) (cl_port incoming)
  else DuplicateListenPort (cl_predicate_name existing) (cl_predicate_name incoming)
         (Protocol_as_str (cl_protocol incoming)) (cl_port incoming).

Definition insert_listen_claim (seen : list ListenClaim) (c : ListenClaim) :
    result DeriveError (list ListenClaim) :=
  match List.find (fun e => bool_decide (cl_protocol e = cl_protocol c) && (cl_port e =? cl_port c)) seen with
  | Some existing => Err (listen_collision_error existing c)
  | None =>
      match List.find (fun e => (cl_port e =? cl_port c)
                        && negb (eqb (derived_from_https e) (derived_from_https c))) seen with
      | Some existing => Err (listen_collision_error existing c)
      | None => Ok (seen ++ [c])
      end
  end.

(** The four accumulators of [derive]'s loop. *)
Record DeriveState := mkDeriveState {
  seen_names : gset string;
  seen_rule_names : gmap string string;
  seen_listens : list ListenClaim;
  acc_rules : list Rule
}.

(** The rule-name claims, listener claims and rules of one predicate: the two
    arms of [derive]'s match, the claims made in the order of the code. *)
Definition claim_names (seen : gmap string string) (p : Predicate) :
    result DeriveError (gmap string string) :=
  match pred_protocol p with
  | Tcp | Udp => insert_rule_name_claim seen (pred_name p) (pred_name p)
  | Https =>
      seen ← insert_rule_name_claim seen (derived_https_rule_name p Tcp) (pred_name p);
      if https_http3 p
      then insert_rule_name_claim seen (derived_https_rule_name p Udp) (pred_name p)
      else Ok seen
  end.

Definition claim_listens (seen : list ListenClaim) (p : Predicate) :
    result DeriveError (list ListenClaim) :=
  match pred_protocol p with
  | Tcp | Udp => insert_listen_claim seen (claim_l4 p)
  | Https =>
      seen ← insert_listen_claim seen (claim_https p Tcp);
      insert_listen_claim seen (claim_https p Udp)
  end.

Definition derived_rules (cfg : DeriveConfig) (p : Predicate) : list Rule :=
  match pred_protocol p with
  | Tcp | Udp => [rule_from_predicate_l4 p cfg]
  | Https => rule_from_https_predicate p cfg Tcp
             :: (if https_http3 p then [rule_from_https_predicate p cfg Udp] else [])
  end.

Definition derive_step (cfg : DeriveConfig) (st : DeriveState) (p : Predicate) :
    result DeriveError DeriveState :=
  _ ← validate_predicate p;
  if bool_decide (pred_name p ∈ seen_names st) then Err (DuplicateName (pred_name p))
  else
    rn ← claim_names (seen_rule_names st) p;
    ls ← claim_listens (seen_listens st) p;
    Ok (mkDeriveState ({[pred_name p]} ∪ seen_names st) rn ls (acc_rules st ++ derived_rules cfg p)).

Fixpoint derive_loop (cfg : DeriveConfig) (st : DeriveState) (ps : list Predicate) :
    result DeriveError DeriveState :=
  match ps with
  | [] => Ok st
  | p :: ps' => st' ← derive_step cfg st p; derive_loop cfg st' ps'
  end.

Section Derive.
Context `{Extern} `{UrlLib}.

(** [display] renders an [Error]; it only matters on the fallback path. *)
Definition derive (display : Error -> string) (set : PredicateSet) (cfg : DeriveConfig) :
    result DeriveError RuleSet :=
  st ← derive_loop cfg (mkDeriveState ∅ ∅ [] []) (predicates set);
  map_err (fun e => InvalidName (display e)) (from_rules (acc_rules st)).

End Derive.

(** ** What [derive] accepts *)

(** The names and ports a predicate claims. *)
Definition derived_names (p : Predicate) : list string :=
  match pred_protocol p with
  | Tcp | Udp => [pred_name p]
  | Https => derived_https_rule_name p Tcp
             :: (if https_http3 p then [derived_https_rule_name p Udp] else [])
  end.
(** An HTTPS predicate takes both transports of its port, HTTP/3 or not. *)
Definition claimed_ports (p : Predicate) : list (Protocol * Z) :=
  match pred_protocol p with
  | Tcp | Udp => [(pred_protocol p, listen_port p)]
  | Https => [(Tcp, listen_port p); (Udp, listen_port p)]
  end.

Definition good_name (s : string) : Prop :=
  s <> "" /\ Forall (fun c => Str.is_whitespace c = false /\ Str.is_control c = false) (Str.chars s).

Record derivable (ps : list Predicate) : Prop := {
  dv_each : Forall (fun p => good_name (pred_name p) /\ listen_port p <> 0) ps;
  dv_names : NoDup (pred_name <$> ps);
  dv_rule_names : NoDup (ps ≫= derived_names);
  dv_ports : NoDup (ps ≫= claimed_ports)
}.

Definition claims_of (p : Predicate) : list ListenClaim :=
  match pred_protocol p with
  | Tcp | Udp => [claim_l4 p]
  | Https => [claim_https p Tcp; claim_https p Udp]
  end.

(** The accumulators after the predicates [pre]. *)
Record loop_inv (cfg : DeriveConfig) (pre : list Predicate) (st : DeriveState) : Prop := {
  li_names : forall k, k ∈ seen_names st <-> k ∈ pred_name <$> pre;
  li_rule_names : forall k, seen_rule_names st !! k = None <-> k ∉ pre ≫= derived_names;
  li_listens : seen_listens st = pre ≫= claims_of;
  li_rules : acc_rules st = pre ≫= derived_rules cfg
}.

(** [p] clashes with nothing in [pre]. *)
Record fresh (pre : list Predicate) (p : Predicate) : Prop := {
  fr_name_ok : good_name (pred_name p);
  fr_port_ok : listen_port p <> 0;
  fr_name : pred_name p ∉ pred_name <$> pre;
  fr_rule_names : Forall (fun k => k ∉ pre ≫= derived_names) (derived_names p);
  fr_ports : Forall (fun c => c ∉ pre ≫= claimed_ports) (claimed_ports p)
}.

Lemma validate_predicate_ok p :
  validate_predicate p = Ok tt <-> good_name (pred_name p) /\ listen_port p <> 0.
Proof.
  unfold validate_predicate, good_name. split.
  - destruct (_ || _) eqn:Hn; [done|]. apply orb_false_iff in Hn as [Hn Hc].
    destruct (_ =? 0) eqn:Hp; [done|]. intros _. rewrite <- Str.is_empty_false, <- Z.eqb_neq.
    split_and!; [done| |done]. apply existsb_false_Forall in Hc.
    eapply Forall_impl; [exact Hc|]. intros c. by rewrite orb_false_iff.
  - intros [[Hn Hc] Hp]. rewrite (proj2 (Str.is_empty_false _)) by done.
    rewrite (proj2 (existsb_false_Forall _ _)), (proj2 (Z.eqb_neq _ _)); [done|done|].
    eapply Forall_impl; [exact Hc|]. intros c. by rewrite orb_false_iff.
Qed.

Lemma insert_rule_name_ok seen k who seen' :
  insert_rule_name_claim seen k who = Ok seen' <-> seen !! k = None /\ seen' = <[k := who]> seen.
Proof.
  unfold insert_rule_name_claim.
  destruct (seen !! k); (split; [intros [=]|intros [? ->]]); by subst.
Qed.

Lemma insert_listen_claim_ok seen c seen' :
  insert_listen_claim seen c = Ok seen' <->
  Forall (fun e => (cl_protocol e, cl_port e) <> (cl_protocol c, cl_port c)
                   /\ (cl_port e = cl_port c -> derived_from_https e = derived_from_https c)) seen
  /\ seen' = seen ++ [c].
Proof.
  unfold insert_listen_claim.
  destruct (List.find _ seen) as [e|] eqn:H1.
  { apply find_Some_elem in H1 as [Hin [Hp%bool_decide_eq_true Hq%Z.eqb_eq]%andb_true_iff].
    split; [done|]. intros [Hf _]. rewrite Forall_forall in Hf. destruct (Hf e Hin) as [Hne _]. congruence. }
  apply find_None_Forall in H1.
  destruct (List.find _ seen) as [e|] eqn:H2.
  { apply find_Some_elem in H2 as [Hin [Hq%Z.eqb_eq Hd%negb_true_iff%eqb_false_iff]%andb_true_iff].
    split; [done|]. intros [Hf _]. rewrite Forall_forall in Hf. destruct (Hf e Hin) as [_ Hne]. by destruct Hd; apply Hne. }
  apply find_None_Forall in H2. split; [|by intros [_ ->]].
  intros [= <-]. split; [|done]. rewrite Forall_forall in H1, H2 |- *. intros e Hin. split.
  - intros [= Hp Hq]. specialize (H1 e Hin). rewrite bool_decide_true, Hq, Z.eqb_refl in H1 by done. done.
  - intros Hq. specialize (H2 e Hin). rewrite Hq, Z.eqb_refl in H2. cbn in H2.
    by apply negb_false_iff, eqb_prop in H2.
Qed.

(** The claims of [pre], seen as ports: an HTTPS claim never comes alone. *)
Lemma claims_ports pre e :
  e ∈ pre ≫= claims_of ->
  (cl_protocol e, cl_port e) ∈ pre ≫= claimed_ports
  /\ if derived_from_https e
     then (Tcp, cl_port e) ∈ pre ≫= claimed_ports /\ (Udp, cl_port e) ∈ pre ≫= claimed_ports
     else cl_protocol e = Tcp \/ cl_protocol e = Udp.
Proof.
  intros (p & He & Hp)%list_elem_of_bind.
  assert (forall c, c ∈ claimed_ports p -> c ∈ pre ≫= claimed_ports) as Hc
    by (intros c Hc; apply list_elem_of_bind; by exists p).
  unfold claims_of, claimed_ports in *. destruct (pred_protocol p) eqn:Hpr;
    repeat (apply elem_of_cons in He as [->|He]); try (by apply elem_of_nil in He);
    cbn; rewrite ?Hpr; split_and!; try (apply Hc; set_solver); auto.
Qed.

Lemma ports_claims pre c :
  c ∈ pre ≫= claimed_ports -> exists e, e ∈ pre ≫= claims_of /\ (cl_protocol e, cl_port e) = c.
Proof.
  intros (p & Hc & Hp)%list_elem_of_bind.
  assert (exists e, e ∈ claims_of p /\ (cl_protocol e, cl_port e) = c) as (e & He & <-).
  { unfold claims_of, claimed_ports in *. destruct (pred_protocol p) eqn:Hpr;
      repeat (apply elem_of_cons in Hc as [->|Hc]); try (by apply elem_of_nil in Hc).
    1,2: exists (claim_l4 p); cbn; rewrite Hpr; set_solver.
    - exists (claim_https p Tcp). set_solver.
    - exists (claim_https p Udp). set_solver. }
  exists e. split; [|done]. apply list_elem_of_bind. by exists p.
Qed.

Lemma insert_l4_ok pre p ls :
  pred_protocol p = Tcp \/ pred_protocol p = Udp ->
  insert_listen_claim (pre ≫= claims_of) (claim_l4 p) = Ok ls <->
  (pred_protocol p, listen_port p) ∉ pre ≫= claimed_ports
  /\ ls = (pre ≫= claims_of) ++ [claim_l4 p].
Proof.
  intros Hpr. rewrite insert_listen_claim_ok, Forall_forall. cbn. f_equiv. split.
  - intros Hf (e & He & Heq)%ports_claims. by destruct (Hf e He).
  - intros Hn e He. destruct (claims_ports pre e He) as [Hin Hd]. split.
    + intros Heq. by rewrite Heq in Hin.
    + intros Hq. destruct (derived_from_https e); [|done]. rewrite Hq in Hd.
      destruct Hpr as [Hpr|Hpr]; rewrite Hpr in Hn; by destruct Hd.
Qed.

Lemma claim_listens_ok pre p ls :
  claim_listens (pre ≫= claims_of) p = Ok ls <->
  Forall (fun c => c ∉ pre ≫= claimed_ports) (claimed_ports p)
  /\ ls = (pre ≫= claims_of) ++ claims_of p.
Proof.
  unfold claim_listens.
  assert (claims_of p = match pred_protocol p with
                        | Https => [claim_https p Tcp; claim_https p Udp] | _ => [claim_l4 p] end) as ->
    by (unfold claims_of; by destruct (pred_protocol p)).
  assert (claimed_ports p = match pred_protocol p with
                            | Https => [(Tcp, listen_port p); (Udp, listen_port p)]
                            | _ => [(pred_protocol p, listen_port p)] end) as ->
    by (unfold claimed_ports; by destruct (pred_protocol p)).
  destruct (pred_protocol p) eqn:Hpr.
  1,2: rewrite insert_l4_ok, Forall_singleton by (rewrite Hpr; auto); by rewrite Hpr.
  rewrite Forall_cons_iff, Forall_singleton, result_bind_ok.
  setoid_rewrite insert_listen_claim_ok. setoid_rewrite Forall_forall. split.
  - intros (ls1 & [H1 ->] & H2 & ->). rewrite <- app_assoc. split; [split|done].
    + intros (e & He & Heq)%ports_claims. by destruct (H1 e He).
    + intros (e & He & Heq)%ports_claims. destruct (H2 e); [set_solver|done].
  - intros ([Ht Hu] & ->).
    assert (forall e, e ∈ pre ≫= claims_of -> cl_port e <> listen_port p) as Hport.
    { intros e [Hin Hd]%claims_ports Hq. rewrite Hq in Hin, Hd.
      destruct (derived_from_https e); [by destruct Hd|]. by destruct Hd as [Hd|Hd]; rewrite Hd in Hin. }
    eexists. split; [split; [|reflexivity]|].
    + intros e He%Hport. cbn. split; [congruence|done].
    + rewrite <- app_assoc. split; [|done].
      intros e [He%Hport| ->%list_elem_of_singleton]%elem_of_app; cbn; [split; [congruence|done]|done].
Qed.

Lemma https_names_differ p : derived_https_rule_name p Tcp <> derived_https_rule_name p Udp.
Proof.
  unfold derived_https_rule_name. induction (pred_name p) as [|c s IH]; [done|].
  intros [= Heq]. by apply IH.
Qed.

Lemma claim_names_ok seen p rn :
  claim_names seen p = Ok rn <->
  Forall (fun k => seen !! k = None) (derived_names p)
  /\ rn = foldl (fun m k => <[k := pred_name p]> m) seen (derived_names p).
Proof.
  unfold claim_names, derived_names. destruct (pred_protocol p).
  1,2: by rewrite insert_rule_name_ok, Forall_singleton.
  rewrite result_bind_ok. setoid_rewrite insert_rule_name_ok. destruct (https_http3 p).
  - setoid_rewrite insert_rule_name_ok. rewrite Forall_cons_iff, Forall_singleton. cbn. split.
    + intros (? & [Ht ->] & Hu & ->). by rewrite lookup_insert_ne in Hu by apply https_names_differ.
    + intros [[Ht Hu] ->]. eexists. split; [done|].
      by rewrite lookup_insert_ne by apply https_names_differ.
  - rewrite Forall_singleton. cbn. split.
    + by intros (? & [Ht ->] & [= <-]).
    + intros [Ht ->]. by eexists.
Qed.

(** The accumulators after one more predicate. *)
Definition derive_next (cfg : DeriveConfig) (st : DeriveState) (p : Predicate) : DeriveState :=
  mkDeriveState ({[pred_name p]} ∪ seen_names st)
    (foldl (fun m k => <[k := pred_name p]> m) (seen_rule_names st) (derived_names p))
    (seen_listens st ++ claims_of p) (acc_rules st ++ derived_rules cfg p).

Lemma derive_step_ok cfg pre st p st' :
  loop_inv cfg pre st ->
  derive_step cfg st p = Ok st' <-> fresh pre p /\ st' = derive_next cfg st p.
Proof.
  intros [Hn Hrn Hls Hrs]. unfold derive_step, derive_next. rewrite result_bind_ok. split.
  - intros ([] & [Hgood Hport]%validate_predicate_ok & Hstep).
    case_bool_decide as Hin; [done|]. rewrite Hn in Hin.
    apply result_bind_ok in Hstep as (rn & [Hk ->]%claim_names_ok & Hstep).
    rewrite Hls in Hstep.
    apply result_bind_ok in Hstep as (ls & [Hc ->]%claim_listens_ok & [= <-]).
    split; [|by rewrite Hls]. split; try done.
    eapply Forall_impl; [exact Hk|]. intros k. apply Hrn.
  - intros [[Hgood Hport Hname Hnames Hports] ->].
    exists tt. rewrite validate_predicate_ok. split; [done|].
    rewrite bool_decide_false by (by rewrite Hn). apply result_bind_ok. eexists.
    rewrite claim_names_ok. split; [split; [|reflexivity]|].
    { eapply Forall_impl; [exact Hnames|]. intros k. apply Hrn. }
    apply result_bind_ok. rewrite Hls. eexists. rewrite claim_listens_ok. by split.
Qed.

Lemma foldl_insert_None (m : gmap string string) (l : list string) v k :
  foldl (fun m k => <[k := v]> m) m l !! k = None <-> m !! k = None /\ k ∉ l.
Proof.
  revert m; induction l as [|x l IH]; intros m; cbn; [set_solver|].
  rewrite IH, lookup_insert_None, elem_of_cons. split.
  - intros ([? ?] & ?). split; [done|]. intros [?|?]; congruence.
  - intros (? & Hk). split; [split; [done|]|]; intros ?; apply Hk; auto.
Qed.

Lemma loop_inv_next cfg pre st p : loop_inv cfg pre st -> loop_inv cfg (pre ++ [p]) (derive_next cfg st p).
Proof.
  intros [Hn Hrn Hls Hrs]. split; cbn [derive_next seen_names seen_rule_names seen_listens acc_rules].
  - intros k. rewrite elem_of_union, elem_of_singleton, Hn, fmap_app. set_solver.
  - intros k. rewrite foldl_insert_None, Hrn, bind_app. cbn. rewrite app_nil_r. set_solver.
  - rewrite bind_app, Hls. cbn. by rewrite app_nil_r.
  - rewrite bind_app, Hrs. cbn. by rewrite app_nil_r.
Qed.

Lemma bind_snoc {A B} (f : A -> list B) (l : list A) x : (l ++ [x]) ≫= f = (l ≫= f) ++ f x.
Proof. rewrite bind_app. cbn. by rewrite app_nil_r. Qed.

Lemma NoDup_derived_names p : NoDup (derived_names p).
Proof.
  unfold derived_names. destruct (pred_protocol p); [apply NoDup_singleton..|].
  destruct (https_http3 p); [|apply NoDup_singleton].
  apply NoDup_cons; split; [|apply NoDup_singleton].
  rewrite list_elem_of_singleton. apply https_names_differ.
Qed.

Lemma NoDup_claimed_ports p : NoDup (claimed_ports p).
Proof.
  unfold claimed_ports. destruct (pred_protocol p); [apply NoDup_singleton..|].
  apply NoDup_cons; split; [set_solver|apply NoDup_singleton].
Qed.

Lemma derivable_snoc pre p : derivable pre -> derivable (pre ++ [p]) <-> fresh pre p.
Proof.
  intros [He Hn Hr Hp]. split.
  - intros [He' Hn' Hr' Hp']. apply Forall_app in He' as [_ [[??] _]%Forall_cons_iff].
    rewrite fmap_app in Hn'. rewrite !bind_snoc in *.
    apply NoDup_app in Hn' as (_ & Hn' & _), Hr' as (_ & Hr' & _), Hp' as (_ & Hp' & _).
    split; try done.
    + intros Hin. apply (Hn' _ Hin). set_solver.
    + apply Forall_forall. intros k Hk Hin. by apply (Hr' k).
    + apply Forall_forall. intros c Hc Hin. by apply (Hp' c).
  - intros [Hg Hport Hname Hnames Hports]. rewrite Forall_forall in Hnames. rewrite Forall_forall in Hports. split.
    + apply Forall_app. split; [done|]. by apply Forall_singleton.
    + rewrite fmap_app. apply NoDup_app. split_and!; [done| |apply NoDup_singleton].
      intros k Hk ->%list_elem_of_singleton. done.
    + rewrite bind_snoc. apply NoDup_app. split_and!; [done| |apply NoDup_derived_names].
      intros k Hk Hin. by apply (Hnames k).
    + rewrite bind_snoc. apply NoDup_app. split_and!; [done| |apply NoDup_claimed_ports].
      intros k Hk Hin. by apply (Hports k).
Qed.

Lemma derivable_prefix pre ps : derivable (pre ++ ps) -> derivable pre.
Proof.
  intros [He Hn Hr Hp]. rewrite Forall_app in He. rewrite fmap_app, NoDup_app in Hn.
  rewrite bind_app, NoDup_app in Hr. rewrite bind_app, NoDup_app in Hp. split; tauto.
Qed.

Lemma derivable_nil : derivable [].
Proof. split; by constructor. Qed.

Lemma loop_inv_nil cfg : loop_inv cfg [] (mkDeriveState ∅ ∅ [] []).
Proof. split; cbn; [set_solver| |done|done]. intros k. rewrite lookup_empty. set_solver. Qed.

Lemma derive_loop_ok cfg ps : forall pre st st',
  loop_inv cfg pre st -> derivable pre -> derive_loop cfg st ps = Ok st' ->
  derivable (pre ++ ps) /\ loop_inv cfg (pre ++ ps) st'.
Proof.
  induction ps as [|p ps IH]; intros pre st st' Hinv Hd; cbn.
  { intros [= <-]. by rewrite app_nil_r. }
  intros (st1 & [Hf ->]%(derive_step_ok _ pre) & Hl)%result_bind_ok; [|done].
  change (p :: ps) with ([p] ++ ps). rewrite app_assoc.
  eapply IH; [by apply loop_inv_next|by apply derivable_snoc|done].
Qed.

Lemma derive_loop_total cfg ps : forall pre st,
  loop_inv cfg pre st -> derivable (pre ++ ps) -> exists st', derive_loop cfg st ps = Ok st'.
Proof.
  induction ps as [|p ps IH]; intros pre st Hinv Hd; cbn; [by eexists|].
  change (p :: ps) with ([p] ++ ps) in Hd. rewrite app_assoc in Hd.
  assert (fresh pre p) as Hf
    by (apply derivable_snoc; [by eapply derivable_prefix, derivable_prefix|by eapply derivable_prefix]).
  rewrite (proj2 (derive_step_ok _ _ _ _ _ Hinv) (conj Hf eq_refl)). cbn.
  eapply IH; [by apply loop_inv_next|done].
Qed.

(** ** The derived rules form a valid rule set *)

Definition rule_ports (p : Predicate) : list (Protocol * Z) :=
  match pred_protocol p with
  | Tcp | Udp => [(pred_protocol p, listen_port p)]
  | Https => (Tcp, listen_port p) :: (if https_http3 p then [(Udp, listen_port p)] else [])
  end.

Lemma rule_ports_sublist p : rule_ports p `sublist_of` claimed_ports p.
Proof.
  unfold rule_ports, claimed_ports. destruct (pred_protocol p); try done.
  destruct (https_http3 p); [done|]. apply sublist_skip, sublist_nil_l.
Qed.

Lemma sublist_bind {A B} (f g : A -> list B) (l : list A) :
  (forall x, f x `sublist_of` g x) -> (l ≫= f) `sublist_of` (l ≫= g).
Proof. intros Hfg. induction l as [|x l IH]; [done|]. cbn. by apply sublist_app. Qed.

Lemma fmap_bind_list {A B C} (g : B -> C) (f : A -> list B) (l : list A) :
  g <$> (l ≫= f) = l ≫= fun x => g <$> f x.
Proof. induction l as [|x l IH]; [done|]. cbn. by rewrite fmap_app, <- IH. Qed.

Lemma bind_ext_list {A B} (f g : A -> list B) (l : list A) :
  (forall x, f x = g x) -> l ≫= f = l ≫= g.
Proof. intros Hfg. induction l as [|x l IH]; [done|]. cbn. by rewrite Hfg, IH. Qed.

Lemma derived_rules_names cfg ps : name <$> (ps ≫= derived_rules cfg) = ps ≫= derived_names.
Proof.
  rewrite fmap_bind_list. apply bind_ext_list. intros p. unfold derived_rules, derived_names.
  destruct (pred_protocol p); [done..|]. by destruct (https_http3 p).
Qed.

Lemma derived_rules_listens cfg ps :
  listen_claim <$> (ps ≫= derived_rules cfg)
  = (fun '(t, port) => (Net.SocketAddr_new (bind_addr cfg) port, t)) <$> (ps ≫= rule_ports).
Proof.
  rewrite !fmap_bind_list. apply bind_ext_list. intros p. unfold derived_rules, rule_ports.
  destruct (pred_protocol p) eqn:Hp; unfold listen_claim; cbn; rewrite ?Hp; [done..|].
  by destruct (https_http3 p).
Qed.

Lemma good_name_suffix s t :
  Str.well_cut s = true -> good_name s ->
  Forall (fun c => Str.is_whitespace c = false /\ Str.is_control c = false) (Str.chars t) ->
  good_name (s +:+ t).
Proof.
  intros Hw [Hn Hc] Ht. split; [by destruct s|]. rewrite Str.chars_app by done. by apply Forall_app.
Qed.

Lemma rule_valid_relay r p :
  good_name (name r) -> Net.port (listen r) = p -> p <> 0 -> target_port r = Some p -> target r = None ->
  (protocol r = Tcp /\ idle_timeout r = None \/ protocol r = Udp /\ proxy_protocol r <> Some ProxyV1) ->
  rule_valid r.
Proof.
  intros [Hn Hc] Hl Hp Htp Ht Hpr. split; [done|done|by rewrite Hl|tauto|left; by exists p|..];
    destruct Hpr as [[Hpr ?]|[Hpr ?]]; rewrite Hpr; done.
Qed.

Lemma derived_rules_valid cfg p :
  Str.well_cut (pred_name p) = true -> good_name (pred_name p) -> listen_port p <> 0 ->
  Forall rule_valid (derived_rules cfg p).
Proof.
  intros Hw Hg Hp.
  assert (forall d, d = Tcp \/ d = Udp -> rule_valid (rule_from_https_predicate p cfg d)) as Hh.
  { intros d Hd. apply (rule_valid_relay _ (listen_port p)); cbn; rewrite ?Net.port_SocketAddr_new; try done.
    - apply good_name_suffix; try done. destruct Hd as [->| ->]; by repeat constructor.
    - destruct Hd as [->| ->]; auto. }
  unfold derived_rules. destruct (pred_protocol p) eqn:Hpr.
  1,2: apply Forall_singleton, (rule_valid_relay _ (listen_port p)); cbn;
    rewrite ?Net.port_SocketAddr_new, ?Hpr; auto.
  - constructor; [auto|]. destruct (https_http3 p); [|constructor]. apply Forall_singleton. auto.
Qed.

#[global] Instance claim_addr_inj cfg :
  Inj (=) (=) (fun '(t, port) => (Net.SocketAddr_new (bind_addr cfg) port, t) : Net.SocketAddr * Protocol).
Proof. intros [t1 p1] [t2 p2]. destruct (bind_addr cfg); cbn; by intros [= -> ->]. Qed.

Section DeriveFacts.
Context `{Extern} `{UrlLib}.

Lemma derivable_wf cfg ps :
  Forall (fun p => Str.well_cut (pred_name p) = true) ps -> derivable ps ->
  rule_set_wf (mkRuleSet (ps ≫= derived_rules cfg) []).
Proof.
  intros Hw [He Hn Hr Hp]. split; cbn [rules routes]; [|constructor|..].
  - apply Forall_bind. rewrite Forall_forall in Hw, He |- *. intros p Hin.
    apply derived_rules_valid; [by apply Hw|by apply He..].
  - by rewrite derived_rules_names.
  - rewrite derived_rules_listens. apply NoDup_fmap_2; [apply _|].
    eapply sublist_NoDup; [exact Hp|]. apply sublist_bind, rule_ports_sublist.
  - constructor.
Qed.

Lemma from_rules_derived cfg ps :
  Forall (fun p => Str.well_cut (pred_name p) = true) ps -> derivable ps ->
  from_rules (ps ≫= derived_rules cfg) = Ok (mkRuleSet (ps ≫= derived_rules cfg) []).
Proof. intros Hw Hd. apply from_rules_ok. split; [done|]. by apply derivable_wf. Qed.

Lemma derive_ok display set cfg rs :
  Forall (fun p => Str.well_cut (pred_name p) = true) (predicates set) ->
  derive display set cfg = Ok rs <->
  derivable (predicates set) /\ rs = mkRuleSet (predicates set ≫= derived_rules cfg) [].
Proof.
  intros Hw. unfold derive. rewrite result_bind_ok. split.
  - intros (st & Hloop & Hfr). eapply derive_loop_ok in Hloop as [Hd [_ _ _ Hrs]];
      [|apply loop_inv_nil|apply derivable_nil]. cbn in Hd, Hrs. split; [done|].
    destruct (from_rules (acc_rules st)) as [s|] eqn:Hs; [|done]. injection Hfr as <-.
    apply from_rules_ok in Hs as [-> _]. by rewrite Hrs.
  - intros [Hd ->]. destruct (derive_loop_total cfg (predicates set) [] (mkDeriveState ∅ ∅ [] []))
      as [st Hst]; [apply loop_inv_nil|done|].
    exists st. split; [done|]. eapply derive_loop_ok in Hst as [_ [_ _ _ Hrs]];
      [|apply loop_inv_nil|apply derivable_nil]. cbn in Hrs. rewrite Hrs.
    by rewrite from_rules_derived.
Qed.

(** When [derive] refuses, one of the inline checks refused: the fallback
    never fires. *)
Lemma derive_err display set cfg e :
  Forall (fun p => Str.well_cut (pred_name p) = true) (predicates set) ->
  derive display set cfg = Err e ->
  derive_loop cfg (mkDeriveState ∅ ∅ [] []) (predicates set) = Err e.
Proof.
  intros Hw. unfold derive.
  destruct (derive_loop cfg (mkDeriveState ∅ ∅ [] []) (predicates set)) as [st|e'] eqn:Hloop;
    [|by intros [= <-]].
  cbn. pose proof Hloop as Hl. eapply derive_loop_ok in Hl as [Hd [_ _ _ Hrs]];
    [|apply loop_inv_nil|apply derivable_nil]. cbn in Hd, Hrs. rewrite Hrs.
  by rewrite from_rules_derived.
Qed.

End DeriveFacts.

(** ** From a terminal's rules to its relay's rules *)

Section Pipeline.
Context `{Extern} `{UrlLib}.

Lemma derivable_perm ps qs : ps ≡ₚ qs -> derivable ps <-> derivable qs.
Proof.
  intros Hp. split; intros [He Hn Hr Hc]; split.
  all: try (by rewrite <- Hp). all: by rewrite Hp.
Qed.

Definition port_claim (r : Rule) : Protocol * Z := (protocol r, Net.port (listen r)).

Lemma project_rule_l4 r :
  rule_valid r ->
  derived_names (project_rule r) = [name r] /\ claimed_ports (project_rule r) = [port_claim r]
  /\ good_name (pred_name (project_rule r)) /\ listen_port (project_rule r) <> 0.
Proof.
  intros [Hn Hc Hl Hp _ _ _]. unfold derived_names, claimed_ports. cbn.
  destruct Hp as [Hp|Hp]; unfold port_claim; rewrite Hp; by split_and!.
Qed.

Lemma project_rules_lists rs :
  Forall rule_valid rs ->
  (project_rule <$> rs) ≫= derived_names = name <$> rs
  /\ (project_rule <$> rs) ≫= claimed_ports = port_claim <$> rs.
Proof.
  induction 1 as [|r rs Hr _ [IH1 IH2]]; [done|]. cbn.
  destruct (project_rule_l4 r Hr) as (-> & -> & _). cbn. by rewrite IH1, IH2.
Qed.

Lemma derivable_project_rules rs :
  Forall rule_valid rs -> NoDup (name <$> rs) ->
  derivable (project_rule <$> rs) <-> NoDup (port_claim <$> rs).
Proof.
  intros Hv Hn. destruct (project_rules_lists rs Hv) as [Hdn Hcp]. split.
  - intros [_ _ _ Hp]. by rewrite Hcp in Hp.
  - intros Hp. split; [|by rewrite <- list_fmap_compose|by rewrite Hdn|by rewrite Hcp].
    apply Forall_fmap. eapply Forall_impl; [exact Hv|]. intros r Hr. cbn.
    by destruct (project_rule_l4 r Hr) as (_ & _ & ? & ?).
Qed.

(** What the HTTPS predicate needs of the terminal's L4 rules. *)
Record https_clear (rs : list Rule) (meta : HttpsPredicateMeta) : Prop := {
  hc_port : meta_listen_port meta <> 0;
  hc_name : "public-https" ∉ name <$> rs;
  hc_tcp_name : "public-https-tcp" ∉ name <$> rs;
  hc_udp_name : meta_http3 meta = true -> "public-https-udp" ∉ name <$> rs;
  hc_ports : Forall (fun r => Net.port (listen r) <> meta_listen_port meta) rs
}.

Lemma fresh_routes rs meta :
  Forall rule_valid rs -> fresh (project_rule <$> rs) (project_routes meta) <-> https_clear rs meta.
Proof.
  intros Hv. destruct (project_rules_lists rs Hv) as [Hdn Hcp].
  assert (forall t, t = Tcp \/ t = Udp -> (t, meta_listen_port meta) ∉ port_claim <$> rs ->
    Forall (fun r => protocol r = t -> Net.port (listen r) <> meta_listen_port meta) rs) as Hnot.
  { intros t Ht Hn. apply Forall_forall. intros r Hr Hpr Heq. apply Hn, list_elem_of_fmap.
    exists r. unfold port_claim. by rewrite Hpr, Heq. }
  split.
  - intros [_ Hport Hname Hnames Hports]. rewrite Hdn in Hnames. rewrite Hcp in Hports.
    rewrite <- list_fmap_compose in Hname. unfold derived_names in Hnames. cbn in *.
    apply Forall_cons_iff in Hnames as [Ht Hu], Hports as [Hpt [Hpu _]%Forall_cons_iff].
    split; [done..| |].
    + intros H3. rewrite H3, Forall_singleton in Hu. exact Hu.
    + apply Hnot in Hpt; [|by left]. apply Hnot in Hpu; [|by right].
      rewrite Forall_forall in Hv, Hpt, Hpu |- *. intros r Hr.
      destruct (Hv r Hr) as [_ _ _ [Hp|Hp] _ _ _]; [by apply (Hpt r Hr)|by apply (Hpu r Hr)].
  - intros [Hport Hname Ht Hu Hports].
    split; [split; [done|by repeat constructor]|done|by rewrite <- list_fmap_compose|..].
    + rewrite Hdn. unfold derived_names. cbn. constructor; [done|].
      destruct (meta_http3 meta); [|constructor]. apply Forall_singleton. by apply Hu.
    + rewrite Hcp. unfold claimed_ports. cbn. rewrite Forall_forall in Hports.
      assert (forall t, (t, meta_listen_port meta) ∉ port_claim <$> rs) as Hn.
      { intros t (r & Heq & Hr)%list_elem_of_fmap. injection Heq as _ Heq. by apply (Hports r Hr). }
      by repeat constructor.
Qed.

Lemma derivable_extract s meta o :
  rule_set_wf s ->
  derivable (predicates (extract s meta o)) <->
  NoDup (port_claim <$> rules s) /\ (routes s <> [] -> https_clear (rules s) meta).
Proof.
  intros [Hv _ Hn _ _]. rewrite (derivable_perm _ _ (extract_Permutation s meta o)). unfold projected.
  rewrite <- derivable_project_rules by done. case_bool_decide as Hr.
  - rewrite app_nil_r. split; [done|]. by intros [? _].
  - split.
    + intros Hd. pose proof (derivable_prefix _ _ Hd) as Hp. split; [done|]. intros _.
      apply fresh_routes; [done|]. by apply derivable_snoc.
    + intros [Hp Hc]. apply derivable_snoc; [done|]. apply fresh_routes; auto.
Qed.

Lemma extract_well_cut s meta o :
  Forall (fun r => Str.well_cut (name r) = true) (rules s) ->
  Forall (fun p => Str.well_cut (pred_name p) = true) (predicates (extract s meta o)).
Proof.
  intros Hw. rewrite extract_Permutation. unfold projected. apply Forall_app. split.
  - by apply Forall_fmap.
  - case_bool_decide; [constructor|]. by apply Forall_singleton.
Qed.

(** The rule a relay runs for one of the terminal's L4 rules. *)
Definition relay_rule (cfg : DeriveConfig) (r : Rule) : Rule := rule_from_predicate_l4 (project_rule r) cfg.

Lemma derived_extract cfg s meta o :
  rule_set_wf s ->
  predicates (extract s meta o) ≫= derived_rules cfg
  ≡ₚ (relay_rule cfg <$> rules s)
     ++ (if bool_decide (routes s = []) then [] else derived_rules cfg (project_routes meta)).
Proof.
  intros [Hv _ _ _ _]. rewrite extract_Permutation. unfold projected. rewrite bind_app. f_equiv.
  - induction Hv as [|r rs Hr _ IH]; [done|]. cbn.
    destruct Hr as [_ _ _ [Hp|Hp] _ _ _]; unfold derived_rules at 1; cbn; rewrite Hp; cbn;
      by rewrite <- IH.
  - case_bool_decide; [done|]. cbn. by rewrite app_nil_r.
Qed.

End Pipeline.

(** ** Properties *)

Module DeriveProps.

(** C7: Derivation is exact.  A relay derives rules from a predicate set
    precisely when every name is non-empty and printable, no port is zero, and
    predicate names, derived rule names and (transport, port) claims, an HTTPS
    predicate claiming both transports, are pairwise distinct; the result is
    then the rules of the predicates in order and satisfies every rule-set
    invariant. *)
Theorem derive_exact `{Extern} `{UrlLib} (display : Error -> string) (set : PredicateSet)
    (cfg : DeriveConfig) (rs : RuleSet) :
  Forall (fun p => Str.well_cut (pred_name p) = true) (predicates set) ->
  (derive display set cfg = Ok rs <->
   derivable (predicates set) /\ rs = mkRuleSet (predicates set ≫= derived_rules cfg) [])
  /\ (derive display set cfg = Ok rs -> rule_set_wf rs).
Proof.
  intros Hw. split; [by apply derive_ok|]. intros [Hd ->]%derive_ok; [|done]. by apply derivable_wf.
Qed.

Definition demo_cfg : DeriveConfig := mkDeriveConfig (Net.IpV4 Net.V4_UNSPECIFIED) (Some ProxyV1).
Definition demo_preds : PredicateSet :=
  mkPredicateSet [mkPredicate "mc" 25565 Tcp None false; mkPredicate "web" 443 Https None true;
                  mkPredicate "mc-udp" 25565 Udp (Some 30000) false]
                 (X25519 (replicate 32 "000"%byte)).
Definition demo_display (_ : Error) : string := "".
Definition demo_derived : result DeriveError RuleSet := derive demo_display demo_preds demo_cfg.

Lemma derive_exact_witness :
  derivable (predicates demo_preds)
  /\ name <$> (predicates demo_preds ≫= derived_rules demo_cfg) = ["mc"; "web-tcp"; "web-udp"; "mc-udp"].
Proof.
  split; [|reflexivity].
  assert (derive demo_display demo_preds demo_cfg
          = Ok (mkRuleSet (predicates demo_preds ≫= derived_rules demo_cfg) [])) as Hd
    by vm_cast_no_check (@eq_refl (result DeriveError RuleSet) demo_derived).
  apply (derive_exact demo_display demo_preds demo_cfg
           (mkRuleSet (predicates demo_preds ≫= derived_rules demo_cfg) []));
    [by repeat constructor|exact Hd].
Defined.

(** The belt-and-braces [RuleSet::from_rules] at the end of [derive] never
    fails: whatever error comes back is one of the predicate-flavoured errors
    of the loop. *)
Theorem derive_no_fallback `{Extern} `{UrlLib} (display : Error -> string) (set : PredicateSet)
    (cfg : DeriveConfig) (e : DeriveError) :
  Forall (fun p => Str.well_cut (pred_name p) = true) (predicates set) ->
  derive display set cfg = Err e ->
  derive_loop cfg (mkDeriveState ∅ ∅ [] []) (predicates set) = Err e.
Proof. apply derive_err. Qed.

Definition demo_clash : PredicateSet :=
  mkPredicateSet [mkPredicate "web-tcp" 80 Tcp None false; mkPredicate "web" 443 Https None true]
                 (X25519 (replicate 32 "000"%byte)).

Lemma derive_no_fallback_witness :
  derive_loop demo_cfg (mkDeriveState ∅ ∅ [] []) (predicates demo_clash)
  = Err (DuplicateDerivedName "web-tcp" "web-tcp" "web").
Proof.
  apply (derive_no_fallback demo_display demo_clash demo_cfg); [by repeat constructor|reflexivity].
Defined.

(** C10: The whole pipeline.  A valid terminal rule set that is projected,
    sorted and pushed is accepted by its relay exactly when no two L4 rules
    share a transport and port (the terminal may bind them on different
    addresses), and, if it has HTTPS routes, the HTTPS port is unused and the
    three reserved names are free; the relay then runs, up to order, one rule
    per terminal rule with the same name, transport and port, plus the HTTPS
    listeners. *)
Theorem relay_accepts_extracted `{Extern} `{UrlLib} (display : Error -> string) (s : RuleSet)
    (meta : HttpsPredicateMeta) (o : PubKey) (cfg : DeriveConfig) :
  rule_set_wf s -> Forall (fun r => Str.well_cut (name r) = true) (rules s) ->
  let derived := derive display (extract s meta o) cfg in
  ((exists rs, derived = Ok rs)
   <-> NoDup (port_claim <$> rules s) /\ (routes s <> [] -> https_clear (rules s) meta))
  /\ (forall rs, derived = Ok rs ->
      rules rs ≡ₚ (relay_rule cfg <$> rules s)
        ++ (if bool_decide (routes s = []) then [] else derived_rules cfg (project_routes meta))).
Proof.
  intros Hwf Hw derived. pose proof (extract_well_cut s meta o Hw) as Hpw.
  rewrite <- (derivable_extract s meta o Hwf). subst derived. split; [split|].
  - intros [rs [Hd _]%derive_ok]; done.
  - intros Hd. eexists. by apply derive_ok.
  - intros rs [_ ->]%derive_ok; [|done]. by apply derived_extract.
Qed.

Definition demo_terminal : RuleSet := mkRuleSet [RuleSetProps.demo_rule "ssh" 22; RuleSetProps.demo_rule "irc" 6667] [].

Lemma demo_terminal_wf : rule_set_wf demo_terminal.
Proof.
  assert (from_rules (rules demo_terminal) = Ok demo_terminal) as [_ Hwf]%from_rules_ok
    by reflexivity. exact Hwf.
Qed.

Lemma relay_accepts_extracted_witness :
  exists rs, derive demo_display (extract demo_terminal HttpsPredicateMeta_default
                                    (X25519 (replicate 32 "000"%byte))) demo_cfg = Ok rs.
Proof.
  apply (relay_accepts_extracted demo_display demo_terminal HttpsPredicateMeta_default
           (X25519 (replicate 32 "000"%byte)) demo_cfg demo_terminal_wf);
    [by repeat constructor|].
  split; [by apply (bool_decide_eq_true_1 (NoDup _))|by intros []].
Defined.

End DeriveProps.
