(* ===== verification/Reliability.v ===== *)
(** * The reliable control channel ([yggdrasil/src/chain/reliability.rs])

    The [oneshot::Sender] a caller hands in is a waiter id; every [send] on it
    is a [Notify] in the operation's output, so a trace of operations carries
    the full history of what every waiter was told. *)

From S2P Require Import Prelude RustStd ControlFrame.

Definition RETX_INITIAL : Z := Time.from_millis 200.
Definition RETX_MAX : Z := Time.from_secs 2.
Definition RETX_MAX_ATTEMPTS : Z := 5.
Definition DEDUP_WINDOW : Z := 256.

Inductive SendError :=
  | Timeout (attempts : Z)
  | Rejected (code : Z)
  | UnknownBodyType
  | ChannelClosed.

Definition Waiter := nat.
Definition Notify : Type := Waiter * result SendError unit.

Record OutboundEntry := mkEntry {
  envelope : ControlEnvelope;
  attempts : Z;
  next_send_at : Z;
  completion : option Waiter
}.

Record DedupWindow := mkDedup { seen : list Z; cap : Z }.

Record ControlChannel := mkChannel {
  next_seq : Z;
  outbound : list (Z * OutboundEntry);
  dedup : DedupWindow
}.

Inductive InboundDisposition :=
  | Deliver (env : ControlEnvelope)
  | Duplicate.

Definition backoff_for (att : Z) : Z :=
  let shift := Z.min (saturating_sub att 1) 8 in
  let computed := RETX_INITIAL * Z.shiftl 1 shift in
  Z.min computed RETX_MAX.

Definition dedup_new (c : Z) : DedupWindow := mkDedup [] c.
Definition dedup_contains (d : DedupWindow) (seq : Z) : bool := existsb (Z.eqb seq) (seen d).
Definition dedup_insert (d : DedupWindow) (seq : Z) : DedupWindow :=
  if dedup_contains d seq then d
  else
    let kept := if zlen (seen d) =? cap d then tail (seen d) else seen d in
    mkDedup (kept ++ [seq]) (cap d).

Definition channel_new : ControlChannel := mkChannel 1 [] (dedup_new DEDUP_WINDOW).

(** [None] is the panic of the exhausted sequence space. *)
Definition enqueue (c : ControlChannel) (body_type : Z) (body : list byte) (w : Waiter) (now : Z) :
    option (ControlChannel * ControlEnvelope) :=
  let seq := next_seq c in
  next ← checked_add 32 seq 1;
  let env := mkEnvelope seq body_type body in
  Some (mkChannel next
          (BTree.insert seq (mkEntry env 1 (now + RETX_INITIAL) (Some w)) (outbound c))
          (dedup c), env).

(** [completion.take()] and the [send] on it. *)
Definition resolve (e : OutboundEntry) (r : result SendError unit) : list Notify :=
  match completion e with Some w => [(w, r)] | None => [] end.

(** The first loop of [next_due]: the updated queue, the envelopes to emit and
    the sequence numbers that timed out. *)
Fixpoint due_loop (now : Z) (q : list (Z * OutboundEntry)) :
    list (Z * OutboundEntry) * list ControlEnvelope * list Z :=
  match q with
  | [] => ([], [], [])
  | (seq, e) :: q' =>
      let '(q1, out, timed_out) := due_loop now q' in
      if now <? next_send_at e then ((seq, e) :: q1, out, timed_out)
      else if RETX_MAX_ATTEMPTS <=? attempts e then ((seq, e) :: q1, out, seq :: timed_out)
      else
        let att := attempts e + 1 in
        ((seq, mkEntry (envelope e) att (now + backoff_for att) (completion e)) :: q1,
         envelope e :: out, timed_out)
  end.

(** The second loop: remove what timed out and tell the waiters. *)
Fixpoint expire_loop (timed_out : list Z) (q : list (Z * OutboundEntry)) :
    list (Z * OutboundEntry) * list Notify :=
  match timed_out with
  | [] => (q, [])
  | seq :: rest =>
      let told := match BTree.get seq q with
                  | Some e => resolve e (Err (Timeout RETX_MAX_ATTEMPTS))
                  | None => []
                  end in
      let '(q', ns) := expire_loop rest (BTree.remove seq q) in
      (q', told ++ ns)
  end.

Definition next_due (c : ControlChannel) (now : Z) :
    ControlChannel * list ControlEnvelope * list Notify :=
  let '(q, out, timed_out) := due_loop now (outbound c) in
  let '(q, ns) := expire_loop timed_out q in
  (mkChannel (next_seq c) q (dedup c), out, ns).

Definition next_tick_at (c : ControlChannel) : option Z :=
  foldr (fun '(_, e) acc => Some (match acc with
                                  | Some t => Z.min (next_send_at e) t
                                  | None => next_send_at e
                                  end)) None (outbound c).

Definition ack_result (s : AckStatus) : result SendError unit :=
  match s with
  | AckOk => Ok tt
  | AckReject code => Err (Rejected code)
  | AckUnknown => Err UnknownBodyType
  end.

Definition on_ack (c : ControlChannel) (a : ControlAck) : ControlChannel * bool * list Notify :=
  match BTree.get (ack_seq a) (outbound c) with
  | None => (c, false, [])
  | Some e =>
      (mkChannel (next_seq c) (BTree.remove (ack_seq a) (outbound c)) (dedup c), true,
       resolve e (ack_result (ack_status a)))
  end.

Definition on_inbound (c : ControlChannel) (env : ControlEnvelope) : ControlChannel * InboundDisposition :=
  if dedup_contains (dedup c) (env_seq env) then (c, Duplicate)
  else (mkChannel (next_seq c) (outbound c) (dedup_insert (dedup c) (env_seq env)), Deliver env).

Definition pending (c : ControlChannel) : Z := zlen (outbound c).

(** [abort_all], also run by [Drop]. *)
Definition abort_all (c : ControlChannel) : ControlChannel * list Notify :=
  (mkChannel (next_seq c) [] (dedup c),
   outbound c ≫= fun '(_, e) => resolve e (Err ChannelClosed)).

(** ** Traces *)

Inductive ChannelOp :=
  | OpEnqueue (body_type : Z) (body : list byte) (w : Waiter) (now : Z)
  | OpTick (now : Z)
  | OpAck (a : ControlAck)
  | OpInbound (env : ControlEnvelope)
  | OpAbort.

(** What an operation shows to the outside. *)
Record Output := mkOutput {
  emitted : list ControlEnvelope;   (** handed to the transport *)
  notified : list Notify;           (** waiters told *)
  delivered : list ControlEnvelope  (** handed to the dispatcher *)
}.

Definition out_app (a b : Output) : Output :=
  mkOutput (emitted a ++ emitted b) (notified a ++ notified b) (delivered a ++ delivered b).

Definition channel_step (c : ControlChannel) (op : ChannelOp) : option (ControlChannel * Output) :=
  match op with
  | OpEnqueue bt body w now =>
      '(c', env) ← enqueue c bt body w now; Some (c', mkOutput [env] [] [])
  | OpTick now => let '(c', out, ns) := next_due c now in Some (c', mkOutput out ns [])
  | OpAck a => let '(c', _, ns) := on_ack c a in Some (c', mkOutput [] ns [])
  | OpInbound env =>
      let '(c', d) := on_inbound c env in
      Some (c', mkOutput [] [] (match d with Deliver e => [e] | Duplicate => [] end))
  | OpAbort => let '(c', ns) := abort_all c in Some (c', mkOutput [] ns [])
  end.

Fixpoint channel_run (c : ControlChannel) (ops : list ChannelOp) : option (ControlChannel * Output) :=
  match ops with
  | [] => Some (c, mkOutput [] [] [])
  | op :: ops' =>
      '(c1, o1) ← channel_step c op;
      '(c2, o2) ← channel_run c1 ops';
      Some (c2, out_app o1 o2)
  end.

(** ** One tick, entry by entry *)

Definition due_upd (now : Z) (x : Z * OutboundEntry) : Z * OutboundEntry :=
  let e := x.2 in
  if now <? next_send_at e then x
  else if RETX_MAX_ATTEMPTS <=? attempts e then x
  else (x.1, mkEntry (envelope e) (attempts e + 1) (now + backoff_for (attempts e + 1)) (completion e)).
Definition due_emit (now : Z) (x : Z * OutboundEntry) : option ControlEnvelope :=
  if now <? next_send_at x.2 then None
  else if RETX_MAX_ATTEMPTS <=? attempts x.2 then None else Some (envelope x.2).
Definition expired (now : Z) (x : Z * OutboundEntry) : bool :=
  negb (now <? next_send_at x.2) && (RETX_MAX_ATTEMPTS <=? attempts x.2).
Definition due_key (now : Z) (x : Z * OutboundEntry) : option Z :=
  if expired now x then Some x.1 else None.
Definition due_keep (now : Z) (x : Z * OutboundEntry) : option (Z * OutboundEntry) :=
  if expired now x then None else Some (due_upd now x).
Definition due_told (now : Z) (x : Z * OutboundEntry) : list Notify :=
  if expired now x then resolve x.2 (Err (Timeout RETX_MAX_ATTEMPTS)) else [].

Lemma due_loop_eq now q :
  due_loop now q = (due_upd now <$> q, omap (due_emit now) q, omap (due_key now) q).
Proof.
  induction q as [|[k e] q IH]; [done|]. cbn. rewrite IH.
  unfold due_upd, due_emit, due_key, expired. cbn.
  destruct (now <? next_send_at e); cbn; [done|].
  by destruct (RETX_MAX_ATTEMPTS <=? attempts e).
Qed.

Lemma due_upd_key now x : (due_upd now x).1 = x.1.
Proof. unfold due_upd. repeat case_match; done. Qed.

Lemma expire_cons ks x q :
  x.1 ∉ ks -> expire_loop ks (x :: q) = ((x :: (expire_loop ks q).1), (expire_loop ks q).2).
Proof.
  revert q; induction ks as [|k ks IH]; intros q Hx; [done|]. cbn. destruct x as [k' e]. cbn in Hx.
  rewrite (proj2 (Z.eqb_neq k k')) by set_solver.
  rewrite IH by set_solver. by destruct (expire_loop ks (BTree.remove k q)).
Qed.

Lemma expire_eq now q :
  NoDup q.*1 ->
  expire_loop (omap (due_key now) q) (due_upd now <$> q) = (omap (due_keep now) q, q ≫= due_told now).
Proof.
  induction q as [|x q IH]; [done|]. cbn. intros [Hx Hq]%NoDup_cons. specialize (IH Hq).
  unfold due_key at 1, due_keep at 1, due_told at 1. destruct (expired now x) eqn:He.
  - cbn. assert (due_upd now x = x) as ->.
    { unfold due_upd. apply andb_true_iff in He as [Hn%negb_true_iff Ha]. by rewrite Hn, Ha. }
    destruct x as [k e]. cbn. rewrite Z.eqb_refl, IH. done.
  - rewrite expire_cons, IH; [done|]. rewrite due_upd_key, list_elem_of_omap.
    intros (y & Hy & Hk). unfold due_key in Hk. destruct (expired now y); [|done].
    injection Hk as Hk. apply Hx. rewrite <- Hk. set_solver.
Qed.

Lemma next_due_eq c now :
  NoDup (outbound c).*1 ->
  next_due c now =
  (mkChannel (next_seq c) (omap (due_keep now) (outbound c)) (dedup c),
   omap (due_emit now) (outbound c), outbound c ≫= due_told now).
Proof. intros Hn. unfold next_due. by rewrite due_loop_eq, expire_eq. Qed.

(** ** The channel invariant *)

Definition entry_ok (next : Z) (x : Z * OutboundEntry) : Prop :=
  x.1 = env_seq (envelope x.2) /\ 1 <= x.1 < next
  /\ 1 <= attempts x.2 <= RETX_MAX_ATTEMPTS /\ is_Some (completion x.2).

Record channel_inv (c : ControlChannel) : Prop := {
  ci_next : 1 <= next_seq c < 2 ^ 32;
  ci_sorted : BTree.sorted (outbound c);
  ci_entries : Forall (entry_ok (next_seq c)) (outbound c);
  ci_cap : cap (dedup c) = DEDUP_WINDOW;
  ci_window : zlen (seen (dedup c)) <= DEDUP_WINDOW;
  ci_nodup : NoDup (seen (dedup c))
}.

Lemma sorted_NoDup {V} (m : list (Z * V)) : BTree.sorted m -> NoDup m.*1.
Proof.
  unfold BTree.sorted. induction m.*1 as [|k l IH]; intros Hs; [constructor|].
  apply StronglySorted_inv in Hs as [Hs Hk]. constructor; [|by apply IH].
  rewrite Forall_forall in Hk. intros Hin%Hk. lia.
Qed.

Lemma ci_keys c : channel_inv c -> NoDup (outbound c).*1.
Proof. intros Hc. apply sorted_NoDup, Hc. Qed.

Lemma due_keep_keys now q : (omap (due_keep now) q).*1 `sublist_of` q.*1.
Proof.
  induction q as [|x q IH]; [done|]. cbn. unfold due_keep at 1. destruct (expired now x).
  - by apply sublist_cons.
  - cbn. rewrite due_upd_key. by apply sublist_skip.
Qed.

Lemma due_keep_ok now next x y : entry_ok next x -> due_keep now x = Some y -> entry_ok next y.
Proof.
  unfold due_keep, due_upd, expired, entry_ok. intros (Hk & Hn & Ha & Hc).
  destruct (now <? next_send_at x.2) eqn:Hd; cbn; [by intros [= <-]|].
  destruct (RETX_MAX_ATTEMPTS <=? attempts x.2) eqn:Hm; [done|]. intros [= <-]. cbn.
  split_and!; try done; lia.
Qed.

Lemma sorted_app_last (l : list Z) k :
  StronglySorted Z.lt l -> Forall (fun x => x < k) l -> StronglySorted Z.lt (l ++ [k]).
Proof.
  induction l as [|x l IH]; cbn; intros Hs Hf; [repeat constructor|].
  apply StronglySorted_inv in Hs as [Hs Hx]. apply Forall_cons_iff in Hf as [Hk Hf].
  constructor; [by apply IH|]. apply Forall_app; split; [done|]. by apply Forall_singleton.
Qed.

Lemma entry_ok_mono next next' x : next <= next' -> entry_ok next x -> entry_ok next' x.
Proof. unfold entry_ok. intros ? (? & ? & ? & ?). split_and!; try done; lia. Qed.

Lemma entries_below c : channel_inv c -> Forall (fun k => k < next_seq c) (outbound c).*1.
Proof.
  intros Hc. apply Forall_fmap. eapply Forall_impl; [apply Hc|]. intros x (_ & Hk & _). cbn. lia.
Qed.

Lemma dedup_contains_spec d s : dedup_contains d s = true <-> s ∈ seen d.
Proof.
  unfold dedup_contains. induction (seen d) as [|x l IH]; cbn; [set_solver|].
  rewrite orb_true_iff, Z.eqb_eq, IH, elem_of_cons. done.
Qed.

Lemma dedup_insert_inv d s :
  cap d = DEDUP_WINDOW -> zlen (seen d) <= DEDUP_WINDOW -> NoDup (seen d) -> s ∉ seen d ->
  cap (dedup_insert d s) = DEDUP_WINDOW /\ zlen (seen (dedup_insert d s)) <= DEDUP_WINDOW
  /\ NoDup (seen (dedup_insert d s)).
Proof.
  intros Hc Hl Hn Hs. unfold dedup_insert.
  destruct (dedup_contains d s) eqn:Hd; [by apply dedup_contains_spec in Hd|].
  cbn. rewrite Hc. split; [done|]. rewrite zlen_app. change (zlen [s]) with 1.
  assert (forall l, s ∉ l -> NoDup l -> NoDup (l ++ [s])) as Hsnoc.
  { intros l Hsl Hnl. apply NoDup_app. split_and!; [done| |apply NoDup_singleton].
    intros x Hx ->%list_elem_of_singleton. done. }
  destruct (zlen (seen d) =? DEDUP_WINDOW) eqn:Hfull.
  - apply Z.eqb_eq in Hfull. destruct (seen d) as [|x l]; [done|]. cbn.
    rewrite zlen_cons in Hfull. apply NoDup_cons in Hn as [_ Hn].
    split; [lia|]. apply Hsnoc; set_solver.
  - apply Z.eqb_neq in Hfull. split; [lia|]. by apply Hsnoc.
Qed.

Lemma channel_step_inv c op c' o : channel_inv c -> channel_step c op = Some (c', o) -> channel_inv c'.
Proof.
  intros Hc Hstep. pose proof (ci_keys c Hc) as Hk. pose proof (entries_below c Hc) as Hb.
  destruct Hc as [Hn Hs He Hcap Hw Hd]. destruct op as [bt body w now|now|a|env|]; cbn in Hstep.
  - unfold enqueue, checked_add in Hstep. case_decide as Hlt; [|done]. cbn in Hstep.
    injection Hstep as <- _. rewrite BTree.insert_last by done. split; cbn; try done; [lia|..].
    + unfold BTree.sorted. rewrite fmap_app. by apply sorted_app_last.
    + apply Forall_app. split; [eapply Forall_impl; [exact He|]; intros x; apply entry_ok_mono; lia|].
      apply Forall_singleton. unfold entry_ok. cbn. unfold RETX_MAX_ATTEMPTS. split_and!; try done; lia.
  - rewrite next_due_eq in Hstep by done. injection Hstep as <- _. split; cbn; try done.
    + eapply BTree.sublist_sorted; [apply due_keep_keys|done].
    + apply Forall_forall. intros y (x & Hx & Hy)%list_elem_of_omap.
      rewrite Forall_forall in He. eapply due_keep_ok; [by apply He|done].
  - unfold on_ack in Hstep. destruct (BTree.get _ _) as [e|] eqn:Hg; injection Hstep as <- _; [|done].
    pose proof (BTree.remove_sublist (ack_seq a) (outbound c)) as Hsub. split; cbn; try done.
    + eapply BTree.sublist_sorted; [|exact Hs]. by apply fmap_sublist.
    + rewrite Forall_forall in He |- *. intros x Hx. apply He.
      by eapply elem_of_submseteq; [|apply sublist_submseteq].
  - unfold on_inbound in Hstep. destruct (dedup_contains _ _) eqn:Hdc; injection Hstep as <- _; [done|].
    assert (env_seq env ∉ seen (dedup c)) as Hnew
      by (intros Hin%dedup_contains_spec; congruence).
    destruct (dedup_insert_inv _ _ Hcap Hw Hd Hnew) as (? & ? & ?). by split.
  - injection Hstep as <- _. by split; cbn; try done; constructor.
Qed.

Lemma channel_new_inv : channel_inv channel_new.
Proof. split; cbn; try done; constructor. Qed.

(** Induction over traces, for anything accumulated in the outputs. *)
Lemma channel_run_ind (P : ControlChannel -> Output -> ControlChannel -> Prop) :
  (forall c, P c (mkOutput [] [] []) c) ->
  (forall c op c1 o1 c2 o2, channel_inv c -> channel_step c op = Some (c1, o1) ->
     channel_inv c1 -> P c1 o2 c2 -> P c (out_app o1 o2) c2) ->
  forall ops c c' o, channel_inv c -> channel_run c ops = Some (c', o) -> P c o c'.
Proof.
  intros Hnil Hcons ops. induction ops as [|op ops IH]; intros c c' o Hc; cbn.
  { by intros [= <- <-]. }
  destruct (channel_step c op) as [[c1 o1]|] eqn:Hs; [|done]. cbn.
  destruct (channel_run c1 ops) as [[c2 o2]|] eqn:Hr; [|done]. cbn. intros [= <- <-].
  pose proof (channel_step_inv _ _ _ _ Hc Hs). eapply Hcons; eauto.
Qed.

Lemma channel_run_inv ops c c' o : channel_inv c -> channel_run c ops = Some (c', o) -> channel_inv c'.
Proof.
  revert c c' o; induction ops as [|op ops IH]; intros c c' o Hc; cbn; [by intros [= <- <-]|].
  destruct (channel_step c op) as [[c1 o1]|] eqn:Hs; [|done]. cbn.
  destruct (channel_run c1 ops) as [[c2 o2]|] eqn:Hr; [|done]. cbn. intros [= <- <-].
  eapply IH; [|done]. by eapply channel_step_inv.
Qed.

(** ** Every waiter is told exactly once *)

Definition waiters (q : list (Z * OutboundEntry)) : list Waiter := q ≫= fun x => option_list (completion x.2).

Definition enqueued_waiters (ops : list ChannelOp) : list Waiter :=
  ops ≫= fun op => match op with OpEnqueue _ _ w _ => [w] | _ => [] end.

Lemma resolve_waiters e r : (resolve e r).*1 = option_list (completion e).
Proof. unfold resolve. by destruct (completion e). Qed.

Lemma waiters_cons x q : waiters (x :: q) = option_list (completion x.2) ++ waiters q.
Proof. done. Qed.

Lemma tick_waiters now q :
  (q ≫= due_told now).*1 ++ waiters (omap (due_keep now) q) ≡ₚ waiters q.
Proof.
  induction q as [|x q IH]; [done|]. cbn [mbind list_bind omap list_omap].
  unfold due_told at 1, due_keep at 1. rewrite waiters_cons.
  destruct (expired now x).
  - rewrite fmap_app, resolve_waiters, <- app_assoc. by rewrite IH.
  - rewrite waiters_cons. cbn [app].
    assert (completion (due_upd now x).2 = completion x.2) as ->
      by (unfold due_upd; repeat case_match; done).
    rewrite <- IH. rewrite !app_assoc. f_equiv. apply Permutation_app_comm.
Qed.

Lemma step_waiters c op c' o :
  channel_inv c -> channel_step c op = Some (c', o) ->
  (notified o).*1 ++ waiters (outbound c') ≡ₚ waiters (outbound c) ++ enqueued_waiters [op].
Proof.
  intros Hc Hstep. pose proof (ci_keys c Hc) as Hk. pose proof (entries_below c Hc) as Hb.
  destruct op as [bt body w now|now|a|env|]; cbn in Hstep |- *.
  - unfold enqueue in Hstep. destruct (checked_add _ _ _); [|done]. injection Hstep as <- <-. cbn.
    rewrite BTree.insert_last by done. unfold waiters. by rewrite bind_app.
  - rewrite next_due_eq in Hstep by done. injection Hstep as <- <-. cbn. rewrite app_nil_r.
    apply tick_waiters.
  - unfold on_ack in Hstep. destruct (BTree.get _ _) as [e|] eqn:Hg; injection Hstep as <- <-; cbn;
      rewrite app_nil_r; [|done].
    apply BTree.get_split in Hg as (m1 & m2 & -> & -> & _). rewrite resolve_waiters. unfold waiters.
    rewrite !bind_app. cbn. rewrite !app_assoc. f_equiv. apply Permutation_app_comm.
  - unfold on_inbound in Hstep. destruct (dedup_contains _ _); injection Hstep as <- <-; cbn;
      by rewrite app_nil_r.
  - injection Hstep as <- <-. cbn. rewrite !app_nil_r. unfold waiters. clear Hk Hb.
    induction (outbound c) as [|[k e] q IH]; [done|]. cbn. by rewrite fmap_app, resolve_waiters, IH.
Qed.

Lemma run_waiters ops c c' o :
  channel_inv c -> channel_run c ops = Some (c', o) ->
  (notified o).*1 ++ waiters (outbound c') ≡ₚ waiters (outbound c) ++ enqueued_waiters ops.
Proof.
  revert c c' o; induction ops as [|op ops IH]; intros c c' o Hc; cbn.
  { intros [= <- <-]. cbn. by rewrite app_nil_r. }
  destruct (channel_step c op) as [[c1 o1]|] eqn:Hs; [|done]. cbn.
  destruct (channel_run c1 ops) as [[c2 o2]|] eqn:Hr; [|done]. cbn. intros [= <- <-]. cbn.
  pose proof (channel_step_inv _ _ _ _ Hc Hs) as Hc1.
  rewrite fmap_app, <- app_assoc. rewrite (IH _ _ _ Hc1 Hr), app_assoc, (step_waiters _ _ _ _ Hc Hs).
  cbn. by rewrite app_nil_r, <- app_assoc.
Qed.

(** ** No envelope is emitted more than [RETX_MAX_ATTEMPTS] times *)

Definition emissions (s : Z) (l : list ControlEnvelope) : Z :=
  zlen (filter (fun e => env_seq e = s) l).

(** Emissions a sequence number has left. *)
Definition budget_of (s : Z) (q : list (Z * OutboundEntry)) (unused : Z) : Z :=
  match BTree.get s q with Some e => RETX_MAX_ATTEMPTS - attempts e | None => unused end.
Definition budget (c : ControlChannel) (s : Z) : Z :=
  budget_of s (outbound c) (if s <? next_seq c then 0 else RETX_MAX_ATTEMPTS).

Lemma emissions_app s l1 l2 : emissions s (l1 ++ l2) = emissions s l1 + emissions s l2.
Proof. unfold emissions. by rewrite filter_app, zlen_app. Qed.

Lemma emissions_cons s e l :
  emissions s (e :: l) = (if decide (env_seq e = s) then 1 else 0) + emissions s l.
Proof. unfold emissions. rewrite filter_cons. case_decide; [by rewrite zlen_cons|lia]. Qed.

Lemma emissions_not_in s l : s ∉ env_seq <$> l -> emissions s l = 0.
Proof.
  intros Hs. unfold emissions. induction l as [|e l IH]; [done|].
  rewrite filter_cons_False by set_solver. apply IH. set_solver.
Qed.

Lemma omap_emit_keys now next q s :
  Forall (entry_ok next) q -> s ∈ env_seq <$> omap (due_emit now) q -> s ∈ q.*1.
Proof.
  intros Hq (env & -> & (x & Hx & He)%list_elem_of_omap)%list_elem_of_fmap.
  rewrite Forall_forall in Hq. destruct (Hq x Hx) as (Hk & _). unfold due_emit in He.
  repeat case_match; try done. injection He as <-. rewrite <- Hk. set_solver.
Qed.

Lemma get_keep now q s :
  s ∉ q.*1 -> BTree.get s (omap (due_keep now) q) = None.
Proof.
  intros Hs. apply BTree.get_None. intros Hin. apply Hs.
  eapply elem_of_submseteq; [exact Hin|]. apply sublist_submseteq, due_keep_keys.
Qed.

Lemma tick_budget now next q s unused :
  Forall (entry_ok next) q -> NoDup q.*1 -> (s ∈ q.*1 -> unused = 0) ->
  emissions s (omap (due_emit now) q) + budget_of s (omap (due_keep now) q) unused
  <= budget_of s q unused.
Proof.
  intros Hq Hn Hu. induction q as [|x q IH]; [done|].
  apply Forall_cons_iff in Hq as [Hx Hq]. cbn in Hn. apply NoDup_cons in Hn as [Hxn Hn].
  destruct (decide (s = x.1)) as [->|Hne].
  - assert (emissions x.1 (omap (due_emit now) q) = 0) as Hz
      by (apply emissions_not_in; intros Hin; apply Hxn; by eapply omap_emit_keys).
    rewrite Hu by set_solver. destruct Hx as (Hk & _ & Ha & _).
    destruct x as [k e]. cbn in Hk, Ha, Hxn, Hz |- *. unfold budget_of. cbn. rewrite Z.eqb_refl.
    unfold due_emit at 1, due_keep at 1, expired, due_upd. cbn.
    destruct (now <? next_send_at e); cbn; [rewrite Z.eqb_refl; lia|].
    destruct (RETX_MAX_ATTEMPTS <=? attempts e); cbn.
    + rewrite (get_keep now q k) by done. lia.
    + rewrite Z.eqb_refl. cbn. rewrite emissions_cons, Hz, decide_True by done. lia.
  - assert (budget_of s (x :: q) unused = budget_of s q unused) as ->.
    { destruct x as [k e]. unfold budget_of. cbn in *. by rewrite (proj2 (Z.eqb_neq s k)). }
    etransitivity; [|apply IH; [done|done|intros; apply Hu; set_solver]].
    destruct Hx as (Hk & _). cbn. unfold due_emit at 1, due_keep at 1, expired.
    assert (forall y q', y.1 = x.1 -> budget_of s (y :: q') unused = budget_of s q' unused) as Hskip.
    { intros [k e] q' Hy. unfold budget_of. cbn in *. by rewrite (proj2 (Z.eqb_neq s k)) by congruence. }
    destruct (now <? next_send_at x.2) eqn:H1; cbn;
      [rewrite Hskip by apply due_upd_key; lia|].
    destruct (RETX_MAX_ATTEMPTS <=? attempts x.2); cbn; [lia|].
    rewrite Hskip by apply due_upd_key. rewrite emissions_cons, decide_False by congruence. lia.
Qed.

Lemma budget_nonneg c s : channel_inv c -> 0 <= budget c s.
Proof.
  intros Hc. unfold budget, budget_of. destruct (BTree.get _ _) as [e|] eqn:Hg.
  - apply BTree.get_split in Hg as (m1 & m2 & Heq & _). pose proof (ci_entries _ Hc) as He.
    rewrite Heq in He. apply Forall_app in He as [_ [(_ & _ & Ha & _) _]%Forall_cons_iff].
    cbn in Ha. lia.
  - case_match; [lia|]. unfold RETX_MAX_ATTEMPTS. lia.
Qed.

Lemma step_budget c op c' o s :
  channel_inv c -> channel_step c op = Some (c', o) ->
  emissions s (emitted o) + budget c' s <= budget c s.
Proof.
  intros Hc Hstep. pose proof (ci_keys c Hc) as Hk. pose proof (entries_below c Hc) as Hb.
  assert (forall q, q `sublist_of` outbound c ->
            budget (mkChannel (next_seq c) q (dedup c)) s <= budget c s) as Hsub.
  { intros q Hq. unfold budget, budget_of. cbn. destruct (BTree.get s q) as [e|] eqn:Hg.
    - apply BTree.get_split in Hg as (m1 & m2 & -> & _).
      assert ((s, e) ∈ outbound c) as (l1 & l2 & Ho)%list_elem_of_split
        by (eapply elem_of_submseteq; [|by apply sublist_submseteq]; set_solver).
      rewrite Ho. rewrite Ho, fmap_app in Hk. apply NoDup_app in Hk as (_ & Hk & _).
      assert (s ∉ l1.*1) as Hs by (intros Hin; apply (Hk s Hin); set_solver).
      clear -Hs. induction l1 as [|[k e'] l1 IH]; cbn; [by rewrite Z.eqb_refl|].
      cbn in Hs. rewrite (proj2 (Z.eqb_neq s k)) by set_solver. apply IH. set_solver.
    - pose proof (budget_nonneg c s Hc) as Hb'. unfold budget, budget_of in Hb'.
      destruct (BTree.get s (outbound c)) as [e|] eqn:Hg'; [|done].
      apply BTree.get_split in Hg' as (m1 & m2 & Ho & _). rewrite Ho in Hb.
      rewrite fmap_app in Hb. apply Forall_app in Hb as [_ [Hb _]%Forall_cons_iff]. cbn in Hb.
      rewrite (proj2 (Z.ltb_lt _ _)) by done. lia. }
  destruct op as [bt body w now|now|a|env|]; cbn in Hstep.
  - unfold enqueue, checked_add in Hstep. case_decide; [|done]. injection Hstep as <- <-. cbn [emitted].
    rewrite BTree.insert_last by done. unfold budget, budget_of. cbn [outbound next_seq].
    rewrite emissions_cons. change (emissions s []) with 0. cbn [env_seq].
    assert (BTree.get (next_seq c) (outbound c) = None) as Hnone
      by (apply BTree.get_None; intros Hin; rewrite Forall_forall in Hb; specialize (Hb _ Hin); lia).
    assert (forall q : list (Z * OutboundEntry), forall x,
      BTree.get s (q ++ [(next_seq c, x)])
      = match BTree.get s q with Some e => Some e | None => if s =? next_seq c then Some x else None end) as Happ.
    { intros q x. induction q as [|[k e] q IH]; [done|]. cbn. by destruct (s =? k). }
    rewrite Happ. destruct (Z.eqb_spec s (next_seq c)) as [->|Hne].
    + rewrite Hnone, decide_True, Z.ltb_irrefl by done. cbn. lia.
    + rewrite decide_False by done. destruct (BTree.get s (outbound c)); [lia|].
      destruct (s <? next_seq c + 1) eqn:H1, (s <? next_seq c) eqn:H2; lia.
  - rewrite next_due_eq in Hstep by done. injection Hstep as <- <-. cbn [emitted].
    unfold budget. cbn [outbound next_seq].
    apply (tick_budget now (next_seq c)); [apply Hc|done|]. intros Hin.
    rewrite Forall_forall in Hb. by rewrite (proj2 (Z.ltb_lt _ _)) by (by apply Hb).
  - unfold on_ack in Hstep. destruct (BTree.get _ _); injection Hstep as <- <-; cbn; [|done].
    apply Hsub, BTree.remove_sublist.
  - unfold on_inbound in Hstep. by destruct (dedup_contains _ _); injection Hstep as <- <-.
  - injection Hstep as <- <-. apply Hsub, sublist_nil_l.
Qed.

Lemma run_budget ops c c' o s :
  channel_inv c -> channel_run c ops = Some (c', o) ->
  emissions s (emitted o) + budget c' s <= budget c s.
Proof.
  revert ops c c' o.
  apply (channel_run_ind (fun c o c' => emissions s (emitted o) + budget c' s <= budget c s)).
  - intros c. cbn. change (emissions s []) with 0. lia.
  - intros c op c1 o1 c2 o2 Hc Hs Hc1 IH. cbn. rewrite emissions_app.
    pose proof (step_budget _ _ _ _ s Hc Hs). lia.
Qed.

(** ** The dedup window *)

Definition lastn {A} (n : nat) (l : list A) : list A := drop (length l - n) l.

Lemma lastn_snoc {A} n (l : list A) x : lastn (S n) (l ++ [x]) = lastn n l ++ [x].
Proof.
  unfold lastn. rewrite length_app. cbn. replace (length l + 1 - S n)%nat with (length l - n)%nat by lia.
  rewrite drop_app_le by lia. done.
Qed.

Lemma lastn_lastn {A} n (l : list A) : lastn n (lastn (S n) l) = lastn n l.
Proof. unfold lastn. rewrite length_drop, drop_drop. f_equal. lia. Qed.

Lemma lastn_all {A} n (l : list A) : (length l <= n)%nat -> lastn n l = l.
Proof. intros Hl. unfold lastn. by replace (length l - n)%nat with 0%nat by lia. Qed.

Lemma dedup_insert_lastn d s :
  cap d = DEDUP_WINDOW -> zlen (seen d) <= DEDUP_WINDOW -> s ∉ seen d ->
  seen (dedup_insert d s) = lastn 256 (seen d ++ [s]).
Proof.
  intros Hc Hl Hs. unfold dedup_insert.
  destruct (dedup_contains d s) eqn:Hd; [by apply dedup_contains_spec in Hd|]. cbn [seen].
  rewrite lastn_snoc, Hc. unfold zlen, DEDUP_WINDOW in *. f_equal. destruct (_ =? 256) eqn:Hf.
  - apply Z.eqb_eq in Hf. unfold lastn. replace (length (seen d) - 255)%nat with 1%nat by lia.
    by destruct (seen d).
  - apply Z.eqb_neq in Hf. rewrite lastn_all by lia. done.
Qed.

(** Reference: deliver unless the sequence number is among the last 256
    delivered. *)
Fixpoint window_spec (hist : list Z) (envs : list ControlEnvelope) : list ControlEnvelope :=
  match envs with
  | [] => []
  | e :: envs' =>
      if bool_decide (env_seq e ∈ lastn 256 hist) then window_spec hist envs'
      else e :: window_spec (hist ++ [env_seq e]) envs'
  end.

Definition inbound_envs (ops : list ChannelOp) : list ControlEnvelope :=
  ops ≫= fun op => match op with OpInbound e => [e] | _ => [] end.

Lemma step_dedup_same c op c' o :
  channel_step c op = Some (c', o) -> inbound_envs [op] = [] -> dedup c' = dedup c /\ delivered o = [].
Proof.
  destruct op as [bt body w now|now|a|env|]; cbn; try done.
  - unfold enqueue. destruct (checked_add _ _ _); [|done]. by intros [= <- <-].
  - destruct (next_due c now) as [[c1 out] ns] eqn:Hd. unfold next_due in Hd.
    destruct (due_loop _ _) as [[q out'] to]. destruct (expire_loop to q). injection Hd as <- <- <-.
    by intros [= <- <-].
  - unfold on_ack. destruct (BTree.get _ _); by intros [= <- <-].
  - by intros [= <- <-].
Qed.

Lemma run_dedup ops : forall c c' o hist,
  channel_inv c -> seen (dedup c) = lastn 256 hist -> channel_run c ops = Some (c', o) ->
  delivered o = window_spec hist (inbound_envs ops)
  /\ seen (dedup c') = lastn 256 (hist ++ (env_seq <$> delivered o)).
Proof.
  induction ops as [|op ops IH]; intros c c' o hist Hc Hseen; cbn.
  { intros [= <- <-]. cbn. by rewrite app_nil_r. }
  destruct (channel_step c op) as [[c1 o1]|] eqn:Hs; [|done]. cbn.
  destruct (channel_run c1 ops) as [[c2 o2]|] eqn:Hr; [|done]. cbn. intros [= <- <-]. cbn.
  pose proof (channel_step_inv _ _ _ _ Hc Hs) as Hc1.
  assert (inbound_envs [op] = [] \/ exists env, op = OpInbound env) as [Hno|[env ->]]
    by (destruct op; eauto).
  - destruct (step_dedup_same _ _ _ _ Hs Hno) as [Hd ->]. rewrite <- Hd in Hseen.
    destruct (IH _ _ _ hist Hc1 Hseen Hr) as [-> ?]. cbn in Hno. rewrite app_nil_r in Hno. by rewrite Hno.
  - cbn in Hs. unfold on_inbound in Hs. destruct (dedup_contains _ _) eqn:Hdc; injection Hs as <- <-; cbn.
    + apply dedup_contains_spec in Hdc. rewrite Hseen in Hdc. rewrite bool_decide_true by done.
      by apply (IH c).
    + assert (env_seq env ∉ seen (dedup c)) as Hnew by (intros Hin%dedup_contains_spec; congruence).
      rewrite bool_decide_false by (by rewrite <- Hseen).
      assert (seen (dedup_insert (dedup c) (env_seq env)) = lastn 256 (hist ++ [env_seq env])) as Hseen'.
      { rewrite dedup_insert_lastn by (done || apply Hc). rewrite Hseen.
        rewrite !lastn_snoc. by rewrite lastn_lastn. }
      destruct (IH _ _ _ _ Hc1 Hseen' Hr) as [-> Hs'].
      split; [done|]. by rewrite <- app_assoc in Hs'.
Qed.

Lemma window_spec_spacing envs : forall hist A x B,
  window_spec hist envs = A ++ x :: B -> env_seq x ∉ lastn 256 (hist ++ (env_seq <$> A)).
Proof.
  induction envs as [|e envs IH]; intros hist A x B; cbn; [by destruct A|].
  case_bool_decide as He; [apply IH|]. destruct A as [|y A]; cbn.
  - intros [= -> _]. by rewrite app_nil_r.
  - intros [= <- Heq]. change (env_seq e :: (env_seq <$> A)) with ([env_seq e] ++ (env_seq <$> A)).
    rewrite app_assoc. by eapply IH.
Qed.

(** ** Retransmission terminates *)

(** Follow [next_tick_at] with no ack arriving: the final channel, the
    notifications and the tick times. *)
Fixpoint drain (fuel : nat) (c : ControlChannel) : ControlChannel * list Notify * list Z :=
  match fuel with
  | O => (c, [], [])
  | S n =>
      match next_tick_at c with
      | None => (c, [], [])
      | Some t =>
          let '(c1, _, ns) := next_due c t in
          let '(c2, ns', ts) := drain n c1 in
          (c2, ns ++ ns', t :: ts)
      end
  end.

(** Ticks an entry can still use, and the time they take. *)
Definition load (q : list (Z * OutboundEntry)) : Z :=
  foldr (fun x acc => (1 + RETX_MAX_ATTEMPTS - attempts x.2) + acc) 0 q.
Fixpoint remaining_from (n : nat) (att : Z) : Z :=
  match n with O => 0 | S n' => backoff_for (att + 1) + remaining_from n' (att + 1) end.
Definition remaining (att : Z) : Z := remaining_from (Z.to_nat (RETX_MAX_ATTEMPTS - att)) att.
Definition done_by (T : Z) (x : Z * OutboundEntry) : Prop :=
  next_send_at x.2 + remaining (attempts x.2) <= T.

Lemma backoff_bounds att : RETX_INITIAL <= backoff_for att <= RETX_MAX.
Proof.
  unfold backoff_for, saturating_sub. set (sh := Z.min _ 8).
  assert (0 <= sh <= 8) as Hsh by lia. rewrite Z.shiftl_1_l.
  assert (1 <= 2 ^ sh) by (pose proof (Z.pow_pos_nonneg 2 sh); lia).
  unfold RETX_INITIAL, RETX_MAX, Time.from_millis, Time.from_secs, Time.NANOS_PER_SEC. lia.
Qed.

Lemma remaining_nonneg att : 0 <= remaining att.
Proof.
  unfold remaining. generalize (Z.to_nat (RETX_MAX_ATTEMPTS - att)). intros n. revert att.
  induction n as [|n IH]; intros att; cbn; [lia|]. pose proof (backoff_bounds (att + 1)).
  specialize (IH (att + 1)). unfold RETX_INITIAL, Time.from_millis in *. lia.
Qed.

Lemma remaining_step att :
  att < RETX_MAX_ATTEMPTS -> remaining att = backoff_for (att + 1) + remaining (att + 1).
Proof.
  intros Ha. unfold remaining.
  replace (Z.to_nat (RETX_MAX_ATTEMPTS - att)) with (S (Z.to_nat (RETX_MAX_ATTEMPTS - (att + 1)))) by lia.
  done.
Qed.

Lemma next_tick_Some c t :
  next_tick_at c = Some t ->
  (exists x, x ∈ outbound c /\ next_send_at x.2 = t) /\ Forall (fun x => t <= next_send_at x.2) (outbound c).
Proof.
  unfold next_tick_at. revert t. induction (outbound c) as [|[k e] q IH]; intros t; cbn; [done|].
  destruct (foldr _ None q) as [t'|] eqn:Hf; intros [= <-].
  - destruct (IH t' eq_refl) as [(x & Hx & Hxt) Hall]. split.
    + destruct (Z.min_spec (next_send_at e) t') as [[_ ->]|[_ ->]].
      * exists (k, e). set_solver.
      * exists x. set_solver.
    + constructor; [cbn; lia|]. eapply Forall_impl; [exact Hall|]. intros y Hy. cbn in Hy. lia.
  - split; [exists (k, e); set_solver|]. constructor; [done|].
    destruct q as [|[k' e'] q]; [constructor|]. cbn in Hf. destruct (foldr _ None q); done.
Qed.

Lemma next_tick_None c : next_tick_at c = None -> outbound c = [].
Proof. unfold next_tick_at. destruct (outbound c) as [|[k e] q]; [done|]. cbn. by case_match. Qed.

Lemma load_nonneg next q : Forall (entry_ok next) q -> 0 <= load q.
Proof.
  induction 1 as [|x q (_ & _ & Ha & _) _ IH]; [done|].
  change (load (x :: q)) with ((1 + RETX_MAX_ATTEMPTS - attempts x.2) + load q). lia.
Qed.

(** An entry pays at least one unit of its load when it is due. *)
Lemma entry_load now next x :
  entry_ok next x ->
  match due_keep now x with Some y => 1 + RETX_MAX_ATTEMPTS - attempts y.2 | None => 0 end
  + (if now <? next_send_at x.2 then 0 else 1) <= 1 + RETX_MAX_ATTEMPTS - attempts x.2.
Proof.
  intros (_ & _ & Ha & _). unfold due_keep, due_upd, expired.
  destruct (now <? next_send_at x.2); cbn; [lia|].
  destruct (RETX_MAX_ATTEMPTS <=? attempts x.2) eqn:Hm; cbn; lia.
Qed.

Lemma tick_load now next q :
  Forall (entry_ok next) q ->
  load (omap (due_keep now) q) <= load q
  /\ (Exists (fun x => next_send_at x.2 <= now) q -> load (omap (due_keep now) q) < load q).
Proof.
  induction 1 as [|x q Hx _ [IH1 IH2]]; [split; [done|]; by intros []%Exists_nil|].
  pose proof (entry_load now next x Hx) as He.
  assert (load (omap (due_keep now) (x :: q))
          = match due_keep now x with Some y => 1 + RETX_MAX_ATTEMPTS - attempts y.2 | None => 0 end
            + load (omap (due_keep now) q)) as ->.
  { cbn. destruct (due_keep now x); cbn; fold (load (omap (due_keep now) q)); lia. }
  change (load (x :: q)) with ((1 + RETX_MAX_ATTEMPTS - attempts x.2) + load q). split.
  - destruct (now <? next_send_at x.2); lia.
  - rewrite Exists_cons. intros [Hd|Hd].
    + rewrite (proj2 (Z.ltb_ge _ _)) in He by done. lia.
    + specialize (IH2 Hd). destruct (now <? next_send_at x.2); lia.
Qed.

(** At the earliest deadline, nothing moves past its completion time. *)
Lemma tick_done_by now T q :
  Forall (fun x => now <= next_send_at x.2) q -> Forall (done_by T) q ->
  Forall (done_by T) (omap (due_keep now) q).
Proof.
  intros Hn HT. rewrite Forall_forall in Hn. rewrite Forall_forall in HT.
  apply Forall_forall. intros y (x & Hx & Hy)%list_elem_of_omap.
  specialize (Hn x Hx). specialize (HT x Hx). cbn in Hn. unfold due_keep, due_upd, expired in Hy.
  destruct (now <? next_send_at x.2) eqn:H1; cbn in Hy; [by injection Hy as <-|].
  destruct (RETX_MAX_ATTEMPTS <=? attempts x.2) eqn:H2; [done|]. injection Hy as <-.
  unfold done_by in *. cbn. rewrite (remaining_step (attempts x.2)) in HT by lia. lia.
Qed.

Lemma drain_run fuel : forall c c' ns ts,
  drain fuel c = (c', ns, ts) ->
  exists o, channel_run c (OpTick <$> ts) = Some (c', o) /\ notified o = ns.
Proof.
  induction fuel as [|n IH]; intros c c' ns ts; cbn.
  { intros [= <- <- <-]. by eexists. }
  destruct (next_tick_at c) as [t|]; [|intros [= <- <- <-]; by eexists].
  destruct (next_due c t) as [[c1 out] ns1] eqn:Hd. destruct (drain n c1) as [[c2 ns2] ts2] eqn:Hr.
  intros [= <- <- <-]. destruct (IH _ _ _ _ Hr) as (o & Ho & <-).
  cbn. rewrite Hd. cbn. rewrite Ho. cbn. by eexists.
Qed.

Lemma drain_empties fuel : forall c c' ns ts T,
  channel_inv c -> load (outbound c) <= Z.of_nat fuel -> Forall (done_by T) (outbound c) ->
  drain fuel c = (c', ns, ts) ->
  outbound c' = [] /\ Forall (fun n => n.2 = Err (Timeout RETX_MAX_ATTEMPTS)) ns
  /\ Forall (fun t => t <= T) ts.
Proof.
  induction fuel as [|n IH]; intros c c' ns ts T Hc Hload HT; cbn.
  { intros [= <- <- <-]. split; [|split; constructor].
    destruct (outbound c) as [|x q] eqn:Ho; [done|]. exfalso.
    pose proof (ci_entries _ Hc) as He. rewrite Ho in He. apply Forall_cons_iff in He as [Hx Hq].
    pose proof (load_nonneg _ _ Hq). destruct Hx as (_ & _ & Ha & _).
    change (load (x :: q)) with ((1 + RETX_MAX_ATTEMPTS - attempts x.2) + load q) in Hload. lia. }
  destruct (next_tick_at c) as [t|] eqn:Ht.
  2:{ intros [= <- <- <-]. apply next_tick_None in Ht. split; [done|]. split; constructor. }
  destruct (next_due c t) as [[c1 out] ns1] eqn:Hd. destruct (drain n c1) as [[c2 ns2] ts2] eqn:Hr.
  intros [= <- <- <-].
  assert (channel_step c (OpTick t) = Some (c1, mkOutput out ns1 [])) as Hs by (cbn; by rewrite Hd).
  pose proof (channel_step_inv _ _ _ _ Hc Hs) as Hc1.
  rewrite (next_due_eq c t (ci_keys _ Hc)) in Hd. injection Hd as <- <- <-.
  destruct (next_tick_Some _ _ Ht) as [(x & Hx & Hxt) Hmin].
  destruct (tick_load t _ _ (ci_entries _ Hc)) as [_ Hlt].
  assert (load (omap (due_keep t) (outbound c)) <= Z.of_nat n) as Hload1.
  { enough (load (omap (due_keep t) (outbound c)) < load (outbound c)) by lia.
    apply Hlt, Exists_exists. exists x. split; [done|lia]. }
  destruct (IH _ _ _ _ T Hc1 Hload1 (tick_done_by t T _ Hmin HT) Hr) as (Ho & Hns & Hts).
  split; [done|]. split.
  - apply Forall_app. split; [|done]. apply Forall_bind, Forall_true. intros y. cbn. unfold due_told, resolve.
    repeat case_match; repeat constructor.
  - constructor; [|done]. rewrite Forall_forall in HT. specialize (HT x Hx). unfold done_by in HT.
    pose proof (remaining_nonneg (attempts x.2)). lia.
Qed.

(** ** Properties *)

Module ReliabilityProps.

(** C25: Channel invariant.  Every channel reached from [new] by any sequence
    of sends, ticks, acks, inbound envelopes and aborts has its queue keyed by
    envelope sequence number in increasing order below [next_seq], between one
    and five attempts per entry, a waiter on every entry, and a dedup window
    of at most 256 distinct numbers. *)
Theorem channel_reachable_inv (ops : list ChannelOp) c o :
  channel_run channel_new ops = Some (c, o) -> channel_inv c.
Proof. apply channel_run_inv, channel_new_inv. Qed.

Definition demo_ops : list ChannelOp :=
  [OpEnqueue 2 [] 7%nat 0; OpTick (Time.from_millis 200); OpInbound (mkEnvelope 9 1 []);
   OpInbound (mkEnvelope 9 1 []); OpEnqueue 2 [] 8%nat 0; OpAck (mkAck 1 (AckReject 102)); OpAbort].

Lemma channel_reachable_inv_witness :
  exists c o, channel_run channel_new demo_ops = Some (c, o) /\ channel_inv c.
Proof.
  destruct (channel_run channel_new demo_ops) as [[c o]|] eqn:Hr; [|by vm_compute in Hr].
  exists c, o. split; [reflexivity|]. exact (channel_reachable_inv demo_ops c o Hr).
Defined.

(** C3: Every waiter is told exactly once.  Over any run, the waiters told
    (acked, rejected, timed out or aborted) together with those still pending
    are, as a multiset, exactly the waiters that were enqueued: none is lost
    and none is told twice. *)
Theorem waiters_resolved_once (ops : list ChannelOp) c o :
  channel_run channel_new ops = Some (c, o) ->
  (notified o).*1 ++ waiters (outbound c) ≡ₚ enqueued_waiters ops.
Proof. intros Hr. by apply (run_waiters ops channel_new c o channel_new_inv). Qed.

Lemma waiters_resolved_once_witness :
  exists c o, channel_run channel_new demo_ops = Some (c, o)
              /\ (notified o).*1 ++ waiters (outbound c) ≡ₚ [7; 8]%nat.
Proof.
  destruct (channel_run channel_new demo_ops) as [[c o]|] eqn:Hr; [|by vm_compute in Hr].
  exists c, o. split; [reflexivity|]. exact (waiters_resolved_once demo_ops c o Hr).
Defined.

(** Bounded retransmission: whatever happens on the channel, no envelope
    is handed to the transport more than [RETX_MAX_ATTEMPTS] times. *)
Theorem emissions_bounded (ops : list ChannelOp) c o (s : Z) :
  channel_run channel_new ops = Some (c, o) -> emissions s (emitted o) <= RETX_MAX_ATTEMPTS.
Proof.
  intros Hr. pose proof (run_budget ops _ _ _ s channel_new_inv Hr) as Hb.
  pose proof (budget_nonneg c s (channel_run_inv _ _ _ _ channel_new_inv Hr)).
  enough (budget channel_new s <= RETX_MAX_ATTEMPTS) by lia.
  unfold budget, budget_of. cbn. case_match; unfold RETX_MAX_ATTEMPTS; lia.
Qed.

Lemma emissions_bounded_witness :
  exists c o, channel_run channel_new demo_ops = Some (c, o) /\ emissions 1 (emitted o) = 2
              /\ emissions 1 (emitted o) <= RETX_MAX_ATTEMPTS.
Proof.
  destruct (channel_run channel_new demo_ops) as [[c o]|] eqn:Hr; [|by vm_compute in Hr].
  exists c, o. split; [reflexivity|]. split; [|exact (emissions_bounded demo_ops c o 1 Hr)].
  vm_compute in Hr. by injection Hr as <- <-.
Defined.

(** C18: Unacked sends time out.  If no ack comes and the channel is ticked at
    every deadline it asks for, the queue is empty after at most as many ticks
    as attempts are left in it, every pending waiter has then been told
    [Timeout] and nothing else, and no tick was later than the time [T] the
    backoff schedule allows (five seconds after a fresh send). *)
Theorem unacked_sends_time_out c c' ns ts (fuel : nat) T :
  channel_inv c -> load (outbound c) <= Z.of_nat fuel -> Forall (done_by T) (outbound c) ->
  drain fuel c = (c', ns, ts) ->
  outbound c' = []
  /\ ns.*1 ≡ₚ waiters (outbound c)
  /\ Forall (fun n => n.2 = Err (Timeout RETX_MAX_ATTEMPTS)) ns
  /\ Forall (fun t => t <= T) ts.
Proof.
  intros Hc Hl HT Hd. destruct (drain_empties fuel c c' ns ts T Hc Hl HT Hd) as (Ho & Hns & Hts).
  split_and!; try done. destruct (drain_run _ _ _ _ _ Hd) as (o & Hr & <-).
  pose proof (run_waiters _ _ _ _ Hc Hr) as Hw. rewrite Ho in Hw. cbn in Hw. rewrite app_nil_r in Hw.
  rewrite Hw. clear. induction ts as [|t ts IH]; [by rewrite app_nil_r|]. done.
Qed.

Definition demo_sent : ControlChannel :=
  mkChannel 2 [(1, mkEntry (mkEnvelope 1 2 []) 1 (0 + RETX_INITIAL) (Some 7%nat))] (dedup_new DEDUP_WINDOW).

Lemma demo_sent_inv : channel_inv demo_sent.
Proof.
  apply (channel_step_inv channel_new (OpEnqueue 2 [] 7%nat 0) demo_sent
           (mkOutput [mkEnvelope 1 2 []] [] [])); [apply channel_new_inv|reflexivity].
Qed.

Lemma unacked_sends_time_out_witness :
  exists c' ns ts, drain 5 demo_sent = (c', ns, ts) /\ outbound c' = []
    /\ Forall (fun t => t <= Time.from_secs 5) ts.
Proof.
  destruct (drain 5 demo_sent) as [[c' ns] ts] eqn:Hd. exists c', ns, ts. split; [reflexivity|].
  destruct (unacked_sends_time_out demo_sent c' ns ts 5 (Time.from_secs 5) demo_sent_inv)
    as (Ho & _ & _ & Ht); [by vm_compute|by repeat constructor|exact Hd|].
  split; [exact Ho|exact Ht].
Defined.

(** C31: The dedup window refines its reference.  Over any run, the envelopes
    handed to the dispatcher are exactly those the reference delivers, which
    drops an envelope precisely when its number is among the last 256
    delivered; so two deliveries of one number are more than 256 apart. *)
Theorem dedup_refines_window (ops : list ChannelOp) c o :
  channel_run channel_new ops = Some (c, o) ->
  delivered o = window_spec [] (inbound_envs ops)
  /\ (forall A x B, delivered o = A ++ x :: B -> env_seq x ∉ lastn 256 (env_seq <$> A)).
Proof.
  intros Hr. destruct (run_dedup ops _ _ _ [] channel_new_inv eq_refl Hr) as [Hd _].
  split; [done|]. intros A x B. rewrite Hd. apply (window_spec_spacing _ []).
Qed.

Lemma dedup_refines_window_witness :
  exists c o, channel_run channel_new demo_ops = Some (c, o) /\ delivered o = [mkEnvelope 9 1 []].
Proof.
  destruct (channel_run channel_new demo_ops) as [[c o]|] eqn:Hr; [|by vm_compute in Hr].
  exists c, o. split; [reflexivity|].
  rewrite (proj1 (dedup_refines_window demo_ops c o Hr)). reflexivity.
Defined.

End ReliabilityProps.
