(* ===== verification/PeerState.v ===== *)
(** * The accept side's peer state ([yggdrasil/src/heartbeat/peer_state.rs])
    and the pending-peer store ([yggdrasil/src/pending_peers.rs])

    The [watch] channel is its current value and the number of times its
    receivers were woken. *)

From S2P Require Import Prelude RustStd External Error Instances PubKey.

Inductive HeartbeatEffect :=
  | SameIp (i : Net.IpAddr)
  | FirstHeartbeat (i : Net.IpAddr)
  | IpChanged (old new : Net.IpAddr).

Definition is_data_plane_change (e : HeartbeatEffect) : bool :=
  match e with SameIp _ => false | _ => true end.

Record PeerState := mkPeerState {
  peer_static_key : option PubKey;
  current_ip : option Net.IpAddr;
  wakes : nat;
  last_heartbeat_raw : Z
}.

Definition peer_state_new (k : option PubKey) : PeerState := mkPeerState k None 0 0.

Definition is_peer_enrolled (p : PeerState) : bool := bool_decide (is_Some (peer_static_key p)).
Definition set_peer_static_key (p : PeerState) (k : PubKey) : PeerState :=
  mkPeerState (Some k) (current_ip p) (wakes p) (last_heartbeat_raw p).
Definition last_heartbeat_ms (p : PeerState) : option Z :=
  if last_heartbeat_raw p =? 0 then None else Some (last_heartbeat_raw p).

(** [send_if_modified]: a [true] from the closure wakes the receivers. *)
Definition record_heartbeat (p : PeerState) (peer_addr : Net.SocketAddr) (now_ms : Z) :
    PeerState * HeartbeatEffect :=
  let new_ip := Net.ip peer_addr in
  match current_ip p with
  | Some old =>
      if bool_decide (old = new_ip)
      then (mkPeerState (peer_static_key p) (Some old) (wakes p) now_ms, SameIp new_ip)
      else (mkPeerState (peer_static_key p) (Some new_ip) (S (wakes p)) now_ms, IpChanged old new_ip)
  | None => (mkPeerState (peer_static_key p) (Some new_ip) (S (wakes p)) now_ms, FirstHeartbeat new_ip)
  end.

(** ** Pending peers *)

Record CandidateRecord := mkCandidate {
  cand_pubkey : PubKey;
  first_seen_unix_ms : Z;
  attempt_count : Z
}.

Definition MIN_FINGERPRINT_PREFIX_LEN : Z := 8.

Inductive ApproveOutcome :=
  | Approved (fp : string) (key : PubKey)
  | NotFound
  | Ambiguous (fps : list string)
  | PrefixTooShort (provided required : Z).

Fixpoint record_candidate (l : list CandidateRecord) (k : PubKey) (now_ms : Z) : list CandidateRecord :=
  match l with
  | [] => [mkCandidate k now_ms 1]
  | c :: l' =>
      if bool_decide (cand_pubkey c = k)
      then mkCandidate (cand_pubkey c) (first_seen_unix_ms c) (saturating_add 64 (attempt_count c) 1) :: l'
      else c :: record_candidate l' k now_ms
  end.

Section Approve.
Context `{Hex} `{Blake2}.

(** [PendingPeerStore::list]: the candidates with their fingerprints. *)
Definition list_candidates (l : list CandidateRecord) : list (string * PubKey * Z * Z) :=
  (fun c => (fingerprint (cand_pubkey c), cand_pubkey c, first_seen_unix_ms c, attempt_count c)) <$> l.

(** The filter of [approve].  A fingerprint always has an algorithm prefix;
    its absence is the source's [expect]. *)
Definition matches_query (algo_filter : option string) (hex_tail : string) (c : CandidateRecord) : bool :=
  match Str.split_once ":"%char (fingerprint (cand_pubkey c)) with
  | None => false
  | Some (algo, tl) =>
      match algo_filter with
      | Some want => if bool_decide (want = algo) then Str.starts_with tl hex_tail else false
      | None => Str.starts_with tl hex_tail
      end
  end.

Fixpoint matching_indices (f : CandidateRecord -> bool) (i : nat) (l : list CandidateRecord) : list nat :=
  match l with
  | [] => []
  | c :: l' => (if f c then [i] else []) ++ matching_indices f (S i) l'
  end.

Definition approve (l : list CandidateRecord) (query : string) : list CandidateRecord * ApproveOutcome :=
  let normalised := Str.to_ascii_lowercase (Str.trim query) in
  let '(algo_filter, hex_tail) :=
    match Str.split_once ":"%char normalised with
    | Some (algo, hex) => (Some algo, hex)
    | None => (None, normalised)
    end in
  if Z.of_nat (String.length hex_tail) <? MIN_FINGERPRINT_PREFIX_LEN
  then (l, PrefixTooShort (Z.of_nat (String.length hex_tail)) MIN_FINGERPRINT_PREFIX_LEN)
  else if negb (Str.all_bytes Str.is_ascii_hexdigit hex_tail) then (l, NotFound)
  else
    match matching_indices (matches_query algo_filter hex_tail) 0 l with
    | [] => (l, NotFound)
    | [idx] =>
        match l !! idx with
        | Some c => (firstn idx l ++ skipn (S idx) l, Approved (fingerprint (cand_pubkey c)) (cand_pubkey c))
        | None => (l, NotFound)
        end
    | many => (l, Ambiguous (omap (fun i => (fun c => fingerprint (cand_pubkey c)) <$> l !! i) many))
    end.

(** [approve_downstream] of the control surface, on a daemon that has an
    accept side.  [config_written]: whether [update_downstream_pubkey]
    rewrote the configuration file.  An error response is its code. *)
Inductive ApproveResponse :=
  | DownstreamApproved (fp : string)
  | ApproveError (code : string).

Definition approve_downstream (p : PeerState) (store : list CandidateRecord) (query : string)
    (config_written : bool) : PeerState * list CandidateRecord * ApproveResponse :=
  match approve store query with
  | (store', Approved fp key) =>
      if config_written then (set_peer_static_key p key, store', DownstreamApproved fp)
      else (p, store', ApproveError "config_write_failed")
  | (store', NotFound) => (p, store', ApproveError "no_such_fingerprint")
  | (store', Ambiguous _) | (store', PrefixTooShort _ _) =>
      (p, store', ApproveError "ambiguous_fingerprint")
  end.

End Approve.

(** ** Facts *)

(** Reference: how often the address differs from the one before. *)
Fixpoint ip_changes (cur : option Net.IpAddr) (ips : list Net.IpAddr) : nat :=
  match ips with
  | [] => 0
  | i :: ips' => (if decide (cur = Some i) then 0 else 1) + ip_changes (Some i) ips'
  end.

Fixpoint heartbeats (p : PeerState) (hs : list (Net.SocketAddr * Z)) : PeerState :=
  match hs with
  | [] => p
  | (a, now) :: hs' => heartbeats (fst (record_heartbeat p a now)) hs'
  end.

Lemma record_heartbeat_ip p a now :
  let p' := fst (record_heartbeat p a now) in
  current_ip p' = Some (Net.ip a) /\ peer_static_key p' = peer_static_key p
  /\ last_heartbeat_raw p' = now
  /\ wakes p' = ((if decide (current_ip p = Some (Net.ip a)) then 0 else 1) + wakes p)%nat.
Proof.
  unfold record_heartbeat. destruct (current_ip p) as [old|]; [|done].
  case_bool_decide as Ho; cbn; [subst; by rewrite decide_True|].
  rewrite decide_False by congruence. done.
Qed.

Lemma heartbeats_ip hs : forall p,
  current_ip (heartbeats p hs) = match last hs with Some (a, _) => Some (Net.ip a) | None => current_ip p end
  /\ wakes (heartbeats p hs) = (ip_changes (current_ip p) ((fun h => Net.ip h.1) <$> hs) + wakes p)%nat
  /\ peer_static_key (heartbeats p hs) = peer_static_key p.
Proof.
  induction hs as [|[a now] hs IH]; intros p; [done|]. cbn [heartbeats].
  destruct (record_heartbeat_ip p a now) as (Hip & Hk & _ & Hw).
  destruct (IH (fst (record_heartbeat p a now))) as (IH1 & IH2 & IH3).
  rewrite IH1, IH2, IH3, Hip, Hk, Hw. split_and!; [|cbn; lia|done].
  destruct hs as [|h hs]; [done|]. rewrite last_cons_cons. destruct (last (h :: hs)) as [[]|] eqn:Hl; [done|].
  by apply last_None in Hl.
Qed.

(** How often a key has knocked; zero when it is not staged. *)
Definition attempts_of (l : list CandidateRecord) (k : PubKey) : Z :=
  match List.find (fun c => bool_decide (cand_pubkey c = k)) l with
  | Some c => attempt_count c
  | None => 0
  end.

Lemma record_attempts l k now k' :
  attempts_of (record_candidate l k now) k'
  = if decide (k' = k) then saturating_add 64 (attempts_of l k) 1 else attempts_of l k'.
Proof.
  unfold attempts_of. induction l as [|c l IH]; cbn.
  - repeat case_bool_decide; repeat case_decide; subst; (done || congruence).
  - case_bool_decide as Hc; cbn.
    + repeat case_bool_decide; repeat case_decide; subst; (done || congruence).
    + case_bool_decide as Hc'; [by rewrite decide_False by congruence|]. exact IH.
Qed.

Lemma record_keys l k now :
  cand_pubkey <$> record_candidate l k now
  = (cand_pubkey <$> l) ++ (if decide (k ∈ cand_pubkey <$> l) then [] else [k]).
Proof.
  induction l as [|c l IH]; [done|]. cbn. case_bool_decide as Hc.
  - rewrite decide_True by set_solver. by rewrite app_nil_r.
  - cbn. rewrite IH. f_equal. f_equal. by repeat case_decide; set_solver.
Qed.

Fixpoint knocks (l : list CandidateRecord) (ks : list (PubKey * Z)) : list CandidateRecord :=
  match ks with
  | [] => l
  | (k, now) :: ks' => knocks (record_candidate l k now) ks'
  end.

Lemma knocks_keys ks : forall l,
  NoDup (cand_pubkey <$> l) ->
  NoDup (cand_pubkey <$> knocks l ks)
  /\ forall k, k ∈ cand_pubkey <$> knocks l ks <-> k ∈ cand_pubkey <$> l \/ k ∈ ks.*1.
Proof.
  induction ks as [|[k now] ks IH]; intros l Hl; cbn; [set_solver|].
  destruct (IH (record_candidate l k now)) as [Hn Hin].
  - rewrite record_keys. case_decide; [by rewrite app_nil_r|]. apply NoDup_app.
    split_and!; [done|set_solver|apply NoDup_singleton].
  - split; [done|]. intros k'. rewrite Hin, record_keys. case_decide; set_solver.
Qed.

Fixpoint knock_count (k : PubKey) (ks : list (PubKey * Z)) : Z :=
  match ks with
  | [] => 0
  | (k', _) :: ks' => (if decide (k = k') then 1 else 0) + knock_count k ks'
  end.

Lemma knock_count_nonneg k ks : 0 <= knock_count k ks.
Proof. induction ks as [|[k' now] ks IH]; cbn; [lia|]. case_decide; lia. Qed.

Lemma knocks_attempts ks : forall l k,
  0 <= attempts_of l k <= u64_max ->
  attempts_of (knocks l ks) k = Z.min u64_max (attempts_of l k + knock_count k ks).
Proof.
  induction ks as [|[k now] ks IH]; intros l k' Hl; cbn; [lia|].
  pose proof (knock_count_nonneg k' ks).
  rewrite IH, record_attempts; [|rewrite record_attempts];
    case_decide; subst; unfold saturating_add, u64_max in *; lia.
Qed.

Lemma matching_indices_spec f l i :
  matching_indices f i l = (fun n => (i + n)%nat) <$> matching_indices f 0 l.
Proof.
  revert i; induction l as [|c l IH]; intros i; [done|]. cbn. rewrite (IH (S i)), (IH 1%nat).
  rewrite fmap_app, <- list_fmap_compose. f_equal; [destruct (f c); cbn; [by rewrite Nat.add_0_r|done]|].
  apply list_fmap_ext. intros _ n _. cbn. lia.
Qed.

(** Exactly one match splits the list around it. *)
Lemma matching_one f l idx :
  matching_indices f 0 l = [idx] ->
  exists l1 c l2, l = l1 ++ c :: l2 /\ idx = length l1 /\ f c = true
                  /\ Forall (fun x => f x = false) (l1 ++ l2).
Proof.
  revert idx; induction l as [|c l IH]; intros idx; [done|]. cbn.
  rewrite matching_indices_spec. destruct (f c) eqn:Hf; cbn.
  - intros [= <- Hnil%fmap_nil_inv]. exists [], c, l. split_and!; try done.
    clear IH. induction l as [|d l IH]; [constructor|]. cbn in Hnil.
    rewrite matching_indices_spec in Hnil. destruct (f d) eqn:Hd; [done|].
    constructor; [done|]. apply IH. by apply fmap_nil_inv in Hnil.
  - intros Hone. destruct (matching_indices f 0 l) as [|n [|m r]] eqn:Hm; try done. injection Hone as <-.
    destruct (IH n eq_refl) as (l1 & d & l2 & -> & -> & Hd & Hall).
    exists (c :: l1), d, l2. split_and!; try done. by constructor.
Qed.

Lemma matching_none f l i : Forall (fun x => f x = false) l -> matching_indices f i l = [].
Proof. revert i; induction l as [|c l IH]; intros i; [done|]. intros [Hc Hl]%Forall_cons_iff. cbn. by rewrite Hc, IH. Qed.

Lemma matching_unique f l1 c l2 :
  f c = true -> Forall (fun x => f x = false) (l1 ++ l2) ->
  matching_indices f 0 (l1 ++ c :: l2) = [length l1].
Proof.
  intros Hc [H1 H2]%Forall_app. induction l1 as [|d l1 IH]; cbn.
  - by rewrite Hc, matching_none.
  - apply Forall_cons_iff in H1 as [Hd H1]. rewrite Hd, matching_indices_spec, IH by done. done.
Qed.

Section ApproveFacts.
Context `{Hex} `{Blake2}.

(** What the operator's query selects. *)
Definition query_matches (query : string) (c : CandidateRecord) : bool :=
  let normalised := Str.to_ascii_lowercase (Str.trim query) in
  match Str.split_once ":"%char normalised with
  | Some (algo, hex) => matches_query (Some algo) hex c
  | None => matches_query None normalised c
  end.

Lemma approve_cases l query :
  match approve l query with
  | (l', Approved fp k) =>
      exists l1 c l2, l = l1 ++ c :: l2 /\ l' = l1 ++ l2 /\ k = cand_pubkey c /\ fp = fingerprint k
        /\ query_matches query c = true /\ Forall (fun x => query_matches query x = false) (l1 ++ l2)
  | (l', _) => l' = l
  end.
Proof.
  unfold approve, query_matches.
  destruct (Str.split_once ":"%char (Str.to_ascii_lowercase (Str.trim query))) as [[algo hex]|];
    (destruct (_ <? MIN_FINGERPRINT_PREFIX_LEN); [done|]);
    (destruct (negb (Str.all_bytes _ _)); [done|]);
    (destruct (matching_indices _ 0 l) as [|idx [|? ?]] eqn:Hm; [done| |done]);
    apply matching_one in Hm as (l1 & c & l2 & -> & -> & Hc & Hall);
    rewrite list_lookup_middle by done; exists l1, c, l2;
    rewrite take_app_length;
    replace (S (length l1)) with (length (l1 ++ [c])) by (rewrite length_app; cbn; lia);
    change (c :: l2) with ([c] ++ l2); rewrite (app_assoc l1 [c] l2), drop_app_length; done.
Qed.

Context `{!HexLaws} `{!Blake2Laws}.

Lemma lowercase_id s :
  Forall (fun c => Str.is_ascii_upper c = false) (Str.to_list s) -> Str.to_ascii_lowercase s = s.
Proof.
  intros Hs. unfold Str.to_ascii_lowercase. rewrite <- (Str.of_to_list s) at 2. f_equal.
  induction Hs as [|c l Hc _ IH]; [done|]. cbn. unfold Str.ascii_lower at 1. rewrite Hc. by f_equal.
Qed.

Lemma hex_digit_facts c :
  lower_hex_digit c = true -> Str.is_ascii_upper c = false /\ Str.is_ascii_hexdigit c = true.
Proof. destruct c as [[] [] [] [] [] [] [] []]; by vm_compute. Qed.

Lemma fingerprint_parts b :
  let h := hex_encode (blake2s_128 b) in
  fingerprint (X25519 b) = "x25519" +:+ String ":"%char h
  /\ String.length h = 32%nat
  /\ Str.to_ascii_lowercase (Str.trim (fingerprint (X25519 b))) = fingerprint (X25519 b)
  /\ Str.all_bytes Str.is_ascii_hexdigit h = true.
Proof.
  intros h. pose proof (hex_encode_digits (blake2s_128 b)) as Hd.
  change (list_ascii_of_string (hex_encode (blake2s_128 b))) with (Str.to_list h) in Hd.
  split_and!; [done|by unfold h; rewrite hex_encode_length, blake2s_128_length|..].
  - unfold fingerprint, x25519_fingerprint_hex. fold h. rewrite Str.trim_plain.
    + apply lowercase_id. rewrite Str.to_list_app. apply Forall_app. split; [by repeat constructor|].
      eapply Forall_impl; [exact Hd|]. intros c Hc. by apply hex_digit_facts.
    + rewrite Str.to_list_app. apply Forall_app. split; [by repeat constructor|].
      eapply Forall_impl; [exact Hd|]. apply hex_digit_plain.
  - unfold Str.all_bytes. apply forallb_forall. intros c Hc. apply hex_digit_facts.
    rewrite List.Forall_forall in Hd. by apply Hd.
Qed.

Lemma starts_with_same_length p l :
  length p = length l -> Str.starts_with_list p l = true <-> p = l.
Proof.
  revert l; induction p as [|a p IH]; intros [|b l]; cbn; try done. intros [= Hl].
  rewrite andb_true_iff, bool_decide_eq_true, IH by done. split; [by intros [-> ->]|by intros [= -> ->]].
Qed.

(** Queried by the full fingerprint of a key, a candidate matches exactly
    when its fingerprint is that one. *)
Lemma query_full_fingerprint k c :
  query_matches (fingerprint k) c = true <-> fingerprint (cand_pubkey c) = fingerprint k.
Proof.
  destruct k as [b], (cand_pubkey c) as [b'] eqn:Hc. unfold query_matches, matches_query. rewrite Hc.
  destruct (fingerprint_parts b) as (Hfp & Hlen & -> & _), (fingerprint_parts b') as (Hfp' & Hlen' & _ & _).
  rewrite Hfp, Hfp'. rewrite !Str.split_once_app by (vm_compute; set_solver).
  rewrite bool_decide_true by done. unfold Str.starts_with.
  rewrite starts_with_same_length by (by rewrite !Str.length_to_list, Hlen, Hlen'). split.
  - intros Heq. apply (f_equal Str.of_list) in Heq. rewrite !Str.of_to_list in Heq. by rewrite Heq.
  - intros [= Heq]. by rewrite Heq.
Qed.

Lemma approve_full_fingerprint l1 c l2 :
  Forall (fun x => fingerprint (cand_pubkey x) <> fingerprint (cand_pubkey c)) (l1 ++ l2) ->
  approve (l1 ++ c :: l2) (fingerprint (cand_pubkey c))
  = (l1 ++ l2, Approved (fingerprint (cand_pubkey c)) (cand_pubkey c)).
Proof.
  intros Hall.
  assert (Forall (fun x => query_matches (fingerprint (cand_pubkey c)) x = false) (l1 ++ l2)) as Hno.
  { eapply Forall_impl; [exact Hall|]. intros x Hx. apply not_true_iff_false.
    by rewrite query_full_fingerprint. }
  pose proof (proj2 (query_full_fingerprint (cand_pubkey c) c) eq_refl) as Hyes.
  unfold approve. unfold query_matches in Hno, Hyes. destruct (cand_pubkey c) as [b] eqn:Hc.
  destruct (fingerprint_parts b) as (Hfp & Hlen & Hlow & Hhex). rewrite Hlow in Hno, Hyes |- *.
  rewrite Hfp in Hno, Hyes |- *. rewrite Str.split_once_app in Hno, Hyes |- * by (vm_compute; set_solver).
  rewrite Hlen, Hhex. cbn [negb]. change (Z.of_nat 32 <? MIN_FINGERPRINT_PREFIX_LEN) with false.
  rewrite matching_unique by done. rewrite list_lookup_middle by done.
  rewrite take_app_length, Hc.
  replace (S (length l1)) with (length (l1 ++ [c])) by (rewrite length_app; cbn; lia).
  change (c :: l2) with ([c] ++ l2). by rewrite (app_assoc l1 [c] l2), drop_app_length, <- Hfp.
Qed.

End ApproveFacts.

(** ** Properties *)

Module PeerStateProps.

(** Heartbeats disturb the data plane exactly on address changes.  After
    any sequence of recorded heartbeats the peer address is that of the last
    one, and the watchers have been woken as many times as the address
    differed from the one before (the first heartbeat counting as a change);
    the enrolled key is untouched. *)
Theorem heartbeat_wakes_exact (p : PeerState) (hs : list (Net.SocketAddr * Z)) :
  current_ip (heartbeats p hs) = match last hs with Some (a, _) => Some (Net.ip a) | None => current_ip p end
  /\ wakes (heartbeats p hs) = (ip_changes (current_ip p) ((fun h => Net.ip h.1) <$> hs) + wakes p)%nat
  /\ peer_static_key (heartbeats p hs) = peer_static_key p.
Proof. apply heartbeats_ip. Qed.

(** The pending store lists each key that knocked once, and counts its
    knocks, saturating at [u64::MAX]. *)
Theorem pending_store_exact (ks : list (PubKey * Z)) :
  NoDup (cand_pubkey <$> knocks [] ks)
  /\ (forall k, k ∈ cand_pubkey <$> knocks [] ks <-> k ∈ ks.*1)
  /\ (forall k, attempts_of (knocks [] ks) k = Z.min u64_max (knock_count k ks)).
Proof.
  destruct (knocks_keys ks [] ltac:(constructor)) as [Hn Hin]. split_and!; [done| |].
  - intros k. rewrite Hin. set_solver.
  - intros k. rewrite knocks_attempts by (cbn; unfold u64_max; lia). cbn. done.
Qed.

(** Approval is unambiguous.  [approve] removes a candidate only when it
    is the single one the query selects, and returns that candidate's key and
    fingerprint; every other outcome leaves the store alone; and the full
    fingerprint of a staged key, if no other staged key shares it, always
    approves that key. *)
Theorem approve_exact `{Hex} `{Blake2} `{!HexLaws} `{!Blake2Laws} (l : list CandidateRecord) (query : string) :
  match approve l query with
  | (l', Approved fp k) =>
      exists l1 c l2, l = l1 ++ c :: l2 /\ l' = l1 ++ l2 /\ k = cand_pubkey c /\ fp = fingerprint k
        /\ query_matches query c = true /\ Forall (fun x => query_matches query x = false) (l1 ++ l2)
  | (l', _) => l' = l
  end
  /\ (forall l1 c l2, l = l1 ++ c :: l2 ->
      Forall (fun x => fingerprint (cand_pubkey x) <> fingerprint (cand_pubkey c)) (l1 ++ l2) ->
      approve l (fingerprint (cand_pubkey c))
      = (l1 ++ l2, Approved (fingerprint (cand_pubkey c)) (cand_pubkey c))).
Proof.
  split; [apply approve_cases|]. intros l1 c l2 -> Hall. by apply approve_full_fingerprint.
Qed.

Definition demo_key : PubKey := X25519 (replicate 32 "066"%byte).

Lemma approve_exact_witness :
  approve [mkCandidate demo_key 0 1] (fingerprint demo_key) = ([], Approved (fingerprint demo_key) demo_key).
Proof.
  exact (proj2 (approve_exact [mkCandidate demo_key 0 1] "") [] (mkCandidate demo_key 0 1) [] eq_refl
           ltac:(constructor)).
Defined.

End PeerStateProps.
