(* ===== verification/HeartbeatServer.v ===== *)
(** * The accept side's heartbeat server ([yggdrasil/src/heartbeat/server.rs])

    One step of the server per datagram, queued outbound envelope or operator
    enrolment.  What a step takes from the outside (fresh randomness, the
    clock, whether the socket accepted a datagram) is its [Ambient] argument;
    what it puts on the socket is its output.  The chain acceptor is any
    instance of [Dispatcher]. *)

From S2P Require Import Prelude RustStd External Error Instances Wire ControlFrame PubKey Auth Reliability.
From S2P Require Import PeerState.

(** What the server needs of the chain acceptor: [dispatch] on a body type and
    a body, with the status to ack; the first argument after the state is the
    clock, in milliseconds. *)
Class Dispatcher (A : Type) := dispatch_to : A -> Z -> Z -> list byte -> A * AckStatus.

Section Server.
Context `{Snow.Lib} `{!Postcard ControlEnvelope} `{!Postcard ControlAck}.
Context {A : Type} `{!Dispatcher A} `{!Hex} `{!Blake2}.

Record SessionState := mkSessionState {
  ss_session : Session;
  last_peer_addr : Net.SocketAddr;
  control_channel : ControlChannel;
  next_outbound_seq : Z
}.

Record HeartbeatServer := mkServer {
  local_keys : StaticKeyPair;
  peer_state : PeerState;
  pending_store : list CandidateRecord;
  acceptor : option A;
  server_session : option SessionState
}.

Record Ambient := mkAmbient {
  amb_rng : Snow.Entropy;
  amb_now_ms : Z;      (** the clock at the first reading of the step *)
  amb_record_ms : Z;   (** the clock when the peer state is updated *)
  amb_sent : bool      (** [send_to] returned [Ok] *)
}.

Definition Datagrams : Type := list (Net.SocketAddr * list byte).

Definition send_to (amb : Ambient) (packet : list byte) (dest : Net.SocketAddr) : Datagrams :=
  if amb_sent amb then [(dest, packet)] else [].

(** [HeartbeatServer::bind]. *)
Definition bind (keys : StaticKeyPair) (p : PeerState) (store : list CandidateRecord)
    (acc : option A) : HeartbeatServer := mkServer keys p store acc None.

Definition with_session (srv : HeartbeatServer) (st : SessionState) : HeartbeatServer :=
  mkServer (local_keys srv) (peer_state srv) (pending_store srv) (acceptor srv) (Some st).
Definition with_crypto (st : SessionState) (s : Session) : SessionState :=
  mkSessionState s (last_peer_addr st) (control_channel st) (next_outbound_seq st).

Definition handle_handshake1 (amb : Ambient) (srv : HeartbeatServer) (v : PacketView)
    (src : Net.SocketAddr) : HeartbeatServer * Datagrams :=
  match process_handshake_1 (amb_rng amb) (local_keys srv) v with
  | Err _ => (srv, [])
  | Ok half =>
      let offered_pubkey := half_remote_public half in
      if negb (bool_decide (Some offered_pubkey = peer_static_key (peer_state srv))) then
        if is_peer_enrolled (peer_state srv) then (srv, [])
        else
          (mkServer (local_keys srv) (peer_state srv)
             (record_candidate (pending_store srv) offered_pubkey (amb_now_ms amb))
             (acceptor srv) (server_session srv), [])
      else
        match half_complete half with
        | Err _ => (srv, [])
        | Ok (session, reply) =>
            if amb_sent amb
            then (with_session srv (mkSessionState session src channel_new 0), send_to amb reply src)
            else (srv, [])
        end
  end.

Definition handle_heartbeat (amb : Ambient) (srv : HeartbeatServer) (v : PacketView)
    (src : Net.SocketAddr) : HeartbeatServer * Datagrams :=
  match server_session srv with
  | None => (srv, [])
  | Some st =>
      let '(s1, decoded) := decode_heartbeat (ss_session st) v in
      match decoded with
      | Err _ => (with_session srv (with_crypto st s1), [])
      | Ok d =>
          let '(s2, ack) := encode_heartbeat_ack s1 (dh_counter d) (amb_now_ms amb) in
          match ack with
          | Err _ => (with_session srv (with_crypto st s2), [])
          | Ok (_, packet) =>
              if amb_sent amb then
                let '(p', _) := record_heartbeat (peer_state srv) src (amb_record_ms amb) in
                (mkServer (local_keys srv) p' (pending_store srv) (acceptor srv)
                   (Some (mkSessionState s2 src (control_channel st) (next_outbound_seq st))),
                 send_to amb packet src)
              else (with_session srv (with_crypto st s2), [])
          end
      end
  end.

(** The status [handle_control] acks with, and the acceptor after it. *)
Definition dispatch_inbound (now_ms : Z) (acc : option A) (d : InboundDisposition) : option A * AckStatus :=
  match d with
  | Deliver env =>
      match acc with
      | Some a => let '(a', status) := dispatch_to a now_ms (env_body_type env) (env_body env) in
                  (Some a', status)
      | None => (None, AckUnknown)
      end
  | Duplicate => (acc, AckOk)
  end.

Definition handle_control (amb : Ambient) (srv : HeartbeatServer) (v : PacketView)
    (src : Net.SocketAddr) : HeartbeatServer * Datagrams :=
  match server_session srv with
  | None => (srv, [])
  | Some st =>
      let '(s1, decoded) := decode_control (ss_session st) v in
      match decoded with
      | Err _ => (with_session srv (with_crypto st s1), [])
      | Ok env =>
          let '(ch, disposition) := on_inbound (control_channel st) env in
          let '(acc, status) := dispatch_inbound (amb_now_ms amb) (acceptor srv) disposition in
          let '(s2, r) := encode_control_ack s1 (mkAck (env_seq env) status) in
          let srv' := mkServer (local_keys srv) (peer_state srv) (pending_store srv) acc
                        (Some (mkSessionState s2 (last_peer_addr st) ch (next_outbound_seq st))) in
          match r with
          | Err _ => (srv', [])
          | Ok (_, packet) => (srv', send_to amb packet src)
          end
      end
  end.

Definition handle_outbound (amb : Ambient) (srv : HeartbeatServer) (env : ControlEnvelope) :
    HeartbeatServer * Datagrams :=
  match server_session srv with
  | None => (srv, [])
  | Some st =>
      let seq := next_outbound_seq st in
      let env := mkEnvelope seq (env_body_type env) (env_body env) in
      let '(s1, r) := encode_control (ss_session st) env in
      let srv' := with_session srv
        (mkSessionState s1 (last_peer_addr st) (control_channel st) (wrap 32 (seq + 1))) in
      match r with
      | Err _ => (srv', [])
      | Ok (_, packet) => (srv', send_to amb packet (last_peer_addr st))
      end
  end.

Definition handle_packet (amb : Ambient) (srv : HeartbeatServer) (bytes : list byte)
    (src : Net.SocketAddr) : HeartbeatServer * Datagrams :=
  match parse bytes with
  | Err _ => (srv, [])
  | Ok v =>
      match packet_type v with
      | Handshake1 => handle_handshake1 amb srv v src
      | Heartbeat => handle_heartbeat amb srv v src
      | Control => handle_control amb srv v src
      | Rekey | ControlAckPkt | Handshake2 | HeartbeatAck => (srv, [])
      end
  end.

(** The arms of the [select!] of [run] that act, and the operator's approval
    of a staged key, which writes the shared peer state and pending store. *)
Inductive ServerEvent :=
  | EvOutbound (amb : Ambient) (env : ControlEnvelope)
  | EvPacket (amb : Ambient) (bytes : list byte) (src : Net.SocketAddr)
  | EvApprove (query : string) (config_written : bool).

Definition server_step (srv : HeartbeatServer) (ev : ServerEvent) : HeartbeatServer * Datagrams :=
  match ev with
  | EvOutbound amb env => handle_outbound amb srv env
  | EvPacket amb bytes src => handle_packet amb srv bytes src
  | EvApprove query written =>
      let '(p, store, _) := approve_downstream (peer_state srv) (pending_store srv) query written in
      (mkServer (local_keys srv) p store (acceptor srv) (server_session srv), [])
  end.

Fixpoint server_run (srv : HeartbeatServer) (evs : list ServerEvent) : HeartbeatServer * Datagrams :=
  match evs with
  | [] => (srv, [])
  | ev :: evs' =>
      let '(srv1, o1) := server_step srv ev in
      let '(srv2, o2) := server_run srv1 evs' in
      (srv2, o1 ++ o2)
  end.

(** ** Which steps move the session and the address *)

(** The peer key and session id of the session a step installs, if it
    installs one. *)
Definition established (srv : HeartbeatServer) (ev : ServerEvent) : option (PubKey * SessionId) :=
  match ev with
  | EvPacket amb bytes _ =>
      match parse bytes with
      | Ok v =>
          if bool_decide (packet_type v = Handshake1) && amb_sent amb then
            match process_handshake_1 (amb_rng amb) (local_keys srv) v with
            | Ok half =>
                if bool_decide (Some (half_remote_public half) = peer_static_key (peer_state srv))
                   && is_ok (half_complete half)
                then Some (half_remote_public half, half_session_id half) else None
            | Err _ => None
            end
          else None
      | Err _ => None
      end
  | _ => None
  end.

(** The step accepts a heartbeat of session [sid] that came from address [i]. *)
Definition accepts_heartbeat (srv : HeartbeatServer) (ev : ServerEvent) (sid : SessionId)
    (i : Net.IpAddr) : Prop :=
  exists amb bytes src v st s' d,
    ev = EvPacket amb bytes src /\ parse bytes = Ok v /\ packet_type v = Heartbeat
    /\ server_session srv = Some st /\ sess_id (ss_session st) = sid
    /\ decode_heartbeat (ss_session st) v = (s', Ok d) /\ Net.ip src = i.

Definition session_sid (srv : HeartbeatServer) : option SessionId :=
  (fun st => sess_id (ss_session st)) <$> server_session srv.

Lemma decode_packet_sid s ex v : sess_id (fst (decode_packet s ex v)) = sess_id s.
Proof.
  destruct (decode_packet s ex v) as [s' [p|e]] eqn:Hd.
  - by apply decode_packet_ok in Hd as (? & _ & _ & _ & _ & _ & Hid).
  - by apply decode_packet_err in Hd as [_ Hid].
Qed.

Lemma decode_heartbeat_sid s v : sess_id (fst (decode_heartbeat s v)) = sess_id s.
Proof.
  unfold decode_heartbeat. pose proof (decode_packet_sid s Heartbeat v) as <-.
  by destruct (decode_packet s Heartbeat v).
Qed.

Lemma decode_control_sid s v : sess_id (fst (decode_control s v)) = sess_id s.
Proof.
  unfold decode_control. pose proof (decode_packet_sid s Control v) as <-.
  by destruct (decode_packet s Control v).
Qed.

Lemma encode_heartbeat_ack_sid s c t : sess_id (fst (encode_heartbeat_ack s c t)) = sess_id s.
Proof. unfold encode_heartbeat_ack, with_counter. cbn [fst]. apply encode_packet_last_seen. Qed.

Lemma encode_control_sid s e : sess_id (fst (encode_control s e)) = sess_id s.
Proof.
  unfold encode_control. destruct (to_allocvec e); [|done].
  unfold with_counter. cbn [fst]. apply encode_packet_last_seen.
Qed.

Lemma encode_control_ack_sid s a : sess_id (fst (encode_control_ack s a)) = sess_id s.
Proof.
  unfold encode_control_ack. destruct (to_allocvec a); [|done].
  unfold with_counter. cbn [fst]. apply encode_packet_last_seen.
Qed.

Lemma half_complete_sid h s w : half_complete h = Ok (s, w) -> sess_id s = half_session_id h.
Proof.
  unfold half_complete. destruct (Snow.hs_write_message _ _ _) as [[inner msg]|]; [|done]. cbn.
  case_match; [done|]. destruct (Snow.into_transport_mode inner); [|done]. by intros [= <- _].
Qed.

(** One step: the session id and the address before and after. *)
Definition step_moves (srv : HeartbeatServer) (ev : ServerEvent) (srv' : HeartbeatServer) : Prop :=
  match established srv ev with
  | Some (_, sid) => session_sid srv' = Some sid
  | None => session_sid srv' = session_sid srv
  end
  /\ (current_ip (peer_state srv') = current_ip (peer_state srv)
      \/ exists sid i, accepts_heartbeat srv ev sid i /\ current_ip (peer_state srv') = Some i).


Lemma handshake1_moves amb srv bytes v src :
  parse bytes = Ok v -> packet_type v = Handshake1 ->
  step_moves srv (EvPacket amb bytes src) (fst (handle_handshake1 amb srv v src)).
Proof.
  intros Hv Ht. unfold step_moves, established. rewrite Hv, bool_decide_true by done. cbn [andb].
  unfold handle_handshake1.
  destruct (process_handshake_1 _ _ v) as [half|e]; [|by destruct (amb_sent amb); (split; [done|by left])].
  case_bool_decide; cbn [negb andb].
  - destruct (half_complete half) as [[s w]|] eqn:Hc; cbn [is_ok].
    + destruct (amb_sent amb); (split; [|by left]); [|done].
      unfold session_sid; cbn. by rewrite (half_complete_sid _ _ _ Hc).
    + destruct (amb_sent amb); by split; [|left].
  - destruct (amb_sent amb), (is_peer_enrolled _); (split; [done|by left]).
Qed.

Lemma heartbeat_moves amb srv bytes v src :
  parse bytes = Ok v -> packet_type v = Heartbeat ->
  step_moves srv (EvPacket amb bytes src) (fst (handle_heartbeat amb srv v src)).
Proof.
  intros Hv Ht. unfold step_moves, established. rewrite Hv, bool_decide_false by congruence. cbn [andb].
  unfold handle_heartbeat. destruct (server_session srv) as [st|] eqn:Hs; [|by split; [|left]].
  pose proof (decode_heartbeat_sid (ss_session st) v) as Hid1.
  destruct (decode_heartbeat _ v) as [s1 [d|e]] eqn:Hd; cbn [fst] in Hid1.
  - pose proof (encode_heartbeat_ack_sid s1 (dh_counter d) (amb_now_ms amb)) as Hid2.
    destruct (encode_heartbeat_ack _ _ _) as [s2 [[c w]|e]]; cbn [fst] in Hid2.
    + destruct (amb_sent amb).
      * pose proof (record_heartbeat_ip (peer_state srv) src (amb_record_ms amb)) as Hr.
        destruct (record_heartbeat _ _ _) as [p' ef]. cbn [fst] in *. destruct Hr as (Hr & _).
        split; [unfold session_sid; rewrite Hs; cbn; congruence|].
        right. exists (sess_id (ss_session st)), (Net.ip src). split; [|done].
        by exists amb, bytes, src, v, st, s1, d.
      * split; [|by left]. unfold session_sid. rewrite Hs. cbn. congruence.
    + split; [|by left]. unfold session_sid. rewrite Hs. cbn. congruence.
  - split; [|by left]. unfold session_sid. rewrite Hs. cbn. congruence.
Qed.

Lemma control_moves amb srv bytes v src :
  parse bytes = Ok v -> packet_type v = Control ->
  step_moves srv (EvPacket amb bytes src) (fst (handle_control amb srv v src)).
Proof.
  intros Hv Ht. unfold step_moves, established. rewrite Hv, bool_decide_false by congruence. cbn [andb].
  unfold handle_control. destruct (server_session srv) as [st|] eqn:Hs; [|by split; [|left]].
  pose proof (decode_control_sid (ss_session st) v) as Hid1.
  destruct (decode_control _ v) as [s1 [env|e]]; cbn [fst] in Hid1.
  - destruct (on_inbound _ env) as [ch dp]. destruct (dispatch_inbound _ _ dp) as [acc status].
    pose proof (encode_control_ack_sid s1 (mkAck (env_seq env) status)) as Hid2.
    destruct (encode_control_ack _ _) as [s2 [[c w]|e]]; cbn [fst] in Hid2 |- *;
      (split; [|by left]); unfold session_sid; rewrite Hs; cbn; congruence.
  - split; [|by left]. unfold session_sid. rewrite Hs. cbn. congruence.
Qed.

Lemma server_step_moves srv ev : step_moves srv ev (fst (server_step srv ev)).
Proof.
  destruct ev as [amb env|amb bytes src|q b]; cbn [server_step].
  - unfold handle_outbound. destruct (server_session srv) as [st|] eqn:Hs; [|by split; [|left]].
    pose proof (encode_control_sid (ss_session st)
      (mkEnvelope (next_outbound_seq st) (env_body_type env) (env_body env))) as Hid1.
    destruct (encode_control _ _) as [s1 [[c w]|e]]; cbn [fst] in *;
      (split; [|by left]); unfold session_sid; rewrite Hs; cbn; congruence.
  - unfold handle_packet. destruct (parse bytes) as [v|e] eqn:Hv.
    2: { split; [cbn; by rewrite Hv|by left]. }
    destruct (packet_type v) eqn:Ht; cbn [fst];
      first [by apply handshake1_moves|by apply heartbeat_moves|by apply control_moves|idtac].
    all: split; [|by left]; cbn; by rewrite Hv, bool_decide_false by congruence.
  - unfold approve_downstream. destruct (approve _ q) as [store [| | |]]; try (by split; [|left]).
    destruct b; by split; [|left].
Qed.

(** ** Runs *)

Definition server_at (srv : HeartbeatServer) (evs : list ServerEvent) : HeartbeatServer :=
  fst (server_run srv evs).

Lemma server_at_snoc srv evs ev :
  server_at srv (evs ++ [ev]) = fst (server_step (server_at srv evs) ev).
Proof.
  unfold server_at. revert srv; induction evs as [|e evs IH]; intros srv; cbn.
  - by destruct (server_step srv ev).
  - destruct (server_step srv e) as [srv1 o1]. specialize (IH srv1).
    destruct (server_run srv1 (evs ++ [ev])), (server_run srv1 evs). by cbn in *.
Qed.

(** [ev], after [pre], is the step that installed the session that is live
    after [pre ++ ev :: mid]. *)
Definition session_origin (srv : HeartbeatServer) (pre : list ServerEvent) (ev : ServerEvent)
    (mid : list ServerEvent) (k : PubKey) (sid : SessionId) : Prop :=
  established (server_at srv pre) ev = Some (k, sid)
  /\ forall m1 e m2, mid = m1 ++ e :: m2 -> established (server_at srv (pre ++ ev :: m1)) e = None.

Lemma session_has_origin srv evs sid :
  server_session srv = None -> session_sid (server_at srv evs) = Some sid ->
  exists pre ev mid k, evs = pre ++ ev :: mid /\ session_origin srv pre ev mid k sid.
Proof.
  intros Hnone. revert sid; induction evs as [|e evs IH] using rev_ind; intros sid.
  { unfold session_sid. cbn. by rewrite Hnone. }
  rewrite server_at_snoc. destruct (server_step_moves (server_at srv evs) e) as [Hm _].
  destruct (established (server_at srv evs) e) as [[k sid']|] eqn:He; rewrite Hm; intros Hsid.
  - injection Hsid as ->. exists evs, e, [], k. split; [done|]. split; [done|].
    intros [|] ? ?; discriminate.
  - destruct (IH sid Hsid) as (pre & ev & mid & k & -> & Ho & Hno).
    exists pre, ev, (mid ++ [e]), k. split; [by rewrite <- app_assoc|]. split; [done|].
    intros m1 e' m2 Hsplit. destruct m2 as [|y m2] using rev_ind.
    + apply app_inj_tail in Hsplit as [-> ->]. done.
    + rewrite app_comm_cons, app_assoc in Hsplit. apply app_inj_tail in Hsplit as [-> _].
      by eapply Hno.
Qed.

Lemma address_has_heartbeat srv evs i :
  current_ip (peer_state srv) = None -> current_ip (peer_state (server_at srv evs)) = Some i ->
  exists pre ev post sid, evs = pre ++ ev :: post /\ accepts_heartbeat (server_at srv pre) ev sid i.
Proof.
  intros Hnone. induction evs as [|e evs IH] using rev_ind; [unfold server_at; cbn; congruence|].
  rewrite server_at_snoc. destruct (server_step_moves (server_at srv evs) e) as [_ Hm].
  intros Hi. destruct Hm as [Hm|(sid & i' & Ha & Hm)].
  - rewrite Hm in Hi. destruct (IH Hi) as (pre & ev & post & sid & -> & Ha).
    exists pre, ev, (post ++ [e]), sid. by rewrite <- app_assoc.
  - exists evs, e, [], sid. split; [done|]. by replace i with i' by congruence.
Qed.

(** ** Before anyone is enrolled *)

(** The key a packet offers in a well-formed [Handshake1]. *)
Definition offered (keys : StaticKeyPair) (ev : ServerEvent) : option (PubKey * Z) :=
  match ev with
  | EvPacket amb bytes _ =>
      match parse bytes with
      | Ok v => if bool_decide (packet_type v = Handshake1) then
                  match process_handshake_1 (amb_rng amb) keys v with
                  | Ok half => Some (half_remote_public half, amb_now_ms amb)
                  | Err _ => None
                  end
                else None
      | Err _ => None
      end
  | _ => None
  end.

Definition stage (store : list CandidateRecord) (x : PubKey * Z) : list CandidateRecord :=
  record_candidate store x.1 x.2.

Definition is_approve (ev : ServerEvent) : bool :=
  match ev with EvApprove _ _ => true | _ => false end.

Lemma unenrolled_step keys p store acc ev :
  peer_static_key p = None -> is_approve ev = false ->
  server_step (bind keys p store acc) ev =
    (bind keys p (match offered keys ev with Some x => stage store x | None => store end) acc, []).
Proof.
  intros Hk. destruct ev as [amb env|amb bytes src|]; [|intros _|]; [done| |done]. cbn.
  unfold handle_packet. destruct (parse bytes) as [v|]; [|done].
  destruct (packet_type v) eqn:Ht; cbn; try done.
  unfold handle_handshake1. cbn [bind local_keys peer_state].
  destruct (process_handshake_1 _ _ v) as [half|]; [|done].
  rewrite Hk. cbn. unfold is_peer_enrolled. by rewrite Hk.
Qed.

Lemma unenrolled_run keys p store acc evs :
  peer_static_key p = None -> Forall (fun ev => is_approve ev = false) evs ->
  server_run (bind keys p store acc) evs =
    (bind keys p (foldl stage store (omap (offered keys) evs)) acc, []).
Proof.
  intros Hk Hev. revert store; induction Hev as [|ev evs Ha _ IH]; intros store; [done|]. cbn.
  rewrite (unenrolled_step _ _ _ _ _ Hk Ha), IH. by destruct (offered keys ev).
Qed.

End Server.

(** ** Packets that do not authenticate *)

Section Forged.
Context `{Snow.Laws} `{!Postcard ControlEnvelope} `{!Postcard ControlAck}.
Context {A : Type} `{!Dispatcher A} `{!Hex} `{!Blake2}.

(** A [Handshake1] that does not prove the enrolled key, a heartbeat or
    control packet the session cannot open, or a type the server ignores. *)
Definition forged (amb : Ambient) (srv : HeartbeatServer (A := A)) (v : PacketView) : Prop :=
  match packet_type v with
  | Handshake1 => forall half, process_handshake_1 (amb_rng amb) (local_keys srv) v = Ok half ->
                  peer_static_key (peer_state srv) <> Some (half_remote_public half)
  | Heartbeat | Control => forall st, server_session srv = Some st ->
                  is_ok (snd (decode_packet (ss_session st) (packet_type v) v)) = false
  | _ => True
  end.

(** Two sessions no correspondent can tell apart. *)
Definition same_session (st st' : SessionState) : Prop :=
  last_peer_addr st' = last_peer_addr st /\ control_channel st' = control_channel st
  /\ next_outbound_seq st' = next_outbound_seq st
  /\ forall p, (in_step p (ss_session st) -> in_step p (ss_session st'))
               /\ (in_step (ss_session st) p -> in_step (ss_session st') p).

Definition same_but_nonce (srv srv' : HeartbeatServer (A := A)) : Prop :=
  local_keys srv' = local_keys srv /\ peer_state srv' = peer_state srv
  /\ pending_store srv' = pending_store srv /\ acceptor srv' = acceptor srv
  /\ match server_session srv, server_session srv' with
     | None, None => True
     | Some st, Some st' => same_session st st'
     | _, _ => False
     end.

Lemma same_but_nonce_refl srv : same_but_nonce srv srv.
Proof. repeat split; by destruct (server_session srv). Qed.

Lemma decode_packet_err_in_step s ex v s' e :
  decode_packet s ex v = (s', Err e) ->
  forall p, (in_step p s -> in_step p s') /\ (in_step s p -> in_step s' p).
Proof.
  intros Hd p. pose proof (decode_packet_err _ _ _ _ _ Hd) as [Hl Hid].
  unfold in_step, sending_counter. rewrite Hl, Hid.
  assert (s' = s \/ exists c, s' = mkSession
    (fst (Snow.read_message (Snow.set_receiving_nonce (transport s) c) (body v) MAX_PACKET_LEN))
    (sess_id s) (last_seen_counter s)) as [->|[c ->]].
  { revert Hd. unfold decode_packet. repeat case_bool_decide; cbn; [|intros [= <- _]; by left..].
    destruct (counter v) as [c|]; [|intros [= <- _]; by left].
    destruct (last_seen_counter s) as [l|]; [destruct (c <=? l); [intros [= <- _]; by left|]|];
      (destruct (Snow.read_message _ _ _) as [t [?|?]] eqn:Hr; [done|]); intros [= <- _];
      right; exists c; by rewrite Hr. }
  - done.
  - cbn [transport]. rewrite Snow.read_nonce, Snow.set_nonce_nonce. split; intros (Hp & Hrest); (split; [|done]).
    + by apply Snow.read_paired, Snow.set_nonce_paired.
    + by apply Snow.read_paired_back, Snow.set_nonce_paired_back.
Qed.

Lemma with_crypto_same srv st s ex v :
  server_session srv = Some st -> is_ok (snd (decode_packet (ss_session st) ex v)) = false ->
  fst (decode_packet (ss_session st) ex v) = s ->
  same_but_nonce srv (with_session srv (with_crypto st s)).
Proof.
  intros Hs He Hf. destruct (decode_packet _ _ _) as [s' [?|e]] eqn:Hd; [done|]. cbn in Hf. subst s'.
  split_and!; try done. rewrite Hs. cbn. split_and!; try done. by eapply decode_packet_err_in_step.
Qed.

Lemma forged_packet amb srv bytes v src :
  is_peer_enrolled (peer_state srv) = true -> parse bytes = Ok v -> forged amb srv v ->
  exists srv', handle_packet amb srv bytes src = (srv', []) /\ same_but_nonce srv srv'.
Proof.
  intros Hen Hv Hf. unfold handle_packet. rewrite Hv. unfold forged in Hf.
  destruct (packet_type v) eqn:Ht; try (exists srv; split; [done|apply same_but_nonce_refl]).
  - unfold handle_handshake1. destruct (process_handshake_1 _ _ v) as [half|e].
    2: { exists srv. split; [done|apply same_but_nonce_refl]. }
    specialize (Hf half eq_refl). rewrite bool_decide_false by congruence. cbn [negb].
    rewrite Hen. exists srv. split; [done|apply same_but_nonce_refl].
  - unfold handle_heartbeat. destruct (server_session srv) as [st|] eqn:Hs.
    2: { exists srv. split; [done|apply same_but_nonce_refl]. }
    specialize (Hf st eq_refl). unfold decode_heartbeat.
    destruct (decode_packet (ss_session st) Heartbeat v) as [s' [?|e]] eqn:Hd; [done|]. cbn.
    eexists. split; [done|]. eapply (with_crypto_same _ _ _ Heartbeat v); rewrite ?Hd; done.
  - unfold handle_control. destruct (server_session srv) as [st|] eqn:Hs.
    2: { exists srv. split; [done|apply same_but_nonce_refl]. }
    specialize (Hf st eq_refl). unfold decode_control.
    destruct (decode_packet (ss_session st) Control v) as [s' [?|e]] eqn:Hd; [done|]. cbn.
    eexists. split; [done|]. eapply (with_crypto_same _ _ _ Control v); rewrite ?Hd; done.
Qed.

End Forged.

(** ** A rejected envelope, retransmitted *)

Section Masked.
Context `{Snow.Lib} `{!Postcard ControlEnvelope} `{!Postcard ControlAck}.
Context {A : Type} `{!Dispatcher A}.

Lemma inbound_twice c env :
  snd (on_inbound (fst (on_inbound c env)) env) = Duplicate
  /\ fst (on_inbound (fst (on_inbound c env)) env) = fst (on_inbound c env).
Proof.
  unfold on_inbound at 2 4 5. destruct (dedup_contains (dedup c) (env_seq env)) eqn:Hd; cbn [fst].
  - unfold on_inbound. by rewrite Hd.
  - unfold on_inbound. cbn [dedup].
    replace (dedup_contains (dedup_insert (dedup c) (env_seq env)) (env_seq env)) with true; [done|].
    symmetry. apply dedup_contains_spec. unfold dedup_insert. rewrite Hd. cbn. set_solver.
Qed.

(** The server after a control packet it could open. *)
Lemma handle_control_opened amb srv st v src s1 env :
  server_session srv = Some st -> decode_control (ss_session st) v = (s1, Ok env) ->
  let '(ch, d) := on_inbound (control_channel st) env in
  let '(acc, status) := dispatch_inbound (amb_now_ms amb) (acceptor srv) d in
  let '(s2, r) := encode_control_ack s1 (mkAck (env_seq env) status) in
  handle_control amb srv v src =
    (mkServer (local_keys srv) (peer_state srv) (pending_store srv) acc
       (Some (mkSessionState s2 (last_peer_addr st) ch (next_outbound_seq st))),
     match r with Ok (_, packet) => send_to amb packet src | Err _ => [] end).
Proof.
  intros Hs Hd. unfold handle_control. rewrite Hs, Hd.
  destruct (on_inbound _ env) as [ch d]. destruct (dispatch_inbound _ _ d) as [acc status].
  by destruct (encode_control_ack _ _) as [s2 [[c p]|e]].
Qed.

Lemma retransmit_acked_ok amb1 amb2 srv st v1 v2 src s1 s2 env st1 srv1 o1 :
  server_session srv = Some st -> decode_control (ss_session st) v1 = (s1, Ok env) ->
  handle_control amb1 srv v1 src = (srv1, o1) -> server_session srv1 = Some st1 ->
  decode_control (ss_session st1) v2 = (s2, Ok env) ->
  acceptor (fst (handle_control amb2 srv1 v2 src)) = acceptor srv1
  /\ snd (handle_control amb2 srv1 v2 src) =
     match snd (encode_control_ack s2 (mkAck (env_seq env) AckOk)) with
     | Ok (_, packet) => send_to amb2 packet src
     | Err _ => []
     end.
Proof.
  intros Hs Hd Hh Hs1 Hd2. pose proof (handle_control_opened amb1 srv st v1 src s1 env Hs Hd) as Ho.
  destruct (inbound_twice (control_channel st) env) as [Hdup Hsame].
  destruct (on_inbound (control_channel st) env) as [ch d] eqn:Hin. cbn [fst] in Hdup, Hsame.
  destruct (dispatch_inbound _ (acceptor srv) d) as [acc status].
  pose proof (handle_control_opened amb2 srv1 st1 v2 src s2 env Hs1 Hd2) as Ho2.
  destruct (encode_control_ack s1 _) as [s1' r]. rewrite Ho in Hh. injection Hh as Hsrv _.
  assert (control_channel st1 = ch) as Hch by (rewrite <- Hsrv in Hs1; cbn in Hs1; by injection Hs1 as <-).
  rewrite Hch in Ho2. destruct (on_inbound ch env) as [ch2 d2]. cbn in Hdup, Hsame. subst d2 ch2.
  cbn [dispatch_inbound] in Ho2.
  destruct (encode_control_ack s2 _) as [s2' r2]. by rewrite Ho2.
Qed.

End Masked.

(** ** Properties *)

Module HeartbeatServerProps.

(** C2: The address the data plane trusts is authenticated.  If a server bound
    with no address ever publishes [i], some datagram from [i] carried a
    heartbeat that the live session opened, and that session was installed by
    a handshake that proved the key enrolled at that moment and has not been
    replaced since. *)
Theorem address_authenticated `{Snow.Lib} `{!Postcard ControlEnvelope, !Postcard ControlAck}
    `{!Dispatcher A, !Hex, !Blake2} keys p store (acc : option A) evs i :
  current_ip p = None ->
  current_ip (peer_state (server_at (bind keys p store acc) evs)) = Some i ->
  exists pre hs mid hb post k sid,
    evs = pre ++ hs :: mid ++ hb :: post
    /\ session_origin (bind keys p store acc) pre hs mid k sid
    /\ accepts_heartbeat (server_at (bind keys p store acc) (pre ++ hs :: mid)) hb sid i.
Proof.
  intros Hp Hi. destruct (address_has_heartbeat (bind keys p store acc) evs i Hp Hi)
    as (before & hb & post & sid & -> & Ha).
  assert (session_sid (server_at (bind keys p store acc) before) = Some sid) as Hsid.
  { destruct Ha as (? & ? & ? & ? & st & ? & ? & _ & _ & _ & Hs & Hid & _).
    unfold session_sid. rewrite Hs. cbn. by rewrite Hid. }
  destruct (session_has_origin (bind keys p store acc) before sid eq_refl Hsid)
    as (pre & hs & mid & k & -> & Ho).
  exists pre, hs, mid, hb, post, k, sid. by rewrite <- app_assoc.
Qed.

(** A server nobody is enrolled on does nothing on the wire.  Whatever is
    sent to it, until an operator approves a key it answers nothing, opens no
    session, publishes no address and dispatches nothing; it only stages the
    keys the well-formed handshakes offered, in order. *)
Theorem unenrolled_inert `{Snow.Lib} `{!Postcard ControlEnvelope, !Postcard ControlAck}
    `{!Dispatcher A, !Hex, !Blake2} keys p store (acc : option A) evs :
  peer_static_key p = None -> Forall (fun ev => is_approve ev = false) evs ->
  server_run (bind keys p store acc) evs =
    (bind keys p (foldl stage store (omap (offered keys) evs)) acc, []).
Proof. apply unenrolled_run. Qed.

(** C32: Packets that do not authenticate cannot disturb an enrolled server: it
    answers nothing, and keys, peer state, pending keys, acceptor and session
    are as before, in that the genuine peer's session stays in step with it in
    both directions. *)
Theorem forged_packet_harmless `{Snow.Laws} `{!Postcard ControlEnvelope, !Postcard ControlAck}
    `{!Dispatcher A} amb (srv : HeartbeatServer (A := A)) bytes v src :
  is_peer_enrolled (peer_state srv) = true -> parse bytes = Ok v -> forged amb srv v ->
  exists srv', handle_packet amb srv bytes src = (srv', []) /\ same_but_nonce srv srv'.
Proof. apply forged_packet. Qed.

(** A rejection is lost with its ack.  When the acceptor rejects an envelope
    and the sender, not having seen the ack, retransmits it, the server takes
    it for a duplicate and acks [Ok] without asking the acceptor again; that
    ack resolves the sender's waiter as a success. *)
Theorem retransmit_masks_reject `{Snow.Lib} `{!Postcard ControlEnvelope, !Postcard ControlAck}
    `{!Dispatcher A} amb1 amb2 (srv srv1 : HeartbeatServer (A := A)) st st1 v1 v2 src s1 s2 env
    a a' code o1 (sender : ControlChannel) e :
  server_session srv = Some st -> acceptor srv = Some a ->
  decode_control (ss_session st) v1 = (s1, Ok env) ->
  dedup_contains (dedup (control_channel st)) (env_seq env) = false ->
  dispatch_to a (amb_now_ms amb1) (env_body_type env) (env_body env) = (a', AckReject code) ->
  handle_control amb1 srv v1 src = (srv1, o1) -> server_session srv1 = Some st1 ->
  decode_control (ss_session st1) v2 = (s2, Ok env) ->
  BTree.get (env_seq env) (outbound sender) = Some e ->
  acceptor srv1 = Some a' /\ acceptor (fst (handle_control amb2 srv1 v2 src)) = Some a'
  /\ snd (handle_control amb2 srv1 v2 src) =
     match snd (encode_control_ack s2 (mkAck (env_seq env) AckOk)) with
     | Ok (_, packet) => send_to amb2 packet src
     | Err _ => []
     end
  /\ snd (on_ack sender (mkAck (env_seq env) AckOk)) = resolve e (Ok tt).
Proof.
  intros Hs Ha Hd Hfresh Hdisp Hh Hs1 Hd2 Hget.
  assert (acceptor srv1 = Some a') as Ha1.
  { pose proof (handle_control_opened amb1 srv st v1 src s1 env Hs Hd) as Ho. revert Ho.
    unfold on_inbound. rewrite Hfresh, Ha. cbn. rewrite Hdisp.
    destruct (encode_control_ack _ _) as [s' r]. rewrite Hh. by intros [= -> _]. }
  destruct (retransmit_acked_ok amb1 amb2 _ _ _ _ _ _ _ _ _ _ _ Hs Hd Hh Hs1 Hd2) as [-> ->].
  split_and!; [done..|]. unfold on_ack. cbn. by rewrite Hget.
Qed.

(** A run that enrols, connects and beats once. *)
Definition demo_sid : SessionId := mkSessionId "001" "002" "003" "004".
Definition demo_peer_key : list byte := replicate 32 "007"%byte.
Definition demo_keys : StaticKeyPair := KeyPair (replicate 32 "001"%byte) (replicate 32 "002"%byte).
Definition demo_src : Net.SocketAddr := Net.V4 (Net.mkSockV4 (Net.mkIpv4 "203" "000" "113" "009") 5000).
#[local] Instance demo_rejecting : Dispatcher unit := fun a _ _ _ => (a, AckReject 7).

Definition demo_amb : Ambient := mkAmbient () 1000 1001 true.
Definition demo_hello : ServerEvent :=
  EvPacket demo_amb (write_preamble [] Handshake1 demo_sid ++ demo_peer_key) demo_src.
Definition demo_client : Session := mkSession (mkDemoTransport 0 0) demo_sid None.
Definition demo_beat : ServerEvent :=
  EvPacket demo_amb
    (match snd (encode_heartbeat demo_client 5 0) with Ok (_, w) => w | Err _ => [] end) demo_src.
Definition demo_events : list ServerEvent := [demo_hello; demo_beat].
Definition demo_enrolled : PeerState := peer_state_new (Some (X25519 demo_peer_key)).

Lemma address_authenticated_witness :
  exists pre hs mid hb post k sid,
    demo_events = pre ++ hs :: mid ++ hb :: post
    /\ session_origin (bind demo_keys demo_enrolled [] (Some ())) pre hs mid k sid
    /\ accepts_heartbeat (server_at (bind demo_keys demo_enrolled [] (Some ())) (pre ++ hs :: mid)) hb sid
         (Net.ip demo_src).
Proof.
  refine (address_authenticated demo_keys demo_enrolled [] (Some ()) demo_events (Net.ip demo_src) eq_refl _).
  by vm_compute.
Defined.

Lemma unenrolled_inert_witness :
  pending_store (fst (server_run (bind demo_keys (peer_state_new None) [] (Some ())) demo_events)) =
    [mkCandidate (X25519 demo_peer_key) 1000 1]
  /\ snd (server_run (bind demo_keys (peer_state_new None) [] (Some ())) demo_events) = [].
Proof.
  rewrite (unenrolled_inert demo_keys (peer_state_new None) [] (Some ()) demo_events);
    [split; by vm_compute|done|by repeat constructor].
Defined.

Definition demo_live (ch : ControlChannel) : HeartbeatServer :=
  mkServer demo_keys demo_enrolled [] (Some ()) (Some (mkSessionState demo_client demo_src ch 0)).

Lemma forged_packet_harmless_witness :
  exists srv', handle_packet demo_amb (demo_live channel_new)
      (write_packet (mkPacketView Heartbeat demo_sid (Some 9) (replicate 32 "000"%byte))) demo_src = (srv', [])
    /\ same_but_nonce (demo_live channel_new) srv'.
Proof.
  refine (forged_packet_harmless demo_amb (demo_live channel_new) _
    (mkPacketView Heartbeat demo_sid (Some 9) (replicate 32 "000"%byte)) demo_src _ _ _).
  - by vm_compute.
  - by vm_compute.
  - cbn. intros st [= <-]. by vm_compute.
Defined.

Definition demo_env : ControlEnvelope := mkEnvelope 1 0x10 [].
Definition demo_packet (s : Session) : Session * PacketView :=
  match encode_control s demo_env with
  | (s', Ok (_, w)) => (s', match parse w with Ok v => v | Err _ => mkPacketView Rekey demo_sid None [] end)
  | (s', Err _) => (s', mkPacketView Rekey demo_sid None [])
  end.
Definition demo_v1 : PacketView := Eval vm_compute in snd (demo_packet demo_client).
Definition demo_v2 : PacketView := Eval vm_compute in snd (demo_packet (fst (demo_packet demo_client))).
Definition demo_s1 : Session := mkSession (mkDemoTransport 0 1) demo_sid (Some 0).
Definition demo_s2 : Session := mkSession (mkDemoTransport 1 2) demo_sid (Some 1).
Definition demo_st1 : SessionState :=
  mkSessionState (mkSession (mkDemoTransport 1 1) demo_sid (Some 0)) demo_src
    (fst (on_inbound channel_new demo_env)) 0.
Definition demo_srv1 : HeartbeatServer :=
  mkServer demo_keys demo_enrolled [] (Some ()) (Some demo_st1).
Definition demo_sender : ControlChannel :=
  mkChannel 2 [(1, mkEntry demo_env 1 0 (Some 4%nat))] (dedup_new DEDUP_WINDOW).

Lemma retransmit_masks_reject_witness :
  snd (on_ack demo_sender (mkAck 1 AckOk)) = [(4%nat, Ok tt)]
  /\ length (snd (handle_control demo_amb demo_srv1 demo_v2 demo_src)) = 1%nat.
Proof.
  assert (decode_control demo_client demo_v1 = (demo_s1, Ok demo_env)) as Hd1
    by vm_cast_no_check (eq_refl (demo_s1, Ok (E := Error) demo_env)).
  assert (decode_control (ss_session demo_st1) demo_v2 = (demo_s2, Ok demo_env)) as Hd2
    by vm_cast_no_check (eq_refl (demo_s2, Ok (E := Error) demo_env)).
  assert (fst (handle_control demo_amb (demo_live channel_new) demo_v1 demo_src) = demo_srv1) as Hsrv
    by vm_cast_no_check (eq_refl demo_srv1).
  destruct (retransmit_masks_reject demo_amb demo_amb (demo_live channel_new) demo_srv1 _ demo_st1
    demo_v1 demo_v2 demo_src demo_s1 demo_s2 demo_env () () 7
    (snd (handle_control demo_amb (demo_live channel_new) demo_v1 demo_src)) demo_sender
    (mkEntry demo_env 1 0 (Some 4%nat)) eq_refl eq_refl Hd1 eq_refl eq_refl
    ltac:(by rewrite <- Hsrv, <- surjective_pairing) eq_refl Hd2 eq_refl) as (_ & _ & Ho & Hn).
  split; [exact Hn|]. rewrite Ho. by vm_compute.
Defined.

End HeartbeatServerProps.
