(* ===== verification/Canary.v ===== *)
(** * Canary arming ([ratatoskr/src/canary.rs], [yggdrasil/src/proxy/canary.rs])

    The table of armed tokens and the limits of the RPC.  Clock readings
    are arguments: [arm] reads the clock twice. *)

From S2P Require Import Prelude RustStd RuleTypes PubKey.

Definition CANARY_TOKEN_LEN : Z := 32.
Definition CANARY_REPLY_MAX_WIRE_BYTES : Z := 4 * 1024.
Definition CANARY_ARM_DEFAULT_DEPTH_BUDGET : Z := 16.
Definition CANARY_ARM_DEFAULT_DEADLINE_MS : Z := 5000.

Definition Token : Type := list byte.

(** ** The arm table *)

Record ArmEntry := mkArm { arm_token : Token; expires_at : Z }.

Definition ArmKey : Type := Net.SocketAddr * Protocol.
Notation CanaryArmTable := (gmap ArmKey (list ArmEntry)).

Definition table_new : CanaryArmTable := ∅.

Definition live (now : Z) (e : ArmEntry) : bool := now <? expires_at e.

Definition is_armed (t : CanaryArmTable) (k : ArmKey) (now : Z) : bool :=
  match t !! k with
  | Some entries => existsb (live now) entries
  | None => false
  end.

Definition match_token (t : CanaryArmTable) (k : ArmKey) (candidate : Token) (now : Z) : bool :=
  match t !! k with
  | Some entries => existsb (fun e => live now e && bool_decide (arm_token e = candidate)) entries
  | None => false
  end.

(** [iter_mut().find(..)], with the push of the [else] branch. *)
Fixpoint refresh (token : Token) (expires : Z) (l : list ArmEntry) : list ArmEntry :=
  match l with
  | [] => [mkArm token expires]
  | e :: l' => if bool_decide (arm_token e = token) then mkArm token expires :: l'
               else e :: refresh token expires l'
  end.

Definition arm (t : CanaryArmTable) (k : ArmKey) (token : Token) (ttl now1 now2 : Z) : CanaryArmTable :=
  <[k := refresh token (now1 + ttl) (List.filter (live now2) (default [] (t !! k)))]> t.

Definition disarm (t : CanaryArmTable) (k : ArmKey) (token : Token) : CanaryArmTable :=
  match t !! k with
  | Some entries =>
      match List.filter (fun e => negb (bool_decide (arm_token e = token))) entries with
      | [] => delete k t
      | kept => <[k := kept]> t
      end
  | None => t
  end.

Definition purge_expired (t : CanaryArmTable) (now : Z) : CanaryArmTable :=
  omap (fun entries => match List.filter (live now) entries with [] => None | kept => Some kept end) t.

Definition active_count (t : CanaryArmTable) (now : Z) : Z :=
  foldr Z.add 0 ((fun '(_, entries) => zlen (List.filter (live now) entries)) <$> map_to_list t).

(** ** The table as a map from tokens to deadlines *)

Inductive ArmOp :=
  | OpArm (k : ArmKey) (token : Token) (ttl now1 now2 : Z)
  | OpDisarm (k : ArmKey) (token : Token)
  | OpPurge (now : Z).

Definition arm_step (t : CanaryArmTable) (op : ArmOp) : CanaryArmTable :=
  match op with
  | OpArm k tok ttl n1 n2 => arm t k tok ttl n1 n2
  | OpDisarm k tok => disarm t k tok
  | OpPurge now => purge_expired t now
  end.

(** Reference: the deadline of each armed token; nothing expires by itself. *)
Definition deadline_step (m : gmap (ArmKey * Token) Z) (op : ArmOp) : gmap (ArmKey * Token) Z :=
  match op with
  | OpArm k tok ttl n1 _ => <[(k, tok) := n1 + ttl]> m
  | OpDisarm k tok => delete (k, tok) m
  | OpPurge _ => m
  end.

(** The clock does not run backwards: every reading of [ops] is between
    [from] and [until], in order. *)
Fixpoint clocked (from : Z) (ops : list ArmOp) (until : Z) : Prop :=
  match ops with
  | [] => from <= until
  | OpArm _ _ _ n1 n2 :: ops' => from <= n1 /\ n1 <= n2 /\ clocked n2 ops' until
  | OpDisarm _ _ :: ops' => clocked from ops' until
  | OpPurge n :: ops' => from <= n /\ clocked n ops' until
  end.

(** The deadline of a token in a list of entries: that of its first entry. *)
Definition entry_deadline (tok : Token) (l : list ArmEntry) : option Z :=
  expires_at <$> find (fun e => bool_decide (arm_token e = tok)) l.

Definition entries_at (t : CanaryArmTable) (k : ArmKey) : list ArmEntry := default [] (t !! k).

(** Two deadlines agree from [now] on. *)
Definition agree (now : Z) (a b : option Z) : Prop :=
  forall d, now < d -> (a = Some d <-> b = Some d).

Definition table_ok (t : CanaryArmTable) : Prop := forall k, NoDup (arm_token <$> entries_at t k).

Definition table_rel (now : Z) (t : CanaryArmTable) (m : gmap (ArmKey * Token) Z) : Prop :=
  table_ok t /\ forall k tok, agree now (entry_deadline tok (entries_at t k)) (m !! (k, tok)).

Lemma agree_refl now a : agree now a a.
Proof. done. Qed.

Lemma agree_trans now a b c : agree now a b -> agree now b c -> agree now a c.
Proof. intros Hab Hbc d Hd. by rewrite (Hab d Hd), (Hbc d Hd). Qed.

Lemma agree_mono now now' a b : now <= now' -> agree now a b -> agree now' a b.
Proof. intros Hn Hab d Hd. apply Hab. lia. Qed.

Lemma entry_deadline_cons tok e l :
  entry_deadline tok (e :: l) = if decide (arm_token e = tok) then Some (expires_at e) else entry_deadline tok l.
Proof. unfold entry_deadline. cbn. case_bool_decide; [by rewrite decide_True|by rewrite decide_False]. Qed.

#[local] Arguments entry_deadline : simpl never.

Lemma entry_deadline_absent tok l : tok ∉ arm_token <$> l -> entry_deadline tok l = None.
Proof.
  induction l as [|e l IH]; [done|]. rewrite entry_deadline_cons, fmap_cons, not_elem_of_cons.
  intros [Hne Hl]. rewrite decide_False by congruence. by apply IH.
Qed.

Lemma filter_tokens f l : (arm_token <$> List.filter f l) `sublist_of` (arm_token <$> l).
Proof.
  induction l as [|e l IH]; [done|]. cbn. destruct (f e); cbn; [by apply sublist_skip|by apply sublist_cons].
Qed.

Lemma filter_ok f l : NoDup (arm_token <$> l) -> NoDup (arm_token <$> List.filter f l).
Proof. intros Hnd. eapply sublist_NoDup; [exact Hnd|apply filter_tokens]. Qed.

Lemma filter_live_agree now tok l :
  NoDup (arm_token <$> l) -> agree now (entry_deadline tok (List.filter (live now) l)) (entry_deadline tok l).
Proof.
  induction l as [|e l IH]; [done|]. rewrite fmap_cons. intros [Hni Hnd]%NoDup_cons. cbn.
  rewrite (entry_deadline_cons tok e l). destruct (live now e) eqn:He; [|unfold live in He].
  - rewrite entry_deadline_cons. destruct (decide (arm_token e = tok)); [done|by apply IH].
  - destruct (decide (arm_token e = tok)) as [<-|]; [|by apply IH].
    rewrite entry_deadline_absent.
    + intros d Hd. apply Z.ltb_ge in He. split; [done|intros [= Heq]; lia].
    + intros Hin. apply Hni. eapply elem_of_sublist; [exact Hin|apply filter_tokens].
Qed.

Lemma refresh_deadline tok tok' d l :
  entry_deadline tok (refresh tok' d l) = if decide (tok' = tok) then Some d else entry_deadline tok l.
Proof.
  induction l as [|e l IH]; cbn.
  { rewrite entry_deadline_cons. done. }
  case_bool_decide as He; rewrite !entry_deadline_cons; cbn.
  - destruct (decide (tok' = tok)); [done|]. by rewrite decide_False by congruence.
  - rewrite IH. destruct (decide (arm_token e = tok)); [|done]. by rewrite decide_False by congruence.
Qed.

Lemma refresh_elem tok d l x : x ∈ arm_token <$> refresh tok d l -> x = tok \/ x ∈ arm_token <$> l.
Proof.
  induction l as [|e l IH]; cbn; [set_solver|]. case_bool_decide; cbn; rewrite !elem_of_cons; set_solver.
Qed.

Lemma refresh_ok tok d l : NoDup (arm_token <$> l) -> NoDup (arm_token <$> refresh tok d l).
Proof.
  induction l as [|e l IH]; cbn; [intros _; apply NoDup_singleton|].
  intros [Hni Hnd]%NoDup_cons. case_bool_decide as He; cbn; apply NoDup_cons.
  - by rewrite <- He.
  - split; [|by apply IH]. intros [Hx|Hx]%refresh_elem; congruence.
Qed.

Lemma filter_other_deadline tok tok' l :
  entry_deadline tok (List.filter (fun e => negb (bool_decide (arm_token e = tok'))) l) =
    if decide (tok' = tok) then None else entry_deadline tok l.
Proof.
  induction l as [|e l IH]; cbn; [by case_decide|].
  case_bool_decide as He; cbn; rewrite ?entry_deadline_cons, IH.
  - destruct (decide (tok' = tok)); [done|]. by rewrite decide_False by congruence.
  - destruct (decide (tok' = tok)); [by rewrite decide_False by congruence|done].
Qed.

Lemma entries_insert (t : gmap ArmKey (list ArmEntry)) k l k' :
  entries_at (<[k := l]> t) k' = if decide (k = k') then l else entries_at t k'.
Proof.
  unfold entries_at. destruct (decide (k = k')) as [->|Hne]; [by rewrite lookup_insert_eq|].
  by rewrite lookup_insert_ne by done.
Qed.

Lemma entries_disarm (t : gmap ArmKey (list ArmEntry)) k tok k' :
  entries_at (disarm t k tok) k' =
    if decide (k = k')
    then List.filter (fun e => negb (bool_decide (arm_token e = tok))) (entries_at t k)
    else entries_at t k'.
Proof.
  unfold disarm. destruct (t !! k) as [l|] eqn:Hk.
  - replace (entries_at t k) with l by (unfold entries_at; by rewrite Hk).
    destruct (List.filter _ l) as [|e l'].
    + unfold entries_at. destruct (decide (k = k')) as [->|]; [by rewrite lookup_delete_eq|].
      by rewrite lookup_delete_ne by done.
    + rewrite entries_insert. done.
  - destruct (decide (k = k')) as [<-|]; [|done]. unfold entries_at. by rewrite Hk.
Qed.

Lemma entries_purge (t : gmap ArmKey (list ArmEntry)) now k :
  entries_at (purge_expired t now) k = List.filter (live now) (entries_at t k).
Proof.
  unfold entries_at, purge_expired. rewrite lookup_omap. destruct (t !! k) as [l|]; cbn; [|done].
  by destruct (List.filter (live now) l).
Qed.

(** One operation keeps the table and the reference in agreement from its
    last clock reading on. *)
Lemma arm_rel now t m k tok ttl n1 n2 :
  table_rel now t m -> now <= n1 -> n1 <= n2 ->
  table_rel n2 (arm t k tok ttl n1 n2) (deadline_step m (OpArm k tok ttl n1 n2)).
Proof.
  intros [Hok Hr] H1 H2. unfold arm. fold (entries_at t k). split.
  - intros k'. rewrite entries_insert. destruct (decide (k = k')); [|apply Hok].
    apply refresh_ok, filter_ok, Hok.
  - intros k' tok'. rewrite entries_insert. cbn. specialize (Hr k' tok').
    apply (agree_mono _ n2) in Hr; [|lia]. destruct (decide (k = k')) as [<-|Hk].
    + rewrite refresh_deadline. destruct (decide (tok = tok')) as [<-|Ht].
      * by rewrite lookup_insert_eq.
      * rewrite lookup_insert_ne by congruence. eapply agree_trans; [apply filter_live_agree, Hok|done].
    + by rewrite lookup_insert_ne by congruence.
Qed.

Lemma disarm_rel now t m k tok :
  table_rel now t m -> table_rel now (disarm t k tok) (deadline_step m (OpDisarm k tok)).
Proof.
  intros [Hok Hr]. split.
  - intros k'. rewrite entries_disarm. destruct (decide (k = k')); [apply filter_ok|]; apply Hok.
  - intros k' tok'. rewrite entries_disarm. cbn. specialize (Hr k' tok').
    destruct (decide (k = k')) as [<-|Hk]; [|by rewrite lookup_delete_ne by congruence].
    rewrite filter_other_deadline. destruct (decide (tok = tok')) as [<-|Ht].
    + by rewrite lookup_delete_eq.
    + by rewrite lookup_delete_ne by congruence.
Qed.

Lemma purge_rel now t m n :
  table_rel now t m -> now <= n -> table_rel n (purge_expired t n) m.
Proof.
  intros [Hok Hr] Hn. split.
  - intros k. rewrite entries_purge. apply filter_ok, Hok.
  - intros k tok. rewrite entries_purge. eapply agree_trans; [apply filter_live_agree, Hok|].
    eapply agree_mono; [exact Hn|apply Hr].
Qed.

Lemma run_rel ops now until t m :
  table_rel now t m -> clocked now ops until ->
  table_rel until (foldl arm_step t ops) (foldl deadline_step m ops).
Proof.
  revert now t m; induction ops as [|op ops IH]; intros now t m Hr Hc; cbn in *.
  - destruct Hr as [Hok Hr]. split; [done|]. intros k tok. by eapply agree_mono, Hr.
  - destruct op as [k tok ttl n1 n2|k tok|n].
    + destruct Hc as (H1 & H2 & Hc). eapply IH; [|exact Hc]. by eapply arm_rel.
    + eapply IH; [|exact Hc]. by apply disarm_rel.
    + destruct Hc as [H1 Hc]. eapply IH; [|exact Hc]. by eapply purge_rel.
Qed.

Lemma match_token_deadline t k tok now :
  table_ok t ->
  match_token t k tok now = true <-> exists d, entry_deadline tok (entries_at t k) = Some d /\ now < d.
Proof.
  intros Hok. specialize (Hok k). unfold match_token, entries_at in *.
  destruct (t !! k) as [l|]; cbn in *; [|split; [done|intros (d & ? & _); done]].
  induction l as [|e l IH]; cbn in *; [split; [done|intros (d & ? & _); done]|].
  apply NoDup_cons in Hok as [Hni Hnd]. rewrite entry_deadline_cons, orb_true_iff, IH by done.
  unfold live. rewrite andb_true_iff, Z.ltb_lt, bool_decide_eq_true.
  destruct (decide (arm_token e = tok)) as [<-|Hne]; [|naive_solver].
  split; [|intros (d & [= <-] & Hd); by left].
  intros [[Hl _]|(d & Hd & _)]; [by eexists|]. by rewrite (entry_deadline_absent _ _ Hni) in Hd.
Qed.

Module CanaryProps.

(** The arm table against its reference.  With a clock that does not run
    backwards, after any sequence of arms, disarms and purges a token matches
    at a later time exactly when the last operation on it was an arm whose
    deadline has not passed: the lazy purges and the sweep never drop a live
    arm and never keep a dead one matching. *)
Theorem arm_table_refines_deadlines (ops : list ArmOp) start now k tok :
  clocked start ops now ->
  match_token (foldl arm_step table_new ops) k tok now = true
  <-> exists d, foldl deadline_step ∅ ops !! (k, tok) = Some d /\ now < d.
Proof.
  intros Hc. destruct (run_rel ops start now table_new ∅) as [Hok Hr]; [|done|].
  - split; [intros k'; constructor|done].
  - rewrite match_token_deadline by done. split; intros (d & Hd & Hn); exists d; (split; [|done]);
      by apply (Hr k tok d Hn).
Qed.

Definition demo_armkey : ArmKey := (Net.V4 (Net.mkSockV4 Net.V4_UNSPECIFIED 443), Tcp).
Definition demo_armops : list ArmOp :=
  [OpArm demo_armkey [ "001"%byte ] 10 0 1; OpPurge 5; OpArm demo_armkey [ "002"%byte ] 3 6 6;
   OpDisarm demo_armkey [ "003"%byte ]].

Lemma arm_table_refines_deadlines_witness :
  match_token (foldl arm_step table_new demo_armops) demo_armkey [ "001"%byte ] 8 = true.
Proof.
  apply (arm_table_refines_deadlines demo_armops 0 8 demo_armkey [ "001"%byte ]).
  - cbn. lia.
  - exists 10. split; [by vm_compute|lia].
Defined.

End CanaryProps.
