(* ===== verification/ChainTypes.v ===== *)
(** * The bodies of the chain RPCs ([ratatoskr/src/chain_query.rs],
    [ratatoskr/src/canary.rs], the chain types of [ratatoskr/src/control.rs])
    and the errors of a query ([yggdrasil/src/chain/client/body_handler.rs]) *)

From S2P Require Import Prelude RustStd External RuleTypes PubKey Rule Predicate Reliability Canary.

Inductive Mode := Gateway | Relay | Terminal.

#[global] Instance Mode_eq_dec : EqDecision Mode.
Proof. solve_decision. Defined.

Definition Mode_as_str (m : Mode) : string :=
  match m with Gateway => "gateway" | Relay => "relay" | Terminal => "terminal" end.

Record ChainIdentity := mkIdentity {
  ci_local : PubKey;
  ci_upstream : option PubKey;
  ci_downstream : option PubKey;
  ci_predicate_origin : option PubKey;
  ci_last_apply_unix : option Z
}.

Record DerivedRulesResponse := mkDerivedRules {
  drr_predicates : list Predicate;
  drr_derived_rules : list Rule;
  drr_chain : ChainIdentity
}.

Record ChainHop := mkHop {
  hop_index : Z;
  hop_mode : Mode;
  hop_uptime_secs : Z;
  hop_name : option string;
  hop_view : DerivedRulesResponse;
  hop_query_rtt_ms : option Z
}.

Definition CHAIN_HOP_REPLY_MAX_WIRE_BYTES : Z := 16 * 1024.
Definition CHAIN_HOP_DEFAULT_DEPTH_BUDGET : Z := 16.
Definition CHAIN_HOP_DEFAULT_DEADLINE_MS : Z := 5000.

Record ChainHopQuery := mkHopQuery {
  hq_query_id : Z;
  hq_depth_budget : Z;
  hq_deadline_ms : Z
}.

Record ChainHopReply := mkHopReply {
  hr_query_id : Z;
  hr_hops : list ChainHop;
  hr_partial : bool;
  hr_error : option string
}.

Record CanaryArm := mkCanaryArm {
  ca_query_id : Z;
  ca_depth_budget : Z;
  ca_deadline_ms : Z;
  ca_rule_listen : Net.SocketAddr;
  ca_rule_protocol : Protocol;
  ca_token : Token;
  ca_expires_unix_ms : Z
}.

Record CanaryHop := mkCanaryHop {
  ch_hop_index : Z;
  ch_pubkey : PubKey;
  ch_name : option string;
  ch_mode : Mode;
  ch_rule_present : bool;
  ch_echo_armed : bool;
  ch_query_rtt_ms : option Z
}.

Record CanaryReply := mkCanaryReply {
  cr_query_id : Z;
  cr_hops : list CanaryHop;
  cr_partial : bool;
  cr_error : option string
}.

Section QueryError.
Context `{Extern}.

Inductive QueryError :=
  | QueryTimeout
  | ClientDown
  | QuerySend (e : SendError)
  | QueryEncode (e : postcard_error).

End QueryError.
