(* ===== verification/Acceptor.v ===== *)
(** * The chain acceptor ([yggdrasil/src/chain/acceptor.rs]), the introspection
    state it writes ([yggdrasil/src/chain/introspection.rs]) and the supervisor
    and chain-client handles it holds

    The bodies of the tasks [dispatch] spawns are functions of the acceptor:
    spawning one records it in [spawned], and what the task awaits from the
    upstream is an argument of its body. *)

From S2P Require Import Prelude RustStd External RuleTypes Error Instances Wire ControlFrame PubKey.
From S2P Require Import Rule RuleSet Predicate Derive Reliability Canary ChainTypes HeartbeatServer.

(** ** Handles *)

Section Handles.
Context `{UrlLib}.

(** [SupervisorHandle]: the sets queued for the supervisor, oldest first, and
    the set it runs. *)
Record SupervisorHandle := mkSupervisor {
  apply_open : bool;
  apply_queue : list RuleSet;
  current_set : RuleSet
}.

Definition apply_ruleset (s : SupervisorHandle) (set : RuleSet) : SupervisorHandle * bool :=
  if apply_open s
  then (mkSupervisor true (apply_queue s ++ [set]) (current_set s), true)
  else (s, false).

Record IntrospectionState := mkIntrospection {
  ix_local_pubkey : PubKey;
  ix_upstream_pubkey : option PubKey;
  ix_downstream_pubkey : option PubKey;
  latest_predicates : option PredicateSet;
  last_apply_unix : Z
}.

Definition introspection_new (local : PubKey) (up down : option PubKey) : IntrospectionState :=
  mkIntrospection local up down None 0.

Definition record_apply (ix : IntrospectionState) (set : PredicateSet) (now_secs : Z) : IntrospectionState :=
  mkIntrospection (ix_local_pubkey ix) (ix_upstream_pubkey ix) (ix_downstream_pubkey ix)
    (Some set) now_secs.

Definition snapshot (ix : IntrospectionState) (s : SupervisorHandle) : DerivedRulesResponse :=
  let '(preds, o) :=
    match latest_predicates ix with
    | Some p => (predicates p, Some (origin p))
    | None => ([], None)
    end in
  let last := if 0 <? last_apply_unix ix then Some (last_apply_unix ix) else None in
  mkDerivedRules preds (rules (current_set s))
    (mkIdentity (ix_local_pubkey ix) (ix_upstream_pubkey ix) (ix_downstream_pubkey ix) o last).

(** [ChainClientHandle::send_control]: the queue into the chain client, and
    whether its receiver is alive. *)
Record ChainClientHandle := mkClient {
  client_open : bool;
  client_queue : list (Z * list byte)
}.

Definition send_control (c : ChainClientHandle) (body_type : Z) (body : list byte) :
    ChainClientHandle * bool :=
  if client_open c then (mkClient true (client_queue c ++ [(body_type, body)]), true) else (c, false).

(** The sender side of the server's outbound channel. *)
Record OutboundHandle := mkOutbound {
  outbound_open : bool;
  outbound_queue : list ControlEnvelope
}.

Definition outbound_send (o : OutboundHandle) (env : ControlEnvelope) : OutboundHandle :=
  if outbound_open o then mkOutbound true (outbound_queue o ++ [env]) else o.

(** ** The acceptor *)

Inductive Task :=
  | TaskChainHopQuery (q : ChainHopQuery)
  | TaskCanaryArm (a : CanaryArm).

Record ChainAcceptor := mkAcceptor {
  supervisor : SupervisorHandle;
  derive_cfg : DeriveConfig;
  introspection : option IntrospectionState;
  started_at : Z;
  acc_mode : option Mode;
  node_name : option string;
  acc_outbound : option OutboundHandle;
  upstream : option ChainClientHandle;
  arm_table : option CanaryArmTable;
  last_forwarded : gmap PubKey (list byte);
  spawned : list Task
}.

Definition acceptor_new (s : SupervisorHandle) (cfg : DeriveConfig) (now : Z) : ChainAcceptor :=
  mkAcceptor s cfg None now None None None None None ∅ [].

(** [OnceLock::set]: the first value stays. *)
Definition once_set {T} (cell : option T) (v : T) : option T * result T unit :=
  match cell with None => (Some v, Ok tt) | Some _ => (cell, Err v) end.

Definition set_mode (a : ChainAcceptor) (m : Mode) : ChainAcceptor * result Mode unit :=
  let '(c, r) := once_set (acc_mode a) m in
  (mkAcceptor (supervisor a) (derive_cfg a) (introspection a) (started_at a) c (node_name a)
     (acc_outbound a) (upstream a) (arm_table a) (last_forwarded a) (spawned a), r).
Definition set_node_name (a : ChainAcceptor) (nm : string) : ChainAcceptor * result string unit :=
  let '(c, r) := once_set (node_name a) nm in
  (mkAcceptor (supervisor a) (derive_cfg a) (introspection a) (started_at a) (acc_mode a) c
     (acc_outbound a) (upstream a) (arm_table a) (last_forwarded a) (spawned a), r).
Definition set_outbound (a : ChainAcceptor) (o : OutboundHandle) : ChainAcceptor * result OutboundHandle unit :=
  let '(c, r) := once_set (acc_outbound a) o in
  (mkAcceptor (supervisor a) (derive_cfg a) (introspection a) (started_at a) (acc_mode a) (node_name a)
     c (upstream a) (arm_table a) (last_forwarded a) (spawned a), r).
Definition set_upstream (a : ChainAcceptor) (u : ChainClientHandle) :
    ChainAcceptor * result ChainClientHandle unit :=
  let '(c, r) := once_set (upstream a) u in
  (mkAcceptor (supervisor a) (derive_cfg a) (introspection a) (started_at a) (acc_mode a) (node_name a)
     (acc_outbound a) c (arm_table a) (last_forwarded a) (spawned a), r).
Definition set_arm_table (a : ChainAcceptor) (t : CanaryArmTable) :
    ChainAcceptor * result CanaryArmTable unit :=
  let '(c, r) := once_set (arm_table a) t in
  (mkAcceptor (supervisor a) (derive_cfg a) (introspection a) (started_at a) (acc_mode a) (node_name a)
     (acc_outbound a) (upstream a) c (last_forwarded a) (spawned a), r).
Definition set_introspection (a : ChainAcceptor) (ix : IntrospectionState) :
    ChainAcceptor * result IntrospectionState unit :=
  let '(c, r) := once_set (introspection a) ix in
  (mkAcceptor (supervisor a) (derive_cfg a) c (started_at a) (acc_mode a) (node_name a)
     (acc_outbound a) (upstream a) (arm_table a) (last_forwarded a) (spawned a), r).

(** Field updates. *)
Definition with_supervisor (a : ChainAcceptor) (s : SupervisorHandle) : ChainAcceptor :=
  mkAcceptor s (derive_cfg a) (introspection a) (started_at a) (acc_mode a) (node_name a)
    (acc_outbound a) (upstream a) (arm_table a) (last_forwarded a) (spawned a).
Definition with_introspection (a : ChainAcceptor) (ix : option IntrospectionState) : ChainAcceptor :=
  mkAcceptor (supervisor a) (derive_cfg a) ix (started_at a) (acc_mode a) (node_name a)
    (acc_outbound a) (upstream a) (arm_table a) (last_forwarded a) (spawned a).
Definition with_forwarded (a : ChainAcceptor) (u : ChainClientHandle) (m : gmap PubKey (list byte)) :
    ChainAcceptor :=
  mkAcceptor (supervisor a) (derive_cfg a) (introspection a) (started_at a) (acc_mode a) (node_name a)
    (acc_outbound a) (Some u) (arm_table a) m (spawned a).
Definition with_outbound (a : ChainAcceptor) (o : OutboundHandle) : ChainAcceptor :=
  mkAcceptor (supervisor a) (derive_cfg a) (introspection a) (started_at a) (acc_mode a) (node_name a)
    (Some o) (upstream a) (arm_table a) (last_forwarded a) (spawned a).
Definition with_arm_table (a : ChainAcceptor) (t : CanaryArmTable) : ChainAcceptor :=
  mkAcceptor (supervisor a) (derive_cfg a) (introspection a) (started_at a) (acc_mode a) (node_name a)
    (acc_outbound a) (upstream a) (Some t) (last_forwarded a) (spawned a).
Definition with_task (a : ChainAcceptor) (t : Task) : ChainAcceptor :=
  mkAcceptor (supervisor a) (derive_cfg a) (introspection a) (started_at a) (acc_mode a) (node_name a)
    (acc_outbound a) (upstream a) (arm_table a) (last_forwarded a) (spawned a ++ [t]).

End Handles.

Section Dispatch.
Context `{Extern} `{UrlLib} `{!Postcard PredicateSet} `{!Postcard LegacyPredicateSet}
  `{!Postcard ChainHopQuery} `{!Postcard ChainHopReply} `{!Postcard CanaryArm} `{!Postcard CanaryReply}.
(** The [Display] of the two error types that end up in messages. *)
Variable display : Error -> string.
Variable show_query_error : QueryError -> string.

(** ** Predicate pushes *)

(** The mid-chain forwarding at the end of [handle_predicate_set_update]. *)
Definition forward_upstream (a : ChainAcceptor) (o : PubKey) (body : list byte) : ChainAcceptor :=
  match upstream a with
  | Some up =>
      let last := <[o := body]> (last_forwarded a) in
      let '(up', _) := send_control up (as_byte PredicateSetUpdate) body in
      with_forwarded a up' last
  | None => a
  end.

Definition handle_predicate_set_update (a : ChainAcceptor) (now_ms : Z) (body : list byte) :
    ChainAcceptor * AckStatus :=
  if PREDICATE_SET_MAX_WIRE_BYTES <? zlen body then (a, AckReject PREDICATE_SET_TOO_LARGE)
  else
    match from_wire_bytes body with
    | Err _ => (a, AckReject INVALID_PREDICATE)
    | Ok set =>
        match derive display set (derive_cfg a) with
        | Err e => (a, AckReject (reject_code e))
        | Ok rs =>
            let '(sup, sent) := apply_ruleset (supervisor a) rs in
            if negb sent then (a, AckReject INVALID_PREDICATE)
            else
              let a := with_supervisor a sup in
              let a :=
                match introspection a with
                | Some ix => with_introspection a (Some (record_apply ix set (now_ms / 1000)))
                | None => a
                end in
              (forward_upstream a (origin set) body, AckOk)
        end
    end.

(** [spawn_upstream_resync] on one epoch change: every stored body is sent
    again, in the order the map is iterated. *)
Definition upstream_resync (a : ChainAcceptor) : ChainAcceptor :=
  match upstream a with
  | None => a
  | Some up =>
      let bodies := map_to_list (last_forwarded a) in
      let up' := foldl (fun u '(_, body) => fst (send_control u (as_byte PredicateSetUpdate) body)) up bodies in
      with_forwarded a up' (last_forwarded a)
  end.

(** ** Chain hop queries *)

Definition FORWARDING_OVERHEAD_MS : Z := 250.

(** [send_reply]: encode, and queue for the server to send downstream. *)
Definition send_body {R} `{!Postcard R} (a : ChainAcceptor) (t : ControlBodyType) (reply : R) : ChainAcceptor :=
  match to_allocvec reply with
  | Err _ => a
  | Ok bytes =>
      match acc_outbound a with
      | None => a
      | Some o => with_outbound a (outbound_send o (mkEnvelope 0 (as_byte t) bytes))
      end
  end.
Definition send_reply (a : ChainAcceptor) (reply : ChainHopReply) : ChainAcceptor :=
  send_body a ControlFrame.ChainHopReply reply.
Definition send_canary_reply (a : ChainAcceptor) (reply : CanaryReply) : ChainAcceptor :=
  send_body a ControlFrame.CanaryReply reply.

(** The loop that appends the upstream's hops: the index is taken from the
    growing vector and the enumeration together. *)
Fixpoint extend_hops (rtt_ms offset : Z) (hops upstream_hops : list ChainHop) : list ChainHop :=
  match upstream_hops with
  | [] => hops
  | h :: rest =>
      let h' := mkHop (wrap 32 (zlen hops + offset)) (hop_mode h) (hop_uptime_secs h) (hop_name h)
                  (hop_view h) (if offset =? 0 then Some rtt_ms else hop_query_rtt_ms h) in
      extend_hops rtt_ms (offset + 1) (hops ++ [h']) rest
  end.

(** What the await on the upstream gives: its answer and how long it took. *)
Definition Upstream (R : Type) : Type := Z -> Z -> result QueryError R * Z.

(** Step 2 of [handle_chain_hop_query]: the hops, [partial] and [error]. *)
Definition walk_upstream (has_upstream : bool) (ask : Upstream ChainHopReply) (q : ChainHopQuery)
    (local_hop : ChainHop) : list ChainHop * bool * option string :=
  let depth_budget := saturating_sub (hq_depth_budget q) 1 in
  let upstream_deadline_ms := saturating_sub (hq_deadline_ms q) FORWARDING_OVERHEAD_MS in
  if negb has_upstream then ([local_hop], false, None)
  else if (0 <? depth_budget) && (0 <? upstream_deadline_ms) then
    match ask depth_budget upstream_deadline_ms with
    | (Ok reply, rtt) =>
        (extend_hops rtt 0 [local_hop] (hr_hops reply), hr_partial reply, hr_error reply)
    | (Err QueryTimeout, _) => ([local_hop], true, Some "upstream chain hop query timed out")
    | (Err e, _) =>
        ([local_hop], true, Some ("upstream chain hop query failed: " +:+ show_query_error e))
    end
  else if depth_budget =? 0 then ([local_hop], true, Some "depth budget exhausted")
  else ([local_hop], true, Some "deadline exhausted before upstream forward").

(** Step 3: the size check.  [None]: the reply does not encode. *)
Definition fit_hop_reply (reply : ChainHopReply) : option ChainHopReply :=
  match to_allocvec reply with
  | Ok bytes =>
      if CHAIN_HOP_REPLY_MAX_WIRE_BYTES <? zlen bytes
      then Some (mkHopReply (hr_query_id reply) (firstn 1 (hr_hops reply)) true
                   (Some ("reply exceeded " +:+ Str.show_uint CHAIN_HOP_REPLY_MAX_WIRE_BYTES
                          +:+ " bytes; truncated to local hop")))
      else Some reply
  | Err _ => None
  end.

(** The local hop of a reply. *)
Definition local_chain_hop (a : ChainAcceptor) (ix : IntrospectionState) (now : Z) : ChainHop :=
  mkHop 0 (default Relay (acc_mode a)) (Time.as_secs (now - started_at a)) (node_name a)
    (snapshot ix (supervisor a)) None.

(** The reply [handle_chain_hop_query] sends, if it sends one. *)
Definition chain_hop_reply (a : ChainAcceptor) (ask : Upstream ChainHopReply) (now : Z) (q : ChainHopQuery) :
    option ChainHopReply :=
  match introspection a with
  | None => Some (mkHopReply (hq_query_id q) [] true (Some "local introspection unavailable"))
  | Some ix =>
      let '(hops, part, err) :=
        walk_upstream (bool_decide (is_Some (upstream a))) ask q (local_chain_hop a ix now) in
      fit_hop_reply (mkHopReply (hq_query_id q) hops part err)
  end.

Definition handle_chain_hop_query (a : ChainAcceptor) (ask : Upstream ChainHopReply) (now : Z)
    (q : ChainHopQuery) : ChainAcceptor :=
  match chain_hop_reply a ask now q with
  | Some reply => send_reply a reply
  | None => a
  end.

(** ** Canary arming *)

Definition SERVER_MAX_ARM_TTL_MS : Z := 60000.

Definition has_matching_rule (a : ChainAcceptor) (l : Net.SocketAddr) (p : Protocol) : bool :=
  existsb (fun r => bool_decide (listen r = l) && bool_decide (protocol r = p))
    (rules (current_set (supervisor a))).

(** The local arming step: the table after it and [echo_armed].  [now_ms] is
    the wall clock, [i1] and [i2] the instants [arm] reads. *)
Definition arm_local (a : ChainAcceptor) (m : Mode) (rule_present : bool) (x : CanaryArm)
    (now_ms i1 i2 : Z) : option CanaryArmTable * bool :=
  if bool_decide (m = Terminal) && rule_present then
    match arm_table a with
    | Some table =>
        let raw_ttl_ms := saturating_sub (ca_expires_unix_ms x) now_ms in
        let ttl_ms := Z.min raw_ttl_ms SERVER_MAX_ARM_TTL_MS in
        if 0 <? ttl_ms
        then (Some (arm table (ca_rule_listen x, ca_rule_protocol x) (ca_token x)
                      (Time.from_millis ttl_ms) i1 i2), true)
        else (arm_table a, false)
    | None => (None, false)
    end
  else (arm_table a, false).

Fixpoint extend_canary_hops (rtt_ms offset : Z) (hops upstream_hops : list CanaryHop) : list CanaryHop :=
  match upstream_hops with
  | [] => hops
  | h :: rest =>
      let h' := mkCanaryHop (wrap 32 (zlen hops + offset)) (ch_pubkey h) (ch_name h) (ch_mode h)
                  (ch_rule_present h) (ch_echo_armed h)
                  (if offset =? 0 then Some rtt_ms else ch_query_rtt_ms h) in
      extend_canary_hops rtt_ms (offset + 1) (hops ++ [h']) rest
  end.

Definition walk_upstream_canary (has_upstream : bool)
    (ask : CanaryArm -> result QueryError CanaryReply * Z) (x : CanaryArm) (local_hop : CanaryHop) :
    list CanaryHop * bool * option string :=
  let depth_budget := saturating_sub (ca_depth_budget x) 1 in
  let upstream_deadline_ms := saturating_sub (ca_deadline_ms x) FORWARDING_OVERHEAD_MS in
  if negb has_upstream then ([local_hop], false, None)
  else if (0 <? depth_budget) && (0 <? upstream_deadline_ms) then
    match ask (mkCanaryArm 0 depth_budget upstream_deadline_ms (ca_rule_listen x)
                 (ca_rule_protocol x) (ca_token x) (ca_expires_unix_ms x)) with
    | (Ok reply, rtt) =>
        let hops := extend_canary_hops rtt 0 [local_hop] (cr_hops reply) in
        if cr_partial reply then (hops, true, cr_error reply) else (hops, false, None)
    | (Err e, _) => ([local_hop], true, Some ("upstream canary arm failed: " +:+ show_query_error e))
    end
  else if depth_budget =? 0 then ([local_hop], true, Some "depth budget exhausted")
  else ([local_hop], true, Some "deadline exhausted before upstream forward").

Definition fit_canary_reply (reply : CanaryReply) : option CanaryReply :=
  match to_allocvec reply with
  | Ok bytes =>
      if CANARY_REPLY_MAX_WIRE_BYTES <? zlen bytes
      then Some (mkCanaryReply (cr_query_id reply) (firstn 1 (cr_hops reply)) true
                   (Some ("reply exceeded " +:+ Str.show_uint CANARY_REPLY_MAX_WIRE_BYTES
                          +:+ " bytes; truncated to local hop")))
      else Some reply
  | Err _ => None
  end.

Definition handle_canary_arm (a : ChainAcceptor) (ask : CanaryArm -> result QueryError CanaryReply * Z)
    (now_ms i1 i2 : Z) (x : CanaryArm) : ChainAcceptor :=
  match introspection a with
  | None =>
      send_canary_reply a
        (mkCanaryReply (ca_query_id x) [] true (Some "local introspection unavailable"))
  | Some ix =>
      let local_pubkey := ci_local (drr_chain (snapshot ix (supervisor a))) in
      let m := default Relay (acc_mode a) in
      let rule_present := has_matching_rule a (ca_rule_listen x) (ca_rule_protocol x) in
      let '(table, echo_armed) := arm_local a m rule_present x now_ms i1 i2 in
      let a := match table with Some t => with_arm_table a t | None => a end in
      let local_hop := mkCanaryHop 0 local_pubkey (node_name a) m rule_present echo_armed None in
      let '(hops, part, err) :=
        walk_upstream_canary (bool_decide (is_Some (upstream a))) ask x local_hop in
      match fit_canary_reply (mkCanaryReply (ca_query_id x) hops part err) with
      | Some reply => send_canary_reply a reply
      | None => a
      end
  end.

(** ** Dispatch *)

Definition spawn_chain_hop_query_handler (a : ChainAcceptor) (body : list byte) : ChainAcceptor :=
  match from_bytes (A := ChainHopQuery) body with
  | Ok q => with_task a (TaskChainHopQuery q)
  | Err _ => a
  end.

Definition spawn_canary_arm_handler (a : ChainAcceptor) (body : list byte) : ChainAcceptor :=
  match from_bytes (A := CanaryArm) body with
  | Ok x => with_task a (TaskCanaryArm x)
  | Err _ => a
  end.

Definition dispatch (a : ChainAcceptor) (now_ms body_type : Z) (body : list byte) :
    ChainAcceptor * AckStatus :=
  match from_byte body_type with
  | None => (a, AckUnknown)
  | Some kind =>
      match kind with
      | Reserved | Noop => (a, AckOk)
      | PredicateSetUpdate => handle_predicate_set_update a now_ms body
      | ControlFrame.ChainHopQuery => (spawn_chain_hop_query_handler a body, AckOk)
      | ControlFrame.ChainHopReply => (a, AckUnknown)
      | ControlFrame.CanaryArm => (spawn_canary_arm_handler a body, AckOk)
      | ControlFrame.CanaryReply => (a, AckUnknown)
      end
  end.

#[export] Instance acceptor_dispatcher : Dispatcher ChainAcceptor := dispatch.

End Dispatch.

(** ** Pushes, over a sequence of dispatches *)

Section Pushes.
Context `{Extern} `{UrlLib} `{!Postcard PredicateSet} `{!Postcard LegacyPredicateSet}
  `{!Postcard ChainHopQuery} `{!Postcard CanaryArm}.
Variable display : Error -> string.

(** Reference: what a body is worth to a node with configuration [cfg]. *)
Definition push_value (cfg : DeriveConfig) (body : list byte) : result Z (PredicateSet * RuleSet) :=
  if PREDICATE_SET_MAX_WIRE_BYTES <? zlen body then Err PREDICATE_SET_TOO_LARGE
  else
    match from_wire_bytes body with
    | Err _ => Err INVALID_PREDICATE
    | Ok set =>
        match derive display set cfg with
        | Err e => Err (reject_code e)
        | Ok rs => Ok (set, rs)
        end
    end.

Record Dispatch := mkDispatch { d_now_ms : Z; d_body_type : Z; d_body : list byte }.

Definition dispatch_all (a : ChainAcceptor) (ds : list Dispatch) : ChainAcceptor * list AckStatus :=
  foldl (fun '(a, acks) d =>
           let '(a', s) := dispatch display a (d_now_ms d) (d_body_type d) (d_body d) in
           (a', acks ++ [s])) (a, []) ds.

(** The pushes of a run that are worth applying, with their bodies. *)
Definition good_push (cfg : DeriveConfig) (d : Dispatch) : option (PredicateSet * RuleSet * list byte) :=
  if d_body_type d =? as_byte PredicateSetUpdate then
    match push_value cfg (d_body d) with Ok (set, rs) => Some (set, rs, d_body d) | Err _ => None end
  else None.

(** The status of a dispatch that finds the supervisor running. *)
Definition ack_of (cfg : DeriveConfig) (d : Dispatch) : AckStatus :=
  match from_byte (d_body_type d) with
  | None | Some ControlFrame.ChainHopReply | Some ControlFrame.CanaryReply => AckUnknown
  | Some PredicateSetUpdate =>
      match push_value cfg (d_body d) with Ok _ => AckOk | Err code => AckReject code end
  | Some _ => AckOk
  end.

Definition store_body (m : gmap PubKey (list byte)) (x : PredicateSet * RuleSet * list byte) :
    gmap PubKey (list byte) := <[origin x.1.1 := x.2]> m.

(** [a'] is [a] after the pushes [l]. *)
Record pushed (a : ChainAcceptor) (l : list (PredicateSet * RuleSet * list byte)) (a' : ChainAcceptor) : Prop := {
  pd_queue : apply_queue (supervisor a') = apply_queue (supervisor a) ++ ((fun x => x.1.2) <$> l);
  pd_open : apply_open (supervisor a') = apply_open (supervisor a);
  pd_current : current_set (supervisor a') = current_set (supervisor a);
  pd_cfg : derive_cfg a' = derive_cfg a;
  pd_latest : latest_predicates <$> introspection a' =
    (fun i => match last l with Some x => Some x.1.1 | None => latest_predicates i end) <$> introspection a;
  pd_upstream : match upstream a with
    | None => upstream a' = None /\ last_forwarded a' = last_forwarded a
    | Some u => upstream a' = Some (mkClient (client_open u) (client_queue u ++
                  (if client_open u then (fun x => (as_byte PredicateSetUpdate, x.2)) <$> l else [])))
                /\ last_forwarded a' = foldl store_body (last_forwarded a) l
    end
}.

Lemma pushed_refl a : pushed a [] a.
Proof.
  split; cbn; rewrite ?app_nil_r; try done.
  destruct (upstream a) as [[[] q]|]; cbn; rewrite ?app_nil_r; done.
Qed.

Lemma pushed_task a t : pushed a [] (with_task a t).
Proof. destruct (pushed_refl a). by split. Qed.

Lemma handle_push_value a now body :
  apply_open (supervisor a) = true ->
  match push_value (derive_cfg a) body with
  | Ok (set, rs) => exists a', handle_predicate_set_update display a now body = (a', AckOk)
                               /\ pushed a [(set, rs, body)] a'
  | Err code => handle_predicate_set_update display a now body = (a, AckReject code)
  end.
Proof.
  intros Hopen. unfold push_value, handle_predicate_set_update.
  destruct (_ <? zlen body); [done|]. destruct (from_wire_bytes body) as [set|]; [|done].
  destruct (derive display set (derive_cfg a)) as [rs|e]; [|done].
  unfold apply_ruleset. rewrite Hopen. cbn [negb]. eexists. split; [reflexivity|].
  unfold forward_upstream. destruct a as [[op q cur] cfg ix st m nm out up tab lf sp]; cbn in *. subst op.
  destruct ix as [ix|], up as [[[] uq]|]; cbn; split; cbn; rewrite ?app_nil_r; done.
Qed.

Lemma pushed_trans a l a1 l' a2 : pushed a l a1 -> pushed a1 l' a2 -> pushed a (l ++ l') a2.
Proof.
  intros H1 H2. split; rewrite ?fmap_app.
  - by rewrite (pd_queue _ _ _ H2), (pd_queue _ _ _ H1), app_assoc.
  - by rewrite (pd_open _ _ _ H2), (pd_open _ _ _ H1).
  - by rewrite (pd_current _ _ _ H2), (pd_current _ _ _ H1).
  - by rewrite (pd_cfg _ _ _ H2), (pd_cfg _ _ _ H1).
  - rewrite (pd_latest _ _ _ H2), last_app. pose proof (pd_latest _ _ _ H1) as Hl.
    destruct (introspection a1), (introspection a), (last l'); cbn in *; simplify_eq; rewrite ?Hl; done.
  - pose proof (pd_upstream _ _ _ H1) as Hu1. pose proof (pd_upstream _ _ _ H2) as Hu2.
    destruct (upstream a) as [u|].
    + destruct Hu1 as [Hu1 Hf1]. rewrite Hu1 in Hu2. destruct Hu2 as [-> ->]. cbn.
      rewrite Hf1, foldl_app. split; [|done]. destruct (client_open u); by rewrite <- app_assoc.
    + destruct Hu1 as [Hu1 Hf1]. rewrite Hu1 in Hu2. destruct Hu2 as [-> ->]. done.
Qed.

(** A dispatch that is not an accepted push leaves these parts alone. *)
Lemma dispatch_pushed a d :
  apply_open (supervisor a) = true ->
  exists a', dispatch display a (d_now_ms d) (d_body_type d) (d_body d) = (a', ack_of (derive_cfg a) d)
             /\ pushed a (option_list (good_push (derive_cfg a) d)) a'.
Proof.
  intros Hopen. unfold dispatch, ack_of, good_push.
  destruct (from_byte (d_body_type d)) as [k|] eqn:Hk.
  2: { exists a. split; [done|]. rewrite (proj2 (Z.eqb_neq _ _)); [apply pushed_refl|].
       intros Heq. by rewrite Heq, from_byte_as_byte in Hk. }
  assert (k <> PredicateSetUpdate -> (d_body_type d =? as_byte PredicateSetUpdate) = false) as Hne.
  { intros Hn. apply Z.eqb_neq. intros Heq. rewrite Heq, from_byte_as_byte in Hk. congruence. }
  destruct k; try (exists a; rewrite Hne by done; split; [done|apply pushed_refl]).
  - pose proof (handle_push_value a (d_now_ms d) (d_body d) Hopen) as Hp.
    replace (d_body_type d =? as_byte PredicateSetUpdate) with true.
    + destruct (push_value _ _) as [[set rs]|code]; [exact Hp|].
      exists a. split; [done|apply pushed_refl].
    + symmetry. apply Z.eqb_eq. revert Hk. unfold from_byte.
      repeat (case_match; try discriminate); done.
  - rewrite Hne by done. unfold spawn_chain_hop_query_handler. eexists. split; [done|].
    destruct (from_bytes (d_body d)); [apply pushed_task|apply pushed_refl].
  - rewrite Hne by done. unfold spawn_canary_arm_handler. eexists. split; [done|].
    destruct (from_bytes (d_body d)); [apply pushed_task|apply pushed_refl].
Qed.

Lemma dispatch_all_pushed ds : forall a,
  apply_open (supervisor a) = true ->
  exists a', dispatch_all a ds = (a', ack_of (derive_cfg a) <$> ds)
             /\ pushed a (omap (good_push (derive_cfg a)) ds) a'.
Proof.
  induction ds as [|d ds IH] using rev_ind; intros a Hopen.
  { exists a. split; [done|apply pushed_refl]. }
  destruct (IH a Hopen) as (a1 & Hr1 & Hp1). unfold dispatch_all in *. rewrite foldl_app, Hr1. cbn.
  destruct (dispatch_pushed a1 d) as (a2 & Hr2 & Hp2); [by rewrite (pd_open _ _ _ Hp1)|].
  rewrite (pd_cfg _ _ _ Hp1) in Hr2, Hp2. rewrite Hr2. exists a2. split.
  - by rewrite fmap_app.
  - rewrite omap_app. eapply pushed_trans; [exact Hp1|].
    cbn. by destruct (good_push (derive_cfg a) d).
Qed.

End Pushes.

(** ** Walks *)

Section Walks.
Context `{Extern} `{UrlLib} `{!Postcard ChainHopReply}.
Variable show_query_error : QueryError -> string.

Fixpoint stamped (rtt_ms len offset : Z) (ups : list ChainHop) : list ChainHop :=
  match ups with
  | [] => []
  | h :: rest =>
      mkHop (wrap 32 (len + offset)) (hop_mode h) (hop_uptime_secs h) (hop_name h) (hop_view h)
        (if offset =? 0 then Some rtt_ms else hop_query_rtt_ms h)
      :: stamped rtt_ms (len + 1) (offset + 1) rest
  end.

Lemma extend_hops_stamped rtt ups : forall offset hops,
  extend_hops rtt offset hops ups = hops ++ stamped rtt (zlen hops) offset ups.
Proof.
  induction ups as [|h ups IH]; intros offset hops; cbn; [by rewrite app_nil_r|].
  rewrite IH, zlen_app, <- app_assoc. done.
Qed.

Lemma stamped_index rtt ups : forall len offset,
  hop_index <$> stamped rtt len offset ups =
    (fun i => wrap 32 (len + offset + 2 * i)) <$> seqZ 0 (zlen ups).
Proof.
  induction ups as [|h ups IH]; intros len offset; [done|].
  rewrite zlen_cons, seqZ_cons by (pose proof (zlen_nonneg ups); lia).
  cbn [stamped]. rewrite !fmap_cons, IH. cbn [hop_index]. f_equal; [f_equal; lia|].
  replace (Z.pred (1 + zlen ups)) with (zlen ups) by lia.
  change (Z.succ 0) with (1 + 0). rewrite <- (fmap_add_seqZ 1 0), <- list_fmap_compose.
  apply list_fmap_ext. intros i x Hx. cbn -[Z.mul]. f_equal. lia.
Qed.

(** What a hop says apart from its place in the reply. *)
Definition same_hop (h h' : ChainHop) : Prop :=
  hop_mode h' = hop_mode h /\ hop_uptime_secs h' = hop_uptime_secs h /\ hop_name h' = hop_name h
  /\ hop_view h' = hop_view h.

Lemma stamped_same rtt ups : forall len offset, Forall2 same_hop ups (stamped rtt len offset ups).
Proof. induction ups as [|h ups IH]; intros len offset; constructor; [done|apply IH]. Qed.

(** ** A chain of acceptors

    Each node's [query_upstream] is answered by the next node, in the time
    [node_rtt]; a node whose reply does not encode never answers. *)
Record Node := mkNode { node_acceptor : ChainAcceptor; node_now : Z; node_query_id : Z; node_rtt : Z }.

Fixpoint ask_chain (nodes : list Node) : Upstream ChainHopReply := fun depth deadline_ms =>
  match nodes with
  | [] => (Err ClientDown, 0)
  | nd :: rest =>
      match chain_hop_reply show_query_error (node_acceptor nd) (ask_chain rest) (node_now nd)
              (mkHopQuery (node_query_id nd) depth deadline_ms) with
      | Some reply => (Ok reply, node_rtt nd)
      | None => (Err QueryTimeout, node_rtt nd)
      end
  end.

(** Every node has introspection, and an upstream exactly when another node
    follows. *)
Fixpoint wired (nodes : list Node) : Prop :=
  match nodes with
  | [] => True
  | nd :: rest =>
      is_Some (introspection (node_acceptor nd))
      /\ (is_Some (upstream (node_acceptor nd)) <-> rest <> []) /\ wired rest
  end.

Definition node_hop (nd : Node) : option ChainHop :=
  (fun ix => local_chain_hop (node_acceptor nd) ix (node_now nd)) <$> introspection (node_acceptor nd).

(** The indices the replies carry: the local hop is 0, the one after it 1,
    and each further one two more. *)
Definition reply_indices (n : Z) : list Z :=
  0 :: ((fun i => wrap 32 (1 + 2 * i)) <$> seqZ 0 (n - 1)).

Lemma fit_unflagged r r' : fit_hop_reply r = Some r' -> hr_partial r' = false -> r' = r.
Proof.
  unfold fit_hop_reply. destruct (to_allocvec r); [|done]. case_match; intros [= <-]; done.
Qed.

Lemma reply_nodes_hd nd rest dp dl r rtt :
  ask_chain (nd :: rest) dp dl = (Ok r, rtt) -> wired (nd :: rest) -> hr_partial r = false ->
  exists ix, introspection (node_acceptor nd) = Some ix
  /\ let local := local_chain_hop (node_acceptor nd) ix (node_now nd) in
     (rest = [] /\ hr_hops r = [local])
     \/ (rest <> [] /\ 1 < dp /\ FORWARDING_OVERHEAD_MS < dl
         /\ exists r1 rtt1, ask_chain rest (dp - 1) (dl - FORWARDING_OVERHEAD_MS) = (Ok r1, rtt1)
            /\ hr_partial r1 = false /\ hr_hops r = local :: stamped rtt1 1 0 (hr_hops r1)).
Proof.
  cbn -[FORWARDING_OVERHEAD_MS]. intros Ha ([ix Hix] & Hup & Hw) Hp. exists ix. split; [done|].
  unfold chain_hop_reply in Ha. rewrite Hix in Ha. unfold walk_upstream in Ha.
  destruct (bool_decide (is_Some (upstream (node_acceptor nd)))) eqn:Hb; cbn -[FORWARDING_OVERHEAD_MS] in Ha.
  - right. apply bool_decide_eq_true in Hb. split; [by apply Hup|].
    unfold saturating_sub in Ha. cbn [hq_depth_budget hq_deadline_ms] in Ha.
    assert (forall x, fit_hop_reply x = None \/ hr_partial x = true -> 
      match fit_hop_reply x with Some reply => (Ok reply, node_rtt nd)
      | None => (Err QueryTimeout, node_rtt nd) end <> (Ok r, rtt)) as Hflag.
    { intros x Hx Heq. destruct (fit_hop_reply x) as [r'|] eqn:Hf; [|done].
      injection Heq as -> _. destruct Hx as [|Hx]; [done|].
      pose proof (fit_unflagged _ _ Hf Hp) as ->. congruence. }
    destruct ((0 <? _) && (0 <? _)) eqn:Hbud.
    + apply andb_true_iff in Hbud as [H1%Z.ltb_lt H2%Z.ltb_lt].
      rewrite !Z.max_r in Ha by lia.
      split; [lia|]. split; [lia|].
      destruct (ask_chain rest _ _) as [[r1|e] rtt1].
      2: { destruct e; exfalso; (refine (Hflag _ _ Ha); by right). }
      exists r1, rtt1. split; [done|].
      destruct (fit_hop_reply _) as [r'|] eqn:Hf; [|done]. injection Ha as -> _.
      pose proof (fit_unflagged _ _ Hf Hp) as ->. cbn in Hp |- *. split; [done|].
      by rewrite extend_hops_stamped.
    + exfalso. destruct (_ =? 0); (refine (Hflag _ _ Ha); by right).
  - left. apply bool_decide_eq_false in Hb. split; [destruct rest; [done|exfalso; apply Hb, Hup; done]|].
    destruct (fit_hop_reply _) as [r'|] eqn:Hf; [|done]. injection Ha as -> _.
    by pose proof (fit_unflagged _ _ Hf Hp) as ->.
Qed.

Lemma walk_complete nodes : forall dp dl r rtt,
  ask_chain nodes dp dl = (Ok r, rtt) -> wired nodes -> hr_partial r = false ->
  Forall2 (fun nd h => exists l, node_hop nd = Some l /\ same_hop l h) nodes (hr_hops r)
  /\ hop_index <$> hr_hops r = reply_indices (zlen nodes)
  /\ (zlen nodes = 1 \/ zlen nodes <= dp /\ FORWARDING_OVERHEAD_MS * (zlen nodes - 1) < dl).
Proof.
  induction nodes as [|nd rest IH]; intros dp dl r rtt Ha Hw Hp; [done|].
  destruct (reply_nodes_hd _ _ _ _ _ _ Ha Hw Hp)
    as (ix & Hix & [[-> ->]|(Hne & Hdp & Hdl & r1 & rtt1 & Ha1 & Hp1 & ->)]);
    unfold node_hop; rewrite zlen_cons.
  - split_and!; [|done|by left]. constructor; [|constructor]. rewrite Hix. by eexists.
  - destruct (IH _ _ _ _ Ha1 (proj2 (proj2 Hw)) Hp1) as (Hh & Hi & Hb). split_and!.
    + constructor; [rewrite Hix; by eexists|].
      eapply Forall2_trans; [|exact Hh|apply stamped_same].
      intros n h h' (l & Hl & Hs1) Hs2. exists l. split; [done|].
      unfold same_hop in *. naive_solver congruence.
    + cbn [fmap list_fmap]. unfold reply_indices. f_equal. rewrite stamped_index.
      replace (1 + zlen rest - 1) with (zlen rest) by lia. f_equal.
      f_equal. unfold zlen. by rewrite <- (Forall2_length _ _ _ Hh).
    + right. assert (1 <= zlen rest) by (destruct rest; [done|rewrite zlen_cons; pose proof (zlen_nonneg rest); lia]).
      unfold FORWARDING_OVERHEAD_MS in *. lia.
Qed.

End Walks.

(** ** Properties *)

Module AcceptorProps.

(** C5: What a relay does with the bodies its downstream sends.  While the
    supervisor runs, over any sequence of dispatches: the supervisor is handed
    exactly the rule sets derived from the pushes that are small enough, decode
    and derive, in order; exactly the bodies of those pushes go upstream,
    byte for byte and in order; the body kept for each origin is the last of
    those; and every ack is the one that push deserved. *)
Theorem relay_applies_and_forwards `{Extern} `{UrlLib} `{!Postcard PredicateSet, !Postcard LegacyPredicateSet}
    `{!Postcard ChainHopQuery, !Postcard CanaryArm} display (a : ChainAcceptor) ds :
  apply_open (supervisor a) = true ->
  let good := omap (good_push display (derive_cfg a)) ds in
  exists a', dispatch_all display a ds = (a', ack_of display (derive_cfg a) <$> ds)
  /\ apply_queue (supervisor a') = apply_queue (supervisor a) ++ ((fun x => x.1.2) <$> good)
  /\ match upstream a with
     | None => upstream a' = None /\ last_forwarded a' = last_forwarded a
     | Some u => upstream a' = Some (mkClient (client_open u) (client_queue u ++
                   (if client_open u then (fun x => (as_byte PredicateSetUpdate, x.2)) <$> good else [])))
                 /\ last_forwarded a' = foldl store_body (last_forwarded a) good
     end.
Proof.
  intros Hopen good. destruct (dispatch_all_pushed display ds a Hopen) as (a' & Hr & Hp).
  exists a'. split; [done|]. split; [apply (pd_queue _ _ _ Hp)|apply (pd_upstream _ _ _ Hp)].
Qed.

(** A chain walk that is not flagged partial is complete.  Over a chain of
    wired nodes, an answer with [partial = false] lists every node of the
    chain in order, each as the node sees itself; such an answer needs a depth
    budget of at least the number of nodes and more than 250 ms per forward;
    and the hop indices it carries are 0, 1, 3, 5 and so on. *)
Theorem unflagged_walk_complete `{Extern} `{UrlLib} `{!Postcard ChainHopReply} show nodes dp dl r rtt :
  ask_chain show nodes dp dl = (Ok r, rtt) -> wired nodes -> hr_partial r = false ->
  Forall2 (fun nd h => exists l, node_hop nd = Some l /\ same_hop l h) nodes (hr_hops r)
  /\ hop_index <$> hr_hops r = reply_indices (zlen nodes)
  /\ (zlen nodes = 1 \/ zlen nodes <= dp /\ FORWARDING_OVERHEAD_MS * (zlen nodes - 1) < dl).
Proof. apply walk_complete. Qed.

#[local] Instance demo_opaque {A} : Postcard A | 100 := {|
  to_allocvec _ := Ok []; from_bytes _ := Err "opaque" |}.

Definition demo_empty : RuleSet := mkRuleSet [] [].
Definition demo_relay : ChainAcceptor :=
  mkAcceptor (mkSupervisor true [] demo_empty) DeriveProps.demo_cfg
    (Some (introspection_new (X25519 []) None None)) 0 None (Some "relay") None
    (Some (mkClient true [])) None ∅ [].
Definition demo_gateway : ChainAcceptor :=
  mkAcceptor (mkSupervisor true [] demo_empty) DeriveProps.demo_cfg
    (Some (introspection_new (X25519 []) None None)) 0 (Some Gateway) (Some "gw") None None None ∅ [].
Definition demo_push_set : PredicateSet := mkPredicateSet [mkPredicate "mc" 25565 Tcp None false] (X25519 []).
Definition demo_push : list byte := Eval vm_compute in
  match to_allocvec (Postcard := demo_postcard) demo_push_set with Ok b => b | Err _ => [] end.
Definition demo_dispatches : list Dispatch :=
  [mkDispatch 5000 2 demo_push; mkDispatch 6000 2 [ "255"%byte ]; mkDispatch 7000 9 []].

Lemma relay_applies_and_forwards_witness :
  snd (dispatch_all DeriveProps.demo_display demo_relay demo_dispatches) = [AckOk; AckReject 102; AckUnknown]
  /\ client_queue <$> upstream (fst (dispatch_all DeriveProps.demo_display demo_relay demo_dispatches)) =
     Some [(2, demo_push)].
Proof.
  destruct (relay_applies_and_forwards DeriveProps.demo_display demo_relay demo_dispatches eq_refl)
    as (a' & -> & _ & Hu).
  split; [by vm_compute|]. cbn [fst]. cbn [demo_relay upstream] in Hu. destruct Hu as [-> _].
  by vm_compute.
Defined.

Definition demo_nodes : list Node := [mkNode demo_relay 0 7 3; mkNode demo_relay 0 2 1; mkNode demo_gateway 0 8 4].

Lemma unflagged_walk_complete_witness :
  exists r rtt, ask_chain (fun _ => "") demo_nodes 3 501 = (Ok r, rtt)
    /\ hop_index <$> hr_hops r = [0; 1; 3].
Proof.
  eexists _, _. split; [reflexivity|].
  refine (proj1 (proj2 (unflagged_walk_complete (fun _ => "") demo_nodes 3 501 _ _ eq_refl _ eq_refl))).
  cbn. repeat split; try done; try (by eexists); by intros [? ?].
Defined.

End AcceptorProps.
