(* ===== verification/Publisher.v ===== *)
(** * The terminal's predicate publisher ([yggdrasil/src/chain/predicate_publisher.rs])

    One step per arm of the publisher's loop, and one for the supervisor sending
    a new rule set on the [watch] channel the publisher reads.  What the await on
    a push's ack gives is an argument of the step. *)

From S2P Require Import Prelude RustStd External RuleTypes Error Instances ControlFrame PubKey.
From S2P Require Import Rule RuleSet Predicate Derive Reliability ChainTypes HeartbeatServer Acceptor.

(** What ends the wait for the ack of a push. *)
Inductive AckWait :=
  | WaitCancelled
  | WaitAck (r : result SendError unit)
  | WaitDropped        (** the sender side was dropped *)
  | WaitElapsed.       (** [PUBLISH_ACK_DEADLINE] passed *)

Definition PUBLISH_ACK_DEADLINE : Z := Time.from_secs 30.

Section Publisher.
Context `{Extern} `{UrlLib} `{!Postcard PredicateSet}.
(** [Blake2s256::digest]. *)
Variable blake2s_256 : list byte -> list byte.

Definition predicate_body_hash (body : list byte) : list byte := blake2s_256 body.

Record Publisher := mkPublisher {
  pub_origin : PubKey;
  pub_meta : HttpsPredicateMeta;
  pub_rules : RuleSet;                         (** the value of [rules_rx] *)
  pub_unseen : bool;                           (** [rules_rx] has a change not seen yet *)
  last_sent_body_hash : option (list byte);
  epoch_source_alive : bool;
  pub_handle : ChainClientHandle;
  pub_introspection : option IntrospectionState
}.

(** The body of a push, when it can be sent at all. *)
Definition push_body (set : RuleSet) (meta : HttpsPredicateMeta) (o : PubKey) :
    option (PredicateSet * list byte) :=
  let predicate_set := extract set meta o in
  match to_allocvec predicate_set with
  | Err _ => None
  | Ok body => if PREDICATE_SET_MAX_WIRE_BYTES <? zlen body then None else Some (predicate_set, body)
  end.

(** [publish_one]: the handle and sink after it, and the hash to remember. *)
Definition publish_one (p : Publisher) (wait : AckWait) (now_secs : Z) :
    ChainClientHandle * option IntrospectionState * option (list byte) :=
  match push_body (pub_rules p) (pub_meta p) (pub_origin p) with
  | None => (pub_handle p, pub_introspection p, None)
  | Some (predicate_set, body) =>
      let body_hash := predicate_body_hash body in
      if bool_decide (last_sent_body_hash p = Some body_hash)
      then (pub_handle p, pub_introspection p, None)
      else
        let '(h, sent) := send_control (pub_handle p) (as_byte PredicateSetUpdate) body in
        if negb sent then (h, pub_introspection p, None)
        else
          match wait with
          | WaitAck (Ok tt) =>
              (h, (fun ix => record_apply ix predicate_set now_secs) <$> pub_introspection p, Some body_hash)
          | WaitAck (Err _) | WaitCancelled | WaitDropped | WaitElapsed => (h, pub_introspection p, None)
          end
  end.

Definition publish_and_remember (p : Publisher) (wait : AckWait) (now_secs : Z) : Publisher :=
  let '(h, ix, applied) := publish_one p wait now_secs in
  mkPublisher (pub_origin p) (pub_meta p) (pub_rules p) (pub_unseen p)
    (match applied with Some body_hash => Some body_hash | None => last_sent_body_hash p end)
    (epoch_source_alive p) h ix.

(** A set is sent on the channel; the arms of the loop of [run], shutdown
    apart. *)
Inductive PublisherEvent :=
  | RulesSet (set : RuleSet)
  | EpochClosed
  | EpochChanged (wait : AckWait) (now_secs : Z)
  | RulesChanged (wait : AckWait) (now_secs : Z).

Definition with_last (p : Publisher) (l : option (list byte)) : Publisher :=
  mkPublisher (pub_origin p) (pub_meta p) (pub_rules p) (pub_unseen p) l (epoch_source_alive p) (pub_handle p)
    (pub_introspection p).
Definition with_rules (p : Publisher) (set : RuleSet) (unseen : bool) : Publisher :=
  mkPublisher (pub_origin p) (pub_meta p) set unseen (last_sent_body_hash p) (epoch_source_alive p)
    (pub_handle p) (pub_introspection p).

(** An arm that is not ready leaves the publisher as it is.  The resync arm
    reads the channel with [borrow], which leaves a change unseen. *)
Definition publisher_step (p : Publisher) (ev : PublisherEvent) : Publisher :=
  match ev with
  | RulesSet set => with_rules p set true
  | EpochClosed =>
      mkPublisher (pub_origin p) (pub_meta p) (pub_rules p) (pub_unseen p) (last_sent_body_hash p) false
        (pub_handle p) (pub_introspection p)
  | EpochChanged wait now =>
      if epoch_source_alive p then
        match last_sent_body_hash p with
        | None => p
        | Some _ => publish_and_remember (with_last p None) wait now
        end
      else p
  | RulesChanged wait now =>
      if pub_unseen p then publish_and_remember (with_rules p (pub_rules p) false) wait now else p
  end.

Definition publisher_run (p : Publisher) (evs : list PublisherEvent) : Publisher :=
  foldl publisher_step p evs.

(** [run]'s initial state: the receiver is a clone of one made with the channel,
    so what was sent before is unseen. *)
Definition publisher_start (o : PubKey) (meta : HttpsPredicateMeta) (set : RuleSet) (unseen : bool)
    (h : ChainClientHandle) (ix : option IntrospectionState) : Publisher :=
  mkPublisher o meta set unseen None true h ix.

(** ** Facts *)

Definition is_epoch (ev : PublisherEvent) : bool :=
  match ev with EpochClosed | EpochChanged _ _ => true | _ => false end.

(** The wait of an event, if it has one, is a clean ack. *)
Definition acked (ev : PublisherEvent) : Prop :=
  match ev with
  | RulesSet _ | EpochClosed => True
  | EpochChanged w _ | RulesChanged w _ => w = WaitAck (Ok tt)
  end.

(** The sets sent in the course of a run. *)
Definition sets_sent (evs : list PublisherEvent) : list RuleSet :=
  omap (fun ev => match ev with RulesSet set => Some set | _ => None end) evs.

(** The snapshot is that of the current rules, whenever they can be sent. *)
Definition in_sync (p : Publisher) : Prop :=
  match push_body (pub_rules p) (pub_meta p) (pub_origin p) with
  | Some (_, body) => last_sent_body_hash p = Some (predicate_body_hash body)
  | None => True
  end.

Lemma publish_fields p w now :
  let p' := publish_and_remember p w now in
  pub_origin p' = pub_origin p /\ pub_meta p' = pub_meta p /\ pub_rules p' = pub_rules p /\ pub_unseen p' = pub_unseen p
  /\ epoch_source_alive p' = epoch_source_alive p
  /\ client_open (pub_handle p') = client_open (pub_handle p).
Proof.
  unfold publish_and_remember, publish_one, send_control.
  destruct (push_body _ _ _) as [[ps body]|]; [|done]. case_bool_decide; [done|].
  destruct (client_open (pub_handle p)) eqn:Ho; cbn; [|done].
  by destruct w as [|[[]|]| |].
Qed.

Lemma publish_acked_sync p now :
  client_open (pub_handle p) = true -> in_sync (publish_and_remember p (WaitAck (Ok tt)) now).
Proof.
  intros Ho. unfold in_sync. destruct (publish_fields p (WaitAck (Ok tt)) now) as (-> & -> & -> & _).
  destruct (push_body _ _ _) as [[ps body]|] eqn:Hb; [|done].
  unfold publish_and_remember, publish_one, send_control. rewrite Hb, Ho. case_bool_decide; done.
Qed.

(** A push that is not acked leaves the snapshot as it was. *)
Lemma publish_failed p w now :
  w <> WaitAck (Ok tt) ->
  last_sent_body_hash (publish_and_remember p w now) = last_sent_body_hash p.
Proof.
  intros Hw. unfold publish_and_remember, publish_one, send_control.
  destruct (push_body _ _ _) as [[ps body]|]; [|done]. case_bool_decide; [done|].
  destruct (client_open (pub_handle p)); cbn; [|done]. by destruct w as [|[[]|]| |].
Qed.

Lemma epochs_stuck p evs :
  last_sent_body_hash p = None -> Forall (fun ev => is_epoch ev = true) evs ->
  client_queue (pub_handle (publisher_run p evs)) = client_queue (pub_handle p)
  /\ last_sent_body_hash (publisher_run p evs) = None.
Proof.
  intros Hl Hev. revert p Hl; induction Hev as [|ev evs He _ IH]; intros p Hl; [done|].
  change (publisher_run p (ev :: evs)) with (publisher_run (publisher_step p ev) evs).
  destruct ev as [set| |w now|]; [done| |cbn|done].
  - destruct (IH (publisher_step p EpochClosed)) as [-> ->]; done.
  - destruct (epoch_source_alive p); [rewrite Hl|]; by apply IH.
Qed.

End Publisher.

Section PublisherRuns.
Context `{Extern} `{UrlLib} `{!Postcard PredicateSet}.
Variable blake2s_256 : list byte -> list byte.
(** The sets of a run, and the origin and listener of its projections. *)
Variables (sets : list RuleSet) (o : PubKey) (meta : HttpsPredicateMeta).

(** [b] is a body some set of the run projects to. *)
Definition projections_of (b : list byte) : Prop := exists set ps, set ∈ sets /\ push_body set meta o = Some (ps, b).

(** The hash tells the bodies of the run apart. *)
Definition collision_free : Prop :=
  forall b b', projections_of b -> projections_of b' -> predicate_body_hash blake2s_256 b = predicate_body_hash blake2s_256 b' -> b = b'.

(** With the client running and every push acked: the snapshot is the hash of
    the last body queued, and unless a change is unseen or none was ever made it
    is the one of the current rules. *)
Record acked_inv (fresh : bool) (p : Publisher) : Prop := {
  ai_open : client_open (pub_handle p) = true;
  ai_origin : pub_origin p = o;
  ai_meta : pub_meta p = meta;
  ai_rules : pub_rules p ∈ sets;
  ai_queued h : last_sent_body_hash p = Some h ->
    exists b, last (client_queue (pub_handle p)) = Some (as_byte PredicateSetUpdate, b) /\ projections_of b
              /\ predicate_body_hash blake2s_256 b = h;
  ai_sync : pub_unseen p = true \/ fresh = true \/ in_sync blake2s_256 p
}.

Lemma publish_acked_inv fresh p now : acked_inv fresh p -> acked_inv false (publish_and_remember blake2s_256 p (WaitAck (Ok tt)) now).
Proof.
  intros [Ho Horig Hmeta Hr Hq _].
  destruct (publish_fields blake2s_256 p (WaitAck (Ok tt)) now) as (Eo & Em & Er & Eu & _ & Ec).
  split; [congruence..| |do 2 right; by apply publish_acked_sync].
  unfold publish_and_remember, publish_one, send_control. rewrite Ho, Horig, Hmeta.
  destruct (push_body (pub_rules p) meta o) as [[ps body]|] eqn:Hb; [|done]. case_bool_decide; [done|]. cbn.
  intros h [= <-]. exists body. rewrite last_snoc. split_and!; [done|by exists (pub_rules p), ps|done].
Qed.

Lemma acked_inv_mono fresh p : acked_inv false p -> acked_inv fresh p.
Proof. intros [???? Hq [?|[?|?]]]; split; auto. done. Qed.

Definition no_sets (evs : list PublisherEvent) : bool := match sets_sent evs with [] => true | _ => false end.

Lemma acked_step_inv fresh p ev : acked ev -> Forall (fun s => s ∈ sets) (sets_sent [ev]) -> acked_inv fresh p ->
  acked_inv (fresh && no_sets [ev]) (publisher_step blake2s_256 p ev).
Proof.
  intros Ha Hs Hi. pose proof Hi as [Ho Horig Hmeta Hr Hq Hsync]. destruct ev as [set| |w now|w now]; cbn in *; rewrite ?andb_true_r.
  - apply Forall_cons in Hs as [Hin _]. split; [done..|by left].
  - by split.
  - subst w. destruct (epoch_source_alive p); [|done]. destruct (last_sent_body_hash p) eqn:Hl; [|done].
    apply acked_inv_mono, (publish_acked_inv true). split; [done..|right; by left].
  - subst w. destruct (pub_unseen p) eqn:Hu; [|done]. apply acked_inv_mono, (publish_acked_inv true). split; [done..|right; by left].
Qed.

Lemma acked_run_inv evs : forall fresh p, Forall acked evs -> Forall (fun s => s ∈ sets) (sets_sent evs) -> acked_inv fresh p ->
  acked_inv (fresh && no_sets evs) (publisher_run blake2s_256 p evs).
Proof.
  induction evs as [|ev evs IH]; intros fresh p Hev Hs Hi; [by rewrite andb_true_r|].
  apply Forall_cons in Hev as [Ha Hev].
  assert (sets_sent (ev :: evs) = sets_sent [ev] ++ sets_sent evs) as Hcons by (by destruct ev).
  rewrite Hcons in Hs. apply Forall_app in Hs as [Hs1 Hs2].
  assert (fresh && no_sets (ev :: evs) = (fresh && no_sets [ev]) && no_sets evs) as ->
    by (rewrite <- andb_assoc; f_equal; unfold no_sets; by destruct ev).
  apply (IH _ (publisher_step blake2s_256 p ev)); [done..|]. by apply acked_step_inv.
Qed.

End PublisherRuns.

(** The value of the channel is the last set sent. *)
Lemma run_rules `{Extern} `{UrlLib} `{!Postcard PredicateSet} blake2s_256 evs : forall p,
  pub_rules (publisher_run blake2s_256 p evs) = List.last (sets_sent evs) (pub_rules p).
Proof.
  induction evs as [|ev evs IH]; intros p; [done|]. change (publisher_run blake2s_256 p (ev :: evs)) with (publisher_run blake2s_256 (publisher_step blake2s_256 p ev) evs).
  rewrite IH. destruct ev as [set| |w now|w now]; cbn [publisher_step].
  - change (sets_sent (RulesSet set :: evs)) with (set :: sets_sent evs). cbn [pub_rules with_rules].
    destruct (sets_sent evs) as [|x l]; [done|]. clear IH. revert x. induction l as [|y l IHl]; intros x; [done|]. apply (IHl y).
  - done.
  - change (sets_sent (EpochChanged w now :: evs)) with (sets_sent evs). destruct (epoch_source_alive p); [|done].
    destruct (last_sent_body_hash p); [|done]. by destruct (publish_fields blake2s_256 (with_last p None) w now) as (_ & _ & -> & _).
  - change (sets_sent (RulesChanged w now :: evs)) with (sets_sent evs). destruct (pub_unseen p); [|done].
    by destruct (publish_fields blake2s_256 (with_rules p (pub_rules p) false) w now) as (_ & _ & -> & _).
Qed.

Lemma last_in {A} (l : list A) x : List.last l x ∈ x :: l.
Proof. induction l as [|y l IH]; [by left|]. cbn. destruct l; [set_solver|]. set_solver. Qed.

(** ** Properties *)

Module PublisherProps.

(** C12: Convergence.  While the chain client runs and every push is acked, and
    the rules have changed at all, then as soon as the publisher has seen the
    last change the last body handed to the client is the encoded projection of
    the rules now in force, whatever session changes and rule changes came in
    between and however many pushes were skipped as duplicates; and a new
    session makes it hand that body over once more.  The projection is one that
    can be encoded within the wire limit, and BLAKE2s does not give two
    different projections of the run one hash. *)
Theorem publisher_converges `{Extern} `{UrlLib} `{!Postcard PredicateSet} blake2s_256 o meta set unseen h ix evs ps body :
  client_open h = true -> Forall acked evs -> unseen = true \/ sets_sent evs <> [] ->
  collision_free blake2s_256 (set :: sets_sent evs) o meta ->
  let p := publisher_run blake2s_256 (publisher_start o meta set unseen h ix) evs in
  let rules := List.last (sets_sent evs) set in
  pub_unseen p = false -> push_body rules meta o = Some (ps, body) ->
  last (client_queue (pub_handle p)) = Some (as_byte PredicateSetUpdate, body)
  /\ (epoch_source_alive p = true -> forall w now,
       client_queue (pub_handle (publisher_step blake2s_256 p (EpochChanged w now)))
       = client_queue (pub_handle p) ++ [(as_byte PredicateSetUpdate, body)]).
Proof.
  intros Ho Hev Htouched Hcf p rules Hseen Hb.
  assert (acked_inv blake2s_256 (set :: sets_sent evs) o meta (negb unseen) (publisher_start o meta set unseen h ix)) as Hi0.
  { split; cbn; [done..|left|done|destruct unseen; auto]. }
  apply (acked_run_inv blake2s_256 _ o meta evs) in Hi0; [|done|apply Forall_forall; intros x ?; by right]. fold p in Hi0.
  assert (pub_rules p = rules) as Hrules by apply run_rules.
  destruct Hi0 as [Hopen Horig Hmeta _ Hq Hsync].
  assert (in_sync blake2s_256 p) as Hs.
  { destruct Hsync as [Hu|[Hf|?]]; [congruence| |done]. apply andb_true_iff in Hf as [Hu Hn]. unfold no_sets in Hn.
    destruct Htouched as [-> |Hne]; [done|]. by destruct (sets_sent evs). }
  unfold in_sync in Hs. rewrite Hrules, Horig, Hmeta, Hb in Hs. destruct (Hq _ Hs) as (b & Hlast & Hproj & Hhash).
  assert (b = body) as ->.
  { apply Hcf; [done| |done]. exists rules, ps. split; [apply last_in|done]. }
  split; [done|]. intros Halive w now. cbn. rewrite Halive, Hs. unfold publish_and_remember, publish_one, send_control. cbn.
  rewrite Hrules, Horig, Hmeta, Hb, Hopen. by destruct w as [|[[]|]| |].
Qed.

(** A failed resync is not repeated.  When the session is re-established and
    the push that follows is not acked, the publisher forgets what it sent
    and from then on no number of further sessions makes it push anything:
    only a change of the rules does. *)
Theorem failed_resync_not_retried `{Extern} `{UrlLib} `{!Postcard PredicateSet} blake2s_256
    (p : Publisher) w now evs :
  epoch_source_alive p = true -> w <> WaitAck (Ok tt) -> Forall (fun ev => is_epoch ev = true) evs ->
  let p' := publisher_step blake2s_256 p (EpochChanged w now) in
  last_sent_body_hash p' = None
  /\ last_sent_body_hash (publisher_run blake2s_256 p' evs) = None
  /\ client_queue (pub_handle (publisher_run blake2s_256 p' evs)) = client_queue (pub_handle p').
Proof.
  intros Ha Hw Hev p'.
  assert (last_sent_body_hash p' = None) as Hl.
  { unfold p'. cbn. rewrite Ha. destruct (last_sent_body_hash p) eqn:Hl; [|done].
    by rewrite publish_failed. }
  destruct (epochs_stuck blake2s_256 p' evs Hl Hev). done.
Qed.

Definition demo_hash (b : list byte) : list byte := b.
Definition demo_publisher : Publisher :=
  publisher_start (X25519 []) HttpsPredicateMeta_default AcceptorProps.demo_empty false (mkClient true []) None.
Definition demo_rules : RuleSet := mkRuleSet [RuleSetProps.demo_rule "a" 1] [].
Definition demo_acked : AckWait := WaitAck (Ok tt).
Definition demo_body : list byte := Eval vm_compute in
  match push_body demo_rules HttpsPredicateMeta_default (X25519 []) with Some (_, b) => b | None => [] end.

(** The same rules twice, a new session between. *)
Definition demo_run : list PublisherEvent :=
  [RulesSet demo_rules; RulesChanged demo_acked 1; EpochChanged demo_acked 2; RulesSet demo_rules; RulesChanged demo_acked 3].

Lemma publisher_converges_witness :
  last (client_queue (pub_handle (publisher_run demo_hash demo_publisher demo_run))) = Some (2, demo_body)
  /\ zlen (client_queue (pub_handle (publisher_step demo_hash (publisher_run demo_hash demo_publisher demo_run) (EpochChanged WaitElapsed 9)))) = 3.
Proof.
  destruct (publisher_converges demo_hash (X25519 []) HttpsPredicateMeta_default AcceptorProps.demo_empty false
    (mkClient true []) None demo_run (extract demo_rules HttpsPredicateMeta_default (X25519 [])) demo_body) as [Hl He].
  - reflexivity.
  - by repeat constructor.
  - by right.
  - by intros b b' _ _ ?.
  - by vm_compute.
  - by vm_compute.
  - split; [exact Hl|]. unfold demo_publisher. rewrite He by (by vm_compute). by vm_compute.
Defined.

Lemma failed_resync_not_retried_witness :
  zlen (client_queue (pub_handle (publisher_run demo_hash demo_publisher
    ([RulesSet demo_rules; RulesChanged demo_acked 1; EpochChanged WaitElapsed 2]
     ++ replicate 5 (EpochChanged demo_acked 3))))) = 2.
Proof.
  unfold publisher_run. rewrite foldl_app.
  destruct (failed_resync_not_retried demo_hash
    (publisher_run demo_hash demo_publisher [RulesSet demo_rules; RulesChanged demo_acked 1]) WaitElapsed 2
    (replicate 5 (EpochChanged demo_acked 3))) as (_ & _ & Hq);
    [by vm_compute|done|by repeat constructor|].
  unfold publisher_run in Hq. cbn [foldl] in *. rewrite Hq. by vm_compute.
Defined.

End PublisherProps.
