(* ===== verification/LanCidrs.v ===== *)
(** * The LAN address set ([yggdrasil/src/lan_cidrs.rs]) *)

From S2P Require Import Prelude RustStd.

Record IpCidr := mkCidr { network : Net.IpAddr; prefix : Z }.

(** The messages carry the input and a detail of the standard parsers; the
    input is kept. *)
Inductive CidrParseError :=
  | MissingSlash (input : string)
  | InvalidAddr (input : string)
  | InvalidPrefix (input : string)
  | PrefixTooLarge (input family : string) (prefix : Z).

Definition cidr_parse (s : string) : result CidrParseError IpCidr :=
  '(addr_str, prefix_str) ← ok_or (MissingSlash s) (Str.split_once "/"%char s);
  net ← ok_or (InvalidAddr s) (Net.parse_ip addr_str);
  p ← ok_or (InvalidPrefix s) (Str.parse_uint 8 prefix_str);
  match net with
  | Net.IpV4 _ => if 32 <? p then Err (PrefixTooLarge s "IPv4" p) else Ok (mkCidr net p)
  | Net.IpV6 _ => if 128 <? p then Err (PrefixTooLarge s "IPv6" p) else Ok (mkCidr net p)
  end.

Definition u32_MAX : Z := 2 ^ 32 - 1.
Definition u128_MAX : Z := 2 ^ 128 - 1.

Definition v4_prefix_match (a b : Net.Ipv4Addr) (p : Z) : bool :=
  if p =? 0 then true
  else if 32 <? p then false
  else
    let mask := if p =? 32 then u32_MAX else wrap 32 (Z.shiftl u32_MAX (32 - p)) in
    Z.land (Net.v4_to_bits a) mask =? Z.land (Net.v4_to_bits b) mask.

Definition v6_prefix_match (a b : Net.Ipv6Addr) (p : Z) : bool :=
  if p =? 0 then true
  else if 128 <? p then false
  else
    let mask := if p =? 128 then u128_MAX else wrap 128 (Z.shiftl u128_MAX (128 - p)) in
    Z.land (Net.v6_to_bits a) mask =? Z.land (Net.v6_to_bits b) mask.

Definition cidr_contains (c : IpCidr) (ip : Net.IpAddr) : bool :=
  match network c, ip with
  | Net.IpV4 net, Net.IpV4 peer => v4_prefix_match net peer (prefix c)
  | Net.IpV6 net, Net.IpV6 peer => v6_prefix_match net peer (prefix c)
  | _, _ => false
  end.

Definition DEFAULT_LAN_CIDR_STRINGS : list string :=
  ["127.0.0.0/8"; "10.0.0.0/8"; "172.16.0.0/12"; "192.168.0.0/16"; "::1/128"; "fc00::/7"].

Inductive LanCidrsSource := SourceDefault | SourceOverride.
Definition LanCidrsSource_as_str (s : LanCidrsSource) : string :=
  match s with SourceDefault => "default" | SourceOverride => "override" end.

Record LanCidrs := mkLanCidrs { lan_cidrs : list IpCidr; lan_source : LanCidrsSource }.

(** [None] of the outer option: the [expect] on the built-in strings. *)
Definition resolve_lan (override_cidrs : option (list string)) : option (result CidrParseError LanCidrs) :=
  match override_cidrs with
  | Some operator_list =>
      Some (cs ← try_collect cidr_parse operator_list; Ok (mkLanCidrs cs SourceOverride))
  | None =>
      match try_collect cidr_parse DEFAULT_LAN_CIDR_STRINGS with
      | Ok cs => Some (Ok (mkLanCidrs cs SourceDefault))
      | Err _ => None
      end
  end.

Definition lan_contains (l : LanCidrs) (peer : Net.IpAddr) : bool :=
  existsb (fun c => cidr_contains c peer) (lan_cidrs l).

(** ** Masks are divisions *)

Lemma testbit_above w a n : fits w a -> 0 <= w <= n -> Z.testbit a n = false.
Proof.
  intros [Ha Hw] Hn. destruct (Z.eq_dec a 0) as [->|]; [apply Z.bits_0|].
  apply Z.bits_above_log2; [done|]. apply Z.log2_lt_pow2; [lia|].
  eapply Z.lt_le_trans; [exact Hw|]. apply Z.pow_le_mono_r; lia.
Qed.

Lemma land_mask w k a :
  0 <= k <= w -> fits w a -> Z.land a (wrap w (Z.shiftl (2 ^ w - 1) k)) = a / 2 ^ k * 2 ^ k.
Proof.
  intros Hk Ha. rewrite <- Z.shiftr_div_pow2, <- Z.shiftl_mul_pow2 by lia.
  unfold wrap. rewrite <- Z.land_ones by lia.
  replace (2 ^ w - 1) with (Z.ones w) by (rewrite Z.ones_equiv; lia).
  apply Z.bits_inj'. intros n Hn. rewrite !Z.land_spec, !Z.shiftl_spec by lia.
  destruct (Z.ltb_spec n k) as [Hnk|Hnk].
  { rewrite (Z.testbit_neg_r (Z.ones w)), (Z.testbit_neg_r (Z.shiftr a k)) by lia.
    by rewrite andb_false_r. }
  rewrite Z.shiftr_spec by lia. replace (n - k + k) with n by lia.
  destruct (Z.ltb_spec n w) as [Hnw|Hnw].
  - rewrite !Z.ones_spec_low by lia. by rewrite !andb_true_r.
  - by rewrite (testbit_above w a n Ha) by lia.
Qed.

Lemma land_full w a : fits w a -> 0 <= w -> Z.land a (2 ^ w - 1) = a.
Proof.
  intros [Ha Hw] Hw0. replace (2 ^ w - 1) with (Z.ones w) by (rewrite Z.ones_equiv; lia).
  rewrite Z.land_ones by done. by apply Z.mod_small.
Qed.

Lemma v4_bits_fits a : fits 32 (Net.v4_to_bits a).
Proof.
  unfold fits, Net.v4_to_bits. pose proof (from_be_range (Net.v4_octets a)) as Hr.
  rewrite Net.v4_octets_length in Hr. change (256 ^ Z.of_nat 4) with (2 ^ 32) in Hr. done.
Qed.

Lemma v6_bits_fits a : fits 128 (Net.v6_to_bits a).
Proof.
  unfold fits, Net.v6_to_bits. pose proof (from_be_range (Net.v6_octets a)) as Hr.
  rewrite Net.v6_octets_length in Hr. change (256 ^ Z.of_nat 16) with (2 ^ 128) in Hr. done.
Qed.

(** Membership is agreement of the top [p] bits. *)
Lemma v4_match_spec a b p :
  0 <= p <= 32 ->
  v4_prefix_match a b p = true <->
  Net.v4_to_bits a / 2 ^ (32 - p) = Net.v4_to_bits b / 2 ^ (32 - p).
Proof.
  intros Hp. pose proof (v4_bits_fits a) as Ha. pose proof (v4_bits_fits b) as Hb. unfold v4_prefix_match.
  destruct (Z.eqb_spec p 0) as [->|]; [rewrite !Z.div_small by done; done|].
  rewrite (proj2 (Z.ltb_ge 32 p)) by lia. rewrite Z.eqb_eq.
  destruct (Z.eqb_spec p 32) as [->|].
  - unfold u32_MAX. rewrite !(land_full 32) by done. change (2 ^ (32 - 32)) with 1. by rewrite !Z.div_1_r.
  - unfold u32_MAX. rewrite !land_mask by (done || lia).
    assert (2 ^ (32 - p) <> 0) by (apply Z.pow_nonzero; lia). split; [nia|by intros ->].
Qed.

Lemma v6_match_spec a b p :
  0 <= p <= 128 ->
  v6_prefix_match a b p = true <->
  Net.v6_to_bits a / 2 ^ (128 - p) = Net.v6_to_bits b / 2 ^ (128 - p).
Proof.
  intros Hp. pose proof (v6_bits_fits a) as Ha. pose proof (v6_bits_fits b) as Hb. unfold v6_prefix_match.
  destruct (Z.eqb_spec p 0) as [->|]; [rewrite !Z.div_small by done; done|].
  rewrite (proj2 (Z.ltb_ge 128 p)) by lia. rewrite Z.eqb_eq.
  destruct (Z.eqb_spec p 128) as [->|].
  - unfold u128_MAX. rewrite !(land_full 128) by done. change (2 ^ (128 - 128)) with 1. by rewrite !Z.div_1_r.
  - unfold u128_MAX. rewrite !land_mask by (done || lia).
    assert (2 ^ (128 - p) <> 0) by (apply Z.pow_nonzero; lia). split; [nia|by intros ->].
Qed.

Lemma div_eq_interval x y m : 0 < m -> x / m = y / m <-> x / m * m <= y < x / m * m + m.
Proof.
  intros Hm. split.
  - intros ->. pose proof (Z.mod_pos_bound y m Hm). rewrite (Z.div_mod y m) at 2 3 by lia. lia.
  - intros Hy. apply (Z.div_unique_pos y m (x / m) (y - x / m * m)); lia.
Qed.

(** ** Membership as an interval *)

Definition ip_width (i : Net.IpAddr) : Z := match i with Net.IpV4 _ => 32 | Net.IpV6 _ => 128 end.
Definition ip_bits (i : Net.IpAddr) : Z :=
  match i with Net.IpV4 a => Net.v4_to_bits a | Net.IpV6 a => Net.v6_to_bits a end.

(** [i] is in the block of [2 ^ (width - prefix)] addresses around the
    network address of [c], in the same family. *)
Definition in_block (c : IpCidr) (i : Net.IpAddr) : Prop :=
  ip_width (network c) = ip_width i
  /\ let m := 2 ^ (ip_width i - prefix c) in
     ip_bits (network c) / m * m <= ip_bits i < ip_bits (network c) / m * m + m.

Definition cidr_wf (c : IpCidr) : Prop := 0 <= prefix c <= ip_width (network c).

Lemma cidr_parse_wf s c : cidr_parse s = Ok c -> cidr_wf c.
Proof.
  unfold cidr_parse. destruct (Str.split_once _ s) as [[a p]|]; [cbn|done].
  destruct (Net.parse_ip a) as [net|]; [cbn|done].
  destruct (Str.parse_uint 8 p) as [n|] eqn:Hn; [cbn|done].
  pose proof (Str.parse_uint_fits 8 _ _ ltac:(lia) Hn) as [Hlo _].
  destruct net; case_match eqn:Hp; intros [= <-]; unfold cidr_wf; cbn; lia.
Qed.

Lemma cidr_contains_block c i : cidr_wf c -> cidr_contains c i = true <-> in_block c i.
Proof.
  unfold cidr_wf, cidr_contains, in_block. destruct c as [[net|net] p], i as [a|a]; cbn [network prefix ip_width ip_bits]; intros Hp.
  - rewrite v4_match_spec, div_eq_interval by (lia || apply Z.pow_pos_nonneg; lia).
    split; [intros Hb; exact (conj eq_refl Hb)|intros [_ Hb]; exact Hb].
  - split; [done|by intros []].
  - split; [done|by intros []].
  - rewrite v6_match_spec, div_eq_interval by (lia || apply Z.pow_pos_nonneg; lia).
    split; [intros Hb; exact (conj eq_refl Hb)|intros [_ Hb]; exact Hb].
Qed.

Lemma lan_contains_blocks l i :
  Forall cidr_wf (lan_cidrs l) -> lan_contains l i = true <-> Exists (fun c => in_block c i) (lan_cidrs l).
Proof.
  unfold lan_contains. induction (lan_cidrs l) as [|c cs IH]; cbn.
  - rewrite Exists_nil. done.
  - intros [Hc Hcs]%Forall_cons_iff. by rewrite Exists_cons, orb_true_iff, cidr_contains_block, IH.
Qed.

Lemma try_collect_wf ss cs : try_collect cidr_parse ss = Ok cs -> Forall cidr_wf cs.
Proof.
  rewrite try_collect_ok. induction 1 as [|s c ss cs Hc _ IH]; constructor; [by eapply cidr_parse_wf|done].
Qed.

Module LanCidrsProps.

(** The default ranges, as numbers. *)
Definition default_lan (i : Net.IpAddr) : Prop :=
  match i with
  | Net.IpV4 a =>
      let x := Net.v4_to_bits a in
      127 * 2 ^ 24 <= x < 128 * 2 ^ 24 \/ 10 * 2 ^ 24 <= x < 11 * 2 ^ 24
      \/ (172 * 256 + 16) * 2 ^ 16 <= x < (172 * 256 + 32) * 2 ^ 16
      \/ (192 * 256 + 168) * 2 ^ 16 <= x < (192 * 256 + 169) * 2 ^ 16
  | Net.IpV6 a =>
      let x := Net.v6_to_bits a in x = 1 \/ 0xfc * 2 ^ 120 <= x < 0xfe * 2 ^ 120
  end.

Definition demo_defaults : list IpCidr := Eval vm_compute in
  match try_collect cidr_parse DEFAULT_LAN_CIDR_STRINGS with Ok cs => cs | Err _ => [] end.

Lemma block_at c i lo hi :
  ip_width (network c) = ip_width i ->
  ip_bits (network c) / 2 ^ (ip_width (network c) - prefix c) * 2 ^ (ip_width (network c) - prefix c) = lo ->
  lo + 2 ^ (ip_width (network c) - prefix c) = hi ->
  in_block c i <-> lo <= ip_bits i < hi.
Proof. intros Hw <- <-. unfold in_block. rewrite <- Hw. split; [intros [_ Hb]; exact Hb|intros Hb; exact (conj eq_refl Hb)]. Qed.

Lemma block_other c i : ip_width (network c) <> ip_width i -> in_block c i <-> False.
Proof. intros Hw. split; [by intros [? _]|done]. Qed.

Lemma default_blocks i : Exists (fun c => in_block c i) demo_defaults <-> default_lan i.
Proof.
  unfold demo_defaults. rewrite !Exists_cons, Exists_nil. destruct i as [a|a].
  - rewrite (block_at _ _ (127 * 2 ^ 24) (128 * 2 ^ 24)) by done.
    rewrite (block_at _ _ (10 * 2 ^ 24) (11 * 2 ^ 24)) by done.
    rewrite (block_at _ _ ((172 * 256 + 16) * 2 ^ 16) ((172 * 256 + 32) * 2 ^ 16)) by done.
    rewrite (block_at _ _ ((192 * 256 + 168) * 2 ^ 16) ((192 * 256 + 169) * 2 ^ 16)) by done.
    rewrite !block_other by done. cbn [default_lan ip_bits]. tauto.
  - rewrite !(block_other (mkCidr (Net.IpV4 _) _)) by done.
    rewrite (block_at _ _ 1 2) by done.
    rewrite (block_at _ _ (0xfc * 2 ^ 120) (0xfe * 2 ^ 120)) by done.
    cbn [default_lan ip_bits]. generalize (Net.v6_to_bits a). intros x.
    assert (1 <= x < 2 <-> x = 1) as -> by lia. tauto.
Qed.

Lemma defaults_wf : Forall cidr_wf demo_defaults.
Proof. by repeat constructor. Qed.

(** Which addresses count as LAN.  An operator's list admits exactly the
    addresses in a block of one of its entries, of the entry's own family;
    with no list the daemon starts and admits exactly loopback, the three
    RFC 1918 ranges, IPv6 loopback and fc00::/7. *)
Theorem lan_membership_exact :
  (forall ss l i, resolve_lan (Some ss) = Some (Ok l) ->
     lan_contains l i = true <-> exists s c, s ∈ ss /\ cidr_parse s = Ok c /\ in_block c i)
  /\ exists l, resolve_lan None = Some (Ok l) /\ forall i, lan_contains l i = true <-> default_lan i.
Proof.
  split.
  - intros ss l i. cbn. destruct (try_collect cidr_parse ss) as [cs|] eqn:Hcs; [|done]. cbn. intros [= <-].
    rewrite lan_contains_blocks by (cbn; by eapply try_collect_wf). cbn.
    apply try_collect_ok in Hcs. induction Hcs as [|s c ss cs Hc _ IH].
    + rewrite Exists_nil. split; [done|]. intros (s & c & Hs & _). set_solver.
    + rewrite Exists_cons, IH. split.
      * intros [Hb|(s' & c' & Hs & Hp & Hb)]; [exists s, c|exists s', c']; set_solver.
      * intros (s' & c' & [->|Hs]%elem_of_cons & Hp & Hb); [left; congruence|right; by exists s', c'].
  - exists (mkLanCidrs demo_defaults SourceDefault). split; [by vm_compute|]. intros i.
    rewrite lan_contains_blocks by apply defaults_wf. apply default_blocks.
Qed.

End LanCidrsProps.
