(* ===== verification/NetFmt.v ===== *)
(** * Printing addresses ([core::fmt] for [core::net])

    [Display] of integers, IPv4 and IPv6 addresses as the standard library
    writes them, and that the standard parsers of [RustStd] read them back. *)

From S2P Require Import Prelude RustStd.

(** ** Digits of a number, most significant first *)

Fixpoint radix_digits (r : Z) (fuel : nat) (n : Z) : list Z :=
  match fuel with
  | O => []
  | S f => if n <? r then [n] else radix_digits r f (n / r) ++ [n mod r]
  end.

(** [{:x}]. *)
Definition hex_char (d : Z) : ascii := ascii_of_N (Z.to_N (if d <? 10 then 48 + d else 87 + d)).
Definition show_hex (n : Z) : string := Str.of_list (hex_char <$> radix_digits 16 32 n).

Definition horner (r acc : Z) (ds : list Z) : Z := foldl (fun a d => a * r + d) acc ds.

Lemma horner_app r acc a b : horner r acc (a ++ b) = horner r (horner r acc a) b.
Proof. unfold horner. apply foldl_app. Qed.

Lemma radix_digits_facts r f n :
  1 < r -> 0 <= n < r ^ Z.of_nat f -> (0 < f)%nat ->
  horner r 0 (radix_digits r f n) = n /\ Forall (fun d => 0 <= d < r) (radix_digits r f n).
Proof.
  intros Hr. revert n; induction f as [|f IH]; intros n Hn Hf; [lia|]. cbn [radix_digits].
  destruct (n <? r) eqn:Hlt.
  - split; [by cbn|]. repeat constructor; lia.
  - rewrite Nat2Z.inj_succ, Z.pow_succ_r in Hn by lia.
    assert (0 <= n / r < r ^ Z.of_nat f) as Hd by (split; [apply Z.div_pos|apply Z.div_lt_upper_bound]; lia).
    destruct f as [|f]; [change (r ^ Z.of_nat 0) with 1 in *; lia|].
    destruct (IH (n / r) Hd) as [Hh Ha]; [lia|]. rewrite horner_app, Hh. split.
    + cbn. pose proof (Z.div_mod n r). lia.
    + apply Forall_app. split; [done|]. repeat constructor; apply Z.mod_pos_bound; lia.
Qed.

Lemma radix_digits_length r f k n :
  1 < r -> (0 < k)%nat -> 0 <= n < r ^ Z.of_nat k -> (length (radix_digits r f n) <= k)%nat.
Proof.
  intros Hr. revert k n; induction f as [|f IH]; intros k n Hk Hn; cbn; [lia|].
  destruct (n <? r) eqn:Hlt; cbn; [lia|]. rewrite length_app. cbn.
  destruct k as [|[|k]]; [lia| |].
  - change (r ^ Z.of_nat 1) with (r * 1) in Hn. lia.
  - rewrite Nat2Z.inj_succ, Z.pow_succ_r in Hn by lia.
    assert (0 <= n / r < r ^ Z.of_nat (S k)) by (split; [apply Z.div_pos|apply Z.div_lt_upper_bound]; lia).
    specialize (IH (S k) (n / r)). lia.
Qed.

Lemma radix_digits_nonempty r f n : (0 < f)%nat -> radix_digits r f n <> [].
Proof. destruct f; [lia|]. intros _. cbn. case_match; [done|]. by destruct (radix_digits r f (n / r)). Qed.

(** No leading zero, except for zero itself. *)
Lemma radix_digits_head r f n d ds :
  1 < r -> 0 <= n < r ^ Z.of_nat f -> radix_digits r f n = d :: ds -> d = 0 -> ds = [].
Proof.
  intros Hr. revert n d ds; induction f as [|f IH]; intros n d ds Hn; cbn; [done|].
  destruct (n <? r) eqn:Hlt; [by intros [= _ <-]|].
  rewrite Nat2Z.inj_succ, Z.pow_succ_r in Hn by lia.
  assert (0 <= n / r < r ^ Z.of_nat f) as Hd by (split; [apply Z.div_pos|apply Z.div_lt_upper_bound]; lia).
  destruct (radix_digits r f (n / r)) as [|d' ds'] eqn:He.
  - destruct f as [|f]; [change (r ^ Z.of_nat 0) with 1 in *; lia|].
    by apply radix_digits_nonempty in He; [|lia].
  - cbn. intros [= -> <-] Hz. exfalso. pose proof (IH _ _ _ Hd He Hz) as ->. subst d.
    assert (n / r = 0) as Hzero.
    { destruct (radix_digits_facts r f (n / r) Hr Hd) as [Hh _].
      { destruct f; [done|lia]. }
      by rewrite He in Hh. }
    apply Z.ltb_ge in Hlt. assert (1 <= n / r) by (apply Z.div_le_lower_bound; lia). lia.
Qed.

Definition dec_char (d : Z) : ascii := ascii_of_N (Z.to_N (48 + d)).

Lemma digits_aux_radix f n : 0 <= n -> Str.digits_aux f n [] = dec_char <$> radix_digits 10 f n.
Proof.
  revert n; induction f as [|f IH]; intros n Hn; [done|]. cbn.
  destruct (n <? 10) eqn:Hlt; [by rewrite Z.mod_small by lia|].
  rewrite Str.digits_aux_acc, IH, fmap_app by (apply Z.div_pos; lia). done.
Qed.

Lemma small_digit (P : Z -> bool) r : forallb P (seqZ 0 r) = true -> forall d, 0 <= d < r -> P d = true.
Proof.
  intros Hall d Hd. rewrite forallb_forall in Hall. apply Hall, list_elem_of_In, elem_of_seqZ. lia.
Qed.

Lemma to_digit_dec d : 0 <= d < 10 -> Str.to_digit 10 (dec_char d) = Some d.
Proof. apply Str.to_digit_show. Qed.

Lemma to_digit_hex d : 0 <= d < 16 -> Str.to_digit 16 (hex_char d) = Some d.
Proof.
  intros Hd. apply (bool_decide_unpack (Str.to_digit 16 (hex_char d) = Some d)), Is_true_true.
  revert d Hd. apply small_digit. by vm_compute.
Qed.

(** ** Reading digits back *)

Definition no_digit (r : Z) (l : list ascii) : Prop :=
  match l with c :: _ => Str.to_digit r c = None | [] => True end.

Lemma read_digits_back r m ch ds rest : forall acc cnt,
  Forall (fun d => Str.to_digit r (ch d) = Some d) ds -> (cnt + length ds <= m)%nat -> no_digit r rest ->
  Net.read_digits r (Some m) acc cnt ((ch <$> ds) ++ rest) =
    Some (horner r acc ds, (cnt + length ds)%nat, rest).
Proof.
  induction ds as [|d ds IH]; intros acc cnt Hd Hm Hrest; cbn in *.
  - rewrite Nat.add_0_r. destruct rest as [|c rest]; [done|]. cbn in *. by rewrite Hrest.
  - apply Forall_cons_iff in Hd as [Hd Hds]. rewrite Hd.
    rewrite (proj2 (Nat.leb_gt m cnt)) by lia. rewrite IH by (done || lia). cbn. do 3 f_equal. lia.
Qed.

Lemma dec_char_zero d : 0 <= d < 10 -> dec_char d = "0"%char -> d = 0.
Proof. intros Hd Hc. pose proof (to_digit_dec d Hd) as Ht. rewrite Hc in Ht. by injection Ht as <-. Qed.

(** An octet in decimal, three digits at most and no leading zero. *)
Lemma read_octet n rest :
  fits 8 n -> no_digit 10 rest ->
  Net.read_number 8 10 (Some 3%nat) false (Str.to_list (Str.show_uint n) ++ rest) = Some (n, rest).
Proof.
  intros Hn Hrest. unfold Net.read_number, Str.show_uint. rewrite Str.to_of_list, digits_aux_radix by apply Hn.
  assert (0 <= n < 10 ^ Z.of_nat 40) as H40 by (unfold fits in Hn; split; [lia|]; transitivity 256; [lia|done]).
  destruct (radix_digits_facts 10 40 n) as [Hh Hds]; [done|done|lia|].
  pose proof (radix_digits_length 10 40 3 n ltac:(lia) ltac:(lia)) as Hlen.
  change (10 ^ Z.of_nat 3) with 1000 in Hlen. change (2 ^ 8) with 256 in Hn. unfold fits in Hn.
  specialize (Hlen ltac:(lia)). pose proof (radix_digits_nonempty 10 40 n ltac:(lia)) as Hne.
  pose proof (radix_digits_head 10 40 n) as Hhd.
  destruct (radix_digits 10 40 n) as [|d ds]; [done|].
  rewrite read_digits_back; [|eapply Forall_impl; [exact Hds|apply to_digit_dec]|lia|done].
  cbn [mbind option_bind fmap list_fmap app length Nat.add Nat.eqb]. rewrite Hh.
  rewrite (proj2 (Z.ltb_lt n (2 ^ 8))) by lia.
  case_bool_decide as Hz; [|done]. cbn [negb andb].
  rewrite (Hhd d ds ltac:(lia) H40 eq_refl); [done|].
  apply dec_char_zero; [|done]. by apply Forall_cons_iff in Hds as [Hd _].
Qed.

(** A sixteen-bit group in hexadecimal. *)
Lemma read_group g rest :
  fits 16 g -> no_digit 16 rest ->
  Net.read_number 16 16 (Some 4%nat) true (Str.to_list (show_hex g) ++ rest) = Some (g, rest).
Proof.
  intros Hg Hrest. unfold Net.read_number, show_hex. rewrite Str.to_of_list.
  change (fits 16 g) with (0 <= g < 65536) in Hg.
  assert (0 <= g < 16 ^ Z.of_nat 32) as H32 by (split; [lia|]; transitivity 65536; [lia|done]).
  destruct (radix_digits_facts 16 32 g) as [Hh Hds]; [done|done|lia|].
  pose proof (radix_digits_length 16 32 4 g ltac:(lia) ltac:(lia)) as Hlen.
  change (16 ^ Z.of_nat 4) with 65536 in Hlen. specialize (Hlen ltac:(lia)).
  pose proof (radix_digits_nonempty 16 32 g ltac:(lia)) as Hne.
  destruct (radix_digits 16 32 g) as [|d ds]; [done|].
  rewrite read_digits_back; [|eapply Forall_impl; [exact Hds|apply to_digit_hex]|lia|done].
  cbn [mbind option_bind fmap list_fmap app length Nat.add Nat.eqb]. rewrite Hh.
  by rewrite (proj2 (Z.ltb_lt g (2 ^ 16))) by lia.
Qed.

(** ** IPv4 *)

Lemma byte_fits b : fits 8 (byte_to_Z b).
Proof. unfold fits. auto with rust. Qed.

Lemma v4_new_octets a :
  Net.v4_new (byte_to_Z (Net.v4_a a)) (byte_to_Z (Net.v4_b a)) (byte_to_Z (Net.v4_c a)) (byte_to_Z (Net.v4_d a)) = a.
Proof. unfold Net.v4_new. rewrite !byte_of_to_Z. by destruct a. Qed.

Lemma read_show_ipv4 a rest :
  no_digit 10 rest -> Net.read_ipv4_addr (Str.to_list (Net.show_ipv4 a) ++ rest) = Some (a, rest).
Proof.
  intros Hrest. unfold Net.read_ipv4_addr, Net.show_ipv4.
  rewrite !Str.to_list_app, <- !app_assoc. unfold Net.read_separator.
  cbn [Nat.ltb Nat.leb].
  rewrite read_octet by (apply byte_fits || done). cbn [mbind option_bind].
  change (Str.to_list ".") with ["."%char]. cbn [app Net.read_given_char bool_decide decide_rel].
  rewrite bool_decide_true by done. cbn [mbind option_bind].
  rewrite read_octet by (apply byte_fits || done). cbn [mbind option_bind app Net.read_given_char].
  rewrite bool_decide_true by done. cbn [mbind option_bind].
  rewrite read_octet by (apply byte_fits || done). cbn [mbind option_bind app Net.read_given_char].
  rewrite bool_decide_true by done. cbn [mbind option_bind].
  rewrite read_octet by (apply byte_fits || done). cbn [mbind option_bind].
  by rewrite v4_new_octets.
Qed.

Lemma show_uint_length b : (String.length (Str.show_uint (byte_to_Z b)) <= 3)%nat.
Proof. destruct b; vm_compute; lia. Qed.

Lemma parse_show_ipv4 a : Net.parse_ipv4 (Net.show_ipv4 a) = Some a.
Proof.
  unfold Net.parse_ipv4, Net.parse_with.
  pose proof (read_show_ipv4 a [] I) as Hr. rewrite app_nil_r in Hr. rewrite Hr.
  assert (String.length (Net.show_ipv4 a) <= 15)%nat as Hlen.
  { unfold Net.show_ipv4. rewrite <- Str.length_to_list, !Str.to_list_app, !length_app, !Str.length_to_list.
    cbn [String.length].
    pose proof (show_uint_length (Net.v4_a a)). pose proof (show_uint_length (Net.v4_b a)).
    pose proof (show_uint_length (Net.v4_c a)). pose proof (show_uint_length (Net.v4_d a)). lia. }
  by rewrite (proj2 (Nat.ltb_ge _ _)).
Qed.

(** ** IPv6 *)

(** [segments()]. *)
Definition segments (a : Net.Ipv6Addr) : list Z :=
  [Net.v6_q0 a; Net.v6_q1 a; Net.v6_q2 a; Net.v6_q3 a] ≫=
    fun q => [from_be [Net.v4_a q; Net.v4_b q]; from_be [Net.v4_c q; Net.v4_d q]].

(** The scan for the longest run of zero segments; the first of equals. *)
Record Span := mkSpan { sp_start : nat; sp_len : nat }.
Fixpoint zero_span (i : nat) (current longest : Span) (l : list Z) : Span :=
  match l with
  | [] => longest
  | s :: l' =>
      if s =? 0 then
        let current := mkSpan (if (sp_len current =? 0)%nat then i else sp_start current) (S (sp_len current)) in
        zero_span (S i) current (if (sp_len longest <? sp_len current)%nat then current else longest) l'
      else zero_span (S i) (mkSpan 0 0) longest l'
  end.

(** [fmt_subslice]. *)
Fixpoint show_tail (l : list Z) : string :=
  match l with [] => "" | s :: l' => ":" +:+ show_hex s +:+ show_tail l' end.
Definition show_groups (l : list Z) : string :=
  match l with [] => "" | s :: l' => show_hex s +:+ show_tail l' end.

Definition show_ipv6 (a : Net.Ipv6Addr) : string :=
  match Net.to_ipv4_mapped a with
  | Some v4 => "::ffff:" +:+ Net.show_ipv4 v4
  | None =>
      let z := zero_span 0 (mkSpan 0 0) (mkSpan 0 0) (segments a) in
      if (1 <? sp_len z)%nat
      then show_groups (firstn (sp_start z) (segments a)) +:+ "::"
           +:+ show_groups (skipn (sp_start z + sp_len z) (segments a))
      else show_groups (segments a)
  end.

Definition show_ip (i : Net.IpAddr) : string :=
  match i with Net.IpV4 a => Net.show_ipv4 a | Net.IpV6 a => show_ipv6 a end.

(** [Display] of a socket address; a scope id is shown when it is not zero. *)
Definition show_socket_addr (a : Net.SocketAddr) : string :=
  match a with
  | Net.V4 s => Net.show_ipv4 (Net.sv4_ip s) +:+ ":" +:+ Str.show_uint (Net.sv4_port s)
  | Net.V6 s =>
      "[" +:+ show_ipv6 (Net.sv6_ip s)
      +:+ (if Net.sv6_scope_id s =? 0 then "" else "%" +:+ Str.show_uint (Net.sv6_scope_id s))
      +:+ "]:" +:+ Str.show_uint (Net.sv6_port s)
  end.

(** *** The run of zeros *)

Definition span_ok (pre : list Z) (sp : Span) : Prop :=
  (sp_start sp + sp_len sp <= length pre)%nat
  /\ forall j, (sp_start sp <= j < sp_start sp + sp_len sp)%nat -> pre !! j = Some 0.

Lemma span_ok_snoc pre s sp : span_ok pre sp -> span_ok (pre ++ [s]) sp.
Proof.
  intros [Hl Hz]. split; [rewrite length_app; lia|]. intros j Hj.
  rewrite lookup_app_l by lia. by apply Hz.
Qed.

Lemma zero_span_ok l : forall pre current longest,
  span_ok pre longest -> span_ok pre current ->
  (sp_len current = 0 \/ sp_start current + sp_len current = length pre)%nat ->
  span_ok (pre ++ l) (zero_span (length pre) current longest l).
Proof.
  induction l as [|s l IH]; intros pre cur lon Hlon Hcur Hend; cbn; [by rewrite app_nil_r|].
  replace (pre ++ s :: l) with ((pre ++ [s]) ++ l) by (by rewrite <- app_assoc).
  replace (S (length pre)) with (length (pre ++ [s])) by (rewrite length_app; cbn; lia).
  destruct (Z.eqb_spec s 0) as [->|Hs].
  - set (cur' := mkSpan _ (S (sp_len cur))).
    assert (span_ok (pre ++ [0]) cur' /\ (sp_start cur' + sp_len cur')%nat = length (pre ++ [0])) as [Hok Hend'].
    { unfold cur'. cbn [sp_start sp_len]. rewrite length_app. cbn [length].
      destruct (Nat.eqb_spec (sp_len cur) 0) as [H0|H0].
      - rewrite H0. split; [|lia]. split; cbn [sp_start sp_len]; [rewrite length_app; cbn; lia|].
        intros j Hj. replace j with (length pre) by lia. by rewrite lookup_app_r, Nat.sub_diag by lia.
      - destruct Hend as [?|Hend]; [done|]. split; [|lia].
        split; cbn [sp_start sp_len]; [rewrite length_app; cbn; lia|]. intros j Hj.
        destruct (decide (j < length pre)%nat).
        + rewrite lookup_app_l by lia. apply Hcur. lia.
        + replace j with (length pre) by lia. by rewrite lookup_app_r, Nat.sub_diag by lia. }
    apply IH; [case_match; [done|by apply span_ok_snoc]|done|by right].
  - apply IH; [by apply span_ok_snoc| |by left]. split; cbn; [lia|]. intros j Hj. lia.
Qed.

Lemma span_split l sp :
  span_ok l sp ->
  firstn (sp_start sp) l ++ replicate (sp_len sp) 0 ++ skipn (sp_start sp + sp_len sp) l = l.
Proof.
  intros [Hl Hz]. rewrite <- (firstn_skipn (sp_start sp) l) at 3. f_equal.
  rewrite <- (firstn_skipn (sp_len sp) (skipn (sp_start sp) l)), skipn_skipn.
  replace (sp_len sp + sp_start sp)%nat with (sp_start sp + sp_len sp)%nat by lia. f_equal.
  apply list_eq. intros j. destruct (decide (j < sp_len sp)%nat) as [Hj|Hj].
  - rewrite lookup_replicate_2, lookup_take, lookup_drop, decide_True by lia. symmetry. apply Hz. lia.
  - rewrite lookup_take_ge by lia. apply lookup_replicate_None. lia.
Qed.

(** *** Groups *)

Definition no_dot (c : ascii) : Prop := c <> "."%char.

Lemma hex_char_no_dot d : 0 <= d < 16 -> no_dot (hex_char d).
Proof. intros Hd Hc. pose proof (to_digit_hex d Hd) as Ht. by rewrite Hc in Ht. Qed.

(** What may follow a group: nothing, or a colon. *)
Definition colon_next (l : list ascii) : Prop := match l with [] => True | c :: _ => c = ":"%char end.
(** Where a run of groups ends: at the end, or at a double colon. *)
Definition run_end (l : list ascii) : Prop :=
  match l with [] => True | c :: d :: _ => c = ":"%char /\ d = ":"%char | _ => False end.

Lemma run_end_colon l : run_end l -> colon_next l.
Proof. destruct l as [|c [|d l]]; cbn; [done..|]. by intros []. Qed.

Lemma colon_no_digit r l : r <= 16 -> colon_next l -> no_digit r l.
Proof.
  intros Hr. destruct l as [|c l]; [done|]. cbn. intros ->. unfold Str.to_digit. done.
Qed.

Lemma read_digits_rest m rest : forall cs acc cnt r n l',
  Forall no_dot cs -> colon_next rest ->
  Net.read_digits 10 m acc cnt (cs ++ rest) = Some (r, n, l') -> Net.read_given_char "."%char l' = None.
Proof.
  induction cs as [|c cs IH]; intros acc cnt r n l' Hcs Hrest; cbn.
  - destruct rest as [|c rest]; cbn; [by intros [= _ _ <-]|]. cbn in Hrest. subst c. cbn.
    intros [= _ _ <-]. done.
  - apply Forall_cons_iff in Hcs as [Hc Hcs]. destruct (Str.to_digit 10 c) as [d|].
    + destruct m as [m|]; case_match; try done; by apply IH.
    + intros [= _ _ <-]. cbn. rewrite bool_decide_false; [done|]. by intros <-.
Qed.

Lemma show_hex_no_dot g : fits 16 g -> Forall no_dot (Str.to_list (show_hex g)).
Proof.
  intros Hg. unfold show_hex. rewrite Str.to_of_list. apply Forall_fmap.
  change (fits 16 g) with (0 <= g < 65536) in Hg.
  destruct (radix_digits_facts 16 32 g) as [_ Hds]; [done| |lia|].
  { split; [lia|]. transitivity 65536; [lia|done]. }
  eapply Forall_impl; [exact Hds|]. apply hex_char_no_dot.
Qed.

(** A group is not the start of an IPv4 address. *)
Lemma group_not_ipv4 g rest :
  fits 16 g -> colon_next rest -> Net.read_ipv4_addr (Str.to_list (show_hex g) ++ rest) = None.
Proof.
  intros Hg Hrest. unfold Net.read_ipv4_addr, Net.read_separator. cbn [Nat.ltb Nat.leb].
  destruct (Net.read_number 8 10 (Some 3%nat) false _) as [[n l']|] eqn:Hr; [cbn|done].
  unfold Net.read_number in Hr.
  destruct (Net.read_digits 10 (Some 3%nat) 0 0 _) as [[[r c] l'']|] eqn:Hd; [cbn [mbind option_bind] in Hr|done].
  apply read_digits_rest in Hd; [|by apply show_hex_no_dot|done].
  destruct (c =? 0)%nat; [done|]. destruct (_ && _ && _); [done|]. destruct (r <? 2 ^ 8); [|done].
  injection Hr as _ <-. by rewrite Hd.
Qed.

Lemma colon_not_ipv4 l : Net.read_ipv4_addr (":"%char :: l) = None.
Proof. done. Qed.
Lemma nil_not_ipv4 : Net.read_ipv4_addr [] = None.
Proof. done. Qed.

(** [read_groups] at the end of a run. *)
Lemma read_groups_stop todo i rest : run_end rest -> Net.read_groups todo i rest = ([], false, rest).
Proof.
  intros Hr. destruct todo as [|todo]; [done|]. cbn [Net.read_groups].
  destruct rest as [|c [|d l]]; cbn in Hr; [|done|destruct Hr as [-> ->]].
  - destruct i, todo; done.
  - destruct i, todo; done.
Qed.

Lemma read_groups_back gs : forall todo i rest,
  Forall (fits 16) gs -> (length gs <= todo)%nat -> run_end rest ->
  Net.read_groups todo i (Str.to_list (match i with O => show_groups gs | S _ => show_tail gs end) ++ rest)
  = (gs, false, rest).
Proof.
  induction gs as [|g gs IH]; intros todo i rest Hgs Hlen Hrest.
  { destruct i; cbn [show_groups show_tail Str.to_list list_ascii_of_string app]; by apply read_groups_stop. }
  apply Forall_cons_iff in Hgs as [Hg Hgs]. destruct todo as [|todo]; [cbn in Hlen; lia|].
  assert (colon_next (Str.to_list (show_tail gs) ++ rest)) as Hcol.
  { destruct gs as [|g' gs']; [by apply run_end_colon|]. cbn [show_tail]. by rewrite Str.to_list_app. }
  pose proof (IH todo (S i) rest Hgs ltac:(cbn in Hlen; lia) Hrest) as Hrec. cbn [Net.read_groups].
  assert (forall j, Net.read_separator ":"%char i Net.read_ipv4_addr j = None ->
    (if (0 <? todo)%nat then Net.read_separator ":"%char i Net.read_ipv4_addr j else None) = None) as Hemb.
  { intros j Hj. rewrite Hj. by destruct (0 <? todo)%nat. }
  destruct i as [|i].
  - cbn [show_groups]. rewrite Str.to_list_app, <- app_assoc.
    rewrite Hemb by (by apply group_not_ipv4). unfold Net.read_separator. cbn [Nat.ltb Nat.leb].
    rewrite read_group by (done || by apply colon_no_digit). by rewrite Hrec.
  - cbn [show_tail]. rewrite !Str.to_list_app, <- !app_assoc.
    change (Str.to_list ":") with [":"%char]. cbn [app].
    rewrite Hemb by (cbn; by apply group_not_ipv4). unfold Net.read_separator.
    cbn [Nat.ltb Nat.leb Net.read_given_char]. rewrite bool_decide_true by done. cbn [mbind option_bind].
    rewrite read_group by (done || by apply colon_no_digit). by rewrite Hrec.
Qed.

(** *** Whole addresses *)

Lemma segments_length a : length (segments a) = 8%nat.
Proof. done. Qed.

Lemma pair_fits x y : fits 16 (from_be [x; y]).
Proof. apply (from_be_range [x; y]). Qed.

Lemma segments_fit a : Forall (fits 16) (segments a).
Proof. repeat constructor; apply pair_fits. Qed.

Lemma to_be_pair x y : to_be 2 (from_be [x; y]) = [x; y].
Proof. apply (to_from_be [x; y]). Qed.

Lemma v6_of_segments a : Net.v6_of_groups (segments a) = Some a.
Proof.
  unfold Net.v6_of_groups, segments. cbn [mbind list_bind app]. rewrite !to_be_pair. cbn [app].
  by destruct a as [[] [] [] []].
Qed.

Lemma mapped_inv a v4 : Net.to_ipv4_mapped a = Some v4 -> a = Net.to_ipv6_mapped v4.
Proof.
  unfold Net.to_ipv4_mapped. case_bool_decide as Ha; [|done]. intros [= <-].
  destruct a as [q0 q1 q2 q3]. cbn in *. destruct Ha as (-> & -> & ->). done.
Qed.

Lemma read_mapped v4 rest :
  no_digit 10 rest ->
  Net.read_ipv6_addr (Str.to_list ("::ffff:" +:+ Net.show_ipv4 v4) ++ rest) =
    Some (Net.to_ipv6_mapped v4, rest).
Proof.
  intros Hrest. rewrite Str.to_list_app, <- app_assoc. unfold Net.read_ipv6_addr.
  change (Str.to_list "::ffff:") with
    ([":"%char; ":"%char] ++ Str.to_list (show_hex 65535) ++ [":"%char]).
  rewrite <- !app_assoc. cbn [app].
  rewrite read_groups_stop by done. cbn [length Nat.eqb mbind option_bind Net.read_given_char].
  rewrite bool_decide_true by done. cbn [mbind option_bind Net.read_given_char].
  rewrite bool_decide_true by done. cbn [mbind option_bind Nat.sub Nat.add Net.read_groups Nat.ltb Nat.leb].
  unfold Net.read_separator. cbn [Nat.ltb Nat.leb].
  rewrite group_not_ipv4 by done. rewrite read_group by done.
  cbn [Net.read_given_char]. rewrite bool_decide_true by done. cbn [mbind option_bind].
  rewrite read_show_ipv4 by done. cbn [length app Nat.sub replicate].
  unfold Net.v6_of_groups. cbn [mbind list_bind app]. rewrite !to_be_pair.
  destruct v4 as [x y z w]. done.
Qed.

Lemma read_show_ipv6 a :
  Net.read_ipv6_addr (Str.to_list (show_ipv6 a)) = Some (a, []).
Proof.
  unfold show_ipv6. destruct (Net.to_ipv4_mapped a) as [v4|] eqn:Hm.
  { apply mapped_inv in Hm as ->. pose proof (read_mapped v4 [] I) as Hr. by rewrite app_nil_r in Hr. }
  set (z := zero_span _ _ _ _).
  assert (span_ok (segments a) z) as Hz.
  { apply (zero_span_ok (segments a) []); [| |by left]; (split; cbn; [lia|intros j Hj; lia]). }
  unfold Net.read_ipv6_addr. destruct (1 <? sp_len z)%nat eqn:Hlen.
  - apply Nat.ltb_lt in Hlen. pose proof (proj1 Hz) as Hle. rewrite segments_length in Hle.
    pose proof (span_split _ _ Hz) as Hsplit.
    set (hd := firstn (sp_start z) (segments a)) in *.
    set (tl := skipn (sp_start z + sp_len z) (segments a)) in *.
    assert (length hd = sp_start z) as Hhd by (unfold hd; rewrite length_take, segments_length; lia).
    assert (length tl = 8 - (sp_start z + sp_len z))%nat as Htl by (unfold tl; by rewrite length_drop).
    rewrite !Str.to_list_app. change (Str.to_list "::") with [":"%char; ":"%char].
    rewrite (read_groups_back hd 8 0); [|apply Forall_take, segments_fit|lia|done].
    rewrite Hhd, (proj2 (Nat.eqb_neq _ _)) by lia. cbn [app Net.read_given_char].
    rewrite bool_decide_true by done. cbn [mbind option_bind Net.read_given_char].
    rewrite bool_decide_true by done. cbn [mbind option_bind].
    pose proof (read_groups_back tl (8 - (sp_start z + 1)) 0 []) as Hr. rewrite app_nil_r in Hr.
    rewrite Hr; [|apply Forall_drop, segments_fit|lia|done].
    replace (8 - sp_start z - length tl)%nat with (sp_len z) by lia.
    by rewrite Hsplit, v6_of_segments.
  - pose proof (read_groups_back (segments a) 8 0 []) as Hr. rewrite app_nil_r in Hr.
    rewrite Hr; [|apply segments_fit|done|done]. by rewrite segments_length, v6_of_segments.
Qed.

Lemma parse_show_ipv6 a : Net.parse_ipv6 (show_ipv6 a) = Some a.
Proof. unfold Net.parse_ipv6, Net.parse_with. by rewrite read_show_ipv6. Qed.

(** ** The characters of printed addresses and numbers *)

Definition addr_char (c : ascii) : bool := bool_decide (c ∈ Str.to_list "0123456789abcdef:.").
Definition addr_text (s : string) : Prop := Forall (fun c => addr_char c = true) (Str.to_list s).

Lemma addr_text_app a b : addr_text a -> addr_text b -> addr_text (a +:+ b).
Proof. unfold addr_text. rewrite Str.to_list_app. apply Forall_app_2. Qed.

Lemma addr_text_uint n : 0 <= n < 10 ^ 40 -> addr_text (Str.show_uint n).
Proof.
  intros Hn. unfold addr_text, Str.show_uint. rewrite Str.to_of_list, digits_aux_radix by lia.
  destruct (radix_digits_facts 10 40 n) as [_ Hds]; [done|done|lia|].
  apply Forall_fmap. eapply Forall_impl; [exact Hds|]. apply small_digit. by vm_compute.
Qed.

Lemma addr_text_hex g : fits 16 g -> addr_text (show_hex g) /\ (String.length (show_hex g) <= 4)%nat.
Proof.
  change (fits 16 g) with (0 <= g < 65536). intros Hg. unfold addr_text, show_hex.
  rewrite <- Str.length_to_list, Str.to_of_list, length_fmap. split.
  - destruct (radix_digits_facts 16 32 g) as [_ Hds]; [done| |lia|].
    { split; [lia|]. transitivity 65536; [lia|done]. }
    apply Forall_fmap. eapply Forall_impl; [exact Hds|]. apply small_digit. by vm_compute.
  - apply radix_digits_length; [lia|lia|done].
Qed.

Lemma length_app_str a b : String.length (a +:+ b) = (String.length a + String.length b)%nat.
Proof. by rewrite <- !Str.length_to_list, Str.to_list_app, length_app. Qed.

Lemma show_ipv4_text a : addr_text (Net.show_ipv4 a) /\ (String.length (Net.show_ipv4 a) <= 15)%nat.
Proof.
  unfold Net.show_ipv4. rewrite !length_app_str. cbn [String.length]. split.
  - repeat apply addr_text_app;
      first [by repeat constructor
            |apply addr_text_uint; match goal with |- 0 <= byte_to_Z ?b < _ => pose proof (byte_to_Z_range b) end; lia].
  - pose proof (show_uint_length (Net.v4_a a)). pose proof (show_uint_length (Net.v4_b a)).
    pose proof (show_uint_length (Net.v4_c a)). pose proof (show_uint_length (Net.v4_d a)). lia.
Qed.

Lemma show_tail_text l :
  Forall (fits 16) l -> addr_text (show_tail l) /\ (String.length (show_tail l) <= 5 * length l)%nat.
Proof.
  induction 1 as [|g l Hg _ [IHt IHl]]; [by split; [constructor|cbn; lia]|].
  destruct (addr_text_hex g Hg). cbn [show_tail length]. rewrite !length_app_str. cbn [String.length].
  split; [|lia]. repeat apply addr_text_app; [by repeat constructor|done..].
Qed.

Lemma show_groups_text l :
  Forall (fits 16) l -> addr_text (show_groups l) /\ (String.length (show_groups l) <= 5 * length l - 1)%nat.
Proof.
  intros Hl. destruct l as [|g l]; [by split; [constructor|cbn; lia]|].
  apply Forall_cons_iff in Hl as [Hg Hl]. destruct (addr_text_hex g Hg), (show_tail_text l Hl).
  cbn [show_groups length]. rewrite length_app_str. split; [by apply addr_text_app|lia].
Qed.

Lemma segments_fits a : Forall (fits 16) (segments a).
Proof.
  unfold segments. cbn [mbind list_bind app].
  repeat constructor; match goal with |- _ <= from_be ?l => apply (from_be_range l) | |- from_be ?l < _ => apply (from_be_range l) end.
Qed.

Lemma show_ipv6_text a : addr_text (show_ipv6 a) /\ (String.length (show_ipv6 a) <= 39)%nat.
Proof.
  pose proof (segments_fits a) as Hf. unfold show_ipv6. destruct (Net.to_ipv4_mapped a) as [v4|].
  - destruct (show_ipv4_text v4). rewrite length_app_str. cbn [String.length].
    split; [|lia]. apply addr_text_app; [by repeat constructor|done].
  - case_match eqn:Hz.
    2:{ destruct (show_groups_text _ Hf). split; [done|]. by transitivity (5 * 8 - 1)%nat. }
    set (z := zero_span _ _ _ _) in *.
    assert (span_ok (segments a) z) as [Hin _].
    { apply (zero_span_ok (segments a) [] (mkSpan 0 0) (mkSpan 0 0)); [split; cbn; [lia|]; intros; lia..|by left]. }
    apply Nat.ltb_lt in Hz. change (length (segments a)) with 8%nat in Hin.
    destruct (show_groups_text (firstn (sp_start z) (segments a))) as [Ht1 Hl1]; [by apply Forall_take|].
    destruct (show_groups_text (skipn (sp_start z + sp_len z) (segments a))) as [Ht2 Hl2]; [by apply Forall_drop|].
    rewrite length_take in Hl1. rewrite length_drop in Hl2. change (length (segments a)) with 8%nat in *.
    rewrite !length_app_str. cbn [String.length]. split; [|lia].
    repeat apply addr_text_app; [done|by repeat constructor|done].
Qed.

Lemma show_port_text p :
  fits 16 p -> addr_text (Str.show_uint p) /\ (String.length (Str.show_uint p) <= 5)%nat.
Proof.
  change (fits 16 p) with (0 <= p < 65536). intros Hp. split; [apply addr_text_uint; lia|].
  unfold Str.show_uint. rewrite <- Str.length_to_list, Str.to_of_list, digits_aux_radix, length_fmap by lia.
  apply radix_digits_length; [lia|lia|]. change (10 ^ Z.of_nat 5) with 100000. lia.
Qed.
