(* ===== verification/ProxyProtocol.v ===== *)
(** * PROXY protocol ([yggdrasil/src/proxy/proxy_protocol.rs])

    The stream a decoder reads is the list of bytes up to end of file; reading
    past it is [UnexpectedEof]. *)

From S2P Require Import Prelude RustStd External NetFmt RuleTypes Error Rule.

(** ** Encoding *)

Definition CRLF : string := Str.of_bytes [ "013"%byte; "010"%byte ].

Definition v1_line (fam c s : string) (cp sp : Z) : string :=
  "PROXY " +:+ fam +:+ " " +:+ c +:+ " " +:+ s +:+ " " +:+ Str.show_uint cp +:+ " " +:+ Str.show_uint sp +:+ CRLF.

Definition encode_v1 (client server : Net.SocketAddr) : list byte :=
  Str.to_bytes
    match Net.ip client, Net.ip server with
    | Net.IpV4 c, Net.IpV4 srv =>
        v1_line "TCP4" (Net.show_ipv4 c) (Net.show_ipv4 srv) (Net.port client) (Net.port server)
    | Net.IpV6 c, Net.IpV6 srv =>
        v1_line "TCP6" (show_ipv6 c) (show_ipv6 srv) (Net.port client) (Net.port server)
    | _, _ => "PROXY UNKNOWN" +:+ CRLF
    end.

Definition V2_SIG : list byte :=
  byte_of_Z <$> [0x0D; 0x0A; 0x0D; 0x0A; 0x00; 0x0D; 0x0A; 0x51; 0x55; 0x49; 0x54; 0x0A].

Definition encode_v2 (client server : Net.SocketAddr) : list byte :=
  match Net.ip client, Net.ip server with
  | Net.IpV4 c, Net.IpV4 s =>
      V2_SIG ++ [byte_of_Z 0x21; byte_of_Z 0x11] ++ to_be 2 (4 + 4 + 2 + 2)
      ++ Net.v4_octets c ++ Net.v4_octets s ++ to_be 2 (Net.port client) ++ to_be 2 (Net.port server)
  | Net.IpV6 c, Net.IpV6 s =>
      V2_SIG ++ [byte_of_Z 0x21; byte_of_Z 0x21] ++ to_be 2 (16 + 16 + 2 + 2)
      ++ Net.v6_octets c ++ Net.v6_octets s ++ to_be 2 (Net.port client) ++ to_be 2 (Net.port server)
  | _, _ => V2_SIG ++ [byte_of_Z 0x20; byte_of_Z 0x00] ++ to_be 2 0
  end.

Definition encode_header (version : ProxyProto) (client server : Net.SocketAddr) : list byte :=
  match version with
  | ProxyV1 => encode_v1 client server
  | ProxyV2 => encode_v2 client server
  end.

(** ** Decoding *)

Definition V1_MAX_LINE : Z := 107.
Definition V2_MAX_ADDR : Z := 536.

Inductive IoError := UnexpectedEof | InvalidData (msg : string).

Record ProxyEndpoints := mkEndpoints { ep_client : Net.SocketAddr; ep_server : Net.SocketAddr }.
Record ProxyDecode := mkDecode { endpoints : option ProxyEndpoints; leftover : list byte }.

(** [read_exact] into a buffer of [n] bytes. *)
Definition read_exact (n : nat) (input : list byte) : result IoError (list byte * list byte) :=
  if (n <=? length input)%nat then Ok (firstn n input, skipn n input) else Err UnexpectedEof.

(** The byte-by-byte loop up to CRLF. *)
Fixpoint read_line (input line : list byte) (saw_cr : bool) : result IoError (list byte * list byte) :=
  match input with
  | [] => Err UnexpectedEof
  | b :: input' =>
      let line := line ++ [b] in
      if (byte_to_Z b =? 10) && saw_cr then Ok (line, input')
      else if V1_MAX_LINE <? zlen line then Err (InvalidData "PROXY v1 header exceeds 107 bytes")
      else read_line input' line (byte_to_Z b =? 13)
  end.

(** The closures [parse_v4] and [parse_v6]. *)
Definition parse_v4 (a p : string) : result IoError Net.SocketAddr :=
  i ← ok_or (InvalidData "v1 bad ipv4") (Net.parse_ipv4 a);
  n ← ok_or (InvalidData "v1 bad port") (Str.parse_uint 16 p);
  Ok (Net.SocketAddr_new (Net.IpV4 i) n).
Definition parse_v6 (a p : string) : result IoError Net.SocketAddr :=
  i ← ok_or (InvalidData "v1 bad ipv6") (Net.parse_ipv6 a);
  n ← ok_or (InvalidData "v1 bad port") (Str.parse_uint 16 p);
  Ok (Net.SocketAddr_new (Net.IpV6 i) n).

(** What follows [PROXY ] on the line. *)
Definition parse_v1_rest (rest : string) : result IoError ProxyEndpoints :=
  let parts := Str.split " "%char rest in
  fam ← ok_or (InvalidData "v1 missing family") (parts !! 0%nat);
  cli ← ok_or (InvalidData "v1 missing client") (parts !! 1%nat);
  srv ← ok_or (InvalidData "v1 missing server") (parts !! 2%nat);
  cp ← ok_or (InvalidData "v1 missing cport") (parts !! 3%nat);
  sp ← ok_or (InvalidData "v1 missing sport") (parts !! 4%nat);
  if bool_decide (fam = "TCP4") then
    c ← parse_v4 cli cp; s ← parse_v4 srv sp; Ok (mkEndpoints c s)
  else if bool_decide (fam = "TCP6") then
    c ← parse_v6 cli cp; s ← parse_v6 srv sp; Ok (mkEndpoints c s)
  else Err (InvalidData "v1 unknown family").

Definition decode_v1 (first : byte) (input : list byte) : result IoError (ProxyDecode * list byte) :=
  '(tail, input) ← read_exact 5 input;
  if negb (bool_decide (tail = Str.to_bytes "ROXY ")) then Ok (mkDecode None (first :: tail), input)
  else
    '(line, input) ← read_line input (Str.to_bytes "PROXY ") false;
    body ← ok_or (InvalidData "PROXY v1 not UTF-8") (Utf8.from_utf8 (firstn (length line - 2) line));
    rest ← ok_or (InvalidData "PROXY v1 prefix") (Str.strip_prefix body "PROXY ");
    if Str.starts_with rest "UNKNOWN" then Ok (mkDecode None [], input)
    else e ← parse_v1_rest rest; Ok (mkDecode (Some e) [], input).

(** The two address blocks; the caller has checked the length. *)
Definition block_v4 (p : list byte) : option ProxyEndpoints :=
  c ← Net.v4_of_octets (slice p 0 4); s ← Net.v4_of_octets (slice p 4 8);
  Some (mkEndpoints (Net.SocketAddr_new (Net.IpV4 c) (from_be (slice p 8 10)))
          (Net.SocketAddr_new (Net.IpV4 s) (from_be (slice p 10 12)))).
Definition block_v6 (p : list byte) : option ProxyEndpoints :=
  c ← Net.v6_of_octets (slice p 0 16); s ← Net.v6_of_octets (slice p 16 32);
  Some (mkEndpoints (Net.SocketAddr_new (Net.IpV6 c) (from_be (slice p 32 34)))
          (Net.SocketAddr_new (Net.IpV6 s) (from_be (slice p 34 36)))).

Definition decode_v2 (first : byte) (input : list byte) : result IoError (ProxyDecode * list byte) :=
  '(rest_sig, input) ← read_exact 11 input;
  let full_sig := first :: rest_sig in
  if negb (bool_decide (full_sig = V2_SIG)) then Ok (mkDecode None full_sig, input)
  else
    '(hdr, input) ← read_exact 4 input;
    let ver_cmd := byte_at hdr 0 in
    let fam_proto := byte_at hdr 1 in
    let addr_len := from_be (slice hdr 2 4) in
    if negb (Z.land ver_cmd 0xF0 =? 0x20) then Err (InvalidData "v2 wrong version")
    else if V2_MAX_ADDR <? addr_len then Err (InvalidData "v2 addr_len too large")
    else
      '(payload, input) ← read_exact (Z.to_nat addr_len) input;
      if Z.land ver_cmd 0x0F =? 0 then Ok (mkDecode None [], input)
      else if fam_proto =? 0x11 then
        if zlen payload <? 12 then Err (InvalidData "v2 TCP4 short payload")
        else Ok (mkDecode (block_v4 payload) [], input)
      else if fam_proto =? 0x21 then
        if zlen payload <? 36 then Err (InvalidData "v2 TCP6 short payload")
        else Ok (mkDecode (block_v6 payload) [], input)
      else Ok (mkDecode None [], input).

Definition read_optional_header (input : list byte) : result IoError (ProxyDecode * list byte) :=
  match input with
  | [] => Ok (mkDecode None [], [])
  | first :: input =>
      if byte_to_Z first =? 80 then decode_v1 first input
      else if byte_to_Z first =? 0x0D then decode_v2 first input
      else Ok (mkDecode None [first], input)
  end.

Definition decode_v2_from_datagram (buf : list byte) : option ProxyEndpoints :=
  if (zlen buf <? 16) || negb (bool_decide (firstn 12 buf = V2_SIG)) then None
  else
    let ver_cmd := byte_at buf 12 in
    let fam_proto := byte_at buf 13 in
    let addr_len := from_be (slice buf 14 16) in
    if negb (Z.land ver_cmd 0xF0 =? 0x20) then None
    else if V2_MAX_ADDR <? addr_len then None
    else if zlen buf <? 16 + addr_len then None
    else if Z.land ver_cmd 0x0F =? 0 then None
    else
      let payload := slice buf 16 (16 + Z.to_nat addr_len) in
      if (fam_proto =? 0x11) && (12 <=? zlen payload) then block_v4 payload
      else if (fam_proto =? 0x21) && (36 <=? zlen payload) then block_v6 payload
      else None.

(** What a header can carry: the endpoints when both are of one family. *)
Definition carried (client server : Net.SocketAddr) : option ProxyEndpoints :=
  let e := mkEndpoints (Net.SocketAddr_new (Net.ip client) (Net.port client))
             (Net.SocketAddr_new (Net.ip server) (Net.port server)) in
  match Net.ip client, Net.ip server with
  | Net.IpV4 _, Net.IpV4 _ | Net.IpV6 _, Net.IpV6 _ => Some e
  | _, _ => None
  end.

(** The address without flow info and scope, which a header does not carry. *)
Definition plain (a : Net.SocketAddr) : Net.SocketAddr := Net.SocketAddr_new (Net.ip a) (Net.port a).

(** ** Lemmas *)

Lemma plain_plain a : plain (plain a) = plain a.
Proof. by destruct a. Qed.

Lemma carried_client client server : same_family (Net.ip client) (Net.ip server) = true ->
  exists e, carried client server = Some e /\ ep_client e = plain client.
Proof. intros Hf. unfold carried. destruct (Net.ip client) eqn:Hi, (Net.ip server); try done; eexists; (split; [done|]); cbn; unfold plain; by rewrite Hi. Qed.

Module ProxyProtocolProps.

(** *** Text as bytes *)

Lemma to_bytes_app a b : Str.to_bytes (a +:+ b) = Str.to_bytes a ++ Str.to_bytes b.
Proof.
  change (map byte_of_ascii (Str.to_list (a +:+ b)) =
          map byte_of_ascii (Str.to_list a) ++ map byte_of_ascii (Str.to_list b)).
  by rewrite Str.to_list_app, map_app.
Qed.

Lemma append_assoc (a b c : string) : (a +:+ b) +:+ c = a +:+ b +:+ c.
Proof. induction a as [|x a IH]; [done|]. exact (f_equal (String x) IH). Qed.

Lemma length_to_bytes s : length (Str.to_bytes s) = String.length s.
Proof. unfold Str.to_bytes, list_byte_of_string. by rewrite length_map, <- Str.length_to_list. Qed.

(** A character of the text of a line: ASCII, and not CR. *)
Definition line_byte (b : byte) : Prop := byte_to_Z b < 128 /\ byte_to_Z b <> 13.
Definition line_text (s : string) : Prop := Forall line_byte (Str.to_bytes s).

Lemma line_text_app a b : line_text a -> line_text b -> line_text (a +:+ b).
Proof. unfold line_text. rewrite to_bytes_app. apply Forall_app_2. Qed.

Lemma addr_line_text s : addr_text s -> line_text s.
Proof.
  intros Hs. unfold line_text, Str.to_bytes, list_byte_of_string. apply Forall_map.
  eapply Forall_impl; [exact Hs|]. intros c Hc%bool_decide_eq_true.
  apply (Forall_forall (fun c => line_byte (byte_of_ascii c)) (Str.to_list "0123456789abcdef:.")); [|done].
  repeat constructor; by vm_compute.
Qed.

Lemma addr_no_space s : addr_text s -> " "%char ∉ Str.to_list s.
Proof. intros Hs Hin. unfold addr_text in Hs. rewrite Forall_forall in Hs. by specialize (Hs _ Hin). Qed.

Lemma split_list_app sep a l :
  sep ∉ a -> Str.split_list sep (a ++ sep :: l) = a :: Str.split_list sep l.
Proof.
  induction a as [|c a IH]; intros Ha; cbn; [by rewrite bool_decide_true|].
  rewrite bool_decide_false by set_solver. by rewrite IH by set_solver.
Qed.

Lemma split_list_last sep a : sep ∉ a -> Str.split_list sep a = [a].
Proof.
  induction a as [|c a IH]; intros Ha; cbn; [done|].
  rewrite bool_decide_false by set_solver. by rewrite IH by set_solver.
Qed.

Lemma split_word a s :
  " "%char ∉ Str.to_list a -> Str.split " "%char (a +:+ " " +:+ s) = a :: Str.split " "%char s.
Proof.
  intros Ha. unfold Str.split. rewrite !Str.to_list_app. change (Str.to_list " ") with [" "%char].
  cbn [app]. rewrite split_list_app by done. cbn. by rewrite Str.of_to_list.
Qed.

Lemma split_last a : " "%char ∉ Str.to_list a -> Str.split " "%char a = [a].
Proof. intros Ha. unfold Str.split. rewrite split_list_last by done. cbn. by rewrite Str.of_to_list. Qed.

(** *** Version 1 *)

Lemma read_line_text text rest : forall line,
  Forall line_byte text -> zlen line + zlen text + 2 <= V1_MAX_LINE ->
  read_line (text ++ Str.to_bytes CRLF ++ rest) line false = Ok (line ++ text ++ Str.to_bytes CRLF, rest).
Proof.
  induction text as [|b text IH]; intros line Ht Hlen.
  - change (Str.to_bytes CRLF) with ["013"%byte; "010"%byte]. cbn [app read_line].
    rewrite (proj2 (Z.ltb_ge V1_MAX_LINE (zlen (line ++ ["013"%byte])))).
    2:{ rewrite zlen_app. unfold zlen in *. cbn in *. lia. }
    change ((byte_to_Z "013" =? 10) && false) with false.
    change ((byte_to_Z "010" =? 10) && (byte_to_Z "013" =? 13)) with true.
    cbn [andb]. by rewrite <- app_assoc.
  - apply Forall_cons_iff in Ht as [[_ Hb] Ht]. cbn [app read_line]. rewrite andb_false_r.
    rewrite zlen_app in *. rewrite zlen_cons in Hlen.
    assert (zlen [b] = 1) as Hb1 by done. pose proof (zlen_nonneg text).
    rewrite (proj2 (Z.ltb_ge _ _)) by lia. rewrite (proj2 (Z.eqb_neq _ 13)) by done.
    rewrite IH; [by rewrite <- app_assoc|done|]. rewrite zlen_app. lia.
Qed.

(** A line of text: the magic, the text, CRLF. *)
Lemma decode_v1_line text rest :
  line_text text -> (String.length text <= 99)%nat ->
  read_optional_header (Str.to_bytes ("PROXY " +:+ text +:+ CRLF) ++ rest) =
    if Str.starts_with text "UNKNOWN" then Ok (mkDecode None [], rest)
    else e ← parse_v1_rest text; Ok (mkDecode (Some e) [], rest).
Proof.
  intros Ht Hlen. rewrite !to_bytes_app, <- !app_assoc.
  change (Str.to_bytes "PROXY ") with ("P"%byte :: Str.to_bytes "ROXY "). cbn [app].
  change (read_optional_header ("P"%byte :: ?l)) with (decode_v1 "P" l). unfold decode_v1.
  unfold read_exact. rewrite length_app, length_to_bytes. cbn [String.length Nat.leb Nat.add].
  change 5%nat with (length (Str.to_bytes "ROXY ")) at 1 2. rewrite take_app_length, drop_app_length.
  cbn [mbind result_bind]. rewrite bool_decide_true by done. cbn [negb].
  rewrite read_line_text; [|done|].
  2:{ unfold zlen. rewrite !length_to_bytes. cbn [String.length]. unfold V1_MAX_LINE. lia. }
  cbn [mbind result_bind]. rewrite app_assoc, length_app. change (length (Str.to_bytes CRLF)) with 2%nat.
  rewrite Nat.add_sub, take_app_length, <- to_bytes_app. unfold Utf8.from_utf8.
  rewrite Utf8.valid_ascii.
  2:{ rewrite to_bytes_app. apply Forall_app. split; [repeat constructor; by vm_compute|].
      eapply Forall_impl; [exact Ht|]. by intros b []. }
  rewrite Str.of_to_bytes. cbn [ok_or mbind result_bind]. unfold Str.strip_prefix.
  rewrite (eq_refl : Str.starts_with ("PROXY " +:+ text) "PROXY " = true). cbn [ok_or mbind result_bind].
  rewrite (eq_refl : skipn (String.length "PROXY ") (Str.to_list ("PROXY " +:+ text)) = Str.to_list text).
  by rewrite Str.of_to_list.
Qed.

Lemma decode_v1_words fam c s cp sp rest :
  fam = "TCP4" \/ fam = "TCP6" -> addr_text c -> addr_text s ->
  (String.length c <= 39)%nat -> (String.length s <= 39)%nat -> fits 16 cp -> fits 16 sp ->
  read_optional_header (Str.to_bytes (v1_line fam c s cp sp) ++ rest) =
    e ← (if bool_decide (fam = "TCP4") then
           a ← parse_v4 c (Str.show_uint cp); b ← parse_v4 s (Str.show_uint sp); Ok (mkEndpoints a b)
         else
           a ← parse_v6 c (Str.show_uint cp); b ← parse_v6 s (Str.show_uint sp); Ok (mkEndpoints a b));
    Ok (mkDecode (Some e) [], rest).
Proof.
  intros Hfam Hc Hs Hlc Hls [Hcp Hlcp]%show_port_text [Hsp Hlsp]%show_port_text. unfold v1_line.
  assert (line_text fam /\ " "%char ∉ Str.to_list fam /\ String.length fam = 4%nat) as (Hf & Hfs & Hfl).
  { destruct Hfam as [-> | ->]; (split; [repeat constructor; by vm_compute|split; [set_solver|done]]). }
  set (text := fam +:+ " " +:+ c +:+ " " +:+ s +:+ " " +:+ Str.show_uint cp +:+ " " +:+ Str.show_uint sp).
  rewrite (ltac:(unfold text; by rewrite !append_assoc) :
    fam +:+ " " +:+ c +:+ " " +:+ s +:+ " " +:+ Str.show_uint cp +:+ " " +:+ Str.show_uint sp +:+ CRLF
    = text +:+ CRLF).
  assert (line_text " ") as Hsep by (repeat constructor; by vm_compute).
  rewrite decode_v1_line.
  - assert (Str.starts_with text "UNKNOWN" = false) as -> by (destruct Hfam as [-> | ->]; done).
    unfold parse_v1_rest, text.
    rewrite !split_word by (done || by apply addr_no_space). rewrite split_last by by apply addr_no_space.
    cbn. by destruct Hfam as [-> | ->].
  - unfold text. repeat apply line_text_app; done || by apply addr_line_text.
  - unfold text. rewrite !length_app_str. cbn [String.length]. lia.
Qed.

(** *** Version 2 *)

Lemma port_bytes p : fits 16 p -> exists x y, to_be 2 p = [x; y] /\ from_be [x; y] = p.
Proof.
  intros Hp. pose proof (length_to_be 2 p) as Hl. pose proof (from_to_be 2 p Hp) as Hf.
  destruct (to_be 2 p) as [|x [|y [|]]]; try done. by exists x, y.
Qed.

Lemma read_exact_app a b : read_exact (length a) (a ++ b) = Ok (a, b).
Proof.
  unfold read_exact. rewrite length_app, (proj2 (Nat.leb_le _ _)) by lia.
  by rewrite take_app_length, drop_app_length.
Qed.

(** The stream decoder on a PROXY command with a payload of the announced length. *)
Lemma decode_v2_proxy fam payload rest :
  zlen payload <= V2_MAX_ADDR ->
  read_optional_header (V2_SIG ++ [byte_of_Z 0x21; fam] ++ to_be 2 (zlen payload) ++ payload ++ rest) =
    if byte_to_Z fam =? 0x11 then
      if zlen payload <? 12 then Err (InvalidData "v2 TCP4 short payload")
      else Ok (mkDecode (block_v4 payload) [], rest)
    else if byte_to_Z fam =? 0x21 then
      if zlen payload <? 36 then Err (InvalidData "v2 TCP6 short payload")
      else Ok (mkDecode (block_v6 payload) [], rest)
    else Ok (mkDecode None [], rest).
Proof.
  intros Hlen. pose proof (zlen_nonneg payload) as H0. unfold V2_MAX_ADDR in Hlen.
  destruct (port_bytes (zlen payload)) as (x & y & Hxy & Hfrom).
  { change (fits 16 (zlen payload)) with (0 <= zlen payload < 65536). lia. }
  rewrite Hxy. change (V2_SIG ++ ?l) with ("013"%byte :: skipn 1 V2_SIG ++ l).
  change (read_optional_header ("013"%byte :: ?l)) with (decode_v2 "013" l). unfold decode_v2.
  rewrite (read_exact_app (skipn 1 V2_SIG)). cbn [mbind result_bind].
  rewrite bool_decide_true by done. cbn [negb].
  rewrite (read_exact_app [byte_of_Z 33; fam; x; y] (payload ++ rest) : read_exact 4 ([byte_of_Z 33; fam] ++ [x; y] ++ payload ++ rest) = _).
  cbn [mbind result_bind]. change (slice [byte_of_Z 33; fam; x; y] 2 4) with [x; y]. rewrite Hfrom.
  change (byte_at [byte_of_Z 33; fam; x; y] 0) with 33. change (byte_at [byte_of_Z 33; fam; x; y] 1) with (byte_to_Z fam).
  change (negb (Z.land 33 240 =? 32)) with false. change (Z.land 33 15 =? 0) with false. cbn [negb].
  rewrite (proj2 (Z.ltb_ge V2_MAX_ADDR _)) by (unfold V2_MAX_ADDR; lia).
  assert (Z.to_nat (zlen payload) = length payload) as -> by apply Nat2Z.id.
  by rewrite read_exact_app.
Qed.

(** The datagram decoder on the same bytes. *)
Lemma datagram_v2_proxy fam payload rest :
  zlen payload <= V2_MAX_ADDR ->
  decode_v2_from_datagram (V2_SIG ++ [byte_of_Z 0x21; fam] ++ to_be 2 (zlen payload) ++ payload ++ rest) =
    if (byte_to_Z fam =? 0x11) && (12 <=? zlen payload) then block_v4 payload
    else if (byte_to_Z fam =? 0x21) && (36 <=? zlen payload) then block_v6 payload
    else None.
Proof.
  intros Hlen. pose proof (zlen_nonneg payload) as H0. pose proof (zlen_nonneg rest) as H1. unfold V2_MAX_ADDR in Hlen.
  destruct (port_bytes (zlen payload)) as (x & y & Hxy & Hfrom).
  { change (fits 16 (zlen payload)) with (0 <= zlen payload < 65536). lia. }
  rewrite Hxy. set (buf := V2_SIG ++ _).
  assert (zlen buf = 16 + zlen payload + zlen rest) as Hbuf.
  { unfold buf. rewrite !zlen_app. change (zlen V2_SIG) with 12. change (zlen [_; _]) with 2. lia. }
  unfold decode_v2_from_datagram. rewrite Hbuf, (proj2 (Z.ltb_ge _ 16)) by lia.
  rewrite bool_decide_true by done. cbn [negb orb].
  change (slice buf 14 16) with [x; y]. rewrite Hfrom.
  change (byte_at buf 12) with 33. change (byte_at buf 13) with (byte_to_Z fam).
  change (negb (Z.land 33 240 =? 32)) with false. change (Z.land 33 15 =? 0) with false.
  rewrite (proj2 (Z.ltb_ge V2_MAX_ADDR _)) by (unfold V2_MAX_ADDR; lia).
  rewrite (proj2 (Z.ltb_ge _ (16 + _))) by lia.
  assert (slice buf 16 (16 + Z.to_nat (zlen payload)) = payload) as ->; [|done].
  unfold slice. rewrite Nat.add_comm, Nat.add_sub. change (skipn 16 buf) with (payload ++ rest).
  unfold zlen. by rewrite Nat2Z.id, take_app_length.
Qed.

Lemma block_v4_back c s cp sp :
  fits 16 cp -> fits 16 sp ->
  block_v4 (Net.v4_octets c ++ Net.v4_octets s ++ to_be 2 cp ++ to_be 2 sp) =
    Some (mkEndpoints (Net.SocketAddr_new (Net.IpV4 c) cp) (Net.SocketAddr_new (Net.IpV4 s) sp)).
Proof.
  intros (x & y & -> & Hcp)%port_bytes (x' & y' & -> & Hsp)%port_bytes.
  unfold block_v4. change (slice _ 0 4) with (Net.v4_octets c).
  change (slice _ 4 8) with (Net.v4_octets s). change (slice _ 8 10) with [x; y].
  change (slice _ 10 12) with [x'; y']. rewrite !Net.v4_of_octets_octets. cbn [mbind option_bind].
  by rewrite Hcp, Hsp.
Qed.

Lemma block_v6_back c s cp sp :
  fits 16 cp -> fits 16 sp ->
  block_v6 (Net.v6_octets c ++ Net.v6_octets s ++ to_be 2 cp ++ to_be 2 sp) =
    Some (mkEndpoints (Net.SocketAddr_new (Net.IpV6 c) cp) (Net.SocketAddr_new (Net.IpV6 s) sp)).
Proof.
  intros (x & y & -> & Hcp)%port_bytes (x' & y' & -> & Hsp)%port_bytes.
  unfold block_v6. change (slice _ 0 16) with (Net.v6_octets c).
  change (slice _ 16 32) with (Net.v6_octets s). change (slice _ 32 34) with [x; y].
  change (slice _ 34 36) with [x'; y']. rewrite !Net.v6_of_octets_octets. cbn [mbind option_bind].
  by rewrite Hcp, Hsp.
Qed.

(** *** Round trips *)

Lemma v1_roundtrip client server rest :
  fits 16 (Net.port client) -> fits 16 (Net.port server) ->
  read_optional_header (encode_v1 client server ++ rest) = Ok (mkDecode (carried client server) [], rest).
Proof.
  intros Hc Hs. unfold encode_v1, carried.
  destruct (Net.ip client) as [c|c], (Net.ip server) as [s|s].
  - destruct (show_ipv4_text c), (show_ipv4_text s). rewrite decode_v1_words by (auto || lia).
    unfold parse_v4. rewrite !parse_show_ipv4, !Str.parse_show_uint by (done || lia). done.
  - by rewrite (decode_v1_line "UNKNOWN") by (repeat constructor; by vm_compute).
  - by rewrite (decode_v1_line "UNKNOWN") by (repeat constructor; by vm_compute).
  - destruct (show_ipv6_text c), (show_ipv6_text s). rewrite decode_v1_words by (auto || lia).
    unfold parse_v6. rewrite !parse_show_ipv6, !Str.parse_show_uint by (done || lia). done.
Qed.

Lemma v2_local rest :
  let hdr := V2_SIG ++ [byte_of_Z 0x20; byte_of_Z 0x00] ++ to_be 2 0 in
  read_optional_header (hdr ++ rest) = Ok (mkDecode None [], rest) /\ decode_v2_from_datagram (hdr ++ rest) = None.
Proof.
  intros hdr. split; [done|]. unfold decode_v2_from_datagram.
  destruct (zlen (hdr ++ rest) <? 16); [done|]. by destruct (zlen (hdr ++ rest) <? _).
Qed.

Lemma v2_roundtrip client server rest :
  fits 16 (Net.port client) -> fits 16 (Net.port server) ->
  read_optional_header (encode_v2 client server ++ rest) = Ok (mkDecode (carried client server) [], rest)
  /\ decode_v2_from_datagram (encode_v2 client server ++ rest) = carried client server.
Proof.
  intros Hc Hs. unfold encode_v2, carried.
  destruct (Net.ip client) as [c|c], (Net.ip server) as [s|s]; [|apply v2_local..|].
  - pose proof (block_v4_back c s _ _ Hc Hs) as Hb.
    set (payload := Net.v4_octets c ++ _) in *. rewrite <- !app_assoc.
    assert (zlen payload = 12) as Hl by done. rewrite <- Hl at 1 2.
    rewrite decode_v2_proxy, datagram_v2_proxy by (rewrite Hl; done). rewrite Hl, Hb. done.
  - pose proof (block_v6_back c s _ _ Hc Hs) as Hb.
    set (payload := Net.v6_octets c ++ _) in *. rewrite <- !app_assoc.
    assert (zlen payload = 36) as Hl by done. rewrite <- Hl at 1 2.
    rewrite decode_v2_proxy, datagram_v2_proxy by (rewrite Hl; done). rewrite Hl, Hb. done.
Qed.

(** *** What a reader consumes *)

Lemma read_exact_Ok n input a rest : read_exact n input = Ok (a, rest) -> input = a ++ rest /\ length a = n.
Proof.
  unfold read_exact. destruct (Nat.leb_spec n (length input)); [|done]. intros [= <- <-].
  by rewrite firstn_skipn, length_take, Nat.min_l.
Qed.

Lemma read_line_Ok input : forall line cr l rest,
  read_line input line cr = Ok (l, rest) -> exists t, l = line ++ t /\ input = t ++ rest.
Proof.
  induction input as [|b input IH]; intros line cr l rest; cbn; [done|].
  case_match; [intros [= <- <-]; by exists [b]|]. case_match; [done|].
  intros (t & -> & ->)%IH. exists (b :: t). by rewrite <- app_assoc.
Qed.

(** The bytes of a recognised header. *)
Definition header_bytes (hdr : list byte) : Prop :=
  Str.to_bytes "PROXY " `prefix_of` hdr \/ V2_SIG `prefix_of` hdr.

(** Either everything read is handed back, or a header was consumed. *)
Definition accounted (input : list byte) (d : ProxyDecode) (rest : list byte) : Prop :=
  leftover d ++ rest = input /\ endpoints d = None
  \/ leftover d = [] /\ exists hdr, input = hdr ++ rest /\ header_bytes hdr.

Lemma decode_v1_accounted input d rest :
  decode_v1 "P" input = Ok (d, rest) -> accounted ("P"%byte :: input) d rest.
Proof.
  unfold decode_v1. destruct (read_exact 5 input) as [[tail input']|] eqn:Hr; [cbn|done].
  apply read_exact_Ok in Hr as [-> _]. case_bool_decide as Ht; cbn.
  - subst tail. destruct (read_line _ _ _) as [[line input]|] eqn:Hl; [cbn|done].
    apply read_line_Ok in Hl as (t & _ & ->). intros Hd. right.
    assert (leftover d = [] /\ input = rest) as [Hlo ->].
    { destruct (Utf8.from_utf8 _); [cbn in Hd|done]. destruct (Str.strip_prefix _ _); [cbn in Hd|done].
      case_match; [by injection Hd as <- <-|]. destruct (parse_v1_rest _); [|done]. by injection Hd as <- <-. }
    split; [done|]. exists (Str.to_bytes "PROXY " ++ t). split; [done|]. left. by exists t.
  - intros [= <- <-]. by left.
Qed.

Lemma decode_v2_accounted input d rest :
  decode_v2 "013" input = Ok (d, rest) -> accounted ("013"%byte :: input) d rest.
Proof.
  unfold decode_v2. destruct (read_exact 11 input) as [[sg input']|] eqn:Hr; [cbn [mbind result_bind]|done].
  apply read_exact_Ok in Hr as [-> _]. case_bool_decide as Ht; cbn [negb]; [|intros [= <- <-]; by left].
  destruct (read_exact 4 input') as [[hdr input]|] eqn:Hh; [cbn [mbind result_bind]|done].
  apply read_exact_Ok in Hh as [-> _].
  case_match; [done|]. case_match; [done|].
  destruct (read_exact _ input) as [[payload input']|] eqn:Hp; [cbn [mbind result_bind]|done].
  apply read_exact_Ok in Hp as [-> _]. intros Hd. right.
  assert (leftover d = [] /\ input' = rest) as [Hlo ->] by (repeat case_match; by simplify_eq).
  split; [done|]. exists (V2_SIG ++ hdr ++ payload). rewrite <- Ht, <- !app_assoc. split; [done|]. right.
  rewrite <- Ht. by exists (hdr ++ payload).
Qed.

End ProxyProtocolProps.

(** ** Properties *)

Import ProxyProtocolProps.

(** C40: a header written by [encode_header], in either version and in front of
    any stream, is read back by [read_optional_header] as exactly the two
    endpoints when they are of one family and as a header without endpoints
    otherwise, and the stream continues right behind it; the datagram decoder
    of the HTTP/3 interpose socket reads the same endpoints from version 2. *)
Theorem proxy_header_roundtrip v client server rest :
  fits 16 (Net.port client) -> fits 16 (Net.port server) ->
  read_optional_header (encode_header v client server ++ rest) = Ok (mkDecode (carried client server) [], rest)
  /\ decode_v2_from_datagram (encode_header ProxyV2 client server ++ rest) = carried client server.
Proof.
  intros Hc Hs. split; [|by apply v2_roundtrip].
  destruct v; cbn [encode_header]; [by apply v1_roundtrip|by apply v2_roundtrip].
Qed.

Lemma proxy_header_roundtrip_witness :
  let c := Net.SocketAddr_new (Net.IpV4 (Net.v4_new 203 0 113 7)) 51000 in
  let s := Net.SocketAddr_new (Net.IpV4 (Net.v4_new 10 0 0 1)) 443 in
  read_optional_header (encode_header ProxyV1 c s ++ Str.to_bytes "GET /")
  = Ok (mkDecode (carried c s) [], Str.to_bytes "GET /").
Proof. intros c s. apply (proxy_header_roundtrip ProxyV1 c s); by split; vm_compute. Defined.

(** Reading an optional header loses nothing: on success either all bytes
    read are handed back in front of the unread ones, with no endpoints, or
    what was consumed starts with the v1 magic or the v2 signature; and only a
    stream that starts with ['P'] or CR can fail. *)
Theorem proxy_read_accounts input :
  match read_optional_header input with
  | Ok (d, rest) => accounted input d rest
  | Err _ => exists b input', input = b :: input' /\ (byte_to_Z b = 80 \/ byte_to_Z b = 13)
  end.
Proof.
  destruct input as [|b input]; [by left|]. cbn [read_optional_header].
  destruct (Z.eqb_spec (byte_to_Z b) 80) as [Hb|Hb].
  { assert (b = "P"%byte) as -> by (apply byte_to_Z_inj; exact Hb).
    destruct (decode_v1 _ _) as [[d rest]|] eqn:Hd; [by apply decode_v1_accounted|eauto]. }
  destruct (Z.eqb_spec (byte_to_Z b) 13) as [Hc|Hc]; [|by left].
  assert (b = "013"%byte) as -> by (apply byte_to_Z_inj; exact Hc).
  destruct (decode_v2 _ _) as [[d rest]|] eqn:Hd; [by apply decode_v2_accounted|eauto].
Qed.

(** The length guard runs after the line feed is accepted: a line of 108
    bytes, one more than the format allows, is read. *)
Lemma v1_line_of_108_accepted :
  let line := Str.to_bytes "PROXY UNKNOWN" ++ replicate 93 "x"%byte ++ Str.to_bytes CRLF in
  zlen line = V1_MAX_LINE + 1 /\ read_optional_header line = Ok (mkDecode None [], []).
Proof. by vm_compute. Qed.
