(* ===== verification/NatWire.v ===== *)
(** * PCP and NAT-PMP codecs ([yggdrasil/src/nat/wire/])

    A request is the fixed-size buffer the encoder fills; a response is the
    datagram the socket received.  Reserved bytes of a response are ignored. *)

From S2P Require Import Prelude RustStd NetFmt.

(** ** Shared primitives ([wire/mod.rs]) *)

Definition GATEWAY_PORT : Z := 5351.
Definition IP_PROTO_TCP : Z := 6.
Definition IP_PROTO_UDP : Z := 17.

Inductive MapProtocol := MapTcp | MapUdp.

#[global] Instance MapProtocol_eq_dec : EqDecision MapProtocol.
Proof. solve_decision. Defined.

Definition ip_proto (p : MapProtocol) : Z :=
  match p with MapTcp => IP_PROTO_TCP | MapUdp => IP_PROTO_UDP end.

Definition map_protocol_as_str (p : MapProtocol) : string :=
  match p with MapTcp => "tcp" | MapUdp => "udp" end.

(** [Lifetime(u32)]. *)
Record Lifetime := mkLifetime { as_secs : Z }.
Definition LIFETIME_MIN_SECS : Z := 120.
Definition LIFETIME_MAX_SECS : Z := 24 * 60 * 60.
Definition lifetime_bounded (secs : Z) : Lifetime :=
  mkLifetime (Z.min (Z.max secs LIFETIME_MIN_SECS) LIFETIME_MAX_SECS).
Definition lifetime_release : Lifetime := mkLifetime 0.
Definition as_duration (l : Lifetime) : Z := Time.from_secs (as_secs l).

Inductive PcpResultCode :=
  | PcpSuccess | PcpUnsuppVersion | PcpNotAuthorized | PcpMalformedRequest | PcpUnsuppOpcode
  | PcpUnsuppOption | PcpMalformedOption | PcpNetworkFailure | PcpNoResources | PcpUnsuppProtocol
  | PcpUserExQuota | PcpCannotProvideExternal | PcpAddressMismatch | PcpExcessiveRemotePeers.

Inductive NatPmpResultCode :=
  | PmpSuccess | PmpUnsupportedVersion | PmpNotAuthorized | PmpNetworkFailure
  | PmpOutOfResources | PmpUnsupportedOpcode.

#[global] Instance PcpResultCode_eq_dec : EqDecision PcpResultCode.
Proof. solve_decision. Defined.
#[global] Instance NatPmpResultCode_eq_dec : EqDecision NatPmpResultCode.
Proof. solve_decision. Defined.

Inductive WireError :=
  | Truncated (needed got : Z)
  | BadVersion (version : Z)
  | BadOpcode (opcode : Z)
  | NotAResponse
  | NonceMismatch
  | UnknownResultCode (code : Z)
  | PcpError (code : PcpResultCode)
  | NatPmpError (code : NatPmpResultCode)
  | NotIpv4Mapped (addr : Net.Ipv6Addr).

Definition ipv4_to_mapped_v6 (v4 : Net.Ipv4Addr) : Net.Ipv6Addr := Net.to_ipv6_mapped v4.
Definition ipv6_mapped_to_v4 (v6 : Net.Ipv6Addr) : result WireError Net.Ipv4Addr :=
  ok_or (NotIpv4Mapped v6) (Net.to_ipv4_mapped v6).

(** ** PCP ([wire/pcp.rs]) *)

Definition PCP_VERSION : Z := 2.
Definition PCP_OPCODE_MAP : Z := 0x01.
Definition PCP_OPCODE_RESPONSE_BIT : Z := 0x80.
Definition PCP_MAP_REQUEST_LEN : Z := 60.
Definition PCP_MAP_RESPONSE_LEN : Z := 60.
Definition PCP_NONCE_LEN : nat := 12.

Definition pcp_result_from_wire (value : Z) : result WireError PcpResultCode :=
  match value with
  | 0 => Ok PcpSuccess | 1 => Ok PcpUnsuppVersion | 2 => Ok PcpNotAuthorized
  | 3 => Ok PcpMalformedRequest | 4 => Ok PcpUnsuppOpcode | 5 => Ok PcpUnsuppOption
  | 6 => Ok PcpMalformedOption | 7 => Ok PcpNetworkFailure | 8 => Ok PcpNoResources
  | 9 => Ok PcpUnsuppProtocol | 10 => Ok PcpUserExQuota | 11 => Ok PcpCannotProvideExternal
  | 12 => Ok PcpAddressMismatch | 13 => Ok PcpExcessiveRemotePeers
  | other => Err (UnknownResultCode other)
  end.

Definition pcp_result_as_u8 (c : PcpResultCode) : Z :=
  match c with
  | PcpSuccess => 0 | PcpUnsuppVersion => 1 | PcpNotAuthorized => 2
  | PcpMalformedRequest => 3 | PcpUnsuppOpcode => 4 | PcpUnsuppOption => 5
  | PcpMalformedOption => 6 | PcpNetworkFailure => 7 | PcpNoResources => 8
  | PcpUnsuppProtocol => 9 | PcpUserExQuota => 10 | PcpCannotProvideExternal => 11
  | PcpAddressMismatch => 12 | PcpExcessiveRemotePeers => 13
  end.

Definition pcp_result_metric_label (c : PcpResultCode) : string :=
  match c with
  | PcpSuccess => "success" | PcpUnsuppVersion => "unsupp_version" | PcpNotAuthorized => "not_authorized"
  | PcpMalformedRequest => "malformed_request" | PcpUnsuppOpcode => "unsupp_opcode"
  | PcpUnsuppOption => "unsupp_option" | PcpMalformedOption => "malformed_option"
  | PcpNetworkFailure => "network_failure" | PcpNoResources => "no_resources"
  | PcpUnsuppProtocol => "unsupp_protocol" | PcpUserExQuota => "user_ex_quota"
  | PcpCannotProvideExternal => "cannot_provide_external" | PcpAddressMismatch => "address_mismatch"
  | PcpExcessiveRemotePeers => "excessive_remote_peers"
  end.

Definition pcp_is_transient (c : PcpResultCode) : bool :=
  match c with PcpNetworkFailure | PcpNoResources | PcpCannotProvideExternal => true | _ => false end.

Definition should_fall_back_to_natpmp (c : PcpResultCode) : bool :=
  match c with PcpUnsuppVersion => true | _ => false end.

Record PcpMapRequest := mkPcpMapRequest {
  pq_lifetime_secs : Z; pq_client_addr : Net.Ipv4Addr; pq_nonce : list byte;
  pq_protocol : MapProtocol; pq_internal_port : Z; pq_suggested_external_port : Z;
  pq_suggested_external_addr : Net.Ipv4Addr }.

Record PcpMapResponse := mkPcpMapResponse {
  pr_result_code : PcpResultCode; pr_epoch_time : Z; pr_assigned_lifetime : Z;
  pr_nonce : list byte; pr_protocol : MapProtocol; pr_internal_port : Z;
  pr_assigned_external_port : Z; pr_assigned_external_addr : Net.Ipv4Addr }.

Definition pcp_encode_map_request (req : PcpMapRequest) : list byte :=
  [byte_of_Z PCP_VERSION; byte_of_Z PCP_OPCODE_MAP; byte_of_Z 0; byte_of_Z 0]
  ++ to_be 4 (pq_lifetime_secs req)
  ++ Net.v6_octets (ipv4_to_mapped_v6 (pq_client_addr req))
  ++ pq_nonce req
  ++ [byte_of_Z (ip_proto (pq_protocol req)); byte_of_Z 0; byte_of_Z 0; byte_of_Z 0]
  ++ to_be 2 (pq_internal_port req)
  ++ to_be 2 (pq_suggested_external_port req)
  ++ Net.v6_octets (ipv4_to_mapped_v6 (pq_suggested_external_addr req)).

(** [Ipv6Addr::from] of sixteen octets. *)
Definition v6_from (l : list byte) : Net.Ipv6Addr := default (Net.to_ipv6_mapped (Net.v4_new 0 0 0 0)) (Net.v6_of_octets l).

Definition pcp_decode_map_response (buf : list byte) : result WireError PcpMapResponse :=
  if zlen buf <? PCP_MAP_RESPONSE_LEN then Err (Truncated PCP_MAP_RESPONSE_LEN (zlen buf))
  else
    let version := byte_at buf 0 in
    if negb (version =? PCP_VERSION) then Err (BadVersion version)
    else
      let opcode_byte := byte_at buf 1 in
      if Z.land opcode_byte PCP_OPCODE_RESPONSE_BIT =? 0 then Err NotAResponse
      else
        let opcode := Z.land opcode_byte (255 - PCP_OPCODE_RESPONSE_BIT) in
        if negb (opcode =? PCP_OPCODE_MAP) then Err (BadOpcode opcode)
        else
          result_code ← pcp_result_from_wire (byte_at buf 3);
          let assigned_lifetime := from_be (slice buf 4 8) in
          let epoch_time := from_be (slice buf 8 12) in
          let nonce := slice buf 24 (24 + PCP_NONCE_LEN) in
          let proto_byte := byte_at buf 36 in
          protocol ← (if proto_byte =? IP_PROTO_TCP then Ok MapTcp
                      else if proto_byte =? IP_PROTO_UDP then Ok MapUdp
                      else Err (BadOpcode proto_byte));
          let internal_port := from_be (slice buf 40 42) in
          let assigned_external_port := from_be (slice buf 42 44) in
          assigned_external_addr ← ipv6_mapped_to_v4 (v6_from (slice buf 44 60));
          Ok (mkPcpMapResponse result_code epoch_time assigned_lifetime nonce protocol
                internal_port assigned_external_port assigned_external_addr).

(** ** NAT-PMP ([wire/natpmp.rs]) *)

Definition NATPMP_VERSION : Z := 0.
Definition NATPMP_OPCODE_EXTERNAL_ADDRESS : Z := 0.
Definition NATPMP_OPCODE_MAP_UDP : Z := 1.
Definition NATPMP_OPCODE_MAP_TCP : Z := 2.
Definition NATPMP_OPCODE_RESPONSE_BIT : Z := 0x80.
Definition NATPMP_EXTERNAL_ADDRESS_REQUEST_LEN : Z := 2.
Definition NATPMP_EXTERNAL_ADDRESS_RESPONSE_LEN : Z := 12.
Definition NATPMP_MAP_REQUEST_LEN : Z := 12.
Definition NATPMP_MAP_RESPONSE_LEN : Z := 16.

Definition natpmp_result_from_wire (value : Z) : result WireError NatPmpResultCode :=
  match value with
  | 0 => Ok PmpSuccess | 1 => Ok PmpUnsupportedVersion | 2 => Ok PmpNotAuthorized
  | 3 => Ok PmpNetworkFailure | 4 => Ok PmpOutOfResources | 5 => Ok PmpUnsupportedOpcode
  | other => Err (UnknownResultCode other)
  end.

Definition natpmp_result_as_u16 (c : NatPmpResultCode) : Z :=
  match c with
  | PmpSuccess => 0 | PmpUnsupportedVersion => 1 | PmpNotAuthorized => 2
  | PmpNetworkFailure => 3 | PmpOutOfResources => 4 | PmpUnsupportedOpcode => 5
  end.

Definition natpmp_result_metric_label (c : NatPmpResultCode) : string :=
  match c with
  | PmpSuccess => "success" | PmpUnsupportedVersion => "unsupp_version" | PmpNotAuthorized => "not_authorized"
  | PmpNetworkFailure => "network_failure" | PmpOutOfResources => "out_of_resources"
  | PmpUnsupportedOpcode => "unsupp_opcode"
  end.

Definition natpmp_is_transient (c : NatPmpResultCode) : bool :=
  match c with PmpNetworkFailure | PmpOutOfResources => true | _ => false end.

Record NatPmpMapRequest := mkNatPmpMapRequest {
  nq_protocol : MapProtocol; nq_internal_port : Z; nq_suggested_external_port : Z; nq_lifetime_secs : Z }.

Record NatPmpMapResponse := mkNatPmpMapResponse {
  nr_result_code : NatPmpResultCode; nr_protocol : MapProtocol; nr_seconds_since_epoch : Z;
  nr_internal_port : Z; nr_assigned_external_port : Z; nr_assigned_lifetime : Z }.

Record NatPmpExternalAddressResponse := mkNatPmpExt {
  nx_result_code : NatPmpResultCode; nx_seconds_since_epoch : Z; nx_external_address : Net.Ipv4Addr }.

Definition encode_external_address_request : list byte :=
  [byte_of_Z NATPMP_VERSION; byte_of_Z NATPMP_OPCODE_EXTERNAL_ADDRESS].

Definition natpmp_encode_map_request (req : NatPmpMapRequest) : list byte :=
  let opcode := match nq_protocol req with MapUdp => NATPMP_OPCODE_MAP_UDP | MapTcp => NATPMP_OPCODE_MAP_TCP end in
  [byte_of_Z NATPMP_VERSION; byte_of_Z opcode; byte_of_Z 0; byte_of_Z 0]
  ++ to_be 2 (nq_internal_port req)
  ++ to_be 2 (nq_suggested_external_port req)
  ++ to_be 4 (nq_lifetime_secs req).

Definition validate_response_header (buf : list byte) (expected_opcode : Z) : result WireError Z :=
  if negb (byte_at buf 0 =? NATPMP_VERSION) then Err (BadVersion (byte_at buf 0))
  else
    let op := byte_at buf 1 in
    if Z.land op NATPMP_OPCODE_RESPONSE_BIT =? 0 then Err NotAResponse
    else if negb (Z.land op (255 - NATPMP_OPCODE_RESPONSE_BIT) =? expected_opcode)
    then Err (BadOpcode (Z.land op (255 - NATPMP_OPCODE_RESPONSE_BIT)))
    else Ok (from_be (slice buf 2 4)).

(** [Ipv4Addr::new] of four octets. *)
Definition v4_from (l : list byte) : Net.Ipv4Addr := default (Net.v4_new 0 0 0 0) (Net.v4_of_octets l).

Definition decode_external_address_response (buf : list byte) : result WireError NatPmpExternalAddressResponse :=
  if zlen buf <? NATPMP_EXTERNAL_ADDRESS_RESPONSE_LEN
  then Err (Truncated NATPMP_EXTERNAL_ADDRESS_RESPONSE_LEN (zlen buf))
  else
    raw_result ← validate_response_header buf NATPMP_OPCODE_EXTERNAL_ADDRESS;
    result_code ← natpmp_result_from_wire raw_result;
    Ok (mkNatPmpExt result_code (from_be (slice buf 4 8)) (v4_from (slice buf 8 12))).

Definition natpmp_decode_map_response (buf : list byte) : result WireError NatPmpMapResponse :=
  if zlen buf <? NATPMP_MAP_RESPONSE_LEN then Err (Truncated NATPMP_MAP_RESPONSE_LEN (zlen buf))
  else if negb (byte_at buf 0 =? NATPMP_VERSION) then Err (BadVersion (byte_at buf 0))
  else
    let op := byte_at buf 1 in
    if Z.land op NATPMP_OPCODE_RESPONSE_BIT =? 0 then Err NotAResponse
    else
      let bare_op := Z.land op (255 - NATPMP_OPCODE_RESPONSE_BIT) in
      protocol ← (if bare_op =? NATPMP_OPCODE_MAP_UDP then Ok MapUdp
                  else if bare_op =? NATPMP_OPCODE_MAP_TCP then Ok MapTcp
                  else Err (BadOpcode bare_op));
      result_code ← natpmp_result_from_wire (from_be (slice buf 2 4));
      Ok (mkNatPmpMapResponse result_code protocol (from_be (slice buf 4 8))
            (from_be (slice buf 8 10)) (from_be (slice buf 10 12)) (from_be (slice buf 12 16))).

(** ** What a gateway sends *)

(** The response layouts of RFC 6887 11.1 and RFC 6886 3.3 and 3.2; the
    reserved bytes are free. *)
Definition pcp_response_bytes (r : PcpMapResponse) (r2 : byte) (r12 r37 : list byte) : list byte :=
  [byte_of_Z 2; byte_of_Z 0x81; r2; byte_of_Z (pcp_result_as_u8 (pr_result_code r))]
  ++ to_be 4 (pr_assigned_lifetime r) ++ to_be 4 (pr_epoch_time r) ++ r12
  ++ pr_nonce r ++ [byte_of_Z (ip_proto (pr_protocol r))] ++ r37
  ++ to_be 2 (pr_internal_port r) ++ to_be 2 (pr_assigned_external_port r)
  ++ Net.v6_octets (Net.to_ipv6_mapped (pr_assigned_external_addr r)).

Definition natpmp_response_bytes (r : NatPmpMapResponse) : list byte :=
  [byte_of_Z 0; byte_of_Z (match nr_protocol r with MapUdp => 0x81 | MapTcp => 0x82 end)]
  ++ to_be 2 (natpmp_result_as_u16 (nr_result_code r)) ++ to_be 4 (nr_seconds_since_epoch r)
  ++ to_be 2 (nr_internal_port r) ++ to_be 2 (nr_assigned_external_port r)
  ++ to_be 4 (nr_assigned_lifetime r).

Definition natpmp_external_bytes (r : NatPmpExternalAddressResponse) : list byte :=
  [byte_of_Z 0; byte_of_Z 0x80]
  ++ to_be 2 (natpmp_result_as_u16 (nx_result_code r)) ++ to_be 4 (nx_seconds_since_epoch r)
  ++ Net.v4_octets (nx_external_address r).

(** The fields at their widths. *)
Definition pcp_response_wf (r : PcpMapResponse) : Prop :=
  fits 32 (pr_assigned_lifetime r) /\ fits 32 (pr_epoch_time r) /\ length (pr_nonce r) = PCP_NONCE_LEN
  /\ fits 16 (pr_internal_port r) /\ fits 16 (pr_assigned_external_port r).
Definition natpmp_response_wf (r : NatPmpMapResponse) : Prop :=
  fits 32 (nr_seconds_since_epoch r) /\ fits 16 (nr_internal_port r)
  /\ fits 16 (nr_assigned_external_port r) /\ fits 32 (nr_assigned_lifetime r).

(** ** Lemmas *)

Module NatWireProps.

Lemma pcp_result_roundtrip c : pcp_result_from_wire (pcp_result_as_u8 c) = Ok c.
Proof. by destruct c. Qed.
Lemma natpmp_result_roundtrip c : natpmp_result_from_wire (natpmp_result_as_u16 c) = Ok c.
Proof. by destruct c. Qed.

Lemma pcp_result_inv z c : pcp_result_from_wire z = Ok c -> z = pcp_result_as_u8 c.
Proof. unfold pcp_result_from_wire. repeat case_match; intros Hc; try done; by injection Hc as <-. Qed.
Lemma natpmp_result_inv z c : natpmp_result_from_wire z = Ok c -> z = natpmp_result_as_u16 c.
Proof. unfold natpmp_result_from_wire. repeat case_match; intros Hc; try done; by injection Hc as <-. Qed.

Lemma be_bytes n z :
  fits (8 * Z.of_nat n) z -> exists l, to_be n z = l /\ length l = n /\ from_be l = z.
Proof. intros Hz. exists (to_be n z). by rewrite length_to_be, from_to_be. Qed.

(** A response opcode byte from its two tests. *)
Lemma response_byte b k :
  (Z.land (byte_to_Z b) 128 =? 0) = false -> Z.land (byte_to_Z b) 127 = k -> byte_to_Z b = 128 + k.
Proof. destruct b; vm_compute; intros Ht <-; done. Qed.

Lemma byte_of_eq b z : byte_to_Z b = z -> byte_of_Z z = b.
Proof. intros <-. apply byte_of_to_Z. Qed.

Lemma from_be_fits l n : length l = n -> fits (8 * Z.of_nat n) (from_be l).
Proof. intros <-. unfold fits. rewrite Z.pow_mul_r by lia. change (2 ^ 8) with 256. auto with rust. Qed.

Lemma split_at n (l : list byte) : (n <= length l)%nat -> exists a b, l = a ++ b /\ length a = n.
Proof. intros Hl. exists (firstn n l), (skipn n l). by rewrite firstn_skipn, length_take, Nat.min_l. Qed.

Lemma slice_app a x b m n : length a = m -> length x = (n - m)%nat -> slice (a ++ x ++ b) m n = x.
Proof. intros <- Hx. unfold slice. by rewrite drop_app_length, <- Hx, take_app_length. Qed.

(** A list of known length as its elements. *)
Ltac explode l :=
  repeat match goal with
    | Hl : length l = _ |- _ => destruct l as [|? l]; cbn [length] in Hl; [first [discriminate Hl|clear Hl]|]
    | Hl : length (_ :: _) = _ |- _ => cbn [length] in Hl
    | Hl : S _ = S _ |- _ => injection Hl as Hl
    | Hl : S _ = O |- _ => discriminate Hl
    end.

Lemma pcp_decode_bytes r r2 r12 r37 options :
  pcp_response_wf r -> length r12 = 12%nat -> length r37 = 3%nat ->
  pcp_decode_map_response (pcp_response_bytes r r2 r12 r37 ++ options) = Ok r.
Proof.
  destruct r as [code epoch life nonce proto ip ep addr].
  intros (Hlife & Hepoch & Hnonce & Hip & Hep) H12 H37. cbn in Hlife, Hepoch, Hnonce, Hip, Hep.
  unfold pcp_response_bytes. cbn [pr_result_code pr_epoch_time pr_assigned_lifetime pr_nonce pr_protocol
    pr_internal_port pr_assigned_external_port pr_assigned_external_addr].
  destruct (be_bytes 4 life Hlife) as (bl & -> & Hbl & <-), (be_bytes 4 epoch Hepoch) as (be & -> & Hbe & <-),
    (be_bytes 2 ip Hip) as (bi & -> & Hbi & <-), (be_bytes 2 ep Hep) as (bx & -> & Hbx & <-).
  pose proof (Net.v6_of_octets_octets (Net.to_ipv6_mapped addr)) as Hv6.
  pose proof (Net.v6_octets_length (Net.to_ipv6_mapped addr)) as Hv6l.
  set (oct := Net.v6_octets _) in *. clearbody oct.
  unfold pcp_decode_map_response.
  rewrite (proj2 (Z.ltb_ge _ _)).
  2:{ rewrite !zlen_app. unfold zlen. rewrite Hbl, Hbe, Hbi, Hbx, H12, H37, Hnonce, Hv6l.
      unfold PCP_MAP_RESPONSE_LEN, PCP_NONCE_LEN. cbn [length]. lia. }
  explode bl. explode be. explode bi. explode bx. explode r12. explode r37. unfold PCP_NONCE_LEN in Hnonce.
  explode nonce. explode oct.
  set (buf := _ ++ options).
  change (byte_at buf 0) with 2. change (byte_at buf 1) with 129. cbn [negb Z.eqb Z.land Z.sub].
  change (byte_at buf 3) with (byte_to_Z (byte_of_Z (pcp_result_as_u8 code))).
  change (byte_at buf 36) with (byte_to_Z (byte_of_Z (ip_proto proto))).
  rewrite (ltac:(by destruct code) : byte_to_Z (byte_of_Z (pcp_result_as_u8 code)) = pcp_result_as_u8 code).
  rewrite (ltac:(by destruct proto) : byte_to_Z (byte_of_Z (ip_proto proto)) = ip_proto proto).
  assert (v6_from (slice buf 44 60) = Net.to_ipv6_mapped addr) as -> by exact (f_equal (default _) Hv6).
  rewrite pcp_result_roundtrip. unfold ipv6_mapped_to_v4. rewrite Net.to_ipv4_mapped_mapped.
  by destruct proto.
Qed.

Lemma v6_from_octets l : length l = 16%nat -> Net.v6_octets (v6_from l) = l.
Proof. intros Hl. explode l. reflexivity. Qed.
Lemma v4_from_octets l : length l = 4%nat -> Net.v4_octets (v4_from l) = l.
Proof. intros Hl. explode l. reflexivity. Qed.

Lemma to_be_from n l : length l = n -> to_be n (from_be l) = l.
Proof. intros <-. apply to_from_be. Qed.

Lemma length_slice l a b : (a <= b)%nat -> (b <= length l)%nat -> length (slice l a b) = (b - a)%nat.
Proof. intros. unfold slice. rewrite length_take, length_drop. lia. Qed.

Lemma slice_split l a b c :
  (a <= b)%nat -> (b <= c)%nat -> (c <= length l)%nat -> slice l a c = slice l a b ++ slice l b c.
Proof.
  intros. unfold slice. rewrite <- (firstn_skipn (b - a) (firstn (c - a) (skipn a l))).
  rewrite take_take, Nat.min_l, skipn_firstn_comm, skipn_skipn by lia. f_equal.
  replace (c - a - (b - a))%nat with (c - b)%nat by lia. by replace (b - a + a)%nat with b by lia.
Qed.

Lemma slice_head l n : (n <= length l)%nat -> l = slice l 0 n ++ skipn n l.
Proof. intros. unfold slice. by rewrite Nat.sub_0_r, drop_0, firstn_skipn. Qed.

Lemma slice_one l a : (a < length l)%nat -> slice l a (S a) = [byte_of_Z (byte_at l a)].
Proof.
  intros Ha. unfold slice, byte_at. replace (S a - a)%nat with 1%nat by lia.
  destruct (lookup_lt_is_Some_2 l a Ha) as [x Hx]. rewrite Hx, byte_of_to_Z.
  rewrite (drop_S _ _ _ Hx). done.
Qed.

Lemma slice_fits l a n :
  (a + n <= length l)%nat -> fits (8 * Z.of_nat n) (from_be (slice l a (a + n))).
Proof. intros. apply from_be_fits. rewrite length_slice; lia. Qed.

Lemma to_be_slice l a b n : (a <= b)%nat -> (b <= length l)%nat -> n = (b - a)%nat -> to_be n (from_be (slice l a b)) = slice l a b.
Proof. intros. apply to_be_from. rewrite length_slice; lia. Qed.

(** A decoded PCP response is what the layout gives for it. *)
Lemma pcp_decode_inv buf r :
  pcp_decode_map_response buf = Ok r ->
  pcp_response_wf r /\ exists r2 r12 r37 options,
    length r12 = 12%nat /\ length r37 = 3%nat /\ buf = pcp_response_bytes r r2 r12 r37 ++ options.
Proof.
  unfold pcp_decode_map_response, PCP_MAP_RESPONSE_LEN. destruct (Z.ltb_spec (zlen buf) 60) as [|Hlen]; [done|].
  unfold zlen in Hlen. assert (60 <= length buf)%nat as Hlen' by lia. clear Hlen.
  destruct (Z.eqb_spec (byte_at buf 0) PCP_VERSION) as [Hv|]; [cbn [negb]|done].
  destruct (_ =? 0) eqn:Hr; [done|]. destruct (Z.eqb_spec (Z.land (byte_at buf 1) (255 - PCP_OPCODE_RESPONSE_BIT)) PCP_OPCODE_MAP) as [Hop|]; [cbn [negb]|done].
  destruct (pcp_result_from_wire _) as [code|] eqn:Hcode; [cbn [mbind result_bind]|done].
  apply pcp_result_inv in Hcode.
  destruct (if _ =? IP_PROTO_TCP then _ else _) as [proto|] eqn:Hproto; [cbn [mbind result_bind]|done].
  destruct (ipv6_mapped_to_v4 _) as [addr|] eqn:Haddr; [cbn [mbind result_bind]|done]. intros [= <-].
  assert (byte_at buf 1 = 129) as Hop1.
  { destruct (lookup_lt_is_Some_2 buf 1) as [b1 Hb1]; [lia|]. unfold byte_at in *. rewrite Hb1 in *.
    by rewrite (response_byte b1 1). }
  assert (byte_at buf 36 = ip_proto proto) as Hp36.
  { destruct (Z.eqb_spec (byte_at buf 36) IP_PROTO_TCP); [by injection Hproto as <-|].
    destruct (Z.eqb_spec (byte_at buf 36) IP_PROTO_UDP); [by injection Hproto as <-|done]. }
  assert (Net.v6_octets (Net.to_ipv6_mapped addr) = slice buf 44 60) as Hoct.
  { unfold ipv6_mapped_to_v4 in Haddr. destruct (Net.to_ipv4_mapped _) eqn:Hm; [|done]. injection Haddr as <-.
    apply mapped_inv in Hm as <-. apply v6_from_octets, length_slice; lia. }
  split.
  { unfold pcp_response_wf. cbn [pr_assigned_lifetime pr_epoch_time pr_nonce pr_internal_port pr_assigned_external_port].
    split_and!; [apply (slice_fits buf 4 4); lia|apply (slice_fits buf 8 4); lia|apply length_slice; unfold PCP_NONCE_LEN; lia
                |apply (slice_fits buf 40 2); lia|apply (slice_fits buf 42 2); lia]. }
  exists (byte_of_Z (byte_at buf 2)), (slice buf 12 24), (slice buf 37 40), (skipn 60 buf).
  split; [apply length_slice; lia|]. split; [apply length_slice; lia|].
  unfold pcp_response_bytes. cbn [pr_result_code pr_epoch_time pr_assigned_lifetime pr_nonce pr_protocol
    pr_internal_port pr_assigned_external_port pr_assigned_external_addr].
  rewrite Hoct, <- Hcode, <- Hp36, !to_be_slice by lia.
  rewrite (slice_head buf 60) at 1 by lia. f_equal.
  rewrite (slice_split buf 0 1 60), (slice_split buf 1 2 60), (slice_split buf 2 3 60), (slice_split buf 3 4 60),
    (slice_split buf 4 8 60), (slice_split buf 8 12 60), (slice_split buf 12 24 60), (slice_split buf 24 36 60),
    (slice_split buf 36 37 60), (slice_split buf 37 40 60), (slice_split buf 40 42 60), (slice_split buf 42 44 60)
    by lia.
  rewrite !slice_one, Hv, Hop1 by lia. reflexivity.
Qed.

(** The same for NAT-PMP. *)
Lemma pmp_code_back c : from_be (to_be 2 (natpmp_result_as_u16 c)) = natpmp_result_as_u16 c.
Proof. by destruct c. Qed.

Lemma natpmp_decode_bytes r extra :
  natpmp_response_wf r -> natpmp_decode_map_response (natpmp_response_bytes r ++ extra) = Ok r.
Proof.
  destruct r as [code proto secs ip ep life]. intros (Hsecs & Hip & Hep & Hlife). cbn in Hsecs, Hip, Hep, Hlife.
  unfold natpmp_response_bytes. cbn [nr_result_code nr_protocol nr_seconds_since_epoch nr_internal_port
    nr_assigned_external_port nr_assigned_lifetime].
  pose proof (pmp_code_back code) as Hcode. pose proof (length_to_be 2 (natpmp_result_as_u16 code)) as Hcl.
  set (bc := to_be 2 (natpmp_result_as_u16 code)) in *. clearbody bc.
  destruct (be_bytes 4 secs Hsecs) as (bs & -> & Hbs & <-), (be_bytes 2 ip Hip) as (bi & -> & Hbi & <-),
    (be_bytes 2 ep Hep) as (bx & -> & Hbx & <-), (be_bytes 4 life Hlife) as (bl & -> & Hbl & <-).
  unfold natpmp_decode_map_response. rewrite (proj2 (Z.ltb_ge _ _)).
  2:{ rewrite !zlen_app. unfold zlen. rewrite Hcl, Hbs, Hbi, Hbx, Hbl. unfold NATPMP_MAP_RESPONSE_LEN. cbn [length]. lia. }
  explode bc. explode bs. explode bi. explode bx. explode bl. set (buf := _ ++ extra).
  change (byte_at buf 0) with 0. change (slice buf 2 4) with [b; b0]. rewrite Hcode.
  destruct proto; (change (byte_at buf 1) with 129 || change (byte_at buf 1) with 130); cbn [negb Z.eqb Z.land Z.sub];
    cbn [mbind result_bind]; by rewrite natpmp_result_roundtrip.
Qed.

Lemma natpmp_decode_inv buf r :
  natpmp_decode_map_response buf = Ok r ->
  natpmp_response_wf r /\ exists extra, buf = natpmp_response_bytes r ++ extra.
Proof.
  unfold natpmp_decode_map_response, NATPMP_MAP_RESPONSE_LEN. destruct (Z.ltb_spec (zlen buf) 16) as [|Hlen]; [done|].
  unfold zlen in Hlen. assert (16 <= length buf)%nat as Hlen' by lia. clear Hlen.
  destruct (Z.eqb_spec (byte_at buf 0) NATPMP_VERSION) as [Hv|]; [cbn [negb]|done].
  destruct (_ =? 0) eqn:Hr; [done|].
  destruct (if _ =? NATPMP_OPCODE_MAP_UDP then _ else _) as [proto|] eqn:Hproto; [cbn [mbind result_bind]|done].
  destruct (natpmp_result_from_wire _) as [code|] eqn:Hcode; [cbn [mbind result_bind]|done].
  apply natpmp_result_inv in Hcode. intros [= <-].
  assert (byte_at buf 1 = match proto with MapUdp => 129 | MapTcp => 130 end) as Hop1.
  { destruct (lookup_lt_is_Some_2 buf 1) as [b1 Hb1]; [lia|]. unfold byte_at in *. rewrite Hb1 in *.
    destruct (Z.eqb_spec (Z.land (byte_to_Z b1) (255 - NATPMP_OPCODE_RESPONSE_BIT)) NATPMP_OPCODE_MAP_UDP);
      [injection Hproto as <-; by rewrite (response_byte b1 1)|].
    destruct (Z.eqb_spec (Z.land (byte_to_Z b1) (255 - NATPMP_OPCODE_RESPONSE_BIT)) NATPMP_OPCODE_MAP_TCP); [|done].
    injection Hproto as <-; by rewrite (response_byte b1 2). }
  split.
  { unfold natpmp_response_wf. cbn [nr_seconds_since_epoch nr_internal_port nr_assigned_external_port nr_assigned_lifetime].
    split_and!; [apply (slice_fits buf 4 4); lia|apply (slice_fits buf 8 2); lia|apply (slice_fits buf 10 2); lia
                |apply (slice_fits buf 12 4); lia]. }
  exists (skipn 16 buf). unfold natpmp_response_bytes. cbn [nr_result_code nr_protocol nr_seconds_since_epoch nr_internal_port
    nr_assigned_external_port nr_assigned_lifetime].
  rewrite <- Hcode, !to_be_slice by lia. rewrite (slice_head buf 16) at 1 by lia. f_equal.
  rewrite (slice_split buf 0 1 16), (slice_split buf 1 2 16), (slice_split buf 2 4 16), (slice_split buf 4 8 16),
    (slice_split buf 8 10 16), (slice_split buf 10 12 16) by lia.
  rewrite !slice_one, Hv, Hop1 by lia. by destruct proto.
Qed.

Lemma natpmp_external_exact buf r :
  decode_external_address_response buf = Ok r <->
  fits 32 (nx_seconds_since_epoch r) /\ exists extra, buf = natpmp_external_bytes r ++ extra.
Proof.
  split.
  - unfold decode_external_address_response, NATPMP_EXTERNAL_ADDRESS_RESPONSE_LEN, validate_response_header.
    destruct (Z.ltb_spec (zlen buf) 12) as [|Hlen]; [done|].
    unfold zlen in Hlen. assert (12 <= length buf)%nat as Hlen' by lia. clear Hlen.
    destruct (Z.eqb_spec (byte_at buf 0) NATPMP_VERSION) as [Hv|]; [cbn [negb]|done].
    destruct (_ =? 0) eqn:Hr; [done|].
    destruct (Z.eqb_spec (Z.land (byte_at buf 1) (255 - NATPMP_OPCODE_RESPONSE_BIT)) NATPMP_OPCODE_EXTERNAL_ADDRESS) as [Hop|];
      [cbn [negb mbind result_bind]|done].
    destruct (natpmp_result_from_wire _) as [code|] eqn:Hcode; [cbn [mbind result_bind]|done].
    apply natpmp_result_inv in Hcode. intros [= <-].
    assert (byte_at buf 1 = 128) as Hop1.
    { destruct (lookup_lt_is_Some_2 buf 1) as [b1 Hb1]; [lia|]. unfold byte_at in *. rewrite Hb1 in *.
      by rewrite (response_byte b1 0). }
    cbn [nx_seconds_since_epoch]. split; [apply (slice_fits buf 4 4); lia|].
    exists (skipn 12 buf). unfold natpmp_external_bytes. cbn [nx_result_code nx_seconds_since_epoch nx_external_address].
    rewrite <- Hcode, !to_be_slice, v4_from_octets by (try apply length_slice; lia).
    rewrite (slice_head buf 12) at 1 by lia. f_equal.
    rewrite (slice_split buf 0 1 12), (slice_split buf 1 2 12), (slice_split buf 2 4 12), (slice_split buf 4 8 12) by lia.
    by rewrite !slice_one, Hv, Hop1 by lia.
  - destruct r as [code secs addr]. intros (Hsecs & extra & ->). cbn in Hsecs. unfold natpmp_external_bytes.
    cbn [nx_result_code nx_seconds_since_epoch nx_external_address].
    pose proof (pmp_code_back code) as Hcode. pose proof (length_to_be 2 (natpmp_result_as_u16 code)) as Hcl.
    set (bc := to_be 2 (natpmp_result_as_u16 code)) in *. clearbody bc.
    destruct (be_bytes 4 secs Hsecs) as (bs & -> & Hbs & <-).
    unfold decode_external_address_response. rewrite (proj2 (Z.ltb_ge _ _)).
    2:{ rewrite !zlen_app. unfold zlen. rewrite Hcl, Hbs, Net.v4_octets_length.
        unfold NATPMP_EXTERNAL_ADDRESS_RESPONSE_LEN. cbn [length]. lia. }
    explode bc. explode bs. set (buf := _ ++ extra). unfold validate_response_header.
    change (byte_at buf 0) with 0. change (byte_at buf 1) with 128. change (slice buf 2 4) with [b; b0]. rewrite Hcode.
    by destruct code, addr.
Qed.

(** *** Requests *)

Definition pcp_request_wf (q : PcpMapRequest) : Prop :=
  fits 32 (pq_lifetime_secs q) /\ length (pq_nonce q) = PCP_NONCE_LEN
  /\ fits 16 (pq_internal_port q) /\ fits 16 (pq_suggested_external_port q).

Lemma to_be_inj n a b : fits (8 * Z.of_nat n) a -> fits (8 * Z.of_nat n) b -> to_be n a = to_be n b -> a = b.
Proof. intros Ha Hb Hab. rewrite <- (from_to_be n a), <- (from_to_be n b) by done. by rewrite Hab. Qed.

Lemma mapped_octets_inj a b :
  Net.v6_octets (ipv4_to_mapped_v6 a) = Net.v6_octets (ipv4_to_mapped_v6 b) -> a = b.
Proof.
  intros Hab%(f_equal (fun l => Net.v6_of_octets l ≫= Net.to_ipv4_mapped)).
  rewrite !Net.v6_of_octets_octets in Hab. unfold ipv4_to_mapped_v6 in Hab. cbn [mbind option_bind] in Hab.
  rewrite !Net.to_ipv4_mapped_mapped in Hab. by injection Hab.
Qed.

Lemma pcp_request_inj q1 q2 :
  pcp_request_wf q1 -> pcp_request_wf q2 -> pcp_encode_map_request q1 = pcp_encode_map_request q2 -> q1 = q2.
Proof.
  destruct q1 as [l1 c1 n1 p1 i1 x1 a1], q2 as [l2 c2 n2 p2 i2 x2 a2].
  intros (Hl1 & Hn1 & Hi1 & Hx1) (Hl2 & Hn2 & Hi2 & Hx2). cbn in Hl1, Hn1, Hi1, Hx1, Hl2, Hn2, Hi2, Hx2.
  unfold pcp_encode_map_request. cbn [pq_lifetime_secs pq_client_addr pq_nonce pq_protocol pq_internal_port
    pq_suggested_external_port pq_suggested_external_addr].
  intros [_ He]%app_inj_1; [|done].
  apply app_inj_1 in He as [Hl He]; [|by rewrite !length_to_be].
  apply app_inj_1 in He as [Hc He]; [|by rewrite !Net.v6_octets_length].
  apply app_inj_1 in He as [Hn He]; [|congruence].
  apply app_inj_1 in He as [Hp He]; [|done].
  apply app_inj_1 in He as [Hi He]; [|by rewrite !length_to_be].
  apply app_inj_1 in He as [Hx Ha]; [|by rewrite !length_to_be].
  apply to_be_inj in Hl, Hi, Hx; [|done..]. apply mapped_octets_inj in Hc, Ha.
  assert (p1 = p2) as -> by (by destruct p1, p2). by subst.
Qed.

Lemma pcp_request_length q : pcp_request_wf q -> zlen (pcp_encode_map_request q) = PCP_MAP_REQUEST_LEN.
Proof.
  intros (_ & Hn & _). unfold pcp_encode_map_request, PCP_NONCE_LEN in *.
  rewrite !zlen_app. unfold zlen. rewrite !length_to_be, !Net.v6_octets_length, Hn. done.
Qed.

(** ** Properties *)

(** the response decoders accept exactly the datagrams of the RFC
    layouts, whatever their reserved bytes and trailing options hold, and read
    the fields of the layout: a PCP MAP response, a NAT-PMP map response and a
    NAT-PMP external-address response; and a PCP request is 60 bytes that
    determine it. *)
Theorem nat_frames_exact :
  (forall buf r, pcp_decode_map_response buf = Ok r <->
     pcp_response_wf r /\ exists r2 r12 r37 options,
       length r12 = 12%nat /\ length r37 = 3%nat /\ buf = pcp_response_bytes r r2 r12 r37 ++ options)
  /\ (forall buf r, natpmp_decode_map_response buf = Ok r <->
        natpmp_response_wf r /\ exists extra, buf = natpmp_response_bytes r ++ extra)
  /\ (forall buf r, decode_external_address_response buf = Ok r <->
        fits 32 (nx_seconds_since_epoch r) /\ exists extra, buf = natpmp_external_bytes r ++ extra)
  /\ (forall q1 q2, pcp_request_wf q1 -> pcp_request_wf q2 ->
        zlen (pcp_encode_map_request q1) = PCP_MAP_REQUEST_LEN
        /\ (pcp_encode_map_request q1 = pcp_encode_map_request q2 -> q1 = q2)).
Proof.
  split_and!.
  - intros buf r. split; [apply pcp_decode_inv|]. intros (Hwf & r2 & r12 & r37 & o & H12 & H37 & ->).
    by apply pcp_decode_bytes.
  - intros buf r. split; [apply natpmp_decode_inv|]. intros (Hwf & extra & ->). by apply natpmp_decode_bytes.
  - apply natpmp_external_exact.
  - intros q1 q2 H1 H2. split; [by apply pcp_request_length|by apply pcp_request_inj].
Qed.

End NatWireProps.
