(* ===== verification/NatMapper.v ===== *)
(** * The NAT mapper ([yggdrasil/src/nat/mapper.rs])

    The reconciler is a state; its methods run in the state monad [M].  What the
    host and the gateway decide is a [World]: whether a bind or a send succeeds,
    what arrives after a request, the clock, fresh nonces, the iteration order of
    hash tables and how far the release pass gets before its deadline.  Every
    use of the world advances [r_tick], so nothing is assumed to repeat.
    Release builds carry no overflow checks, so [u32] addition wraps. *)

From S2P Require Import Prelude RustStd External RuleTypes Error Rule RuleSet NetFmt NatWire.

(** ** Vocabulary *)

Inductive NatTraversalMode := NatOff | NatModePcp | NatModePmp | NatAuto.

#[global] Instance NatTraversalMode_eq_dec : EqDecision NatTraversalMode.
Proof. solve_decision. Defined.

Definition nat_mode_as_str (m : NatTraversalMode) : string :=
  match m with NatOff => "off" | NatModePcp => "pcp" | NatModePmp => "natpmp" | NatAuto => "auto" end.
Definition nat_mode_is_enabled (m : NatTraversalMode) : bool :=
  match m with NatOff => false | _ => true end.

Record Gateway := mkGateway { gw_addr : Net.Ipv4Addr; gw_local_source : Net.Ipv4Addr; gw_port : Z }.

Definition DEFAULT_SHUTDOWN_RELEASE_TIMEOUT : Z := Time.from_secs 3.
Definition REQUESTED_LIFETIME_SECS : Z := 7200.
Definition RPC_INITIAL_TIMEOUT : Z := Time.from_millis 2000.
Definition RPC_MAX_RETRIES : nat := 3.
Definition ERROR_THRESHOLD_TO_BACKOFF : Z := 3.
Definition BACKOFF_SCHEDULE : list Z :=
  [Time.from_secs 30; Time.from_secs 60; Time.from_secs 300; Time.from_secs 900].

Inductive MappingOrigin :=
  | OriginRule (nm : string)
  | AcceptListen
  | HttpsRedirect (ip : Net.IpAddr)
  | Http3 (nm : string).

Record MappingTarget := mkTarget {
  mt_protocol : MapProtocol; mt_internal_port : Z; mt_internal_addr : Net.Ipv4Addr; mt_origin : MappingOrigin }.

#[global] Instance MappingOrigin_eq_dec : EqDecision MappingOrigin.
Proof. solve_decision. Defined.
#[global] Instance MappingOrigin_countable : Countable MappingOrigin.
Proof.
  refine (inj_countable' (fun o => match o with
    | OriginRule n => inl (inl n) | AcceptListen => inl (inr tt)
    | HttpsRedirect i => inr (inl i) | Http3 n => inr (inr n) end)
    (fun x => match x with
    | inl (inl n) => OriginRule n | inl (inr _) => AcceptListen
    | inr (inl i) => HttpsRedirect i | inr (inr n) => Http3 n end) _).
  by intros [].
Defined.
#[global] Instance MapProtocol_countable : Countable MapProtocol.
Proof.
  refine (inj_countable' (fun p => match p with MapTcp => true | MapUdp => false end)
    (fun b => if b then MapTcp else MapUdp) _).
  by intros [].
Defined.
#[global] Instance MappingTarget_eq_dec : EqDecision MappingTarget.
Proof. solve_decision. Defined.
#[global] Instance MappingTarget_countable : Countable MappingTarget.
Proof.
  refine (inj_countable' (fun t => (mt_protocol t, mt_internal_port t, mt_internal_addr t, mt_origin t))
    (fun '(p, n, a, o) => mkTarget p n a o) _).
  by intros [].
Defined.

Definition as_token (o : MappingOrigin) : string :=
  match o with
  | OriginRule nm => "rule:" +:+ nm
  | AcceptListen => "accept"
  | HttpsRedirect ip => "redirect:" +:+ show_ip ip
  | Http3 nm => "http3:" +:+ nm
  end.

Record HttpsTarget := mkHttpsTarget { ht_listen : Net.SocketAddr; ht_http3 : bool }.

Inductive NatProtocol := PPcp | PNatPmp.
Inductive NatState := Disabled | Discovering | Active | Backoff.

#[global] Instance NatProtocol_eq_dec : EqDecision NatProtocol.
Proof. solve_decision. Defined.
#[global] Instance NatState_eq_dec : EqDecision NatState.
Proof. solve_decision. Defined.

Definition nat_protocol_as_str (p : NatProtocol) : string :=
  match p with PPcp => "pcp" | PNatPmp => "natpmp" end.
Definition nat_state_as_str (s : NatState) : string :=
  match s with
  | Disabled => "disabled" | Discovering => "discovering" | Active => "active" | Backoff => "backoff"
  end.

Record ActiveMapping := mkActive {
  am_target : MappingTarget; am_external_port : Z; am_external_addr : option Net.Ipv4Addr;
  am_assigned_lifetime : Z; am_renew_at : Z; am_last_renewed : Z;
  am_protocol_used : NatProtocol; am_pcp_nonce : option (list byte) }.

(** [MapAck] and [RpcError]. *)
Record MapAck := mkMapAck { ack_external_port : Z; ack_external_addr : option Net.Ipv4Addr; ack_lifetime : Z }.

Inductive RpcError :=
  | NoSocket
  | RpcTimeout (retries : nat)
  | RpcPcp (code : PcpResultCode)
  | RpcNatPmp (code : NatPmpResultCode)
  | RpcWire (e : WireError)
  | RpcIo.

Definition rpc_is_transient (e : RpcError) : bool :=
  match e with
  | RpcPcp code => pcp_is_transient code
  | RpcNatPmp code => natpmp_is_transient code
  | RpcTimeout _ | RpcIo | NoSocket => true
  | RpcWire _ => false
  end.

Definition rpc_should_fall_back (e : RpcError) : bool :=
  match e with
  | RpcPcp code => should_fall_back_to_natpmp code
  | RpcTimeout _ => true
  | _ => false
  end.

Definition rpc_metric_label (e : RpcError) : string :=
  match e with
  | RpcPcp code => pcp_result_metric_label code
  | RpcNatPmp code => natpmp_result_metric_label code
  | RpcTimeout _ => "timeout"
  | RpcIo => "io"
  | RpcWire _ => "wire_error"
  | NoSocket => "no_socket"
  end.

(** What [last_error] renders. *)
Inductive MapperError := MapperRpc (e : RpcError) | MapperSocket.

Record NatSnapshot := mkNatSnapshot {
  ns_mode : NatTraversalMode; ns_state : NatState; ns_gateway : option Net.Ipv4Addr;
  ns_external_ip : option Net.Ipv4Addr; ns_protocol : option NatProtocol;
  ns_active_mappings : list ActiveMapping; ns_last_error : option MapperError }.

Definition snapshot_disabled : NatSnapshot := mkNatSnapshot NatOff Disabled None None None [] None.

(** ** Target derivation *)

Inductive SkipReason := Loopback | LinkLocal | PublicInternal | SkipIpv6.

#[global] Instance SkipReason_eq_dec : EqDecision SkipReason.
Proof. solve_decision. Defined.
#[global] Instance SkipReason_countable : Countable SkipReason.
Proof.
  refine (inj_countable' (fun r => match r with
    | Loopback => (true, true) | LinkLocal => (true, false) | PublicInternal => (false, true) | SkipIpv6 => (false, false) end)
    (fun b => match b with
    | (true, true) => Loopback | (true, false) => LinkLocal | (false, true) => PublicInternal | (false, false) => SkipIpv6 end) _).
  by intros [].
Defined.

Definition skip_as_str (r : SkipReason) : string :=
  match r with
  | Loopback => "loopback" | LinkLocal => "link_local" | PublicInternal => "public_internal" | SkipIpv6 => "ipv6"
  end.

Inductive FilterDecision := Keep (v4 : Net.Ipv4Addr) | Skip (reason : SkipReason).

(** [Ipv4Addr::is_link_local]: 169.254/16. *)
Definition v4_is_link_local (a : Net.Ipv4Addr) : bool :=
  (byte_to_Z (Net.v4_a a) =? 169) && (byte_to_Z (Net.v4_b a) =? 254).

Definition is_rfc1918_or_cgnat (v4 : Net.Ipv4Addr) : bool :=
  let a := byte_to_Z (Net.v4_a v4) in
  let b := byte_to_Z (Net.v4_b v4) in
  (a =? 10) || (a =? 172) && ((16 <=? b) && (b <=? 31)) || (a =? 192) && (b =? 168)
  || (a =? 100) && ((64 <=? b) && (b <=? 127)) || (a =? 198) && ((18 <=? b) && (b <=? 19)).

Definition filter_bind_ip (ip : Net.IpAddr) : FilterDecision :=
  match ip with
  | Net.IpV6 _ => Skip SkipIpv6
  | Net.IpV4 v4 =>
      if Net.is_loopback (Net.IpV4 v4) then Skip Loopback
      else if v4_is_link_local v4 then Skip LinkLocal
      else if Net.is_unspecified (Net.IpV4 v4) || is_rfc1918_or_cgnat v4 then Keep v4
      else Skip PublicInternal
  end.

Record TargetEnumeration := mkEnumeration {
  te_targets : gset MappingTarget; te_skipped : list (string * SkipReason) }.

Definition resolve_internal (local_source v4 : Net.Ipv4Addr) : Net.Ipv4Addr :=
  if Net.is_unspecified (Net.IpV4 v4) then local_source else v4.

(** The loop body for one rule. *)
Definition enumerate_rule (local_source : Net.Ipv4Addr) (te : TargetEnumeration) (r : Rule) : TargetEnumeration :=
  match filter_bind_ip (Net.ip (listen r)) with
  | Skip reason => mkEnumeration (te_targets te) (te_skipped te ++ [(as_token (OriginRule (name r)), reason)])
  | Keep v4 =>
      let add p := mkEnumeration
        ({[mkTarget p (Net.port (listen r)) (resolve_internal local_source v4) (OriginRule (name r))]} ∪ te_targets te)
        (te_skipped te) in
      match protocol r with
      | Tcp => add MapTcp
      | Udp => add MapUdp
      | Https => te
      end
  end.

(** The HTTPS listener, and the redirect address it claims. *)
Definition enumerate_https (local_source : Net.Ipv4Addr) (te : TargetEnumeration) (https : HttpsTarget) :
    TargetEnumeration * option Net.Ipv4Addr :=
  let p := Net.port (ht_listen https) in
  match filter_bind_ip (Net.ip (ht_listen https)) with
  | Skip reason => (mkEnumeration (te_targets te) (te_skipped te ++ [(as_token (OriginRule "https"), reason)]), None)
  | Keep v4 =>
      let resolved := resolve_internal local_source v4 in
      let ts := {[mkTarget MapTcp p resolved (OriginRule "https")]} ∪ te_targets te in
      let ts := if ht_http3 https then {[mkTarget MapUdp p resolved (Http3 "https")]} ∪ ts else ts in
      (mkEnumeration ts (te_skipped te), Some v4)
  end.

(** A listener that is mapped on a fixed port or not at all: the redirect
    listener and the accept socket. *)
Definition enumerate_fixed (local_source : Net.Ipv4Addr) (te : TargetEnumeration) (proto : MapProtocol) (p : Z)
    (v4 : Net.Ipv4Addr) (origin : MappingOrigin) : TargetEnumeration :=
  match filter_bind_ip (Net.IpV4 v4) with
  | Skip reason => mkEnumeration (te_targets te) (te_skipped te ++ [(as_token origin, reason)])
  | Keep _ => mkEnumeration ({[mkTarget proto p (resolve_internal local_source v4) origin]} ∪ te_targets te) (te_skipped te)
  end.

Definition enumerate_targets (rules : list Rule) (accept_listen : option Net.SocketAddr)
    (https : option HttpsTarget) (local_source : Net.Ipv4Addr) : TargetEnumeration :=
  let te := foldl (enumerate_rule local_source) (mkEnumeration ∅ []) rules in
  let '(te, redirect) := match https with
    | Some h => enumerate_https local_source te h
    | None => (te, None)
    end in
  let te := match redirect with
    | Some v4 => enumerate_fixed local_source te MapTcp 80 v4 (HttpsRedirect (Net.IpV4 v4))
    | None => te
    end in
  match accept_listen with
  | Some addr =>
      match Net.ip addr with
      | Net.IpV4 v4 => enumerate_fixed local_source te MapUdp (Net.port addr) v4 AcceptListen
      | Net.IpV6 _ => mkEnumeration (te_targets te) (te_skipped te ++ [(as_token AcceptListen, SkipIpv6)])
      end
  | None => te
  end.

Definition compute_targets (rules : list Rule) (accept_listen : option Net.SocketAddr)
    (https : option HttpsTarget) (local_source : Net.Ipv4Addr) : gset MappingTarget :=
  te_targets (enumerate_targets rules accept_listen https local_source).

(** ** The reconciler *)

Notation MappingKey := (MapProtocol * Z)%type (only parsing).

Definition target_key (t : MappingTarget) : MappingKey := (mt_protocol t, mt_internal_port t).

Record MapperConfig := mkMapperConfig {
  mc_mode : NatTraversalMode; mc_gateway : Gateway; mc_accept_listen : option Net.SocketAddr;
  mc_https_listen : Net.SocketAddr; mc_https_http3 : bool; mc_release_timeout : Z }.

(** *** The world *)

Inductive RecvOutcome := Received (bytes : list byte) | RecvIo | Elapsed.

Class World := {
  bind_ok : nat -> bool;
  send_ok : nat -> bool;
  arrives : nat -> list byte -> RecvOutcome;
  clock : nat -> Z;
  fresh_nonce : nat -> list byte;
  hash_order : forall A : Type, nat -> list A -> list A;
  releases_done : nat -> nat }.

(** A hash table iterates over each of its entries once, in any order; the
    nonce buffer has twelve bytes. *)
Class WorldLaws (W : World) : Prop := {
  hash_order_perm A n (l : list A) : hash_order A n l ≡ₚ l;
  fresh_nonce_length n : length (fresh_nonce n) = PCP_NONCE_LEN }.

Section Reconciler.
Context `{UrlLib} {W : World}.

Record Reconciler := mkReconciler {
  r_cfg : MapperConfig;
  r_rules : RuleSet;
  r_snapshot : NatSnapshot;
  r_mappings : gmap MappingKey ActiveMapping;
  r_nonces : gmap MappingKey (list byte);
  r_state : NatState;
  r_protocol : option NatProtocol;
  r_epoch : option Z;
  r_external_ip : option Net.Ipv4Addr;
  r_errors : Z;
  r_seen : gset (string * SkipReason);
  r_attempt : nat;
  r_last_error : option MapperError;
  r_socket : bool;
  r_tick : nat;
  r_sent : list (list byte);
  r_wait : Z }.

Definition set_rules (x : RuleSet) (r : Reconciler) : Reconciler :=
  mkReconciler (r_cfg r) x (r_snapshot r) (r_mappings r) (r_nonces r) (r_state r) (r_protocol r) (r_epoch r) (r_external_ip r) (r_errors r) (r_seen r) (r_attempt r) (r_last_error r) (r_socket r) (r_tick r) (r_sent r) (r_wait r).
Definition set_snapshot (x : NatSnapshot) (r : Reconciler) : Reconciler :=
  mkReconciler (r_cfg r) (r_rules r) x (r_mappings r) (r_nonces r) (r_state r) (r_protocol r) (r_epoch r) (r_external_ip r) (r_errors r) (r_seen r) (r_attempt r) (r_last_error r) (r_socket r) (r_tick r) (r_sent r) (r_wait r).
Definition set_mappings (x : gmap MappingKey ActiveMapping) (r : Reconciler) : Reconciler :=
  mkReconciler (r_cfg r) (r_rules r) (r_snapshot r) x (r_nonces r) (r_state r) (r_protocol r) (r_epoch r) (r_external_ip r) (r_errors r) (r_seen r) (r_attempt r) (r_last_error r) (r_socket r) (r_tick r) (r_sent r) (r_wait r).
Definition set_nonces (x : gmap MappingKey (list byte)) (r : Reconciler) : Reconciler :=
  mkReconciler (r_cfg r) (r_rules r) (r_snapshot r) (r_mappings r) x (r_state r) (r_protocol r) (r_epoch r) (r_external_ip r) (r_errors r) (r_seen r) (r_attempt r) (r_last_error r) (r_socket r) (r_tick r) (r_sent r) (r_wait r).
Definition set_state (x : NatState) (r : Reconciler) : Reconciler :=
  mkReconciler (r_cfg r) (r_rules r) (r_snapshot r) (r_mappings r) (r_nonces r) x (r_protocol r) (r_epoch r) (r_external_ip r) (r_errors r) (r_seen r) (r_attempt r) (r_last_error r) (r_socket r) (r_tick r) (r_sent r) (r_wait r).
Definition set_protocol (x : option NatProtocol) (r : Reconciler) : Reconciler :=
  mkReconciler (r_cfg r) (r_rules r) (r_snapshot r) (r_mappings r) (r_nonces r) (r_state r) x (r_epoch r) (r_external_ip r) (r_errors r) (r_seen r) (r_attempt r) (r_last_error r) (r_socket r) (r_tick r) (r_sent r) (r_wait r).
Definition set_epoch (x : option Z) (r : Reconciler) : Reconciler :=
  mkReconciler (r_cfg r) (r_rules r) (r_snapshot r) (r_mappings r) (r_nonces r) (r_state r) (r_protocol r) x (r_external_ip r) (r_errors r) (r_seen r) (r_attempt r) (r_last_error r) (r_socket r) (r_tick r) (r_sent r) (r_wait r).
Definition set_external_ip (x : option Net.Ipv4Addr) (r : Reconciler) : Reconciler :=
  mkReconciler (r_cfg r) (r_rules r) (r_snapshot r) (r_mappings r) (r_nonces r) (r_state r) (r_protocol r) (r_epoch r) x (r_errors r) (r_seen r) (r_attempt r) (r_last_error r) (r_socket r) (r_tick r) (r_sent r) (r_wait r).
Definition set_errors (x : Z) (r : Reconciler) : Reconciler :=
  mkReconciler (r_cfg r) (r_rules r) (r_snapshot r) (r_mappings r) (r_nonces r) (r_state r) (r_protocol r) (r_epoch r) (r_external_ip r) x (r_seen r) (r_attempt r) (r_last_error r) (r_socket r) (r_tick r) (r_sent r) (r_wait r).
Definition set_seen (x : gset (string * SkipReason)) (r : Reconciler) : Reconciler :=
  mkReconciler (r_cfg r) (r_rules r) (r_snapshot r) (r_mappings r) (r_nonces r) (r_state r) (r_protocol r) (r_epoch r) (r_external_ip r) (r_errors r) x (r_attempt r) (r_last_error r) (r_socket r) (r_tick r) (r_sent r) (r_wait r).
Definition set_attempt (x : nat) (r : Reconciler) : Reconciler :=
  mkReconciler (r_cfg r) (r_rules r) (r_snapshot r) (r_mappings r) (r_nonces r) (r_state r) (r_protocol r) (r_epoch r) (r_external_ip r) (r_errors r) (r_seen r) x (r_last_error r) (r_socket r) (r_tick r) (r_sent r) (r_wait r).
Definition set_last_error (x : option MapperError) (r : Reconciler) : Reconciler :=
  mkReconciler (r_cfg r) (r_rules r) (r_snapshot r) (r_mappings r) (r_nonces r) (r_state r) (r_protocol r) (r_epoch r) (r_external_ip r) (r_errors r) (r_seen r) (r_attempt r) x (r_socket r) (r_tick r) (r_sent r) (r_wait r).
Definition set_socket (x : bool) (r : Reconciler) : Reconciler :=
  mkReconciler (r_cfg r) (r_rules r) (r_snapshot r) (r_mappings r) (r_nonces r) (r_state r) (r_protocol r) (r_epoch r) (r_external_ip r) (r_errors r) (r_seen r) (r_attempt r) (r_last_error r) x (r_tick r) (r_sent r) (r_wait r).
Definition set_tick (x : nat) (r : Reconciler) : Reconciler :=
  mkReconciler (r_cfg r) (r_rules r) (r_snapshot r) (r_mappings r) (r_nonces r) (r_state r) (r_protocol r) (r_epoch r) (r_external_ip r) (r_errors r) (r_seen r) (r_attempt r) (r_last_error r) (r_socket r) x (r_sent r) (r_wait r).
Definition set_sent (x : list (list byte)) (r : Reconciler) : Reconciler :=
  mkReconciler (r_cfg r) (r_rules r) (r_snapshot r) (r_mappings r) (r_nonces r) (r_state r) (r_protocol r) (r_epoch r) (r_external_ip r) (r_errors r) (r_seen r) (r_attempt r) (r_last_error r) (r_socket r) (r_tick r) x (r_wait r).
Definition set_wait (x : Z) (r : Reconciler) : Reconciler :=
  mkReconciler (r_cfg r) (r_rules r) (r_snapshot r) (r_mappings r) (r_nonces r) (r_state r) (r_protocol r) (r_epoch r) (r_external_ip r) (r_errors r) (r_seen r) (r_attempt r) (r_last_error r) (r_socket r) (r_tick r) (r_sent r) x.

Definition M (A : Type) : Type := Reconciler -> A * Reconciler.
#[global] Instance M_ret : MRet M := fun A a r => (a, r).
#[global] Instance M_bind : MBind M := fun A B f m r => let '(a, r') := m r in f a r'.

Definition gets {A} (f : Reconciler -> A) : M A := fun r => (f r, r).
Definition modify (f : Reconciler -> Reconciler) : M unit := fun r => (tt, f r).
Definition ask {A} (f : nat -> A) : M A := fun r => (f (r_tick r), set_tick (S (r_tick r)) r).

Fixpoint for_each {A} (f : A -> M unit) (l : list A) : M unit :=
  match l with
  | [] => mret tt
  | x :: l' => _ ← f x; for_each f l'
  end.

Definition now : M Z := ask clock.
Definition iter_order {A} (l : list A) : M (list A) := ask (fun n => hash_order A n l).

(** [socket.send(buf)]. *)
Definition socket_send (buf : list byte) : M bool :=
  ok ← ask send_ok;
  if ok : bool then _ ← modify (fun r => set_sent (r_sent r ++ [buf]) r); mret true else mret false.

(** [timeout(rt, socket.recv(&mut recv))] after sending [buf]. *)
Definition socket_recv (buf : list byte) (rt : Z) : M RecvOutcome :=
  _ ← modify (fun r => set_wait (r_wait r + rt) r);
  ask (fun n => arrives n buf).

(** *** RPC *)

Fixpoint pcp_rpc_loop (attempts : nat) (buf nonce : list byte) (rt : Z) : M (result RpcError PcpMapResponse) :=
  match attempts with
  | O => mret (Err (RpcTimeout RPC_MAX_RETRIES))
  | S attempts' =>
      sent ← socket_send buf;
      if negb sent then mret (Err RpcIo)
      else
        got ← socket_recv buf rt;
        match got with
        | Received bytes =>
            match pcp_decode_map_response (firstn 1500 bytes) with
            | Err e => mret (Err (RpcWire e))
            | Ok parsed =>
                if negb (bool_decide (pr_nonce parsed = nonce)) then pcp_rpc_loop attempts' buf nonce rt
                else mret (Ok parsed)
            end
        | RecvIo => mret (Err RpcIo)
        | Elapsed => pcp_rpc_loop attempts' buf nonce (rt * 2)
        end
  end.

Definition pcp_rpc (req : PcpMapRequest) : M (result RpcError PcpMapResponse) :=
  pcp_rpc_loop RPC_MAX_RETRIES (pcp_encode_map_request req) (pq_nonce req) RPC_INITIAL_TIMEOUT.

Fixpoint natpmp_rpc_loop (attempts : nat) (buf : list byte) (rt : Z) : M (result RpcError NatPmpMapResponse) :=
  match attempts with
  | O => mret (Err (RpcTimeout RPC_MAX_RETRIES))
  | S attempts' =>
      sent ← socket_send buf;
      if negb sent then mret (Err RpcIo)
      else
        got ← socket_recv buf rt;
        match got with
        | Received bytes =>
            match natpmp_decode_map_response (firstn 1500 bytes) with
            | Err e => mret (Err (RpcWire e))
            | Ok parsed => mret (Ok parsed)
            end
        | RecvIo => mret (Err RpcIo)
        | Elapsed => natpmp_rpc_loop attempts' buf (rt * 2)
        end
  end.

Definition natpmp_rpc (req : NatPmpMapRequest) : M (result RpcError NatPmpMapResponse) :=
  natpmp_rpc_loop RPC_MAX_RETRIES (natpmp_encode_map_request req) RPC_INITIAL_TIMEOUT.

Definition v4_unspecified : Net.Ipv4Addr := Net.v4_new 0 0 0 0.

Definition pcp_request (lifetime : Z) (t : MappingTarget) (nonce : list byte) : PcpMapRequest :=
  mkPcpMapRequest lifetime (mt_internal_addr t) nonce (mt_protocol t) (mt_internal_port t) (mt_internal_port t) v4_unspecified.

Definition try_map_via (proto : NatProtocol) (t : MappingTarget) (nonce : list byte) :
    M (result RpcError (MapAck * Z)) :=
  has_socket ← gets r_socket;
  if negb has_socket then mret (Err NoSocket)
  else
    match proto with
    | PPcp =>
        resp ← pcp_rpc (pcp_request REQUESTED_LIFETIME_SECS t nonce);
        mret (resp ← resp;
              if negb (bool_decide (pr_result_code resp = PcpSuccess)) then Err (RpcPcp (pr_result_code resp))
              else if negb (bool_decide (pr_nonce resp = nonce)) then Err (RpcWire NonceMismatch)
              else Ok (mkMapAck (pr_assigned_external_port resp) (Some (pr_assigned_external_addr resp))
                         (pr_assigned_lifetime resp), pr_epoch_time resp))
    | PNatPmp =>
        resp ← natpmp_rpc (mkNatPmpMapRequest (mt_protocol t) (mt_internal_port t) (mt_internal_port t) REQUESTED_LIFETIME_SECS);
        mret (resp ← resp;
              if negb (bool_decide (nr_result_code resp = PmpSuccess)) then Err (RpcNatPmp (nr_result_code resp))
              else Ok (mkMapAck (nr_assigned_external_port resp) None (nr_assigned_lifetime resp),
                       nr_seconds_since_epoch resp))
    end.

(** [send_unmap_to_socket]: one datagram, no answer awaited. *)
Definition unmap_bytes (proto : NatProtocol) (t : MappingTarget) (nonce : list byte) : list byte :=
  match proto with
  | PPcp => pcp_encode_map_request (pcp_request 0 t nonce)
  | PNatPmp => natpmp_encode_map_request (mkNatPmpMapRequest (mt_protocol t) (mt_internal_port t) 0 0)
  end.
Definition send_unmap_to_socket (proto : NatProtocol) (t : MappingTarget) (nonce : list byte) : M (result RpcError unit) :=
  ok ← socket_send (unmap_bytes proto t nonce); mret (if ok : bool then Ok tt else Err RpcIo).

Definition try_unmap_via (proto : NatProtocol) (t : MappingTarget) (nonce : list byte) : M (result RpcError unit) :=
  has_socket ← gets r_socket;
  if negb has_socket then mret (Err NoSocket) else send_unmap_to_socket proto t nonce.

(** *** State changes *)

Definition transition_backoff (why : MapperError) : M unit :=
  modify (fun r => set_last_error (Some why) (set_state Backoff r)).

(** [*self.nonces.entry(key).or_insert_with(..)]. *)
Definition nonce_for (key : MappingKey) : M (list byte) :=
  known ← gets (fun r => r_nonces r !! key);
  match known with
  | Some n => mret n
  | None => n ← ask fresh_nonce; _ ← modify (fun r => set_nonces (<[key := n]> (r_nonces r)) r); mret n
  end.

(** The [ActiveMapping] a grant gives, and its insertion. *)
Definition record_mapping (t : MappingTarget) (proto : NatProtocol) (nonce : list byte) (ack : MapAck) : M unit :=
  at_ ← now;
  let assigned := Time.from_secs (ack_lifetime ack) in
  modify (fun r => set_mappings
    (<[target_key t := mkActive t (ack_external_port ack) (ack_external_addr ack) assigned (at_ + assigned / 2) at_
                         proto (if bool_decide (proto = PPcp) then Some nonce else None)]> (r_mappings r)) r).

Definition send_map_request_inline (t : MappingTarget) : M unit :=
  nonce ← nonce_for (target_key t);
  cur ← gets r_protocol;
  let proto := default PPcp cur in
  outcome ← try_map_via proto t nonce;
  match outcome with
  | Ok (ack, _) => record_mapping t proto nonce ack
  | Err _ => mret tt
  end.

Definition epoch_regressed (last : option Z) (new_epoch : Z) : bool :=
  match last with Some prev => wrap 32 (new_epoch + 16) <? prev | None => false end.

Definition note_epoch (new_epoch : Z) : M unit :=
  last ← gets r_epoch;
  if epoch_regressed last new_epoch then
    ms ← gets (fun r => (map_to_list (r_mappings r)).*2);
    ms ← iter_order ms;
    _ ← modify (fun r => set_epoch (Some new_epoch) (set_nonces ∅ (set_mappings ∅ r)));
    for_each send_map_request_inline (am_target <$> ms)
  else modify (set_epoch (Some new_epoch)).

Definition protocols_to_try (mode : NatTraversalMode) (cur : option NatProtocol) : list NatProtocol :=
  match mode with
  | NatModePcp => [PPcp]
  | NatModePmp => [PNatPmp]
  | NatAuto => match cur with Some PNatPmp => [PNatPmp] | _ => [PPcp; PNatPmp] end
  | NatOff => []
  end.

(** The success arm of the loop over the protocols. *)
Definition on_granted (t : MappingTarget) (nonce : list byte) (proto : NatProtocol) (ack : MapAck) (epoch : Z) : M unit :=
  _ ← note_epoch epoch;
  _ ← modify (set_protocol (Some proto));
  _ ← record_mapping t proto nonce ack;
  modify (fun r =>
    set_last_error None (set_attempt 0 (set_errors 0 (set_state Active
      match ack_external_addr ack with Some ext => set_external_ip (Some ext) r | None => r end)))).

(** The loop: [None] when a mapping was granted, else the last error. *)
Fixpoint try_protocols (t : MappingTarget) (nonce : list byte) (last : option RpcError) (ps : list NatProtocol) :
    M (option RpcError) :=
  match ps with
  | [] => mret last
  | proto :: ps' =>
      outcome ← try_map_via proto t nonce;
      match outcome with
      | Ok (ack, epoch) => _ ← on_granted t nonce proto ack epoch; mret None
      | Err e =>
          mode ← gets (fun r => mc_mode (r_cfg r));
          match mode, proto with
          | NatAuto, PPcp => if rpc_should_fall_back e then try_protocols t nonce (Some e) ps' else mret (Some e)
          | _, _ => mret (Some e)
          end
      end
  end.

(** The tail of [send_map_request], reached when every protocol failed. *)
Definition on_refused (key : MappingKey) (e : RpcError) : M unit :=
  _ ← modify (fun r => set_errors (saturating_add 32 (r_errors r) 1) (set_last_error (Some (MapperRpc e)) r));
  _ ← (if rpc_is_transient e then mret tt else modify (fun r => set_mappings (delete key (r_mappings r)) r));
  errors ← gets r_errors;
  if ERROR_THRESHOLD_TO_BACKOFF <=? errors then transition_backoff (MapperRpc e) else mret tt.

Definition send_map_request (t : MappingTarget) : M unit :=
  nonce ← nonce_for (target_key t);
  mode ← gets (fun r => mc_mode (r_cfg r));
  match mode with
  | NatOff => mret tt
  | _ =>
      cur ← gets r_protocol;
      failed ← try_protocols t nonce None (protocols_to_try mode cur);
      match failed with
      | None => mret tt
      | Some e => on_refused (target_key t) e
      end
  end.

Definition release_one (m : ActiveMapping) : M unit :=
  let t := am_target m in
  known ← gets (fun r => r_nonces r !! target_key t);
  let nonce := default (default (replicate PCP_NONCE_LEN "000"%byte) known) (am_pcp_nonce m) in
  _ ← try_unmap_via (am_protocol_used m) t nonce;
  modify (fun r => set_nonces (delete (target_key t) (r_nonces r)) r).

Definition release_all_with_deadline : M unit :=
  ms ← gets (fun r => (map_to_list (r_mappings r)).*2);
  has_socket ← gets r_socket;
  if bool_decide (ms = []) || negb has_socket then mret tt
  else
    ms ← iter_order ms;
    reached ← ask releases_done;
    _ ← for_each (fun m =>
          _ ← send_unmap_to_socket (am_protocol_used m) (am_target m)
                (default (replicate PCP_NONCE_LEN "000"%byte) (am_pcp_nonce m));
          mret tt) (firstn reached ms);
    modify (fun r => set_nonces ∅ (set_mappings ∅ r)).

Definition publish_snapshot : M unit :=
  modify (fun r => set_snapshot
    (mkNatSnapshot (mc_mode (r_cfg r)) (r_state r) (Some (gw_addr (mc_gateway (r_cfg r)))) (r_external_ip r)
       (r_protocol r) ((map_to_list (r_mappings r)).*2) (r_last_error r)) r).

(** *** Passes *)

Definition ensure_rpc_socket : M bool :=
  has_socket ← gets r_socket;
  if has_socket : bool then mret true
  else ok ← ask bind_ok; if ok : bool then _ ← modify (set_socket true); mret true else mret false.

Definition desired_for (cfg : MapperConfig) (s : RuleSet) : TargetEnumeration :=
  let https := if bool_decide (routes s = []) then None
               else Some (mkHttpsTarget (mc_https_listen cfg) (mc_https_http3 cfg)) in
  enumerate_targets (rules s) (mc_accept_listen cfg) https (gw_local_source (mc_gateway cfg)).
Definition desired_enumeration (r : Reconciler) : TargetEnumeration := desired_for (r_cfg r) (r_rules r).

(** [desired_by_key.entry(key).or_insert(t)]: the first one iterated wins. *)
Definition first_by_key (ts : list MappingTarget) : gmap MappingKey MappingTarget :=
  foldl (fun m t => match m !! target_key t with Some _ => m | None => <[target_key t := t]> m end) ∅ ts.

Definition reconcile_targets : M unit :=
  ok ← ensure_rpc_socket;
  if negb ok then _ ← transition_backoff MapperSocket; publish_snapshot
  else
    enumeration ← gets desired_enumeration;
    _ ← modify (fun r => set_seen (list_to_set (te_skipped enumeration) ∪ r_seen r) r);
    desired ← iter_order (elements (te_targets enumeration));
    let desired_by_key := first_by_key desired in
    keys ← gets (fun r => (map_to_list (r_mappings r)).*1);
    keys ← iter_order keys;
    _ ← for_each (fun key =>
          found ← gets (fun r => r_mappings r !! key);
          match found with
          | Some m => _ ← modify (fun r => set_mappings (delete key (r_mappings r)) r); release_one m
          | None => mret tt
          end) (filter (fun k => desired_by_key !! k = None) keys);
    held ← gets r_mappings;
    wanted ← iter_order (map_to_list desired_by_key);
    _ ← for_each send_map_request (snd <$> filter (fun kt => held !! fst kt = None) wanted);
    publish_snapshot.

Definition refresh_due_mappings : M unit :=
  at_ ← now;
  all ← gets (fun r => map_to_list (r_mappings r));
  all ← iter_order all;
  _ ← for_each (fun key =>
        found ← gets (fun r => r_mappings r !! key);
        match found with
        | Some m => send_map_request (am_target m)
        | None => mret tt
        end) (fst <$> filter (fun km => am_renew_at (snd km) <= at_) all);
  publish_snapshot.

Definition backoff_probe : M unit :=
  ms ← gets (fun r => (map_to_list (r_mappings r)).*2);
  ms ← iter_order ms;
  _ ← modify (fun r => set_state Discovering (set_errors 0 (set_nonces ∅ (set_mappings ∅ r))));
  _ ← for_each send_map_request (am_target <$> ms);
  _ ← reconcile_targets;
  modify (fun r =>
    if bool_decide (r_state r = Backoff)
    then set_attempt (Nat.min (r_attempt r + 1) (length BACKOFF_SCHEDULE - 1)) r
    else set_attempt 0 r).

(** *** The loop *)

Definition compute_next_tick : M Z :=
  at_ ← now;
  gets (fun r => match r_state r with
    | Discovering => at_ + Time.from_secs 2
    | Active => match (am_renew_at ∘ snd) <$> map_to_list (r_mappings r) with
                | [] => at_ + Time.from_secs 60
                | t :: ts => foldl Z.min t ts
                end
    | Backoff => at_ + default (Time.from_secs 900) (BACKOFF_SCHEDULE !! r_attempt r)
    | Disabled => at_ + Time.from_secs 3600
    end).

Inductive MapperEvent := EvRules (s : RuleSet) | EvTick | EvShutdown | EvWatchClosed.

(** One iteration of [run]'s loop; [true] when the task returns. *)
Definition mapper_step (ev : MapperEvent) : M bool :=
  _ ← compute_next_tick;
  match ev with
  | EvShutdown | EvWatchClosed => _ ← release_all_with_deadline; mret true
  | EvRules s => _ ← modify (set_rules s); _ ← reconcile_targets; mret false
  | EvTick =>
      st ← gets r_state;
      _ ← match st with
          | Discovering => reconcile_targets
          | Active => refresh_due_mappings
          | Backoff => backoff_probe
          | Disabled => mret tt
          end;
      mret false
  end.

Fixpoint mapper_loop (evs : list MapperEvent) : M unit :=
  match evs with
  | [] => mret tt
  | ev :: evs' => stop ← mapper_step ev; if stop : bool then mret tt else mapper_loop evs'
  end.

(** [Reconciler::new]. *)
Definition reconciler_new (cfg : MapperConfig) (s : RuleSet) (snapshot : NatSnapshot) : Reconciler :=
  let initial := match mc_mode cfg with
    | NatModePcp | NatAuto => Some PPcp
    | NatModePmp => Some PNatPmp
    | NatOff => None
    end in
  mkReconciler cfg s snapshot ∅ ∅ Discovering initial None None 0 ∅ 0 None false 0 [] 0.

(** [run]: the prologue and the loop. *)
Definition mapper_run (evs : list MapperEvent) : M unit :=
  ok ← ensure_rpc_socket;
  _ ← (if ok : bool then mret tt else transition_backoff MapperSocket);
  _ ← reconcile_targets;
  mapper_loop evs.

Inductive MapperSpawnError := SpawnDisabled | SpawnDiscovery.

(** [NatMapper::spawn]: the reconciler it runs, or why there is none. *)
Definition mapper_spawn (mode : NatTraversalMode) (gateway : option Gateway) (accept_listen : option Net.SocketAddr)
    (https_listen : Net.SocketAddr) (https_http3 : bool) (s : RuleSet) (release_timeout : option Z) :
    result MapperSpawnError Reconciler :=
  match mode with
  | NatOff => Err SpawnDisabled
  | _ =>
      match gateway with
      | None => Err SpawnDiscovery
      | Some g =>
          Ok (reconciler_new
                (mkMapperConfig mode g accept_listen https_listen https_http3
                   (default DEFAULT_SHUTDOWN_RELEASE_TIMEOUT release_timeout))
                s (mkNatSnapshot mode Discovering (Some (gw_addr g)) None None [] None))
      end
  end.

End Reconciler.

(** ** Reasoning about the monad *)

Section Triples.
Context `{UrlLib} {W : World}.

Definition triple {A} (P : Reconciler -> Prop) (m : M A) (Q : A -> Reconciler -> Prop) : Prop :=
  forall r, P r -> Q (fst (m r)) (snd (m r)).

(** [I] holds throughout. *)
Definition keeps {A} (I : Reconciler -> Prop) (m : M A) : Prop := triple I m (fun _ => I).

Lemma triple_bind {A B} P Q R (m : M A) (f : A -> M B) :
  triple P m Q -> (forall a, triple (Q a) (f a) R) -> triple P (m ≫= f) R.
Proof.
  intros Hm Hf r Hr. specialize (Hm r Hr). unfold mbind, M_bind. destruct (m r) as [a r'].
  by apply Hf.
Qed.

Lemma triple_ret {A} P (a : A) (Q : A -> Reconciler -> Prop) : (forall r, P r -> Q a r) -> triple P (mret a) Q.
Proof. intros HPQ r Hr. by apply HPQ. Qed.

Lemma triple_gets {A} P (f : Reconciler -> A) : triple P (gets f) (fun a r => P r /\ a = f r).
Proof. by intros r Hr. Qed.

Lemma triple_modify P f (Q : unit -> Reconciler -> Prop) : (forall r, P r -> Q tt (f r)) -> triple P (modify f) Q.
Proof. intros HPQ r Hr. by apply HPQ. Qed.

Lemma triple_weaken {A} (P P' : Reconciler -> Prop) Q Q' (m : M A) :
  triple P m Q -> (forall r, P' r -> P r) -> (forall a r, Q a r -> Q' a r) -> triple P' m Q'.
Proof. intros Hm HP HQ r Hr. by apply HQ, Hm, HP. Qed.

Lemma triple_pure {A} (phi : Prop) P Q (m : M A) : (phi -> triple P m Q) -> triple (fun r => P r /\ phi) m Q.
Proof. intros Hm r [Hr Hphi]. by apply Hm. Qed.

Lemma keeps_bind {A B} I (m : M A) (f : A -> M B) : keeps I m -> (forall a, keeps I (f a)) -> keeps I (m ≫= f).
Proof. intros Hm Hf. eapply triple_bind; [exact Hm|exact Hf]. Qed.

Lemma keeps_ret {A} I (a : A) : keeps I (mret a).
Proof. by apply triple_ret. Qed.

Lemma keeps_gets {A} I (f : Reconciler -> A) : keeps I (gets f).
Proof. by intros r Hr. Qed.

Lemma keeps_modify I f : (forall r, I r -> I (f r)) -> keeps I (modify f).
Proof. intros Hf. by apply triple_modify. Qed.

Lemma keeps_for_each {A} I (f : A -> M unit) l : (forall x, x ∈ l -> keeps I (f x)) -> keeps I (for_each f l).
Proof.
  induction l as [|x l IH]; intros Hf; cbn; [apply keeps_ret|].
  apply keeps_bind; [apply Hf; by left|]. intros _. apply IH. intros y Hy. apply Hf. by right.
Qed.

Lemma keeps_if {A} I (b : bool) (m1 m2 : M A) : keeps I m1 -> keeps I m2 -> keeps I (if b then m1 else m2).
Proof. by destruct b. Qed.

Lemma bind_run {A B} (m : M A) (f : A -> M B) r : (m ≫= f) r = f (fst (m r)) (snd (m r)).
Proof. unfold mbind, M_bind. by destruct (m r). Qed.

Lemma socket_send_run buf r :
  socket_send buf r =
    (send_ok (r_tick r),
     if send_ok (r_tick r) then set_sent (r_sent r ++ [buf]) (set_tick (S (r_tick r)) r) else set_tick (S (r_tick r)) r).
Proof. unfold socket_send. rewrite bind_run. cbn. by destruct (send_ok (r_tick r)). Qed.

Lemma socket_recv_run buf rt r :
  socket_recv buf rt r = (arrives (r_tick r) buf, set_tick (S (r_tick r)) (set_wait (r_wait r + rt) r)).
Proof. done. Qed.

(** What only advances the tick, the log of datagrams or the time waited. *)
Definition quiet (I : Reconciler -> Prop) : Prop :=
  forall r n sent w, (r_tick r <= n)%nat -> I r -> I (set_wait w (set_sent sent (set_tick n r))).

Lemma set_quiet r n sent w :
  set_wait w (set_sent sent (set_tick n r)) =
  mkReconciler (r_cfg r) (r_rules r) (r_snapshot r) (r_mappings r) (r_nonces r) (r_state r) (r_protocol r)
    (r_epoch r) (r_external_ip r) (r_errors r) (r_seen r) (r_attempt r) (r_last_error r) (r_socket r) n sent w.
Proof. done. Qed.

Section Quiet.
Context (I : Reconciler -> Prop) (HI : quiet I).

Lemma keeps_ask {A} (f : nat -> A) : keeps I (ask f).
Proof. intros r Hr. apply (HI r (S (r_tick r)) (r_sent r) (r_wait r)) in Hr; [exact Hr|lia]. Qed.

Lemma keeps_send buf : keeps I (socket_send buf).
Proof.
  unfold socket_send. apply keeps_bind; [apply keeps_ask|]. intros ok. apply keeps_if; [|apply keeps_ret].
  apply keeps_bind; [|intros; apply keeps_ret]. apply keeps_modify. intros r Hr.
  by apply (HI r (r_tick r) (r_sent r ++ [buf]) (r_wait r) (le_n _)) in Hr.
Qed.

Lemma keeps_recv buf rt : keeps I (socket_recv buf rt).
Proof.
  unfold socket_recv. apply keeps_bind; [|intros; apply keeps_ask]. apply keeps_modify. intros r Hr.
  by apply (HI r (r_tick r) (r_sent r) (r_wait r + rt) (le_n _)) in Hr.
Qed.

Lemma keeps_pcp_rpc_loop n buf nonce : forall rt, keeps I (pcp_rpc_loop n buf nonce rt).
Proof.
  induction n as [|n IH]; intros rt; cbn [pcp_rpc_loop]; [apply keeps_ret|].
  apply keeps_bind; [apply keeps_send|]. intros sent. apply keeps_if; [apply keeps_ret|].
  apply keeps_bind; [apply keeps_recv|]. intros [bytes| |]; [|apply keeps_ret|apply IH].
  destruct (pcp_decode_map_response _); [|apply keeps_ret]. apply keeps_if; [apply IH|apply keeps_ret].
Qed.

Lemma keeps_natpmp_rpc_loop n buf : forall rt, keeps I (natpmp_rpc_loop n buf rt).
Proof.
  induction n as [|n IH]; intros rt; cbn [natpmp_rpc_loop]; [apply keeps_ret|].
  apply keeps_bind; [apply keeps_send|]. intros sent. apply keeps_if; [apply keeps_ret|].
  apply keeps_bind; [apply keeps_recv|]. intros [bytes| |]; [|apply keeps_ret|apply IH].
  destruct (natpmp_decode_map_response _); apply keeps_ret.
Qed.

Lemma keeps_try_map_via proto t nonce : keeps I (try_map_via proto t nonce).
Proof.
  unfold try_map_via. apply keeps_bind; [apply keeps_gets|]. intros sock. apply keeps_if; [apply keeps_ret|].
  destruct proto; (apply keeps_bind; [|intros; apply keeps_ret]); [apply keeps_pcp_rpc_loop|apply keeps_natpmp_rpc_loop].
Qed.

Lemma keeps_try_unmap_via proto t nonce : keeps I (try_unmap_via proto t nonce).
Proof.
  unfold try_unmap_via, send_unmap_to_socket. apply keeps_bind; [apply keeps_gets|]. intros sock.
  apply keeps_if; [apply keeps_ret|]. apply keeps_bind; [apply keeps_send|intros; apply keeps_ret].
Qed.

End Quiet.
End Triples.
