(* ===== verification/NatMapperProps.v ===== *)
(** * Properties of the NAT mapper *)

From S2P Require Import Prelude RustStd External RuleTypes Error Instances Rule RuleSet NetFmt NatWire NatMapper.
Import NatWire.NatWireProps.

Section Values.
Context `{UrlLib} {W : World}.

(** Which protocols a mode may use. *)
Definition allowed (mode : NatTraversalMode) (p : NatProtocol) : Prop :=
  match mode with
  | NatOff => False
  | NatModePcp => p = PPcp
  | NatModePmp => p = PNatPmp
  | NatAuto => True
  end.

(** What a grant carries. *)
Definition ack_ok (p : NatProtocol) (ack : MapAck) : Prop :=
  fits 16 (ack_external_port ack) /\ fits 32 (ack_lifetime ack)
  /\ (is_Some (ack_external_addr ack) <-> p = PPcp).

Lemma pcp_rpc_value n buf nonce : forall rt r resp,
  fst (pcp_rpc_loop n buf nonce rt r) = Ok resp -> pcp_response_wf resp.
Proof.
  induction n as [|n IH]; intros rt r resp; cbn [pcp_rpc_loop]; [done|].
  unfold mbind, M_bind. destruct (socket_send buf r) as [[] r1]; cbn; [|done].
  destruct (socket_recv buf rt r1) as [[bytes| |] r2]; cbn; [|done|apply IH].
  destruct (pcp_decode_map_response _) as [p|] eqn:Hd; [|done]. case_bool_decide; cbn; [|apply IH].
  intros [= <-]. by apply pcp_decode_inv in Hd as [? _].
Qed.

Lemma natpmp_rpc_value n buf : forall rt r resp,
  fst (natpmp_rpc_loop n buf rt r) = Ok resp -> natpmp_response_wf resp.
Proof.
  induction n as [|n IH]; intros rt r resp; cbn [natpmp_rpc_loop]; [done|].
  unfold mbind, M_bind. destruct (socket_send buf r) as [[] r1]; cbn; [|done].
  destruct (socket_recv buf rt r1) as [[bytes| |] r2]; cbn; [|done|apply IH].
  destruct (natpmp_decode_map_response _) as [p|] eqn:Hd; [|done].
  intros [= <-]. by apply natpmp_decode_inv in Hd as [? _].
Qed.

(** A grant is well formed and needs the socket. *)
Lemma try_map_via_value proto t nonce r ack epoch :
  fst (try_map_via proto t nonce r) = Ok (ack, epoch) -> ack_ok proto ack /\ fits 32 epoch /\ r_socket r = true.
Proof.
  unfold try_map_via, mbind, M_bind, gets. destruct (r_socket r); cbn [negb]; [|done].
  destruct proto.
  - unfold pcp_rpc. destruct (pcp_rpc_loop _ _ _ _ r) as [[resp|] r'] eqn:He; cbn; [|done].
    assert (pcp_response_wf resp) as (Hlife & Hep & _ & _ & Hport) by (eapply pcp_rpc_value; exact (f_equal fst He)).
    repeat case_bool_decide; cbn; try done. intros [= <- <-]. unfold ack_ok. cbn. naive_solver eauto.
  - unfold natpmp_rpc. destruct (natpmp_rpc_loop _ _ _ r) as [[resp|] r'] eqn:He; cbn; [|done].
    assert (natpmp_response_wf resp) as (Hep & _ & Hport & Hlife) by (eapply natpmp_rpc_value; exact (f_equal fst He)).
    case_bool_decide; cbn; [|done]. intros [= <- <-]. unfold ack_ok. cbn. split_and!; try done; by intros [].
Qed.

Lemma first_by_key_lookup ts k t : first_by_key ts !! k = Some t -> target_key t = k /\ t ∈ ts.
Proof.
  unfold first_by_key. rewrite <- (app_nil_r ts) at 2. 
  assert (forall acc seen, (forall k t, acc !! k = Some t -> target_key t = k /\ t ∈ seen) ->
    foldl (fun (m : gmap MappingKey MappingTarget) t => match m !! target_key t with Some _ => m | None => <[target_key t := t]> m end) acc ts !! k = Some t ->
    target_key t = k /\ t ∈ ts ++ seen) as Hgen.
  { induction ts as [|x ts IH]; intros acc seen Hacc; cbn; [apply Hacc|].
    intros Hf. destruct (IH (match acc !! target_key x with Some _ => acc | None => <[target_key x := x]> acc end) (x :: seen)) as [Hk Hin].
    - intros k' t'. destruct (acc !! target_key x); [intros [? ?]%Hacc; set_solver|].
      intros [[<- <-]|[_ [??]%Hacc]]%lookup_insert_Some; set_solver.
    - exact Hf.
    - split; [done|]. set_solver. }
  by apply Hgen.
Qed.

Lemma first_by_key_dom ts : dom (first_by_key ts) = list_to_set (target_key <$> ts).
Proof.
  unfold first_by_key. assert (forall acc, dom (foldl (fun (m : gmap MappingKey MappingTarget) t =>
    match m !! target_key t with Some _ => m | None => <[target_key t := t]> m end) acc ts)
    = list_to_set (target_key <$> ts) ∪ dom acc) as Hgen.
  { induction ts as [|t ts IH]; intros acc; cbn; [set_solver|]. rewrite IH.
    destruct (acc !! target_key t) eqn:Ht; [|rewrite dom_insert_L; set_solver].
    apply elem_of_dom_2 in Ht. set_solver. }
  rewrite Hgen, dom_empty_L. set_solver.
Qed.

End Values.

Section MapperInvariant.
Context `{UrlLib} {W : World} `{!WorldLaws W}.
Context (cfg : MapperConfig) (T : MappingTarget -> Prop).

Record mapping_ok (k : MappingKey) (m : ActiveMapping) : Prop := {
  mo_key : target_key (am_target m) = k;
  mo_target : T (am_target m);
  mo_port : fits 16 (am_external_port m);
  mo_lifetime : exists s, fits 32 s /\ am_assigned_lifetime m = Time.from_secs s;
  mo_renew : am_renew_at m = am_last_renewed m + am_assigned_lifetime m / 2;
  mo_protocol : allowed (mc_mode cfg) (am_protocol_used m);
  mo_nonce : match am_pcp_nonce m with
             | Some n => am_protocol_used m = PPcp /\ length n = PCP_NONCE_LEN
             | None => am_protocol_used m = PNatPmp
             end;
  mo_addr : is_Some (am_external_addr m) <-> am_protocol_used m = PPcp }.

Record MapperInv (r : Reconciler) : Prop := {
  mi_cfg : r_cfg r = cfg;
  mi_mappings : map_Forall mapping_ok (r_mappings r);
  mi_nonces : map_Forall (fun _ n => length n = PCP_NONCE_LEN) (r_nonces r);
  mi_protocol : exists p, r_protocol r = Some p /\ allowed (mc_mode cfg) p;
  mi_state : r_state r <> Disabled;
  mi_errors : fits 32 (r_errors r);
  mi_backoff : ERROR_THRESHOLD_TO_BACKOFF <= r_errors r -> r_state r = Backoff;
  mi_attempt : (r_attempt r < length BACKOFF_SCHEDULE)%nat;
  mi_epoch : forall e, r_epoch r = Some e -> fits 32 e;
  mi_active : r_state r = Active -> r_socket r = true;
  mi_desired : forall t, t ∈ te_targets (desired_enumeration r) -> T t }.

Lemma MapperInv_quiet : quiet MapperInv.
Proof. intros r n sent w _ []. by constructor. Qed.

Lemma triple_try_map_via proto t nonce :
  triple MapperInv (try_map_via proto t nonce) (fun o r => (MapperInv r /\ (is_ok o = true -> r_socket r = true)) /\
    match o with Ok (ack, epoch) => ack_ok proto ack /\ fits 32 epoch | Err _ => True end).
Proof.
  intros r Hr.
  pose proof (keeps_try_map_via MapperInv MapperInv_quiet proto t nonce r Hr) as Hinv.
  destruct (fst (try_map_via proto t nonce r)) as [[ack epoch]|] eqn:Ho; [|split; [split; [exact Hinv|done]|done]].
  apply try_map_via_value in Ho as (Ha & He & Hs). split; [|done]. split; [done|]. intros _.
  exact (keeps_try_map_via (fun r => r_socket r = true) ltac:(by intros ?????) proto t nonce r Hs).
Qed.

(** *** Preservation *)

(** Decompose a [keeps] goal along the code; what is left are the invariant's
    obligations. *)
Ltac keeps_walk quiet :=
  repeat first
    [ apply keeps_try_map_via, quiet
    | apply keeps_try_unmap_via, quiet
    | apply keeps_send, quiet
    | apply keeps_ask, quiet
    | apply keeps_bind; [|intros ?]
    | apply keeps_ret
    | apply keeps_gets
    | apply keeps_for_each; intros ? ?
    | match goal with
      | |- keeps _ (if ?b then _ else _) => destruct b eqn:?
      | |- keeps _ (match ?x with _ => _ end) => destruct x eqn:?
      end ].

Definition has_socket (r : Reconciler) : Prop := r_socket r = true.
Lemma has_socket_quiet : quiet has_socket.
Proof. by intros ??????. Qed.

Lemma note_epoch_socket e : keeps has_socket (note_epoch e).
Proof.
  unfold note_epoch, send_map_request_inline, nonce_for, record_mapping, now, iter_order.
  keeps_walk has_socket_quiet; by apply keeps_modify.
Qed.

Lemma keeps_and {A} (I J : Reconciler -> Prop) (m : M A) :
  keeps I m -> keeps J m -> keeps (fun r => I r /\ J r) m.
Proof. intros HI HJ r [H1 H2]. split; [by apply HI|by apply HJ]. Qed.

Lemma nonce_for_inv k : triple MapperInv (nonce_for k) (fun n r => MapperInv r /\ length n = PCP_NONCE_LEN).
Proof.
  intros r Hr. unfold nonce_for, mbind, M_bind, gets, ask, modify.
  destruct (r_nonces r !! k) as [n|] eqn:Hn; cbn.
  - split; [done|]. by apply (mi_nonces r Hr k).
  - destruct Hr. split; [|apply fresh_nonce_length]. constructor; cbn; try done.
    by apply map_Forall_insert_2; [apply fresh_nonce_length|].
Qed.

Lemma record_mapping_inv t p nonce ack :
  T t -> allowed (mc_mode cfg) p -> ack_ok p ack -> length nonce = PCP_NONCE_LEN ->
  keeps MapperInv (record_mapping t p nonce ack).
Proof.
  intros Ht Hp (Hport & Hlife & Haddr) Hn. unfold record_mapping, now.
  apply keeps_bind; [apply keeps_ask, MapperInv_quiet|]. intros at_. apply keeps_modify. intros r [].
  constructor; cbn; try done. apply map_Forall_insert_2; [|done].
  constructor; cbn; eauto. case_bool_decide; [by split|]. by destruct p.
Qed.

Lemma inline_inv t : T t -> keeps MapperInv (send_map_request_inline t).
Proof.
  intros Ht. unfold send_map_request_inline. eapply triple_bind; [apply nonce_for_inv|].
  intros nonce. apply triple_pure. intros Hn. eapply triple_bind; [apply triple_gets|]. intros cur.
  eapply (triple_weaken (fun r => MapperInv r /\ allowed (mc_mode cfg) (default PPcp cur)));
    [|intros r [Hr ->]; split; [done|]; destruct (mi_protocol r Hr) as (p & -> & Hp); exact Hp|by intros ?? Hq; exact Hq].
  apply triple_pure. intros Hp. eapply triple_bind; [apply triple_try_map_via|].
  intros [[ack e]|]; apply triple_pure; [|intros _; apply triple_ret; by intros r []].
  intros [Hack _]. eapply triple_weaken; [by apply (record_mapping_inv t (default PPcp cur) nonce ack)|by intros r []|done].
Qed.

Lemma mapped_targets r : MapperInv r -> Forall (fun m => T (am_target m)) (map_to_list (r_mappings r)).*2.
Proof.
  intros Hr. apply Forall_fmap, Forall_forall. intros [k m] Hm%elem_of_map_to_list.
  exact (mo_target _ _ (mi_mappings r Hr k m Hm)).
Qed.

Lemma note_epoch_inv e : fits 32 e -> keeps MapperInv (note_epoch e).
Proof.
  intros He. unfold note_epoch, iter_order. apply keeps_bind; [apply keeps_gets|]. intros last.
  apply keeps_if; [|apply keeps_modify; intros r []; constructor; cbn; try done; by intros e' [= <-]].
  eapply triple_bind; [apply triple_gets|]. intros ms.
  eapply (triple_weaken (fun r => MapperInv r /\ Forall (fun m => T (am_target m)) ms)); [| |by intros ?? Hq; exact Hq].
  2:{ intros r [Hr ->]. split; [done|by apply mapped_targets]. }
  apply triple_pure. intros Hms. 
  eapply (triple_bind _ (fun ms' r => MapperInv r /\ Forall (fun m => T (am_target m)) ms')).
  { intros r Hr. split; [by apply (keeps_ask MapperInv MapperInv_quiet)|]. cbn. by rewrite hash_order_perm. }
  intros ms'. apply triple_pure. intros Hms'. apply keeps_bind.
  { apply keeps_modify. intros r []. constructor; cbn; first [done|apply map_Forall_empty|by intros e' [= <-]]. }
  intros _. apply keeps_for_each. intros t (m & -> & Hm)%list_elem_of_fmap. apply inline_inv.
  rewrite Forall_forall in Hms'. by apply Hms'.
Qed.

Lemma on_granted_inv t nonce p ack e :
  T t -> allowed (mc_mode cfg) p -> ack_ok p ack -> length nonce = PCP_NONCE_LEN -> fits 32 e ->
  triple (fun r => MapperInv r /\ has_socket r) (on_granted t nonce p ack e) (fun _ => MapperInv).
Proof.
  intros Ht Hp Hack Hn He. unfold on_granted.
  eapply triple_bind; [apply keeps_and; [by apply note_epoch_inv|apply note_epoch_socket]|]. intros [].
  eapply triple_bind.
  { apply keeps_modify. intros r [[] Hs]. split; [|done]. constructor; cbn; eauto. }
  intros []. eapply triple_bind.
  { apply keeps_and; [by apply record_mapping_inv|]. unfold record_mapping, now.
    keeps_walk has_socket_quiet; by apply keeps_modify. }
  intros []. apply triple_modify. intros r [[] Hs].
  destruct (ack_external_addr ack); constructor; cbn; try done; try lia; unfold ERROR_THRESHOLD_TO_BACKOFF; lia.
Qed.

Lemma try_protocols_inv t nonce ps : T t -> length nonce = PCP_NONCE_LEN -> Forall (allowed (mc_mode cfg)) ps ->
  forall last, keeps MapperInv (try_protocols t nonce last ps).
Proof.
  intros Ht Hn. induction 1 as [|p ps Hp Hps IH]; intros last; cbn [try_protocols]; [apply keeps_ret|].
  eapply triple_bind; [apply triple_try_map_via|]. intros [[ack e]|err]; apply triple_pure.
  - intros [Hack He]. eapply (triple_bind _ (fun _ => MapperInv)); [|intros []; apply keeps_ret].
    eapply triple_weaken; [by apply (on_granted_inv t nonce p ack e)| |by intros ?? Hq; exact Hq].
    intros r [Hr Hs]. split; [done|]. by apply Hs.
  - intros _. eapply (triple_weaken MapperInv); [|by intros r []|by intros ?? Hq; exact Hq].
    apply keeps_bind; [apply keeps_gets|]. intros mode.
    destruct mode, p; try apply keeps_ret. apply keeps_if; [apply IH|apply keeps_ret].
Qed.

Lemma transition_backoff_inv why : keeps MapperInv (transition_backoff why).
Proof. apply keeps_modify. intros r []. by constructor. Qed.

(** After an error the counter is below the threshold or the state is [Backoff]. *)
Lemma on_refused_inv k e : keeps MapperInv (on_refused k e).
Proof.
  intros r Hr. unfold on_refused, mbind, M_bind, modify, gets, transition_backoff.
  assert (fits 32 (saturating_add 32 (r_errors r) 1)) as Hfit by (apply saturating_add_fits; [done|apply (mi_errors r Hr)|lia]).
  destruct (rpc_is_transient e); cbn; destruct (Z.leb_spec ERROR_THRESHOLD_TO_BACKOFF (saturating_add 32 (r_errors r) 1));
    destruct Hr; constructor; cbn; try done; try lia; by apply map_Forall_delete.
Qed.

Lemma protocols_allowed mode cur : mode <> NatOff ->
  (match cur with Some p => allowed mode p | None => True end) -> Forall (allowed mode) (protocols_to_try mode cur).
Proof. destruct mode, cur as [[]|]; cbn; intros; repeat constructor; done. Qed.

Lemma send_map_request_inv t : T t -> keeps MapperInv (send_map_request t).
Proof.
  intros Ht. unfold send_map_request. eapply triple_bind; [apply nonce_for_inv|]. intros nonce.
  apply triple_pure. intros Hn. eapply triple_bind; [apply triple_gets|]. intros mode.
  eapply (triple_weaken (fun r => MapperInv r /\ mode = mc_mode cfg)); 
    [|intros r [Hr ->]; split; [done|]; by rewrite (mi_cfg r Hr)|by intros ?? Hq; exact Hq].
  apply triple_pure. intros Hmode. destruct (decide (mode = NatOff)) as [->|Hoff]; [apply keeps_ret|].
  assert (forall cur, (match cur with Some p => allowed (mc_mode cfg) p | None => True end) ->
    keeps MapperInv (failed ← try_protocols t nonce None (protocols_to_try mode cur);
      match failed with None => mret tt | Some e => on_refused (target_key t) e end)) as Hbody.
  { intros cur Hcur. apply keeps_bind.
    - apply try_protocols_inv; [done..|]. rewrite <- Hmode in *. by apply protocols_allowed.
    - intros [e|]; [apply on_refused_inv|apply keeps_ret]. }
  assert (keeps MapperInv (cur ← gets r_protocol; failed ← try_protocols t nonce None (protocols_to_try mode cur);
      match failed with None => mret tt | Some e => on_refused (target_key t) e end)) as Hall.
  { eapply triple_bind; [apply triple_gets|]. intros cur.
    eapply (triple_weaken (fun r => MapperInv r /\ match cur with Some p => allowed (mc_mode cfg) p | None => True end));
      [apply triple_pure, Hbody| |by intros ?? Hq; exact Hq].
    intros r [Hr ->]. split; [done|]. destruct (mi_protocol r Hr) as (p & -> & Hp). exact Hp. }
  by destruct mode.
Qed.

Lemma publish_inv : keeps MapperInv publish_snapshot.
Proof. apply keeps_modify. intros r []. by constructor. Qed.

Lemma release_one_inv m : keeps MapperInv (release_one m).
Proof.
  unfold release_one. keeps_walk MapperInv_quiet. apply keeps_modify. intros r [].
  constructor; cbn; try done. by apply map_Forall_delete.
Qed.

Lemma release_all_inv : keeps MapperInv release_all_with_deadline.
Proof.
  unfold release_all_with_deadline, iter_order, send_unmap_to_socket. keeps_walk MapperInv_quiet.
  apply keeps_modify. intros r []. constructor; cbn; first [done|apply map_Forall_empty].
Qed.

Lemma ensure_socket_inv : keeps MapperInv ensure_rpc_socket.
Proof.
  unfold ensure_rpc_socket. keeps_walk MapperInv_quiet. apply keeps_modify. intros r []. by constructor.
Qed.

Lemma reconcile_inv : keeps MapperInv reconcile_targets.
Proof.
  unfold reconcile_targets, iter_order. apply keeps_bind; [apply ensure_socket_inv|]. intros ok.
  apply keeps_if; [apply keeps_bind; [apply transition_backoff_inv|intros _; apply publish_inv]|].
  eapply triple_bind; [apply triple_gets|]. intros en.
  eapply (triple_weaken (fun r => MapperInv r /\ forall t, t ∈ te_targets en -> T t)); 
    [|intros r [Hr ->]; split; [done|apply (mi_desired r Hr)]|by intros ?? Hq; exact Hq].
  apply triple_pure. intros Hen. apply keeps_bind; [apply keeps_modify; intros r []; by constructor|]. intros _.
  eapply (triple_bind _ (fun ds r => MapperInv r /\ forall t, t ∈ ds -> T t)).
  { intros r Hr. split; [by apply (keeps_ask MapperInv MapperInv_quiet)|]. cbn. intros t. 
    rewrite hash_order_perm, elem_of_elements. apply Hen. }
  intros ds. apply triple_pure. intros Hds. apply keeps_bind; [apply keeps_gets|]. intros keys.
  apply keeps_bind; [apply keeps_ask, MapperInv_quiet|]. intros keys'. apply keeps_bind.
  { apply keeps_for_each. intros k _. apply keeps_bind; [apply keeps_gets|]. intros [m|]; [|apply keeps_ret].
    apply keeps_bind; [|intros _; apply release_one_inv]. apply keeps_modify. intros r []. constructor; cbn; try done.
    by apply map_Forall_delete. }
  intros _. apply keeps_bind; [apply keeps_gets|]. intros held.
  eapply (triple_bind _ (fun wanted r => MapperInv r /\ forall k t, (k, t) ∈ wanted -> T t)).
  { intros r Hr. split; [by apply (keeps_ask MapperInv MapperInv_quiet)|]. cbn. intros k t.
    rewrite hash_order_perm, elem_of_map_to_list. intros [_ Hin]%first_by_key_lookup. by apply Hds. }
  intros wanted. apply triple_pure. intros Hw. apply keeps_bind; [|intros _; apply publish_inv].
  apply keeps_for_each. intros t ([k t'] & -> & [_ Hin]%list_elem_of_filter)%list_elem_of_fmap.
  by eapply send_map_request_inv, Hw.
Qed.

Lemma lookup_then_send k :
  keeps MapperInv (found ← gets (fun r => r_mappings r !! k);
                   match found with Some m => send_map_request (am_target m) | None => mret tt end).
Proof.
  eapply triple_bind; [apply triple_gets|]. intros [m|]; [|apply triple_ret; by intros r []].
  eapply (triple_weaken (fun r => MapperInv r /\ T (am_target m)));
    [apply triple_pure; apply send_map_request_inv| |by intros ?? Hq; exact Hq].
  intros r [Hr Hm]. split; [done|]. exact (mo_target _ _ (mi_mappings r Hr k m (eq_sym Hm))).
Qed.

Lemma refresh_inv : keeps MapperInv refresh_due_mappings.
Proof.
  unfold refresh_due_mappings, now, iter_order. apply keeps_bind; [apply keeps_ask, MapperInv_quiet|].
  intros at_. apply keeps_bind; [apply keeps_gets|]. intros all.
  apply keeps_bind; [apply keeps_ask, MapperInv_quiet|]. intros all'.
  apply keeps_bind; [|intros _; apply publish_inv]. apply keeps_for_each. intros k _. apply lookup_then_send.
Qed.

Lemma backoff_probe_inv : keeps MapperInv backoff_probe.
Proof.
  unfold backoff_probe, iter_order. eapply triple_bind; [apply triple_gets|]. intros ms.
  eapply (triple_weaken (fun r => MapperInv r /\ Forall (fun m => T (am_target m)) ms));
    [|intros r [Hr ->]; split; [done|by apply mapped_targets]|by intros ?? Hq; exact Hq].
  apply triple_pure. intros Hms.
  eapply (triple_bind _ (fun ms' r => MapperInv r /\ Forall (fun m => T (am_target m)) ms')).
  { intros r Hr. split; [by apply (keeps_ask MapperInv MapperInv_quiet)|]. cbn. by rewrite hash_order_perm. }
  intros ms'. apply triple_pure. intros Hms'. rewrite Forall_forall in Hms'. apply keeps_bind.
  { apply keeps_modify. intros r []. constructor; cbn; first [done|unfold fits, ERROR_THRESHOLD_TO_BACKOFF in *; lia|apply map_Forall_empty]. }
  intros []. apply keeps_bind.
  { apply keeps_for_each. intros t (m & -> & Hm)%list_elem_of_fmap. by apply send_map_request_inv, Hms'. }
  intros []. apply keeps_bind; [apply reconcile_inv|]. intros []. apply keeps_modify. intros r [].
  case_bool_decide; constructor; cbn; try done; lia.
Qed.

Definition event_rules_ok (ev : MapperEvent) : Prop :=
  match ev with EvRules s => forall t, t ∈ te_targets (desired_for cfg s) -> T t | _ => True end.

Lemma mapper_step_inv ev : event_rules_ok ev -> keeps MapperInv (mapper_step ev).
Proof.
  intros Hev. unfold mapper_step, compute_next_tick, now. apply keeps_bind.
  { apply keeps_bind; [apply keeps_ask, MapperInv_quiet|]. intros ?. apply keeps_gets. }
  intros _. destruct ev.
  - apply keeps_bind.
    { apply keeps_modify. intros r []. constructor; cbn; try done.
      unfold desired_enumeration. cbn. rewrite mi_cfg0. exact Hev. }
    intros []. apply keeps_bind; [apply reconcile_inv|intros; apply keeps_ret].
  - apply keeps_bind; [apply keeps_gets|]. intros st. apply keeps_bind; [|intros; apply keeps_ret].
    destruct st; [apply keeps_ret|apply reconcile_inv|apply refresh_inv|apply backoff_probe_inv].
  - apply keeps_bind; [apply release_all_inv|intros; apply keeps_ret].
  - apply keeps_bind; [apply release_all_inv|intros; apply keeps_ret].
Qed.

Lemma mapper_loop_inv evs : Forall event_rules_ok evs -> keeps MapperInv (mapper_loop evs).
Proof.
  induction 1 as [|ev evs Hev _ IH]; cbn [mapper_loop]; [apply keeps_ret|].
  apply keeps_bind; [by apply mapper_step_inv|]. intros stop. apply keeps_if; [apply keeps_ret|exact IH].
Qed.

Lemma reconciler_new_inv s snap :
  mc_mode cfg <> NatOff -> (forall t, t ∈ te_targets (desired_for cfg s) -> T t) ->
  MapperInv (reconciler_new cfg s snap).
Proof.
  intros Hmode Hs. constructor; cbn; first [done|unfold fits, ERROR_THRESHOLD_TO_BACKOFF in *; lia|apply map_Forall_empty|idtac].
  destruct (mc_mode cfg); cbn; eauto; done.
Qed.

Lemma mapper_run_inv s snap evs :
  mc_mode cfg <> NatOff -> (forall t, t ∈ te_targets (desired_for cfg s) -> T t) -> Forall event_rules_ok evs ->
  MapperInv (snd (mapper_run evs (reconciler_new cfg s snap))).
Proof.
  intros Hmode Hs Hevs. assert (keeps MapperInv (mapper_run evs)) as Hk.
  { unfold mapper_run. apply keeps_bind; [apply ensure_socket_inv|]. intros ok. apply keeps_bind.
    { apply keeps_if; [apply keeps_ret|apply transition_backoff_inv]. }
    intros []. apply keeps_bind; [apply reconcile_inv|]. intros []. by apply mapper_loop_inv. }
  by apply Hk, reconciler_new_inv.
Qed.

End MapperInvariant.

(** ** Which listeners are mapped *)

Section Targets.
Context (ls : Net.Ipv4Addr).

(** The targets one rule, the HTTPS listener and the accept socket give. *)
Definition rule_target (r : Rule) (t : MappingTarget) : Prop :=
  exists v4 p, filter_bind_ip (Net.ip (listen r)) = Keep v4
    /\ (protocol r = Tcp /\ p = MapTcp \/ protocol r = Udp /\ p = MapUdp)
    /\ t = mkTarget p (Net.port (listen r)) (resolve_internal ls v4) (OriginRule (name r)).
Definition https_target (h : HttpsTarget) (t : MappingTarget) : Prop :=
  exists v4, filter_bind_ip (Net.ip (ht_listen h)) = Keep v4
    /\ (t = mkTarget MapTcp (Net.port (ht_listen h)) (resolve_internal ls v4) (OriginRule "https")
        \/ ht_http3 h = true /\ t = mkTarget MapUdp (Net.port (ht_listen h)) (resolve_internal ls v4) (Http3 "https")
        \/ t = mkTarget MapTcp 80 (resolve_internal ls v4) (HttpsRedirect (Net.IpV4 v4))).
Definition accept_target (a : Net.SocketAddr) (t : MappingTarget) : Prop :=
  exists v4, Net.ip a = Net.IpV4 v4 /\ filter_bind_ip (Net.IpV4 v4) = Keep v4
    /\ t = mkTarget MapUdp (Net.port a) (resolve_internal ls v4) AcceptListen.

Lemma filter_keep_same ip v4 : filter_bind_ip ip = Keep v4 -> ip = Net.IpV4 v4.
Proof. destruct ip as [a|a]; cbn; [|done]. repeat case_match; by intros [= <-]. Qed.

Lemma enumerate_rules_elem rs te t :
  t ∈ te_targets (foldl (enumerate_rule ls) te rs) <-> t ∈ te_targets te \/ exists r, r ∈ rs /\ rule_target r t.
Proof.
  revert te; induction rs as [|r rs IH]; intros te; cbn; [set_solver|]. rewrite IH.
  assert (t ∈ te_targets (enumerate_rule ls te r) <-> t ∈ te_targets te \/ rule_target r t) as ->.
  { unfold enumerate_rule, rule_target. destruct (filter_bind_ip _) as [v4|]; [|naive_solver].
    destruct (protocol r); cbn; [set_solver..|]. split; [auto|]. intros [?|(?&?&?&[[? ?]|[? ?]]&?)]; done. }
  split.
  - intros [[?|Hr]|(r' & Hin & Hr')]; [by left|right; exists r; split; [by left|done]|right; exists r'; split; [by right|done]].
  - intros [?|(r' & [->|Hin]%elem_of_cons & Hr')]; [by left; left|by left; right|right; eauto].
Qed.

Lemma enumerate_fixed_elem te proto p v4 origin t :
  t ∈ te_targets (enumerate_fixed ls te proto p v4 origin) <->
  t ∈ te_targets te \/ filter_bind_ip (Net.IpV4 v4) = Keep v4 /\ t = mkTarget proto p (resolve_internal ls v4) origin.
Proof.
  unfold enumerate_fixed. destruct (filter_bind_ip (Net.IpV4 v4)) as [v4'|] eqn:Hf; cbn; [|naive_solver].
  apply filter_keep_same in Hf as Heq. injection Heq as <-. set_solver.
Qed.

Lemma enumerate_targets_elem rs accept https t :
  t ∈ compute_targets rs accept https ls <->
  (exists r, r ∈ rs /\ rule_target r t) \/ (exists h, https = Some h /\ https_target h t)
  \/ (exists a, accept = Some a /\ accept_target a t).
Proof.
  unfold compute_targets, enumerate_targets. set (te0 := foldl _ _ rs).
  assert (t ∈ te_targets te0 <-> exists r, r ∈ rs /\ rule_target r t) as H0.
  { unfold te0. rewrite enumerate_rules_elem. set_solver. }
  set (mid := match https with Some h => enumerate_https ls te0 h | None => (te0, None) end).
  assert (t ∈ te_targets (match snd mid with
      | Some v4 => enumerate_fixed ls (fst mid) MapTcp 80 v4 (HttpsRedirect (Net.IpV4 v4)) | None => fst mid end)
    <-> (exists r, r ∈ rs /\ rule_target r t) \/ (exists h, https = Some h /\ https_target h t)) as H1.
  { unfold mid. destruct https as [h|]; cbn; [|rewrite H0; naive_solver].
    unfold enumerate_https. destruct (filter_bind_ip (Net.ip (ht_listen h))) as [v4|] eqn:Hf; cbn.
    - apply filter_keep_same in Hf as Hip. rewrite Hip in Hf. rewrite enumerate_fixed_elem. cbn.
      assert (https_target h t <-> t = mkTarget MapTcp (Net.port (ht_listen h)) (resolve_internal ls v4) (OriginRule "https")
        \/ ht_http3 h = true /\ t = mkTarget MapUdp (Net.port (ht_listen h)) (resolve_internal ls v4) (Http3 "https")
        \/ t = mkTarget MapTcp 80 (resolve_internal ls v4) (HttpsRedirect (Net.IpV4 v4))) as Hh.
      { unfold https_target. rewrite Hip. split; [intros (v & Hv & Ht); rewrite Hf in Hv; by injection Hv as <-|eauto]. }
      rewrite <- H0. destruct (ht_http3 h); set_unfold; naive_solver.
    - rewrite H0. split; [by left|]. intros [?|(h' & [= <-] & v & Hv & _)]; [done|congruence]. }
  destruct mid as [te1 redirect]. cbn in H1. destruct accept as [a|]; [|rewrite H1; naive_solver].
  unfold accept_target. destruct (Net.ip a) as [v4|] eqn:Ha.
  - rewrite enumerate_fixed_elem, H1. split; [intros [[?|?]|[? ?]]; eauto 10|].
    intros [?|[?|(a' & [= <-] & v & Hv & Hf & ->)]]; [eauto..|]. rewrite Ha in Hv. injection Hv as <-. eauto.
  - cbn. rewrite H1. split; [intros [?|?]; eauto|].
    intros [?|[?|(a' & [= <-] & v & Hv & _)]]; [eauto..|congruence].
Qed.

(** A mapped internal address is the host's own source address or a private one. *)
Lemma target_addr_private rs accept https t :
  t ∈ compute_targets rs accept https ls ->
  mt_internal_addr t = ls \/ is_rfc1918_or_cgnat (mt_internal_addr t) = true.
Proof.
  assert (forall ip v4, filter_bind_ip ip = Keep v4 ->
    resolve_internal ls v4 = ls \/ is_rfc1918_or_cgnat (resolve_internal ls v4) = true) as Hres.
  { intros ip v4 Hf. unfold resolve_internal. destruct (Net.is_unspecified (Net.IpV4 v4)) eqn:Hu; [by left|right].
    apply filter_keep_same in Hf as Hip. subst ip. unfold filter_bind_ip in Hf. rewrite Hu in Hf.
    destruct (Net.is_loopback _); [done|]. destruct (v4_is_link_local v4); [done|].
    by destruct (is_rfc1918_or_cgnat v4). }
  rewrite enumerate_targets_elem.
  intros [(r & _ & v & p & Hf & _ & ->)|[(h & _ & v & Hf & [ -> | [[_ ->] | -> ]])|(a & _ & v & _ & Hf & ->)]]; cbn; eauto.
Qed.

End Targets.

(** ** A gateway that grants *)

(** From its [n0]-th interaction with the mapper on, every bind and send
    succeeds, and each map request is answered with a success that carries its
    nonce; the granted port, lifetime and epoch are the gateway's choice, and
    before that it may refuse, drop or garble anything. *)
Class Granting (W : World) (n0 : nat) : Prop := {
  grant_bind n : (n0 <= n)%nat -> bind_ok n = true;
  grant_send n : (n0 <= n)%nat -> send_ok n = true;
  grant_pcp n q : (n0 <= n)%nat -> pcp_request_wf q ->
    exists b resp, arrives n (pcp_encode_map_request q) = Received b
      /\ pcp_decode_map_response (firstn 1500 b) = Ok resp
      /\ pr_result_code resp = PcpSuccess /\ pr_nonce resp = pq_nonce q;
  grant_natpmp n q : (n0 <= n)%nat ->
    exists b resp, arrives n (natpmp_encode_map_request q) = Received b
      /\ natpmp_decode_map_response (firstn 1500 b) = Ok resp /\ nr_result_code resp = PmpSuccess }.

Section Convergence.
Context `{UrlLib} {W : World} `{!WorldLaws W} (n0 : nat) `{!Granting W n0}.
Context (cfg : MapperConfig).

(** Targets with a port of sixteen bits. *)
Definition port_ok (t : MappingTarget) : Prop := fits 16 (mt_internal_port t).
Notation Inv := (MapperInv cfg port_ok).

(** A socket is open and the gateway is granting. *)
Definition ready (r : Reconciler) : Prop := has_socket r /\ (n0 <= r_tick r)%nat.

(** The invariant, a granting gateway, and what each key is mapped to. *)
Notation Held := (gmap MappingKey MappingTarget).
Definition DomIs (D : Held) (r : Reconciler) : Prop :=
  (Inv r /\ ready r) /\ am_target <$> r_mappings r = D.

Lemma DomIs_quiet D : quiet (DomIs D).
Proof.
  intros r n sent w Hn [[Hi [Hs Ht]] Hd]. split; [split|]; [by apply MapperInv_quiet| |done].
  split; [done|]. cbn. lia.
Qed.

Lemma granted_try p t nonce r :
  ready r -> port_ok t -> length nonce = PCP_NONCE_LEN -> is_ok (fst (try_map_via p t nonce r)) = true.
Proof.
  intros [Hs Htick] Hp Hn. unfold try_map_via, mbind, M_bind, gets. rewrite Hs. cbn [negb]. destruct p.
  - unfold pcp_rpc, RPC_MAX_RETRIES. set (q := pcp_request _ t nonce).
    assert (pcp_request_wf q) as Hq by (split_and!; [by split|exact Hn|exact Hp|exact Hp]).
    cbn [pcp_rpc_loop]. rewrite bind_run, socket_send_run, grant_send by done. cbn [fst snd negb].
    rewrite bind_run, socket_recv_run. cbn [fst snd].
    match goal with |- context [arrives ?n _] => destruct (grant_pcp n q ltac:(cbn; lia) Hq) as (b & resp & -> & -> & Hcode & Hnonce) end.
    rewrite bool_decide_true by exact Hnonce. cbn. rewrite Hcode, bool_decide_true by done. cbn.
    rewrite bool_decide_true by exact Hnonce. done.
  - unfold natpmp_rpc, RPC_MAX_RETRIES. set (q := mkNatPmpMapRequest _ _ _ _).
    cbn [natpmp_rpc_loop]. rewrite bind_run, socket_send_run, grant_send by done. cbn [fst snd negb].
    rewrite bind_run, socket_recv_run. cbn [fst snd].
    match goal with |- context [arrives ?n _] => destruct (grant_natpmp n q ltac:(cbn; lia)) as (b & resp & -> & -> & Hcode) end.
    cbn. by rewrite Hcode, bool_decide_true.
Qed.

Lemma try_grants D p t nonce : port_ok t -> length nonce = PCP_NONCE_LEN ->
  triple (DomIs D) (try_map_via p t nonce) (fun o r => DomIs D r /\
    exists ack e, o = Ok (ack, e) /\ ack_ok p ack /\ fits 32 e).
Proof.
  intros Hp Hn r Hr. split; [by apply (keeps_try_map_via (DomIs D) (DomIs_quiet D))|].
  pose proof (granted_try p t nonce r (proj2 (proj1 Hr)) Hp Hn) as Hok.
  destruct (fst (try_map_via p t nonce r)) as [[ack e]|] eqn:Ho; [|done].
  apply try_map_via_value in Ho as (Ha & He & _). by exists ack, e.
Qed.

Lemma nonce_for_dom D k : triple (DomIs D) (nonce_for k) (fun n r => DomIs D r /\ length n = PCP_NONCE_LEN).
Proof.
  intros r [[Hi [Hs Ht]] Hd]. destruct (nonce_for_inv cfg port_ok k r Hi) as [Hi' Hn].
  split; [|done]. split; [split; [done|split]|]; unfold nonce_for, mbind, M_bind, gets, ask, modify;
    destruct (r_nonces r !! k); cbn; first [done|lia].
Qed.

Lemma record_dom D t p nonce ack :
  port_ok t -> allowed (mc_mode cfg) p -> ack_ok p ack -> length nonce = PCP_NONCE_LEN ->
  triple (DomIs D) (record_mapping t p nonce ack) (fun _ => DomIs (<[target_key t := t]> D)).
Proof.
  intros Ht Hp Hack Hn r [[Hi [Hs Htick]] Hd]. split; [split; [|split]|].
  - by apply (record_mapping_inv cfg port_ok t p nonce ack).
  - done.
  - unfold record_mapping. rewrite bind_run. cbn. lia.
  - unfold record_mapping. rewrite bind_run. cbn. by rewrite fmap_insert, Hd.
Qed.

Lemma inline_dom D t : port_ok t -> triple (DomIs D) (send_map_request_inline t) (fun _ => DomIs (<[target_key t := t]> D)).
Proof.
  intros Ht. unfold send_map_request_inline. eapply triple_bind; [apply nonce_for_dom|].
  intros nonce. apply triple_pure. intros Hn. eapply triple_bind; [apply triple_gets|]. intros cur.
  eapply (triple_weaken (fun r => DomIs D r /\ allowed (mc_mode cfg) (default PPcp cur)));
    [|intros r [Hr ->]; split; [done|]; destruct (mi_protocol _ _ r (proj1 (proj1 Hr))) as (p & -> & Hp); exact Hp
     |by intros ?? Hq; exact Hq].
  apply triple_pure. intros Hp. eapply triple_bind; [by apply try_grants|].
  intros o. apply triple_pure. intros (ack & e & -> & Hack & _). by apply record_dom.
Qed.

(** The table after the targets of a list are mapped in turn. *)
Definition map_all (ts : list MappingTarget) (D : Held) : Held :=
  foldl (fun D t => <[target_key t := t]> D) D ts.

Lemma map_all_out ts k : forall D, k ∉ target_key <$> ts -> map_all ts D !! k = D !! k.
Proof.
  induction ts as [|t ts IH]; intros D Hk; [done|]. cbn in *. apply not_elem_of_cons in Hk as [Hk Hks].
  fold (map_all ts (<[target_key t := t]> D)). rewrite IH by done. by apply lookup_insert_ne.
Qed.

Lemma map_all_in ts t : forall D, NoDup (target_key <$> ts) -> t ∈ ts -> map_all ts D !! target_key t = Some t.
Proof.
  induction ts as [|t' ts IH]; intros D Hnd Hin; [by apply elem_of_nil in Hin|].
  cbn in *. apply NoDup_cons in Hnd as [Hno Hnd]. fold (map_all ts (<[target_key t' := t']> D)).
  apply elem_of_cons in Hin as [->|Hin]; [|by apply IH]. rewrite map_all_out by done. apply lookup_insert_eq.
Qed.

Lemma for_each_dom (f : MappingTarget -> M unit) ts : forall D,
  (forall D t, port_ok t -> triple (DomIs D) (f t) (fun _ => DomIs (<[target_key t := t]> D))) ->
  Forall port_ok ts ->
  triple (DomIs D) (for_each f ts) (fun _ => DomIs (map_all ts D)).
Proof.
  induction ts as [|t ts IH]; intros D Hf Hts; cbn.
  - by apply triple_ret.
  - apply Forall_cons_iff in Hts as [Ht Hts]. eapply triple_bind; [by apply Hf|]. intros []. by apply IH.
Qed.

(** A list of a table's values, each under its own key, has no key twice. *)
Lemma values_nodup {V} (f : V -> MappingKey) (m : gmap MappingKey V) l :
  (forall k v, m !! k = Some v -> f v = k) -> l ≡ₚ map_to_list m -> NoDup (f <$> l.*2).
Proof.
  intros Hf ->. replace (f <$> (map_to_list m).*2) with ((map_to_list m).*1); [apply NoDup_fst_map_to_list|].
  rewrite <- list_fmap_compose. apply list_fmap_ext. intros i [k v] Hi. cbn. symmetry. apply Hf.
  apply elem_of_map_to_list. by eapply list_elem_of_lookup_2.
Qed.

(** Mapping the held targets again from an empty table gives the same table. *)
Lemma mapped_again r ms :
  Inv r -> ms ≡ₚ (map_to_list (r_mappings r)).*2 ->
  map_all (am_target <$> ms) ∅ = am_target <$> r_mappings r /\ Forall port_ok (am_target <$> ms).
Proof.
  intros Hi Hms. pose proof (fun k m Hm => mo_key _ _ _ _ (mi_mappings _ _ r Hi k m Hm)) as Hkey. split.
  - assert (NoDup (target_key <$> (am_target <$> ms))) as Hnd.
    { rewrite Hms, <- list_fmap_compose. by apply (values_nodup _ (r_mappings r)). }
    apply map_eq. intros k. rewrite lookup_fmap. destruct (r_mappings r !! k) as [m|] eqn:Hm; cbn.
    + rewrite <- (Hkey _ _ Hm). apply map_all_in; [done|]. apply list_elem_of_fmap_2. rewrite Hms.
      apply (list_elem_of_fmap_2 snd _ (k, m)). by apply elem_of_map_to_list.
    + rewrite map_all_out; [apply lookup_empty|]. rewrite Hms.
      intros (t & -> & (m & -> & ([k' m'] & -> & Hm'%elem_of_map_to_list)%list_elem_of_fmap)%list_elem_of_fmap)%list_elem_of_fmap.
      cbn in Hm. rewrite (Hkey _ _ Hm') in Hm. congruence.
  - rewrite Hms. apply Forall_fmap. exact (mapped_targets _ _ r Hi).
Qed.

Lemma note_epoch_dom D e : fits 32 e -> triple (DomIs D) (note_epoch e) (fun _ => DomIs D).
Proof.
  intros He r Hr. pose proof Hr as [[Hi Hs] Hd].
  unfold note_epoch, mbind, M_bind, gets, iter_order, ask, modify. cbn.
  destruct (epoch_regressed (r_epoch r) e); cbn.
  - set (ms := hash_order _ _ _). destruct (mapped_again r ms Hi (hash_order_perm _ _ _)) as [Hkeys Hports].
    set (r0 := set_epoch _ _).
    assert (DomIs ∅ r0) as H0.
    { split; [split; [|split]|]; [|exact (proj1 Hs)|pose proof (proj2 Hs); cbn; lia|apply fmap_empty]. destruct Hi.
      constructor; cbn; first [done|unfold fits in *; lia|apply map_Forall_empty|by intros e' [= <-]]. }
    pose proof (for_each_dom send_map_request_inline (am_target <$> ms) ∅ inline_dom Hports r0 H0) as Hf.
    by rewrite Hkeys, Hd in Hf.
  - split; [split; [|done]|done]. destruct Hi. constructor; cbn; try done. by intros e' [= <-].
Qed.

Lemma on_granted_dom D t nonce p ack e :
  port_ok t -> allowed (mc_mode cfg) p -> ack_ok p ack -> length nonce = PCP_NONCE_LEN -> fits 32 e ->
  triple (DomIs D) (on_granted t nonce p ack e) (fun _ => DomIs (<[target_key t := t]> D)).
Proof.
  intros Ht Hp Hack Hn He. unfold on_granted.
  eapply triple_bind; [by apply note_epoch_dom|]. intros []. eapply triple_bind.
  { apply (keeps_modify (DomIs D)). intros r [[[] Hs] Hd]. split; [split; [|done]|done]. constructor; cbn; eauto. }
  intros []. eapply triple_bind; [by apply record_dom|]. intros []. apply triple_modify.
  intros r [[[] [Hs Htk]] Hd]. destruct (ack_external_addr ack); (split; [split; [|by split]|done]);
    constructor; cbn; first [done|unfold fits, ERROR_THRESHOLD_TO_BACKOFF in *; lia].
Qed.

Lemma try_protocols_dom D t nonce last p ps :
  port_ok t -> allowed (mc_mode cfg) p -> length nonce = PCP_NONCE_LEN ->
  triple (DomIs D) (try_protocols t nonce last (p :: ps)) (fun o r => DomIs (<[target_key t := t]> D) r /\ o = None).
Proof.
  intros Ht Hp Hn. cbn [try_protocols]. eapply triple_bind; [by apply try_grants|].
  intros o. apply triple_pure. intros (ack & e & -> & Hack & He).
  eapply triple_bind; [by apply on_granted_dom|]. intros []. by apply triple_ret.
Qed.

Lemma protocols_head mode cur : mode <> NatOff -> (forall p, cur = Some p -> allowed mode p) ->
  exists p ps, protocols_to_try mode cur = p :: ps /\ allowed mode p.
Proof. destruct mode, cur as [[]|]; cbn; intros; eauto; done. Qed.

Lemma send_map_request_dom D t : mc_mode cfg <> NatOff -> port_ok t ->
  triple (DomIs D) (send_map_request t) (fun _ => DomIs (<[target_key t := t]> D)).
Proof.
  intros Hmode Ht. unfold send_map_request. eapply triple_bind; [apply nonce_for_dom|].
  intros nonce. apply triple_pure. intros Hn. eapply triple_bind; [apply triple_gets|]. intros mode.
  eapply (triple_weaken (fun r => DomIs D r /\ mode = mc_mode cfg));
    [|intros r [Hr ->]; split; [done|]; by rewrite (mi_cfg _ _ r (proj1 (proj1 Hr)))|by intros ?? Hq; exact Hq].
  apply triple_pure. intros ->.
  assert (triple (DomIs D) (cur ← gets r_protocol;
      failed ← try_protocols t nonce None (protocols_to_try (mc_mode cfg) cur);
      match failed with None => mret tt | Some e => on_refused (target_key t) e end)
    (fun _ => DomIs (<[target_key t := t]> D))) as Hall; [|by destruct (mc_mode cfg)].
  eapply triple_bind; [apply triple_gets|]. intros cur.
  eapply (triple_weaken (fun r => DomIs D r /\ forall p, cur = Some p -> allowed (mc_mode cfg) p)); [| |by intros ?? Hq; exact Hq].
  2:{ intros r [Hr ->]. split; [done|]. intros p Hp. destruct (mi_protocol _ _ r (proj1 (proj1 Hr))) as (p' & Hp' & Ha). congruence. }
  apply triple_pure. intros Hcur. destruct (protocols_head _ _ Hmode Hcur) as (p & ps & -> & Hp).
  eapply triple_bind; [by apply try_protocols_dom|]. intros o. apply triple_pure. intros ->. by apply triple_ret.
Qed.

(** Dropping a key. *)
Lemma release_one_dom D m : keeps (DomIs D) (release_one m).
Proof.
  unfold release_one. apply keeps_bind; [apply keeps_gets|]. intros known.
  apply keeps_bind; [apply keeps_try_unmap_via, DomIs_quiet|]. intros o. apply keeps_modify.
  intros r [[[] Hs] Hd]. split; [split; [|done]|done]. constructor; cbn; try done. by apply map_Forall_delete.
Qed.

Lemma drop_dom D k :
  triple (DomIs D) (found ← gets (fun r => r_mappings r !! k);
     match found with
     | Some m => _ ← modify (fun r => set_mappings (delete k (r_mappings r)) r); release_one m
     | None => mret tt
     end) (fun _ => DomIs (delete k D)).
Proof.
  eapply triple_bind; [apply triple_gets|]. intros [m|].
  - eapply (triple_bind _ (fun _ => DomIs (delete k D))); [|intros []; apply release_one_dom]. apply triple_modify.
    intros r [[[[] Hs] Hd] Hm]. split; [split; [|done]|cbn; by rewrite fmap_delete, Hd].
    constructor; cbn; try done. by apply map_Forall_delete.
  - apply triple_ret. intros r [[Hi Hd] Hm]. split; [done|]. rewrite Hd.
    symmetry. apply delete_id. by rewrite <- Hd, lookup_fmap, <- Hm.
Qed.

Definition drop_all (ks : list MappingKey) (D : Held) : Held := foldl (fun D k => delete k D) D ks.

Lemma drop_all_lookup ks k : forall D, drop_all ks D !! k = if bool_decide (k ∈ ks) then None else D !! k.
Proof.
  induction ks as [|k' ks IH]; intros D; cbn; [done|]. fold (drop_all ks (delete k' D)). rewrite IH.
  repeat case_bool_decide; set_unfold; try done; [by exfalso; auto| |].
  - destruct (decide (k = k')) as [->|Hne]; [apply lookup_delete_eq|exfalso; tauto].
  - apply lookup_delete_ne. intros ->. tauto.
Qed.

Lemma drops_dom ks : forall D,
  triple (DomIs D) (for_each (fun k => found ← gets (fun r => r_mappings r !! k);
     match found with
     | Some m => _ ← modify (fun r => set_mappings (delete k (r_mappings r)) r); release_one m
     | None => mret tt
     end) ks) (fun _ => DomIs (drop_all ks D)).
Proof.
  induction ks as [|k ks IH]; intros D; cbn [for_each].
  - by apply triple_ret.
  - eapply triple_bind; [apply drop_dom|]. intros []. apply IH.
Qed.

Lemma triple_dom {A} P (m : M A) Q :
  (forall D, triple (fun r => P r /\ am_target <$> r_mappings r = D) m Q) -> triple P m Q.
Proof. intros Hm r Hr. by apply (Hm (am_target <$> r_mappings r)). Qed.

Lemma triple_order {A} D (l : list A) : triple (DomIs D) (iter_order l) (fun l' r => DomIs D r /\ l' ≡ₚ l).
Proof.
  intros r Hr. split; [|apply hash_order_perm]. exact (keeps_ask (DomIs D) (DomIs_quiet D) _ r Hr).
Qed.

Lemma publish_dom D : keeps (DomIs D) publish_snapshot.
Proof. apply keeps_modify. intros r [[[] Hs] Hd]. split; [split; [|done]|done]. by constructor. Qed.

(** What a pass over the wanted targets [ds] leaves under a key: what was
    there when the key is still wanted, and the wanted target otherwise. *)
Definition passed (ds : list MappingTarget) (D : Held) (k : MappingKey) : option MappingTarget :=
  t ← first_by_key ds !! k; Some (default t (D !! k)).

Lemma pass_table (D : Held) (ds : list MappingTarget) (held : gmap MappingKey ActiveMapping)
    (wanted : list (MappingKey * MappingTarget)) (keys : list MappingKey) (k : MappingKey) :
  (forall k, k ∈ keys <-> is_Some (D !! k)) -> wanted ≡ₚ map_to_list (first_by_key ds) ->
  am_target <$> held = drop_all (filter (fun k => first_by_key ds !! k = None) keys) D ->
  map_all (snd <$> filter (fun kt => held !! fst kt = None) wanted) (am_target <$> held) !! k = passed ds D k.
Proof.
  intros Hkeys Hw Hheld. unfold passed.
  assert (am_target <$> held !! k = if bool_decide (first_by_key ds !! k = None) then None else D !! k) as Hk.
  { rewrite <- lookup_fmap, Hheld, drop_all_lookup. repeat case_bool_decide; try done; rewrite list_elem_of_filter in *; [naive_solver|].
    destruct (D !! k) eqn:HD; [|done]. exfalso. apply H0. split; [done|]. apply Hkeys. by eexists. }
  assert (forall t, t ∈ snd <$> filter (fun kt => held !! fst kt = None) wanted <->
    held !! target_key t = None /\ first_by_key ds !! target_key t = Some t) as Hin.
  { intros t. rewrite list_elem_of_fmap. split.
    - intros ([k' t'] & -> & [Hno Hin]%list_elem_of_filter). rewrite Hw, elem_of_map_to_list in Hin. cbn in *.
      by destruct (first_by_key_lookup _ _ _ Hin) as [-> _].
    - intros [Hno Ht]. exists (target_key t, t). split; [done|]. apply list_elem_of_filter. split; [done|].
      by rewrite Hw, elem_of_map_to_list. }
  destruct (first_by_key ds !! k) as [t|] eqn:Hl; [destruct (held !! k) as [m|] eqn:Hh|]; cbn in *.
  - rewrite <- Hk. cbn. rewrite map_all_out, lookup_fmap, Hh; [done|].
    intros (t' & -> & [Hno _]%Hin)%list_elem_of_fmap. congruence.
  - rewrite <- Hk. cbn. destruct (first_by_key_lookup _ _ _ Hl) as [<- _]. apply map_all_in; [|by apply Hin].
    apply (sublist_NoDup _ (target_key <$> wanted.*2)).
    + apply (values_nodup _ (first_by_key ds)); [|done]. by intros k' t' [? _]%first_by_key_lookup.
    + by apply fmap_sublist, fmap_sublist, sublist_filter.
  - rewrite map_all_out; [by rewrite lookup_fmap|].
    intros (t' & -> & [_ Hf]%Hin)%list_elem_of_fmap. congruence.
Qed.

Lemma elem_of_keys {V} (m : gmap MappingKey V) k : k ∈ (map_to_list m).*1 <-> k ∈ dom m.
Proof.
  rewrite elem_of_dom. split.
  - intros ([k' v] & -> & Hv%elem_of_map_to_list)%list_elem_of_fmap. by eexists.
  - intros [v Hv]. apply (list_elem_of_fmap_2 fst _ (k, v)). by apply elem_of_map_to_list.
Qed.

Lemma ensure_socket_run D s :
  triple (fun r => (Inv r /\ (n0 <= r_tick r)%nat) /\ am_target <$> r_mappings r = D /\ r_rules r = s) ensure_rpc_socket
  (fun ok r => (DomIs D r /\ r_rules r = s) /\ ok = true).
Proof.
  intros r [[Hi Ht] [Hd Hs]]. unfold ensure_rpc_socket. rewrite bind_run. cbn. unfold DomIs, ready, has_socket.
  destruct (r_socket r) eqn:Hr; cbn; [done|]. rewrite bind_run. cbn. rewrite grant_bind, bind_run by done. cbn.
  split_and!; try done; [|lia]. destruct Hi. by constructor.
Qed.

(** After a pass the table is what [passed] says, for some order in which the
    wanted targets are visited. *)
Lemma reconcile_dom D s :
  mc_mode cfg <> NatOff -> (forall t, t ∈ te_targets (desired_for cfg s) -> port_ok t) ->
  triple (fun r => (Inv r /\ (n0 <= r_tick r)%nat) /\ am_target <$> r_mappings r = D /\ r_rules r = s) reconcile_targets
    (fun _ r => Inv r /\ exists ds, ds ≡ₚ elements (te_targets (desired_for cfg s)) /\
       forall k, am_target <$> r_mappings r !! k = passed ds D k).
Proof.
  intros Hmode Hports. unfold reconcile_targets.
  eapply triple_bind; [apply ensure_socket_run|]. intros ok. apply triple_pure. intros ->. cbn [negb].
  eapply triple_bind; [apply triple_gets|]. intros en.
  eapply (triple_weaken (fun r => DomIs D r /\ en = desired_for cfg s)); [| |by intros ?? Hq; exact Hq].
  2:{ intros r [[Hi Hr] ->]. split; [done|]. unfold desired_enumeration. by rewrite Hr, (mi_cfg _ _ r (proj1 (proj1 Hi))). }
  apply triple_pure. intros ->. eapply triple_bind.
  { apply (keeps_modify (DomIs D)). intros r [[[] Hs] Hd]. split; [split; [|done]|done]. by constructor. }
  intros []. eapply triple_bind; [apply triple_order|]. intros ds. apply triple_pure. intros Hds.
  eapply triple_bind; [apply triple_gets|]. intros keys0.
  eapply (triple_weaken (fun r => DomIs D r /\ forall k, k ∈ keys0 <-> is_Some (D !! k))); [| |by intros ?? Hq; exact Hq].
  2:{ intros r [Hr ->]. split; [done|]. intros k. rewrite elem_of_keys, elem_of_dom. destruct Hr as [_ <-].
      rewrite lookup_fmap. symmetry. apply fmap_is_Some. }
  apply triple_pure. intros Hkeys0. eapply triple_bind; [apply triple_order|]. intros keys. apply triple_pure. intros Hkeys.
  eapply triple_bind; [apply drops_dom|]. intros [].
  eapply triple_bind; [apply triple_gets|]. intros held.
  set (D1 := drop_all _ D). eapply (triple_weaken (fun r => DomIs D1 r /\ am_target <$> held = D1)); [| |by intros ?? Hq; exact Hq].
  2:{ intros r [Hr ->]. split; [done|]. by destruct Hr as [_ ->]. }
  apply triple_pure. intros Hheld. eapply triple_bind; [apply triple_order|]. intros wanted. apply triple_pure. intros Hw.
  eapply triple_bind.
  { apply (for_each_dom send_map_request); [intros; by apply send_map_request_dom|].
    apply Forall_fmap, Forall_forall. intros [k t] [_ Hin]%list_elem_of_filter. cbn.
    rewrite Hw, elem_of_map_to_list in Hin. apply first_by_key_lookup in Hin as [_ Hin].
    apply Hports. by rewrite Hds, elem_of_elements in Hin. }
  intros []. eapply triple_weaken; [apply publish_dom|by intros r Hr; exact Hr|].
  intros [] r [[Hi _] Hr]. split; [done|]. exists ds. split; [done|]. intros k. rewrite <- lookup_fmap, Hr, <- Hheld.
  apply (pass_table D ds held wanted keys); [by intros k'; rewrite Hkeys|done|done].
Qed.

End Convergence.

(** ** Cost of a request *)

Section Cost.
Context `{UrlLib} {W : World}.

(** Datagrams sent and nanoseconds waited, at most. *)
Definition Cost (a : nat) (w : Z) (r : Reconciler) : Prop := (length (r_sent r) <= a)%nat /\ r_wait r <= w.

Lemma send_cost a w buf : triple (Cost a w) (socket_send buf) (fun _ => Cost (S a) w).
Proof.
  intros r [Ha Hw]. rewrite socket_send_run. cbn. destruct (send_ok _); split; cbn; try rewrite length_app; cbn; lia.
Qed.

Lemma recv_cost a w buf rt : triple (Cost a w) (socket_recv buf rt) (fun _ => Cost a (w + rt)).
Proof. intros r [Ha Hw]. rewrite socket_recv_run. split; cbn; lia. Qed.

Lemma cost_weaken {A} a b w v (a' w' : _) (m : M A) :
  triple (Cost a w) m (fun _ => Cost b v) -> (b <= a')%nat -> v <= w' -> triple (Cost a w) m (fun _ => Cost a' w').
Proof. intros Hm Hb Hv r Hr. destruct (Hm r Hr). split; lia. Qed.

Lemma cost_ret {A} a w a' w' (x : A) : (a <= a')%nat -> w <= w' -> triple (Cost a w) (mret x) (fun _ => Cost a' w').
Proof. intros Ha Hw. apply triple_ret. intros r []. split; lia. Qed.

Lemma doubling n : 2 ^ Z.of_nat (S n) = 2 * 2 ^ Z.of_nat n /\ 0 < 2 ^ Z.of_nat n.
Proof. rewrite Nat2Z.inj_succ, Z.pow_succ_r by lia. split; [done|]. apply Z.pow_pos_nonneg; lia. Qed.

(** [n] attempts, the timeout doubling from [rt]. *)
Lemma pcp_rpc_cost n buf nonce : forall a w rt, 0 <= rt ->
  triple (Cost a w) (pcp_rpc_loop n buf nonce rt) (fun _ => Cost (a + n) (w + rt * (2 ^ Z.of_nat n - 1))).
Proof.
  induction n as [|n IH]; intros a w rt Hrt; cbn [pcp_rpc_loop]; [apply cost_ret; cbn; lia|].
  destruct (doubling n) as [-> Hpos].
  eapply triple_bind; [apply send_cost|]. intros [|]; cbn [negb]; [|apply cost_ret; nia].
  eapply triple_bind; [apply recv_cost|]. intros [bytes| |]; [|apply cost_ret; nia|].
  - destruct (pcp_decode_map_response _); [|apply cost_ret; nia]. destruct (negb _); [|apply cost_ret; nia].
    eapply cost_weaken; [by apply IH|lia|nia].
  - eapply cost_weaken; [apply IH; lia|lia|nia].
Qed.

Lemma natpmp_rpc_cost n buf : forall a w rt, 0 <= rt ->
  triple (Cost a w) (natpmp_rpc_loop n buf rt) (fun _ => Cost (a + n) (w + rt * (2 ^ Z.of_nat n - 1))).
Proof.
  induction n as [|n IH]; intros a w rt Hrt; cbn [natpmp_rpc_loop]; [apply cost_ret; cbn; lia|].
  destruct (doubling n) as [-> Hpos].
  eapply triple_bind; [apply send_cost|]. intros [|]; cbn [negb]; [|apply cost_ret; nia].
  eapply triple_bind; [apply recv_cost|]. intros [bytes| |]; [|apply cost_ret; nia|].
  - destruct (natpmp_decode_map_response _); apply cost_ret; nia.
  - eapply cost_weaken; [apply IH; lia|lia|nia].
Qed.

(** What one RPC may wait: 2 + 4 + 8 seconds. *)
Definition RPC_BUDGET : Z := Time.from_secs 14.

Lemma try_map_cost a w p t nonce :
  triple (Cost a w) (try_map_via p t nonce) (fun _ => Cost (a + 3) (w + RPC_BUDGET)).
Proof.
  unfold try_map_via. eapply (triple_bind _ (fun _ => Cost a w)); [apply keeps_gets|]. intros [|]; cbn [negb].
  - destruct p.
    + eapply triple_bind; [|intros o; apply triple_ret; intros r Hr; exact Hr].
      by eapply cost_weaken; [apply (pcp_rpc_cost RPC_MAX_RETRIES)| |].
    + eapply triple_bind; [|intros o; apply triple_ret; intros r Hr; exact Hr].
      by eapply cost_weaken; [apply (natpmp_rpc_cost RPC_MAX_RETRIES)| |].
  - apply cost_ret; unfold RPC_BUDGET, Time.from_secs, Time.NANOS_PER_SEC; lia.
Qed.

Lemma cost_quiet {A} a w (m : M A) : (forall r, r_sent (snd (m r)) = r_sent r /\ r_wait (snd (m r)) = r_wait r) ->
  triple (Cost a w) m (fun _ => Cost a w).
Proof. intros Hm r [Ha Hw]. destruct (Hm r) as [Hs Hv]. split; [by rewrite Hs|by rewrite Hv]. Qed.

Lemma nonce_for_cost a w k : triple (Cost a w) (nonce_for k) (fun _ => Cost a w).
Proof.
  apply cost_quiet. intros r. unfold nonce_for. rewrite bind_run. cbn. by destruct (r_nonces r !! k).
Qed.

Lemma inline_cost a w t : triple (Cost a w) (send_map_request_inline t) (fun _ => Cost (a + 3) (w + RPC_BUDGET)).
Proof.
  unfold send_map_request_inline. eapply triple_bind; [apply nonce_for_cost|]. intros nonce.
  eapply (triple_bind _ (fun _ => Cost a w)); [apply keeps_gets|]. intros cur.
  eapply triple_bind; [apply try_map_cost|]. intros [[ack e]|]; [|apply triple_ret; by intros r Hr].
  by apply cost_quiet.
Qed.

Lemma inlines_cost ts : forall a w,
  triple (Cost a w) (for_each send_map_request_inline ts)
    (fun _ => Cost (a + 3 * length ts) (w + RPC_BUDGET * zlen ts)).
Proof.
  unfold zlen. induction ts as [|t ts IH]; intros a w; cbn [for_each length]; [apply cost_ret; cbn; lia|].
  eapply triple_bind; [apply inline_cost|]. intros []. eapply cost_weaken; [apply IH|lia|lia].
Qed.

Context `{!WorldLaws W}.

(** With [m] mappings held, an epoch costs at most a request per mapping. *)
Definition CostSize (a : nat) (w : Z) (m : nat) (r : Reconciler) : Prop := Cost a w r /\ size (r_mappings r) = m.

Lemma rpc_budget_nonneg : 0 <= RPC_BUDGET.
Proof. done. Qed.

Lemma note_epoch_cost a w e m :
  triple (CostSize a w m) (note_epoch e) (fun _ => Cost (a + 3 * m) (w + RPC_BUDGET * Z.of_nat m)).
Proof.
  intros r [Hc Hm]. pose proof rpc_budget_nonneg as Hb. unfold note_epoch. rewrite bind_run. cbn.
  destruct (epoch_regressed (r_epoch r) e); [|destruct Hc; split; cbn; nia].
  rewrite bind_run. cbn. rewrite bind_run. cbn. rewrite bind_run. cbn.
  set (ms := hash_order _ _ _). set (r0 := set_epoch _ _).
  assert (length (am_target <$> ms) = m) as Hlen.
  { unfold ms. rewrite length_fmap, (Permutation_length (hash_order_perm _ _ _)), length_fmap. by rewrite length_map_to_list. }
  pose proof (inlines_cost (am_target <$> ms) a w r0 Hc) as Hf. unfold zlen in Hf. by rewrite Hlen in Hf.
Qed.

Lemma try_map_cost_size a w m p t nonce :
  triple (CostSize a w m) (try_map_via p t nonce) (fun _ => CostSize (a + 3) (w + RPC_BUDGET) m).
Proof.
  intros r [Hc Hm]. split; [by apply try_map_cost|].
  by apply (keeps_try_map_via (fun r => size (r_mappings r) = m) ltac:(by intros ?????) p t nonce r).
Qed.

Lemma on_granted_cost a w m t nonce p ack e :
  triple (CostSize a w m) (on_granted t nonce p ack e) (fun _ => Cost (a + 3 * m) (w + RPC_BUDGET * Z.of_nat m)).
Proof.
  unfold on_granted. eapply triple_bind; [apply note_epoch_cost|]. intros [].
  eapply triple_bind; [by apply cost_quiet|]. intros []. eapply triple_bind; [by apply cost_quiet|]. intros [].
  apply cost_quiet. intros r. by destruct (ack_external_addr ack).
Qed.

Lemma try_protocols_cost m t nonce ps : forall a w last,
  triple (CostSize a w m) (try_protocols t nonce last ps)
    (fun _ => Cost (a + 3 * length ps + 3 * m) (w + RPC_BUDGET * Z.of_nat (length ps) + RPC_BUDGET * Z.of_nat m)).
Proof.
  pose proof rpc_budget_nonneg as Hb.
  induction ps as [|p ps IH]; intros a w last; cbn [try_protocols length].
  { apply triple_ret. intros r [[Ha Hw] _]. split; [lia|nia]. }
  eapply triple_bind; [apply try_map_cost_size|]. intros [[ack e]|err].
  - eapply triple_bind; [apply on_granted_cost|]. intros []. apply cost_ret; nia.
  - eapply (triple_bind _ (fun _ => CostSize (a + 3) (w + RPC_BUDGET) m)); [apply keeps_gets|]. intros mode.
    assert (triple (CostSize (a + 3) (w + RPC_BUDGET) m) (mret (Some err) : M (option RpcError))
      (fun _ => Cost (a + 3 * S (length ps) + 3 * m) (w + RPC_BUDGET * Z.of_nat (S (length ps)) + RPC_BUDGET * Z.of_nat m))) as Hret.
    { apply triple_ret. intros r [[Ha Hw] _]. split; nia. }
    destruct mode, p; try exact Hret. destruct (rpc_should_fall_back err); [|exact Hret].
    eapply triple_weaken; [apply (IH (a + 3)%nat (w + RPC_BUDGET))|by intros r Hr|]. intros o r [Ha Hw]. split; nia.
Qed.

Lemma on_refused_cost a w k e : triple (Cost a w) (on_refused k e) (fun _ => Cost a w).
Proof.
  apply cost_quiet. intros r. unfold on_refused. rewrite bind_run. cbn [modify fst snd].
  destruct (rpc_is_transient e); rewrite bind_run; cbn [modify mret M_ret fst snd]; rewrite bind_run; cbn [gets fst snd];
    by destruct (_ <=? _).
Qed.

Lemma protocols_length mode cur : (length (protocols_to_try mode cur) <= 2)%nat.
Proof. destruct mode, cur as [[]|]; cbn; lia. Qed.

Lemma send_map_request_cost a w m t :
  triple (CostSize a w m) (send_map_request t)
    (fun _ => Cost (a + 6 + 3 * m) (w + RPC_BUDGET * 2 + RPC_BUDGET * Z.of_nat m)).
Proof.
  pose proof rpc_budget_nonneg as Hb. unfold send_map_request. eapply (triple_bind _ (fun _ => CostSize a w m)).
  { intros r [Hc Hm]. split; [by apply nonce_for_cost|]. unfold nonce_for. rewrite bind_run. cbn.
    by destruct (r_nonces r !! _). }
  intros nonce. eapply (triple_bind _ (fun _ => CostSize a w m)); [apply keeps_gets|]. intros mode.
  assert (triple (CostSize a w m) (cur ← gets r_protocol; failed ← try_protocols t nonce None (protocols_to_try mode cur);
    match failed with None => mret tt | Some e => on_refused (target_key t) e end)
    (fun _ => Cost (a + 6 + 3 * m) (w + RPC_BUDGET * 2 + RPC_BUDGET * Z.of_nat m))) as Hall.
  { eapply (triple_bind _ (fun _ => CostSize a w m)); [apply keeps_gets|]. intros cur.
    pose proof (protocols_length mode cur) as Hl. set (ps := protocols_to_try mode cur) in *.
    eapply (triple_bind _ (fun _ => Cost (a + 6 + 3 * m) (w + RPC_BUDGET * 2 + RPC_BUDGET * Z.of_nat m))).
    - eapply triple_weaken; [apply (try_protocols_cost m t nonce ps a w)|by intros r Hr|].
      intros o r [Ha Hw]. split; nia.
    - intros [e|]; [apply on_refused_cost|]. by apply triple_ret. }
  by destruct mode.
Qed.

End Cost.

(** ** Ticks in the active state *)

Section ActiveTicks.
Context `{UrlLib} {W : World} `{!WorldLaws W}.
Context (D : gset MappingKey).

(** Every mapping sits under its own key, and the keys are in [D]. *)
Definition Within (r : Reconciler) : Prop :=
  map_Forall (fun k m => k ∈ D /\ target_key (am_target m) = k) (r_mappings r).

Lemma Within_quiet : quiet Within.
Proof. by intros ??????. Qed.

Lemma record_within t p nonce ack : target_key t ∈ D -> keeps Within (record_mapping t p nonce ack).
Proof.
  intros Ht. unfold record_mapping, now. apply keeps_bind; [apply keeps_ask, Within_quiet|]. intros at_.
  apply keeps_modify. intros r Hr. by apply map_Forall_insert_2.
Qed.

Lemma nonce_for_within k : keeps Within (nonce_for k).
Proof. intros r Hr. unfold nonce_for. rewrite bind_run. cbn. by destruct (r_nonces r !! k). Qed.

Lemma inline_within t : target_key t ∈ D -> keeps Within (send_map_request_inline t).
Proof.
  intros Ht. unfold send_map_request_inline. apply keeps_bind; [apply nonce_for_within|]. intros nonce.
  apply keeps_bind; [apply keeps_gets|]. intros cur. apply keeps_bind; [apply keeps_try_map_via, Within_quiet|].
  intros [[ack e]|]; [by apply record_within|apply keeps_ret].
Qed.

Lemma note_epoch_within e : keeps Within (note_epoch e).
Proof.
  intros r Hr. unfold note_epoch. rewrite bind_run. cbn. destruct (epoch_regressed _ _); [|done].
  rewrite bind_run. cbn. rewrite bind_run. cbn. rewrite bind_run. cbn.
  set (ms := hash_order _ _ _). set (r0 := set_epoch _ _).
  assert (Within r0) as H0 by apply map_Forall_empty.
  refine (keeps_for_each Within _ _ _ r0 H0). intros t (m & -> & Hm)%list_elem_of_fmap. apply inline_within.
  unfold ms in Hm. rewrite hash_order_perm in Hm. apply list_elem_of_fmap in Hm as ([k m'] & -> & Hm%elem_of_map_to_list).
  cbn. by destruct (Hr _ _ Hm) as [? ->].
Qed.

Lemma try_protocols_within t nonce ps : target_key t ∈ D -> forall last, keeps Within (try_protocols t nonce last ps).
Proof.
  intros Ht. induction ps as [|p ps IH]; intros last; cbn [try_protocols]; [apply keeps_ret|].
  apply keeps_bind; [apply keeps_try_map_via, Within_quiet|]. intros [[ack e]|err].
  - apply keeps_bind; [|intros; apply keeps_ret]. unfold on_granted.
    apply keeps_bind; [apply note_epoch_within|]. intros []. apply keeps_bind; [by apply keeps_modify|]. intros [].
    apply keeps_bind; [by apply record_within|]. intros []. apply keeps_modify. intros r Hr.
    by destruct (ack_external_addr ack).
  - apply keeps_bind; [apply keeps_gets|]. intros mode. destruct mode, p; try apply keeps_ret.
    apply keeps_if; [apply IH|apply keeps_ret].
Qed.

Lemma on_refused_within k e : keeps Within (on_refused k e).
Proof.
  unfold on_refused. apply keeps_bind; [by apply keeps_modify|]. intros []. apply keeps_bind.
  { apply keeps_if; [apply keeps_ret|]. apply keeps_modify. intros r Hr. by apply map_Forall_delete. }
  intros []. apply keeps_bind; [apply keeps_gets|]. intros n. apply keeps_if; [by apply keeps_modify|apply keeps_ret].
Qed.

Lemma send_map_request_within t : target_key t ∈ D -> keeps Within (send_map_request t).
Proof.
  intros Ht. unfold send_map_request. apply keeps_bind; [apply nonce_for_within|]. intros nonce.
  apply keeps_bind; [apply keeps_gets|]. intros mode.
  assert (keeps Within (cur ← gets r_protocol; failed ← try_protocols t nonce None (protocols_to_try mode cur);
    match failed with None => mret tt | Some e => on_refused (target_key t) e end)) as Hall.
  { apply keeps_bind; [apply keeps_gets|]. intros cur. apply keeps_bind; [by apply try_protocols_within|].
    intros [e|]; [apply on_refused_within|apply keeps_ret]. }
  destruct mode; [apply keeps_ret|exact Hall..].
Qed.

Lemma refresh_within : keeps Within refresh_due_mappings.
Proof.
  unfold refresh_due_mappings, now, iter_order. apply keeps_bind; [apply keeps_ask, Within_quiet|]. intros at_.
  apply keeps_bind; [apply keeps_gets|]. intros all. apply keeps_bind; [apply keeps_ask, Within_quiet|]. intros all'.
  apply keeps_bind; [|intros; by apply keeps_modify]. apply keeps_for_each. intros k _.
  eapply triple_bind; [apply triple_gets|]. intros [m|]; [|apply triple_ret; by intros r []].
  eapply (triple_weaken (fun r => Within r /\ target_key (am_target m) ∈ D));
    [apply triple_pure; apply send_map_request_within| |by intros ?? Hq; exact Hq].
  intros r [Hr Hm]. split; [done|]. symmetry in Hm. destruct (Hr k m Hm) as [Hk Hkey]. by rewrite Hkey.
Qed.

End ActiveTicks.

(** ** Concrete worlds *)

Module MapperDemo.

(** A gateway that grants what is asked, with its own epoch. *)
Definition reply_to (epoch : Z) (buf : list byte) : list byte :=
  if byte_at buf 0 =? 2 then
    pcp_response_bytes
      (mkPcpMapResponse PcpSuccess epoch 3600 (slice buf 24 36)
         (if byte_at buf 36 =? 6 then MapTcp else MapUdp) (from_be (slice buf 40 42)) (from_be (slice buf 42 44))
         (Net.v4_new 203 0 113 1))
      "000"%byte (replicate 12 "000"%byte) (replicate 3 "000"%byte)
  else
    natpmp_response_bytes
      (mkNatPmpMapResponse PmpSuccess (if byte_at buf 1 =? 2 then MapTcp else MapUdp) epoch
         (from_be (slice buf 4 6)) (from_be (slice buf 6 8)) 3600).

Definition world_with (reply : nat -> list byte -> RecvOutcome) : World := {|
  bind_ok _ := true; send_ok _ := true; arrives := reply;
  clock n := Time.from_secs (Z.of_nat n);
  fresh_nonce n := to_be 12 (Z.of_nat n);
  hash_order A n l := l; releases_done _ := 100%nat |}.

#[export] Instance world_with_laws reply : WorldLaws (world_with reply).
Proof. constructor; intros; [done|apply length_to_be]. Qed.

Definition granting : World := world_with (fun _ buf => Received (reply_to 100 buf)).

Lemma decode_short (l : list byte) : (length l <= 1500)%nat -> firstn 1500 l = l.
Proof. apply take_ge. Qed.

(** The replies are what a granting gateway sends. *)
Lemma reply_grants (reply : nat -> list byte -> RecvOutcome) n0 :
  (forall n buf, (n0 <= n)%nat -> reply n buf = Received (reply_to 100 buf)) -> Granting (world_with reply) n0.
Proof.
  intros Hreply. constructor; [done|done| |]; intros n q Hn0; cbn [arrives world_with]; rewrite Hreply by done.
  - intros (Hl & Hn & Hi & Hx). set (buf := pcp_encode_map_request q).
    set (resp := mkPcpMapResponse PcpSuccess 100 3600 (slice buf 24 36)
      (if byte_at buf 36 =? 6 then MapTcp else MapUdp) (from_be (slice buf 40 42)) (from_be (slice buf 42 44))
      (Net.v4_new 203 0 113 1)).
    exists (pcp_response_bytes resp "000"%byte (replicate 12 "000"%byte) (replicate 3 "000"%byte)), resp.
    split; [reflexivity|].
    assert (slice buf 24 36 = pq_nonce q) as Hnonce.
    { unfold buf, pcp_encode_map_request. rewrite !app_assoc, <- (app_assoc _ (pq_nonce q)), <- !app_assoc.
      rewrite (app_assoc (to_be 4 _)), (app_assoc [_; _; _; _]). apply slice_app; [|by rewrite Hn].
      rewrite !length_app, length_to_be, Net.v6_octets_length. done. }
    assert (length buf = 60%nat) as Hlen.
    { apply Nat2Z.inj. apply (pcp_request_length q). done. }
    assert (pcp_response_wf resp) as Hwf.
    { split_and!; cbn [resp pr_assigned_lifetime pr_epoch_time pr_nonce pr_internal_port pr_assigned_external_port];
        [done|done|by rewrite Hnonce|apply (slice_fits _ 40 2); rewrite Hlen; lia|apply (slice_fits _ 42 2); rewrite Hlen; lia]. }
    pose proof (pcp_decode_bytes resp "000"%byte (replicate 12 "000"%byte) (replicate 3 "000"%byte) [] Hwf eq_refl eq_refl) as Hd.
    rewrite app_nil_r in Hd. split_and!; [|done|exact Hnonce].
    rewrite decode_short; [exact Hd|]. unfold pcp_response_bytes. rewrite !length_app, !length_to_be, Net.v6_octets_length.
    destruct Hwf as (_ & _ & -> & _). cbn. unfold PCP_NONCE_LEN. lia.
  - set (buf := natpmp_encode_map_request q).
    set (resp := mkNatPmpMapResponse PmpSuccess (if byte_at buf 1 =? 2 then MapTcp else MapUdp) 100
      (from_be (slice buf 4 6)) (from_be (slice buf 6 8)) 3600).
    exists (natpmp_response_bytes resp), resp. split; [reflexivity|].
    assert (length buf = 12%nat) as Hlen.
    { unfold buf, natpmp_encode_map_request. by rewrite !length_app, !length_to_be. }
    assert (natpmp_response_wf resp) as Hwf.
    { split_and!; cbn [resp nr_seconds_since_epoch nr_internal_port nr_assigned_external_port nr_assigned_lifetime];
        [done|apply (slice_fits _ 4 2); rewrite Hlen; lia|apply (slice_fits _ 6 2); rewrite Hlen; lia|done]. }
    pose proof (natpmp_decode_bytes resp [] Hwf) as Hd. rewrite app_nil_r in Hd. split; [|done].
    rewrite decode_short; [exact Hd|]. unfold natpmp_response_bytes. rewrite !length_app, !length_to_be. cbn. lia.
Qed.

#[export] Instance granting_grants : Granting granting 0.
Proof. by apply reply_grants. Qed.

(** A gateway that stays silent for its first 31 interactions. *)
Definition late : World :=
  world_with (fun n buf => if (n <? 31)%nat then Elapsed else Received (reply_to 100 buf)).

Lemma late_grants n : (31 <= n)%nat -> Granting late n.
Proof. intros Hn. apply reply_grants. intros m buf Hm. by rewrite (proj2 (Nat.ltb_ge m 31)) by lia. Qed.

Definition cfg (mode : NatTraversalMode) : MapperConfig :=
  mkMapperConfig mode (mkGateway (Net.v4_new 192 168 1 1) (Net.v4_new 192 168 1 10) 5351) None
    (Net.SocketAddr_new (Net.IpV4 (Net.v4_new 0 0 0 0)) 443) true (Time.from_secs 3).
Definition tcp_rule (nm : string) (p : Z) : Rule :=
  mkRule nm (Net.SocketAddr_new (Net.IpV4 (Net.v4_new 0 0 0 0)) p) Tcp None None None None.
Definition two_rules : RuleSet := mkRuleSet [tcp_rule "a" 1000; tcp_rule "b" 2000] [].
Definition one_rule : RuleSet := mkRuleSet [tcp_rule "a" 1000] [].

Definition start (mode : NatTraversalMode) (s : RuleSet) : Reconciler := reconciler_new (cfg mode) s snapshot_disabled.

End MapperDemo.

(** ** Properties *)

Module NatMapperProps.
Import MapperDemo.

(** The rule sets pushed by a sequence of events. *)
Definition pushed {U : UrlLib} (evs : list MapperEvent) : list RuleSet :=
  evs ≫= fun ev => match ev with EvRules s => [s] | _ => [] end.

Definition not_stop {U : UrlLib} (ev : MapperEvent) : Prop :=
  match ev with EvShutdown | EvWatchClosed => False | _ => True end.

Section Runs.
Context `{U : UrlLib} {W : World}.

Lemma loop_app evs : forall evs' r, Forall not_stop evs ->
  snd (mapper_loop (evs ++ evs') r) = snd (mapper_loop evs' (snd (mapper_loop evs r))).
Proof.
  induction evs as [|ev evs IH]; intros evs' r Hevs; [done|]. apply Forall_cons_iff in Hevs as [Hev Hevs].
  cbn [app mapper_loop]. rewrite !bind_run.
  assert (fst (mapper_step ev r) = false) as ->.
  { unfold mapper_step. destruct ev; try done.
    - rewrite !bind_run. done.
    - rewrite bind_run. rewrite bind_run. rewrite bind_run. done. }
  by apply IH.
Qed.

Lemma run_app evs ev r : Forall not_stop evs ->
  snd (mapper_run (evs ++ [ev]) r) = snd (mapper_step ev (snd (mapper_run evs r))).
Proof.
  intros Hevs. unfold mapper_run. rewrite !bind_run. set (r1 := snd (ensure_rpc_socket r)).
  destruct (fst (ensure_rpc_socket r)); rewrite loop_app by done; cbn [mapper_loop]; rewrite bind_run;
    by destruct (fst (mapper_step ev _)).
Qed.

(** The pass of a rule push on a gateway that grants from then on. *)
Lemma push_passes `{!WorldLaws W} cfg s0 snap evs s :
  let r := snd (mapper_run evs (reconciler_new cfg s0 snap)) in
  let r' := snd (mapper_run (evs ++ [EvRules s]) (reconciler_new cfg s0 snap)) in
  mc_mode cfg <> NatOff -> Forall not_stop evs -> Granting W (r_tick r) ->
  (forall s', s' ∈ s0 :: pushed evs ++ [s] -> forall t, t ∈ te_targets (desired_for cfg s') -> port_ok t) ->
  MapperInv cfg port_ok r' /\ exists ds, ds ≡ₚ elements (te_targets (desired_for cfg s)) /\
    forall k, am_target <$> r_mappings r' !! k = passed ds (am_target <$> r_mappings r) k.
Proof.
  intros r r' Hmode Hevs Hgrant Hports. unfold r'. rewrite run_app by done. fold r.
  assert (MapperInv cfg port_ok r) as Hi.
  { apply mapper_run_inv; [done|apply Hports; by left|].
    apply Forall_forall. intros ev Hev. destruct ev as [s'| | |]; try done. cbn. apply Hports. right.
    apply elem_of_app. left. unfold pushed. apply list_elem_of_bind. exists (EvRules s'). by split; [left|]. }
  assert (forall t, t ∈ te_targets (desired_for cfg s) -> port_ok t) as Hs.
  { apply Hports. rewrite app_comm_cons. apply elem_of_app. right. by left. }
  unfold mapper_step. rewrite bind_run, bind_run, bind_run. cbn [fst snd mret M_ret modify].
  set (r1 := snd (compute_next_tick r)).
  apply (reconcile_dom (r_tick r) cfg (am_target <$> r_mappings r) s Hmode Hs (set_rules s r1)).
  split; [|done]. split; [|exact (Nat.le_succ_diag_r _)]. destruct Hi. constructor; try done. intros t.
  change (desired_enumeration (set_rules s r1)) with (desired_for (r_cfg r) s). rewrite mi_cfg0. apply Hs.
Qed.

End Runs.

(** C29: whatever the gateway answers, drops or delays, after any sequence of
    rule pushes, ticks and shutdown the mapper's tables are sound: every mapping
    sits under its own protocol and port, was wanted by a rule set pushed so
    far, uses a protocol the configured mode allows, has a PCP nonce of twelve
    bytes exactly when it was granted by PCP, is renewed at half of its granted
    lifetime, and exposes only the host's own source address or a private one;
    three consecutive errors mean [Backoff], and the backoff index stays in the
    schedule. *)
Theorem mapper_tables_sound `{U : UrlLib} {W : World} `{!WorldLaws W} cfg s0 snap evs :
  mc_mode cfg <> NatOff ->
  let r := snd (mapper_run evs (reconciler_new cfg s0 snap)) in
  MapperInv cfg (fun t => exists s, s ∈ s0 :: pushed evs /\ t ∈ te_targets (desired_for cfg s)) r
  /\ forall k m, r_mappings r !! k = Some m ->
       mt_internal_addr (am_target m) = gw_local_source (mc_gateway cfg)
       \/ is_rfc1918_or_cgnat (mt_internal_addr (am_target m)) = true.
Proof.
  intros Hmode r. set (T := fun t => exists s, s ∈ s0 :: pushed evs /\ t ∈ te_targets (desired_for cfg s)).
  assert (MapperInv cfg T r) as Hi.
  { apply mapper_run_inv; [done|intros t Ht; exists s0; split; [by left|done]|].
    apply Forall_forall. intros ev Hev. destruct ev as [s| | |]; try done. cbn. intros t Ht. exists s.
    split; [|done]. right. unfold pushed. apply list_elem_of_bind. exists (EvRules s). by split; [left|]. }
  split; [done|]. intros k m Hm. destruct (mo_target _ _ _ _ (mi_mappings _ _ _ Hi k m Hm)) as (s & _ & Ht).
  exact (target_addr_private _ _ _ _ _ Ht).
Qed.

Lemma mapper_tables_sound_witness :
  let r := snd (@mapper_run demo_url granting [EvTick] (start NatAuto two_rules)) in
  r_state r = Active /\ size (r_mappings r) = 2%nat
  /\ MapperInv (cfg NatAuto) (fun t => exists s, s ∈ [two_rules] /\ t ∈ te_targets (desired_for (cfg NatAuto) s)) r.
Proof.
  split; [by vm_compute|]. split; [by vm_compute|].
  exact (proj1 (@mapper_tables_sound demo_url granting _ (cfg NatAuto) two_rules snapshot_disabled [EvTick] ltac:(done))).
Defined.



(** The reconciler compares keys only: a listener that moves to another
    address of the host on the same port keeps the mapping to its old one, and
    the gateway forwards to an address nothing listens on. *)
Lemma moved_listener_keeps_old_mapping :
  let at_ a := mkRuleSet [mkRule "a" (Net.SocketAddr_new (Net.IpV4 a) 1000) Tcp None None None None] [] in
  let a1 := Net.v4_new 192 168 1 10 in
  let a2 := Net.v4_new 192 168 1 11 in
  let r := snd (@mapper_run demo_url granting [EvRules (at_ a2)] (start NatModePcp (at_ a1))) in
  (mt_internal_addr ∘ am_target ∘ snd) <$> map_to_list (r_mappings r) = [a1]
  /\ mt_internal_addr <$> elements (te_targets (@desired_for demo_url (cfg NatModePcp) (at_ a2))) = [a2].
Proof. by split; vm_compute. Qed.

(** a map request ends: whatever the gateway does, it sends at most six
    datagrams and waits at most 28 seconds for answers, plus three datagrams and
    14 seconds for each mapping it has to re-create after a lost epoch. *)
Theorem map_request_terminates `{U : UrlLib} {W : World} `{!WorldLaws W} r t :
  let r' := snd (send_map_request t r) in
  (length (r_sent r') <= length (r_sent r) + 6 + 3 * size (r_mappings r))%nat
  /\ r_wait r' <= r_wait r + RPC_BUDGET * 2 + RPC_BUDGET * Z.of_nat (size (r_mappings r)).
Proof.
  pose proof (send_map_request_cost (length (r_sent r)) (r_wait r) (size (r_mappings r)) t r) as Hc.
  destruct Hc as [Ha Hw]; [by split|]. split; [exact Ha|exact Hw].
Qed.

Lemma map_request_terminates_witness :
  let r := start NatModePcp one_rule in
  let t := mkTarget MapTcp 1000 (Net.v4_new 192 168 1 10) (OriginRule "a") in
  (length (r_sent (snd (@send_map_request demo_url granting t r))) <= length (r_sent r) + 6 + 3 * size (r_mappings r))%nat.
Proof. intros r t. exact (proj1 (@map_request_terminates demo_url granting _ r t)). Defined.

(** in the [Active] state the timer never creates a mapping: the keys after
    a tick are among those before it, so a listener whose creation failed with a
    transient error stays unmapped until the rules change or the mapper falls
    into backoff. *)
Theorem active_tick_never_creates `{U : UrlLib} {W : World} `{!WorldLaws W} cfg s0 snap evs :
  mc_mode cfg <> NatOff ->
  let r := snd (mapper_run evs (reconciler_new cfg s0 snap)) in
  r_state r = Active -> dom (r_mappings (snd (mapper_step EvTick r))) ⊆ dom (r_mappings r).
Proof.
  intros Hmode r Hact.
  assert (MapperInv cfg (fun _ => True) r) as Hi.
  { apply mapper_run_inv; [done|done|]. apply Forall_forall. by intros [] _. }
  unfold mapper_step. rewrite bind_run, bind_run. cbn [fst snd gets]. rewrite bind_run. cbn [fst snd mret M_ret].
  change (r_state (snd (compute_next_tick r))) with (r_state r). rewrite Hact.
  set (r1 := snd (compute_next_tick r)).
  assert (Within (dom (r_mappings r)) r1) as Hw.
  { intros k m Hm. split; [by eapply elem_of_dom_2|]. exact (mo_key _ _ _ _ (mi_mappings _ _ _ Hi k m Hm)). }
  pose proof (refresh_within (dom (r_mappings r)) r1 Hw) as Hr.
  intros k [m Hm]%elem_of_dom. by destruct (Hr k m Hm).
Qed.

(** A gateway that answers nothing before the mapper's fourteenth step. *)
Definition late : World := world_with (fun n buf => if (n <? 14)%nat then Elapsed else Received (reply_to 100 buf)).

Lemma active_tick_never_creates_witness :
  let r := snd (@mapper_run demo_url late [] (start NatModePcp two_rules)) in
  r_state r = Active /\ dom (r_mappings (snd (@mapper_step demo_url late EvTick r))) ⊆ dom (r_mappings r).
Proof.
  split; [by vm_compute|].
  apply (@active_tick_never_creates demo_url late _ (cfg NatModePcp) two_rules snapshot_disabled []); [done|by vm_compute].
Defined.

(** *** Runs that show where the code falls short *)

(** One of two wanted listeners timed out once; twenty ticks of a gateway that
    answers everything leave it unmapped. *)
Lemma timed_out_create_not_retried :
  let r := snd (@mapper_run demo_url late (replicate 20 EvTick) (start NatModePcp two_rules)) in
  r_state r = Active /\ size (r_mappings r) = 1%nat /\ size (te_targets (desired_enumeration r)) = 2%nat.
Proof. by vm_compute. Qed.

(** One wanted listener and a silent gateway: after any of the first twelve
    ticks the backoff index is still zero, so the probes never slow down. *)
Lemma single_target_backoff_stuck :
  Forall (fun n => r_attempt (snd (@mapper_run demo_url (world_with (fun _ _ => Elapsed)) (replicate n EvTick)
                                     (start NatModePcp one_rule))) = 0%nat) (seq 0 13).
Proof. repeat constructor; by vm_compute. Qed.

(** NAT-PMP answers are not matched to requests: a late answer for port 1000
    is recorded as the grant for port 2000. *)
Definition crossed : World := world_with (fun n buf =>
  Received (reply_to 100 (natpmp_encode_map_request (mkNatPmpMapRequest MapTcp 1000 1000 7200)))).

Lemma natpmp_answer_misattributed :
  let r := snd (@mapper_run demo_url crossed [] (start NatModePmp two_rules)) in
  am_external_port <$> (r_mappings r !! (MapTcp, 2000)) = Some 1000.
Proof. by vm_compute. Qed.

(** When an epoch regresses during a renewal, the table keeps the nonce of the
    renewed mapping while [nonces] holds another one, so the next renewal of
    that mapping sends a nonce the gateway has not seen for it. *)
Definition rebooted : World := {|
  bind_ok _ := true; send_ok _ := true;
  arrives n buf := Received (reply_to (if (n <? 12)%nat then 1000 else 5) buf);
  clock n := Time.from_secs (1000 * Z.of_nat n);
  fresh_nonce n := to_be 12 (Z.of_nat n);
  hash_order A n l := l; releases_done _ := 100%nat |}.

Lemma nonce_lost_on_epoch_reset :
  let r := snd (@mapper_run demo_url rebooted [EvTick] (start NatModePcp one_rule)) in
  r_epoch r = Some 5
  /\ exists m n, r_mappings r !! (MapTcp, 1000) = Some m /\ r_nonces r !! (MapTcp, 1000) = Some n
                 /\ am_pcp_nonce m <> Some n.
Proof. vm_compute. split; [done|]. eexists _, _. by split_and!. Qed.

(** [new_epoch + 16] wraps in release builds: an advancing epoch within sixteen
    seconds of [u32::MAX] is taken for a regression. *)
Lemma epoch_addition_wraps : epoch_regressed (Some (2 ^ 32 - 30)) (2 ^ 32 - 10) = true.
Proof. by vm_compute. Qed.

End NatMapperProps.
