(* ===== verification/NatDiscovery.v ===== *)
(** * Default-gateway discovery ([yggdrasil/src/nat/discovery.rs])

    The socket probe and the read of [/proc/net/route] are inputs; the parser of
    the route table is modelled. *)

From S2P Require Import Prelude RustStd NetFmt NatWire NatMapper.

Inductive DiscoveryError := NoLocalAddress | NoDefaultRoute | ProcReadError.

(** [str::lines]: a terminated line loses its LF and a CR before it, an
    unterminated last line is kept as it is. *)
Fixpoint lines_of (pieces : list (list ascii)) : list (list ascii) :=
  match pieces with
  | [] => []
  | [last] => if bool_decide (last = []) then [] else [last]
  | p :: ps =>
      (match rev p with
       | c :: r => if Str.code c =? 13 then rev r else p
       | [] => p
       end) :: lines_of ps
  end.
Definition str_lines (s : string) : list (list ascii) :=
  lines_of (Str.split_list (ascii_of_N 10) (Str.to_list s)).

(** [str::split_whitespace]. *)
Fixpoint words_of (cur : list (list ascii)) (slices : list (list ascii)) : list string :=
  let word := if bool_decide (cur = []) then [] else [Str.of_list (concat cur)] in
  match slices with
  | [] => word
  | sl :: rest => if Str.is_whitespace (Str.scalar sl) then word ++ words_of [] rest else words_of (cur ++ [sl]) rest
  end.
Definition split_whitespace (l : list ascii) : list string := words_of [] (Str.char_slices (Str.of_list l)).

(** [u32::from_str_radix(text, 16)]: an optional plus, then digits. *)
Fixpoint radix_value (acc : Z) (l : list ascii) : option Z :=
  match l with
  | [] => Some acc
  | c :: l' => d ← Str.to_digit 16 c; if acc * 16 + d <? 2 ^ 32 then radix_value (acc * 16 + d) l' else None
  end.
Definition from_str_radix_16 (s : string) : option Z :=
  match Str.to_list s with
  | [] => None
  | c :: l =>
      if Str.code c =? 43 then (if bool_decide (l = []) then None else radix_value 0 l)
      else radix_value 0 (c :: l)
  end.

Definition parse_hex_ipv4 (text : string) : option Z :=
  if negb (Str.len text =? 8)%nat then None else from_str_radix_16 text.

(** [Ipv4Addr::from(gw.swap_bytes())]. *)
Definition swapped_addr (gw : Z) : Net.Ipv4Addr := v4_from (rev (to_be 4 gw)).

(** The body of the loop for one row below the header: the metric and the
    gateway of a default route. *)
Definition default_row (line : list ascii) : option (Z * Net.Ipv4Addr) :=
  let cols := split_whitespace line in
  if (length cols <? 8)%nat then None
  else
    c1 ← cols !! 1%nat; dst ← parse_hex_ipv4 c1;
    c7 ← cols !! 7%nat; mask ← parse_hex_ipv4 c7;
    if negb (dst =? 0) || negb (mask =? 0) then None
    else
      c2 ← cols !! 2%nat; gw ← parse_hex_ipv4 c2;
      if gw =? 0 then None
      else
        c6 ← cols !! 6%nat;
        Some (default u32_max (Str.parse_uint 32 c6), swapped_addr gw).

Definition better (best : option (Z * Net.Ipv4Addr)) (row : option (Z * Net.Ipv4Addr)) : option (Z * Net.Ipv4Addr) :=
  match row with
  | None => best
  | Some (metric, gw) =>
      match best with
      | None => Some (metric, gw)
      | Some (cur, _) => if metric <? cur then Some (metric, gw) else best
      end
  end.

Definition parse_default_gateway (text : string) : result DiscoveryError Net.Ipv4Addr :=
  let best := foldl (fun b line => better b (default_row line)) None (skipn 1 (str_lines text)) in
  ok_or NoDefaultRoute (snd <$> best).

(** [discover]: the two probes, in order. *)
Definition discover (local_source : result DiscoveryError Net.Ipv4Addr) (route_table : option string) :
    result DiscoveryError Gateway :=
  src ← local_source;
  text ← ok_or ProcReadError route_table;
  addr ← parse_default_gateway text;
  Ok (mkGateway addr src GATEWAY_PORT).

(** ** The gateway chosen *)

Module NatDiscoveryProps.

(** The default routes of a table, in order. *)
Definition default_routes (text : string) : list (Z * Net.Ipv4Addr) := omap default_row (skipn 1 (str_lines text)).

(** The first entry of minimal metric. *)
Definition first_minimal (rows : list (Z * Net.Ipv4Addr)) (x : Z * Net.Ipv4Addr) : Prop :=
  exists pre post, rows = pre ++ x :: post /\ Forall (fun y => fst x < fst y) pre /\ Forall (fun y => fst x <= fst y) post.

Lemma fold_rows lines : forall b,
  foldl (fun b line => better b (default_row line)) b lines = foldl (fun b x => better b (Some x)) b (omap default_row lines).
Proof.
  induction lines as [|l lines IH]; intros b; cbn; [done|]. rewrite IH. by destruct (default_row l) as [[m g]|].
Qed.

Lemma better_minimal rows : forall pre x post,
  Forall (fun y => fst x < fst y) pre -> Forall (fun y => fst x <= fst y) post ->
  exists y, foldl (fun b x => better b (Some x)) (Some x) rows = Some y /\ first_minimal (pre ++ x :: post ++ rows) y.
Proof.
  induction rows as [|[m g] rows IH]; intros pre [mx gx] post Hpre Hpost; cbn.
  - exists (mx, gx). split; [done|]. exists pre, post. by rewrite app_nil_r.
  - destruct (Z.ltb_spec m mx) as [Hlt|Hge].
    + destruct (IH (pre ++ (mx, gx) :: post) (m, g) []) as (y & Hy & Hmin).
      * apply Forall_app. split; [|constructor; [done|]];
          (eapply Forall_impl; [eassumption|]); intros [mz gz]; cbn; lia.
      * constructor.
      * exists y. split; [done|]. by rewrite <- app_assoc in Hmin.
    + destruct (IH pre (mx, gx) (post ++ [(m, g)])) as (y & Hy & Hmin); [done| |].
      * apply Forall_app. by split; [|repeat constructor].
      * exists y. split; [done|]. by rewrite <- app_assoc in Hmin.
Qed.

(** The parser answers the first default route of lowest metric, and fails
    exactly when the table has none. *)
Lemma default_gateway_exact text :
  match parse_default_gateway text with
  | Ok gw => exists m, first_minimal (default_routes text) (m, gw)
  | Err e => e = NoDefaultRoute /\ default_routes text = []
  end.
Proof.
  unfold parse_default_gateway. rewrite fold_rows. fold (default_routes text).
  destruct (default_routes text) as [|[m g] rows]; [done|]. cbn [foldl].
  change (better None (Some (m, g))) with (Some (m, g)).
  destruct (better_minimal rows [] (m, g) []) as ([m' g'] & -> & Hmin); [constructor..|]. cbn. by exists m'.
Qed.

(** The table of the module's documentation. *)
Lemma route_table_example :
  parse_default_gateway
    (Str.of_list (Str.to_list "Iface Destination Gateway Flags RefCnt Use Metric Mask" ++ [ascii_of_N 10]
       ++ Str.to_list "eth0 00000000 0101A8C0 0003 0 0 100 00000000" ++ [ascii_of_N 10]
       ++ Str.to_list "wlan0 00000000 0100000A 0003 0 0 50 00000000"))
  = Ok (Net.v4_new 10 0 0 1).
Proof. by vm_compute. Qed.

End NatDiscoveryProps.
