(* ===== verification/QueryRouter.v ===== *)
(** * Query correlation ([yggdrasil/src/chain/query_router.rs] and the queries of
    [yggdrasil/src/chain/client/body_handler.rs])

    A [oneshot] is a waiter id; what is sent on one is a [Delivery] in the
    output of the operation.  A query is a machine that starts, waits for the
    ack and waits for the reply; the other users of the router act between its
    steps. *)

From S2P Require Import Prelude RustStd External Error Instances Wire ControlFrame PubKey RuleTypes Rule RuleSet Predicate.
From S2P Require Import Reliability Canary ChainTypes Derive Acceptor.

(** What the chain client hands a delivered envelope to. *)
Class BodyHandler (H : Type) := handle_body : H -> Z -> list byte -> H * AckStatus.

Section Router.
Context `{Extern} `{!Postcard ChainHopReply} `{!Postcard CanaryReply}.

Notation Pending := (gmap Z Waiter) (only parsing).

Record QueryRouter := mkRouter {
  next_id : Z;
  pending_chain_hop : gmap Z Waiter;
  pending_canary : gmap Z Waiter
}.

Definition router_new : QueryRouter := mkRouter 1 ∅ ∅.

(** [fetch_add(1, Relaxed)] wraps. *)
Definition register (q : QueryRouter) (w : Waiter) : QueryRouter * Z :=
  (mkRouter (wrap 32 (next_id q + 1)) (<[next_id q := w]> (pending_chain_hop q)) (pending_canary q), next_id q).
Definition register_canary (q : QueryRouter) (w : Waiter) : QueryRouter * Z :=
  (mkRouter (wrap 32 (next_id q + 1)) (pending_chain_hop q) (<[next_id q := w]> (pending_canary q)), next_id q).

Definition cancel (q : QueryRouter) (query_id : Z) : QueryRouter :=
  mkRouter (next_id q) (delete query_id (pending_chain_hop q)) (pending_canary q).
Definition cancel_canary (q : QueryRouter) (query_id : Z) : QueryRouter :=
  mkRouter (next_id q) (pending_chain_hop q) (delete query_id (pending_canary q)).

Inductive Delivery :=
  | ToHop (w : Waiter) (r : ChainTypes.ChainHopReply)
  | ToCanary (w : Waiter) (r : ChainTypes.CanaryReply).

(** [alive w]: the receiver of [w] has not been dropped. *)
Definition resolve_hop (alive : Waiter -> bool) (q : QueryRouter) (r : ChainTypes.ChainHopReply) :
    QueryRouter * bool * list Delivery :=
  let q' := mkRouter (next_id q) (delete (hr_query_id r) (pending_chain_hop q)) (pending_canary q) in
  match pending_chain_hop q !! hr_query_id r with
  | Some w => (q', alive w, if alive w then [ToHop w r] else [])
  | None => (q', false, [])
  end.
Definition resolve_canary (alive : Waiter -> bool) (q : QueryRouter) (r : ChainTypes.CanaryReply) :
    QueryRouter * bool * list Delivery :=
  let q' := mkRouter (next_id q) (pending_chain_hop q) (delete (cr_query_id r) (pending_canary q)) in
  match pending_canary q !! cr_query_id r with
  | Some w => (q', alive w, if alive w then [ToCanary w r] else [])
  | None => (q', false, [])
  end.

(** The closure of [install_into_body_handler] around [inner]. *)
Definition routed_body {H} (inner : option (H -> Z -> list byte -> H * AckStatus)) (alive : Waiter -> bool)
    (q : QueryRouter) (h : H) (body_type : Z) (body : list byte) : QueryRouter * H * AckStatus * list Delivery :=
  if body_type =? as_byte ControlFrame.ChainHopReply then
    match from_bytes (A := ChainTypes.ChainHopReply) body with
    | Ok reply => let '(q', _, ds) := resolve_hop alive q reply in (q', h, AckOk, ds)
    | Err _ => (q, h, AckUnknown, [])
    end
  else if body_type =? as_byte ControlFrame.CanaryReply then
    match from_bytes (A := ChainTypes.CanaryReply) body with
    | Ok reply => let '(q', _, ds) := resolve_canary alive q reply in (q', h, AckOk, ds)
    | Err _ => (q, h, AckUnknown, [])
    end
  else
    match inner with
    | Some f => let '(h', s) := f h body_type body in (q, h', s, [])
    | None => (q, h, AckUnknown, [])
    end.

(** ** Queries *)

Context `{!Postcard ChainTypes.ChainHopQuery} `{!Postcard ChainTypes.CanaryArm}.

Inductive QueryKind := HopQuery | CanaryQuery.
#[global] Instance QueryKind_eq_dec : EqDecision QueryKind.
Proof. solve_decision. Defined.
Inductive Reply := HopAnswer (r : ChainTypes.ChainHopReply) | CanaryAnswer (r : ChainTypes.CanaryReply).

Inductive Phase :=
  | AwaitAck (until : Z)
  | AwaitReply (until : Z)
  | Finished (r : result QueryError Reply).

(** What the ack receiver resolves to: [None] when its sender was dropped. *)
Definition AckOutcome : Type := option (result SendError unit).

Record Query := mkQuery {
  q_kind : QueryKind;
  q_id : Z;
  q_waiter : Waiter;
  q_deadline : Z;
  q_phase : Phase;
  q_ack : option AckOutcome;
  q_slot : option Reply
}.

Definition set_phase (x : Query) (p : Phase) : Query :=
  mkQuery (q_kind x) (q_id x) (q_waiter x) (q_deadline x) p (q_ack x) (q_slot x).
Definition set_ack (x : Query) (o : AckOutcome) : Query :=
  mkQuery (q_kind x) (q_id x) (q_waiter x) (q_deadline x) (q_phase x) (Some o) (q_slot x).
Definition set_slot (x : Query) (r : Reply) : Query :=
  mkQuery (q_kind x) (q_id x) (q_waiter x) (q_deadline x) (q_phase x) (q_ack x) (Some r).

Definition pending_of (k : QueryKind) (q : QueryRouter) : gmap Z Waiter :=
  match k with HopQuery => pending_chain_hop q | CanaryQuery => pending_canary q end.
Definition cancel_of (k : QueryKind) (q : QueryRouter) (id : Z) : QueryRouter :=
  match k with HopQuery => cancel q id | CanaryQuery => cancel_canary q id end.

(** [u32::try_from(deadline.as_millis()).unwrap_or(u32::MAX)]. *)
Definition deadline_ms_of (deadline : Z) : Z := Z.min (Time.as_millis deadline) u32_max.

(** After [register]: encode, send, and wait for the ack. *)
Definition launch (k : QueryKind) (q : QueryRouter) (client : ChainClientHandle) (w : Waiter) (id deadline now : Z)
    (body_type : Z) (encoded : result postcard_error (list byte)) : QueryRouter * ChainClientHandle * Query :=
  match encoded with
  | Err e => (q, client, mkQuery k id w deadline (Finished (Err (QueryEncode e))) None None)
  | Ok body =>
      let '(client', sent) := send_control client body_type body in
      if sent then (q, client', mkQuery k id w deadline (AwaitAck (now + deadline)) None None)
      else (cancel_of k q id, client', mkQuery k id w deadline (Finished (Err ClientDown)) None None)
  end.

Definition query_upstream (q : QueryRouter) (client : ChainClientHandle) (w : Waiter) (depth_budget deadline now : Z) :
    QueryRouter * ChainClientHandle * Query :=
  let '(q', id) := register q w in
  launch HopQuery q' client w id deadline now (as_byte ControlFrame.ChainHopQuery)
    (to_allocvec (mkHopQuery id depth_budget (deadline_ms_of deadline))).

Definition query_upstream_canary (q : QueryRouter) (client : ChainClientHandle) (w : Waiter)
    (arm : ChainTypes.CanaryArm) (deadline now : Z) : QueryRouter * ChainClientHandle * Query :=
  let '(q', id) := register_canary q w in
  launch CanaryQuery q' client w id deadline now (as_byte ControlFrame.CanaryArm)
    (to_allocvec (mkCanaryArm id (ca_depth_budget arm) (deadline_ms_of deadline) (ca_rule_listen arm)
                    (ca_rule_protocol arm) (ca_token arm) (ca_expires_unix_ms arm))).

(** One poll of the query's future at [now]: each [timeout] polls its receiver
    before its deadline. *)
Definition query_poll (q : QueryRouter) (x : Query) (now : Z) : QueryRouter * Query :=
  let abandon e := (cancel_of (q_kind x) q (q_id x), set_phase x (Finished (Err e))) in
  match q_phase x with
  | AwaitAck until =>
      match q_ack x with
      | Some (Some (Ok _)) => (q, set_phase x (AwaitReply (now + q_deadline x)))
      | Some (Some (Err e)) => abandon (QuerySend e)
      | Some None => abandon ClientDown
      | None => if until <=? now then abandon QueryTimeout else (q, x)
      end
  | AwaitReply until =>
      match q_slot x with
      | Some r => (q, set_phase x (Finished (Ok r)))
      | None =>
          if negb (bool_decide (pending_of (q_kind x) q !! q_id x = Some (q_waiter x)))
          then (q, set_phase x (Finished (Err ClientDown)))
          else if until <=? now then abandon QueryTimeout else (q, x)
      end
  | Finished _ => (q, x)
  end.

(** The query among the other users of the router. *)
Inductive QueryEvent :=
  | EvPoll (now : Z)
  | EvAck (o : AckOutcome)
  | EvBody (body_type : Z) (body : list byte)
  | EvRegister (k : QueryKind) (w : Waiter)
  | EvCancel (k : QueryKind) (id : Z).

(** Deliveries to the query's own receiver. *)
Definition receive (x : Query) (d : Delivery) : Query :=
  match q_kind x, d with
  | HopQuery, ToHop w r => if (w =? q_waiter x)%nat then set_slot x (HopAnswer r) else x
  | CanaryQuery, ToCanary w r => if (w =? q_waiter x)%nat then set_slot x (CanaryAnswer r) else x
  | _, _ => x
  end.

Definition is_finished (x : Query) : bool := match q_phase x with Finished _ => true | _ => false end.

Definition query_step (alive : Waiter -> bool) (st : QueryRouter * Query) (ev : QueryEvent) : QueryRouter * Query :=
  let '(q, x) := st in
  match ev with
  | EvPoll now => query_poll q x now
  | EvAck o => match q_phase x, q_ack x with AwaitAck _, None => (q, set_ack x o) | _, _ => (q, x) end
  | EvBody body_type body =>
      let live w := if (w =? q_waiter x)%nat then negb (is_finished x) else alive w in
      let '(q', _, _, ds) := routed_body (H := unit) None live q tt body_type body in (q', foldl receive x ds)
  | EvRegister HopQuery w => (fst (register q w), x)
  | EvRegister CanaryQuery w => (fst (register_canary q w), x)
  | EvCancel k id => (cancel_of k q id, x)
  end.

Definition query_run (alive : Waiter -> bool) (st : QueryRouter * Query) (evs : list QueryEvent) : QueryRouter * Query :=
  foldl (query_step alive) st evs.

(** ** Lemmas *)

(** The others do not reuse the query's waiter and cancel only their own ids. *)
Definition event_other (x : Query) (ev : QueryEvent) : Prop :=
  match ev with
  | EvRegister k w => w <> q_waiter x
  | EvCancel k id => k <> q_kind x \/ id <> q_id x
  | _ => True
  end.

Definition is_register (ev : QueryEvent) : bool := match ev with EvRegister _ _ => true | _ => false end.
Definition registrations (evs : list QueryEvent) : Z := zlen (List.filter is_register evs).

Definition answers (x : Query) (r : Reply) : Prop :=
  match q_kind x, r with
  | HopQuery, HopAnswer a => hr_query_id a = q_id x
  | CanaryQuery, CanaryAnswer a => cr_query_id a = q_id x
  | _, _ => False
  end.

(** [n] registrations since the query's own. *)
Record query_ok (n : Z) (q : QueryRouter) (x : Query) : Prop := {
  qo_id : fits 32 (q_id x);
  qo_next : next_id q = wrap 32 (q_id x + 1 + n);
  qo_pending : pending_of (q_kind x) q !! q_id x =
                 (if is_finished x then None else match q_slot x with None => Some (q_waiter x) | Some _ => None end);
  qo_unique : forall id, pending_of (q_kind x) q !! id = Some (q_waiter x) -> id = q_id x;
  qo_slot : forall r, q_slot x = Some r -> answers x r;
  qo_done : forall r, q_phase x = Finished (Ok r) -> answers x r
}.

Lemma cancel_pending k q id id' :
  pending_of k (cancel_of k q id) !! id' = if decide (id = id') then None else pending_of k q !! id'.
Proof. destruct k; cbn; case_decide; subst; by rewrite ?lookup_delete_eq, ?lookup_delete_ne. Qed.

Lemma cancel_next k q id : next_id (cancel_of k q id) = next_id q.
Proof. by destruct k. Qed.

Lemma cancel_other k k' q id : k <> k' -> pending_of k' (cancel_of k q id) = pending_of k' q.
Proof. by destruct k, k'. Qed.

Lemma abandon_ok n q x e : query_ok n q x ->
  query_ok n (cancel_of (q_kind x) q (q_id x)) (set_phase x (Finished (Err e))).
Proof.
  intros []. constructor; cbn; try done.
  - by rewrite cancel_next.
  - by rewrite cancel_pending, decide_True.
  - intros id. rewrite cancel_pending. case_decide; [done|]. apply qo_unique0.
Qed.

Lemma query_poll_ok n q x now : query_ok n q x ->
  let '(q', x') := query_poll q x now in query_ok n q' x' /\ q_kind x' = q_kind x /\ q_id x' = q_id x /\ q_waiter x' = q_waiter x.
Proof.
  intros Hq. pose proof (fun e => abandon_ok n q x e Hq) as Hg. unfold query_poll.
  destruct (q_phase x) as [u|u|r] eqn:Hp.
  - destruct (q_ack x) as [[[[]|e]|]|]; [|split_and!; [apply Hg|done..]|split_and!; [apply Hg|done..]|].
    + split_and!; try done. destruct Hq. constructor; cbn; try done. rewrite qo_pending0. unfold is_finished. by rewrite Hp.
    + destruct (u <=? now); by split_and!.
  - destruct (q_slot x) as [r|] eqn:Hs.
    + split_and!; try done. destruct Hq. constructor; cbn; try done.
      * rewrite qo_pending0, Hs. unfold is_finished. by rewrite Hp.
      * intros r' [= <-]. by apply qo_slot0.
    + rewrite bool_decide_true; cbn [negb]; [destruct (u <=? now); by split_and!|].
      rewrite (qo_pending _ _ _ Hq), Hs. unfold is_finished. by rewrite Hp.
  - by split_and!.
Qed.

Lemma wrap_next n id : fits 32 id -> 0 <= n < 2 ^ 32 - 1 -> wrap 32 (id + 1 + n) <> id.
Proof.
  intros Hid Hn Heq. unfold wrap, fits in *.
  destruct (Z.le_gt_cases (2 ^ 32) (id + 1 + n)) as [Hle|Hlt].
  - rewrite <- (Z_mod_plus_full _ (-1)), Z.mod_small in Heq; lia.
  - rewrite Z.mod_small in Heq; lia.
Qed.

Lemma wrap_succ a : wrap 32 (wrap 32 a + 1) = wrap 32 (a + 1).
Proof. unfold wrap. by rewrite Z.add_mod_idemp_l by lia. Qed.

Lemma register_ok n q x k w : query_ok n q x -> 0 <= n < 2 ^ 32 - 1 -> w <> q_waiter x ->
  query_ok (n + 1) (match k with HopQuery => fst (register q w) | CanaryQuery => fst (register_canary q w) end) x.
Proof.
  intros [] Hn Hw. pose proof (wrap_next n (q_id x) qo_id0 Hn) as Hne. rewrite <- qo_next0 in Hne.
  constructor; try done.
  - destruct k; cbn; rewrite qo_next0, wrap_succ; f_equal; lia.
  - rewrite <- qo_pending0. destruct k, (q_kind x); cbn; try done; by rewrite lookup_insert_ne.
  - intros id. destruct k, (q_kind x) eqn:Hk; cbn in *; try apply qo_unique0;
      (destruct (decide (next_id q = id)) as [<-|]; [rewrite lookup_insert_eq; congruence|rewrite lookup_insert_ne by done; apply qo_unique0]).
Qed.

Lemma cancel_ok n q x k id : query_ok n q x -> k <> q_kind x \/ id <> q_id x -> query_ok n (cancel_of k q id) x.
Proof.
  intros [] Hc. constructor; try done; [by rewrite cancel_next| |].
  - destruct (decide (k = q_kind x)) as [->|Hk]; [|by rewrite cancel_other].
    rewrite cancel_pending, decide_False; [done|]. naive_solver.
  - intros id'. destruct (decide (k = q_kind x)) as [->|Hk]; [|rewrite cancel_other by done; apply qo_unique0].
    rewrite cancel_pending. case_decide; [done|apply qo_unique0].
Qed.

Lemma cancel_self_ok n q x : query_ok n q x -> pending_of (q_kind x) q !! q_id x = None ->
  query_ok n (cancel_of (q_kind x) q (q_id x)) x.
Proof.
  intros [] Hnone. constructor; try done; [by rewrite cancel_next| |].
  - rewrite cancel_pending, decide_True by done. congruence.
  - intros id. rewrite cancel_pending. case_decide; [done|apply qo_unique0].
Qed.

Lemma fill_ok n q x r : query_ok n q x -> answers x r ->
  query_ok n (cancel_of (q_kind x) q (q_id x)) (set_slot x r).
Proof.
  intros [] Hr. constructor; cbn; try done.
  - by rewrite cancel_next.
  - rewrite cancel_pending, decide_True by done. unfold is_finished. cbn. by destruct (q_phase x).
  - intros id. rewrite cancel_pending. case_decide; [done|apply qo_unique0].
  - by intros r' [= <-].
Qed.

Definition same_query (x x' : Query) : Prop := q_kind x' = q_kind x /\ q_id x' = q_id x /\ q_waiter x' = q_waiter x.

(** A reply with id [id] for kind [k]: removing the registration, and handing
    the answer to the query when it was its own. *)
Lemma resolve_ok n q x k id r (mk : Waiter -> Delivery) (alive : Waiter -> bool) :
  query_ok n q x -> (k = q_kind x -> id = q_id x -> answers x r) ->
  (forall w, receive x (mk w) = if decide (k = q_kind x /\ w = q_waiter x) then set_slot x r else x) ->
  let live (w : Waiter) := if (w =? q_waiter x)%nat then negb (is_finished x) else alive w in
  let ds := match pending_of k q !! id with Some w => if live w then [mk w] else [] | None => [] end in
  query_ok n (cancel_of k q id) (foldl receive x ds) /\ same_query x (foldl receive x ds).
Proof.
  intros Hq Hans Hrecv live ds. destruct (decide (k = q_kind x /\ id = q_id x)) as [[-> ->]|Hother].
  - pose proof (qo_pending _ _ _ Hq) as Hpend. unfold ds, live. rewrite Hpend.
    destruct (is_finished x) eqn:Hf; [by split; [apply cancel_self_ok|]|].
    destruct (q_slot x) eqn:Hs; [by split; [apply cancel_self_ok|]|].
    rewrite Nat.eqb_refl. cbn. rewrite Hrecv, decide_True by done. by split; [apply fill_ok; auto|].
  - assert (foldl receive x ds = x) as ->.
    { unfold ds. destruct (pending_of k q !! id : option Waiter) as [w|] eqn:Hw; [|done]. destruct (live w); [|done]. cbn.
      rewrite Hrecv, decide_False; [done|]. intros [-> ->]. apply (qo_unique _ _ _ Hq) in Hw. naive_solver. }
    split; [|done]. apply cancel_ok; [done|]. destruct (decide (k = q_kind x)); [right; naive_solver|by left].
Qed.

(** A routed body: the slot takes the answer that carries the query's id. *)
Lemma body_ok n q x alive body_type body : query_ok n q x ->
  let st := query_step alive (q, x) (EvBody body_type body) in
  query_ok n (fst st) (snd st) /\ same_query x (snd st).
Proof.
  intros Hq. cbn. unfold routed_body. destruct (_ =? as_byte ControlFrame.ChainHopReply).
  - destruct (from_bytes body) as [r|]; [|by split]. unfold resolve_hop.
    opose proof (resolve_ok n q x HopQuery (hr_query_id r) (HopAnswer r) (fun w => ToHop w r) alive Hq _ _) as Hr.
    { intros Hk Hid. unfold answers. by rewrite <- Hk. }
    { intros w. unfold receive. case_decide; destruct (q_kind x), (Nat.eqb_spec w (q_waiter x)); naive_solver. }
    cbn in Hr. destruct (pending_chain_hop q !! hr_query_id r); cbn in *; [|done]. by case_match.
  - destruct (_ =? as_byte ControlFrame.CanaryReply); [|by split].
    destruct (from_bytes body) as [r|]; [|by split]. unfold resolve_canary.
    opose proof (resolve_ok n q x CanaryQuery (cr_query_id r) (CanaryAnswer r) (fun w => ToCanary w r) alive Hq _ _) as Hr.
    { intros Hk Hid. unfold answers. by rewrite <- Hk. }
    { intros w. unfold receive. case_decide; destruct (q_kind x), (Nat.eqb_spec w (q_waiter x)); naive_solver. }
    cbn in Hr. destruct (pending_canary q !! cr_query_id r); cbn in *; [|done]. by case_match.
Qed.

Lemma step_ok alive n q x ev : query_ok n q x -> 0 <= n < 2 ^ 32 - 1 -> event_other x ev ->
  let st := query_step alive (q, x) ev in
  query_ok (n + Z.b2z (is_register ev)) (fst st) (snd st) /\ same_query x (snd st).
Proof.
  intros Hq Hn Hev. destruct ev as [now|o|bt b|k w|k id]; cbn -[query_step]; rewrite ?Z.add_0_r.
  - pose proof (query_poll_ok n q x now Hq) as Hp. cbn. by destruct (query_poll q x now).
  - cbn. destruct (q_phase x) eqn:Hp, (q_ack x); try by split. split; [|done].
    destruct Hq. constructor; try done.
  - by apply body_ok.
  - pose proof (register_ok n q x k w Hq Hn Hev). by destruct k.
  - split; [by apply cancel_ok|done].
Qed.

Lemma run_ok alive evs : forall n q x, query_ok n q x -> 0 <= n -> n + registrations evs < 2 ^ 32 - 1 ->
  Forall (event_other x) evs ->
  let st := query_run alive (q, x) evs in
  query_ok (n + registrations evs) (fst st) (snd st) /\ same_query x (snd st).
Proof.
  induction evs as [|ev evs IH]; intros n q x Hq Hn Hlt Hother.
  { cbn. unfold registrations, zlen. cbn. rewrite Z.add_0_r. by split. }
  apply Forall_cons in Hother as [Hev Hevs].
  assert (registrations (ev :: evs) = Z.b2z (is_register ev) + registrations evs) as Hr.
  { unfold registrations, zlen. cbn. destruct (is_register ev); cbn [length Z.b2z]; lia. }
  assert (0 <= registrations evs) by (unfold registrations, zlen; lia).
  assert (0 <= Z.b2z (is_register ev)) by (destruct (is_register ev); cbn; lia).
  rewrite Hr in *. cbn [query_run foldl].
  destruct (step_ok alive n q x ev Hq ltac:(lia) Hev) as [Hq1 Hx1].
  destruct (query_step alive (q, x) ev) as [q1 x1]. cbn [fst snd] in *. rewrite Z.add_assoc.
  destruct (IH _ q1 x1 Hq1 ltac:(lia) ltac:(lia)) as [Hq2 Hx2].
  { destruct Hx1 as (Hk & Hi & Hw). eapply Forall_impl; [exact Hevs|]. intros []; cbn; congruence. }
  destruct Hx1 as (? & ? & ?), Hx2 as (? & ? & ?). split; [done|]. split_and!; etrans; eassumption.
Qed.

(** Both ways of starting a query. *)
Definition started (k : QueryKind) (q : QueryRouter) (client : ChainClientHandle) (w : Waiter) (deadline now : Z)
    (out : QueryRouter * ChainClientHandle * Query) : Prop :=
  match k with
  | HopQuery => exists depth_budget, out = query_upstream q client w depth_budget deadline now
  | CanaryQuery => exists arm, out = query_upstream_canary q client w arm deadline now
  end.

Definition encode_failed (x : Query) : Prop := exists e, q_phase x = Finished (Err (QueryEncode e)).

Lemma launch_ok k q client w id deadline now bt enc :
  fits 32 id -> next_id q = wrap 32 (id + 1) -> pending_of k q !! id = Some w ->
  (forall id', pending_of k q !! id' = Some w -> id' = id) ->
  let '(q0, _, x0) := launch k q client w id deadline now bt enc in
  q_kind x0 = k /\ q_id x0 = id /\ q_waiter x0 = w /\ q_deadline x0 = deadline /\
  (encode_failed x0 /\ pending_of k q0 !! id = Some w \/
   ~ encode_failed x0 /\ query_ok 0 q0 x0 /\ (is_finished x0 = true \/ q_phase x0 = AwaitAck (now + deadline))).
Proof.
  intros Hid Hnext Hp Huniq. unfold launch. destruct enc as [body|e].
  2:{ split_and!; try done. left. split; [by eexists|done]. }
  destruct (send_control client bt body) as [client' []]; cbn; split_and!; try done; right; (split; [by intros [? ?]|]); (split; [|auto]).
  - constructor; cbn; rewrite ?Z.add_0_r; done.
  - constructor; cbn; rewrite ?Z.add_0_r; try done; [by rewrite cancel_next|by rewrite cancel_pending, decide_True|].
    intros id'. rewrite cancel_pending. case_decide; [done|apply Huniq].
Qed.

Lemma started_ok k q client w deadline now q0 client' x0 :
  fits 32 (next_id q) -> (forall id, pending_of k q !! id <> Some w) ->
  started k q client w deadline now (q0, client', x0) ->
  q_kind x0 = k /\ q_id x0 = next_id q /\ q_waiter x0 = w /\ q_deadline x0 = deadline /\
  (encode_failed x0 /\ pending_of k q0 !! next_id q = Some w \/
   ~ encode_failed x0 /\ query_ok 0 q0 x0 /\ (is_finished x0 = true \/ q_phase x0 = AwaitAck (now + deadline))).
Proof.
  intros Hid Hfresh Hs. destruct k; cbn in Hs; destruct Hs as [a Ha]; unfold query_upstream, query_upstream_canary in Ha; cbn in Ha.
  - match type of Ha with _ = launch ?k ?q1 ?c ?w' ?id ?d ?t ?bt ?enc => pose proof (launch_ok k q1 c w' id d t bt enc Hid eq_refl) as Hl end.
    rewrite <- Ha in Hl. apply Hl; cbn; [by rewrite lookup_insert_eq|].
    intros id'. destruct (decide (next_id q = id')); [done|]. rewrite lookup_insert_ne by done. intros []%Hfresh.
  - match type of Ha with _ = launch ?k ?q1 ?c ?w' ?id ?d ?t ?bt ?enc => pose proof (launch_ok k q1 c w' id d t bt enc Hid eq_refl) as Hl end.
    rewrite <- Ha in Hl. apply Hl; cbn; [by rewrite lookup_insert_eq|].
    intros id'. destruct (decide (next_id q = id')); [done|]. rewrite lookup_insert_ne by done. intros []%Hfresh.
Qed.

(** ** Deadlines *)

Definition polls_by (t : Z) (ev : QueryEvent) : Prop := match ev with EvPoll s => s <= t | _ => True end.

(** [waits a r x]: the ack is awaited until [a], the reply at the latest until [r]. *)
Definition waits (a : option Z) (r : Z) (x : Query) : Prop :=
  match q_phase x with
  | AwaitAck u => a = Some u
  | AwaitReply u => u <= r
  | Finished _ => True
  end.

Lemma receive_phase x ds : q_phase (foldl receive x ds) = q_phase x /\ q_deadline (foldl receive x ds) = q_deadline x.
Proof.
  revert x. induction ds as [|d ds IH]; intros x; [done|]. cbn. destruct (IH (receive x d)) as [-> ->].
  unfold receive. destruct (q_kind x), d; try done; by case_match.
Qed.

Lemma step_deadline alive st ev : q_deadline (snd (query_step alive st ev)) = q_deadline (snd st).
Proof.
  destruct st as [q x], ev as [now|o|bt b|[]|]; try done; cbn [query_step snd].
  - unfold query_poll. by repeat case_match.
  - by repeat case_match.
  - destruct (routed_body _ _ _ _ _ _) as [[[q' h] a] ds]. apply receive_phase.
Qed.

(** Only a poll changes the phase. *)
Lemma step_phase alive st ev : (forall t, ev <> EvPoll t) -> q_phase (snd (query_step alive st ev)) = q_phase (snd st).
Proof.
  intros Hev. destruct st as [q x], ev as [now|o|bt b|[]|]; try done; cbn [query_step snd].
  - by destruct (Hev now).
  - by repeat case_match.
  - destruct (routed_body _ _ _ _ _ _) as [[[q' h] a] ds]. apply receive_phase.
Qed.

Lemma poll_waits a r q x s : waits a r x -> s + q_deadline x <= r -> waits a r (snd (query_poll q x s)).
Proof.
  unfold waits, query_poll. intros Hw Hs. destruct (q_phase x) as [u|u|o] eqn:Hp.
  - destruct (q_ack x) as [[[]|]|]; cbn; try done. destruct (u <=? s); cbn; by rewrite ?Hp.
  - destruct (q_slot x); [done|]. destruct (negb _); [done|]. destruct (u <=? s); cbn; by rewrite ?Hp.
  - cbn. by rewrite Hp.
Qed.

Lemma poll_acked r q x s : waits None r x -> waits None r (snd (query_poll q x s)).
Proof.
  unfold waits, query_poll. intros Hw. destruct (q_phase x) as [u|u|o] eqn:Hp; [done| |cbn; by rewrite Hp].
  destruct (q_slot x); [done|]. destruct (negb _); [done|]. destruct (u <=? s); cbn; by rewrite ?Hp.
Qed.

Lemma step_waits alive a r st ev : waits a r (snd st) ->
  (a = None \/ forall s, ev = EvPoll s -> s + q_deadline (snd st) <= r) ->
  waits a r (snd (query_step alive st ev)).
Proof.
  intros Hw Hs. destruct ev as [s|o|bt b|k w|k id];
    [|unfold waits; rewrite step_phase by done; exact Hw..].
  destruct st as [q x]. cbn in *. destruct Hs as [->|Hs]; [by apply poll_acked|apply poll_waits; auto].
Qed.

Lemma run_waits alive a r evs : forall st, waits a r (snd st) ->
  (a = None \/ Forall (polls_by (r - q_deadline (snd st))) evs) ->
  waits a r (snd (query_run alive st evs)) /\ q_deadline (snd (query_run alive st evs)) = q_deadline (snd st).
Proof.
  induction evs as [|ev evs IH]; intros st Hw Hs; [done|].
  cbn [query_run foldl]. rewrite <- (step_deadline alive st ev). apply IH.
  - apply step_waits; [done|]. destruct Hs as [->|Hs]; [by left|]. right. apply Forall_cons in Hs as [Hev _].
    intros s ->. cbn in Hev. lia.
  - rewrite step_deadline. destruct Hs as [->|Hs]; [by left|]. right. by apply Forall_cons in Hs as [_ ?].
Qed.

(** A finished query stays as it ended. *)
Lemma run_finished alive o evs : forall st, q_phase (snd st) = Finished o -> q_phase (snd (query_run alive st evs)) = Finished o.
Proof.
  induction evs as [|ev evs IH]; intros st Hp; [done|]. cbn [query_run foldl]. apply IH.
  destruct ev as [s|? |? ?|? ?|? ?]; [|by rewrite step_phase..]. destruct st as [q x]. cbn in *. unfold query_poll. by rewrite Hp.
Qed.

(** Past both waits the query is finished. *)
Lemma late_poll_acks a r q x s : waits (Some a) r x -> a <= s -> r = s + q_deadline x -> waits None r (snd (query_poll q x s)).
Proof.
  unfold waits, query_poll. intros Hw Ha ->. destruct (q_phase x) as [u|u|o] eqn:Hp.
  - injection Hw as <-. rewrite (proj2 (Z.leb_le a s)) by done. destruct (q_ack x) as [[[]|]|]; cbn; try done; lia.
  - destruct (q_slot x); [done|]. destruct (negb _); [done|]. destruct (u <=? s); cbn; by rewrite ?Hp.
  - cbn. by rewrite Hp.
Qed.

Lemma late_poll_finishes r q x s : waits None r x -> r <= s -> is_finished (snd (query_poll q x s)) = true.
Proof.
  unfold waits, query_poll, is_finished. intros Hw Hr. destruct (q_phase x) as [u|u|o] eqn:Hp; [done| |cbn; by rewrite Hp].
  destruct (q_slot x); [done|]. destruct (negb _); [done|]. by rewrite (proj2 (Z.leb_le u s)) by lia.
Qed.

Lemma query_run_app alive st evs1 evs2 : query_run alive st (evs1 ++ evs2) = query_run alive (query_run alive st evs1) evs2.
Proof. apply foldl_app. Qed.

Lemma query_bounded alive q0 x0 now evs1 t1 evs2 t2 :
  is_finished x0 = true \/ q_phase x0 = AwaitAck (now + q_deadline x0) ->
  Forall (polls_by t1) evs1 -> now + q_deadline x0 <= t1 -> t1 + q_deadline x0 <= t2 ->
  is_finished (snd (query_run alive (q0, x0) (evs1 ++ [EvPoll t1] ++ evs2 ++ [EvPoll t2]))) = true.
Proof.
  intros Hp Hevs Ht1 Ht2. rewrite !query_run_app.
  destruct (run_waits alive (Some (now + q_deadline x0)) (t1 + q_deadline x0) evs1 (q0, x0)) as [Hw1 Hd1].
  { unfold waits, is_finished in *. cbn. destruct Hp as [Hp| ->]; [by destruct (q_phase x0)|done]. }
  { right. cbn. by rewrite Z.add_simpl_r. }
  destruct (query_run alive (q0, x0) evs1) as [q1 x1]. cbn [snd] in *.
  assert (waits None (t1 + q_deadline x0) (snd (query_run alive (q1, x1) [EvPoll t1]))) as Hw2.
  { cbn. eapply late_poll_acks; [exact Hw1|done|congruence]. }
  apply (run_waits alive None _ evs2) in Hw2 as [Hw3 _]; [|by left].
  destruct (query_run alive (query_run alive (q1, x1) [EvPoll t1]) evs2) as [q3 x3].
  cbn. eapply late_poll_finishes; [exact Hw3|done].
Qed.

(** An encoding error returns before any [cancel]: the registration stays. *)
Lemma encode_error_leaks q client w depth_budget deadline now e :
  to_allocvec (mkHopQuery (next_id q) depth_budget (deadline_ms_of deadline)) = Err e ->
  let '(q0, _, x0) := query_upstream q client w depth_budget deadline now in
  q_phase x0 = Finished (Err (QueryEncode e)) /\ pending_chain_hop q0 !! q_id x0 = Some w.
Proof. intros He. unfold query_upstream. cbn. rewrite He. cbn. by rewrite lookup_insert_eq. Qed.

(** The ack wait and the reply wait each take a whole [deadline]: a query that
    is acked just before it has used almost twice the deadline of its caller. *)
Lemma query_outlives_deadline alive q client w depth_budget deadline now body :
  0 < deadline ->
  to_allocvec (mkHopQuery (next_id q) depth_budget (deadline_ms_of deadline)) = Ok body ->
  snd (send_control client (as_byte ControlFrame.ChainHopQuery) body) = true ->
  let '(q0, _, x0) := query_upstream q client w depth_budget deadline now in
  is_finished (snd (query_run alive (q0, x0)
    [EvAck (Some (Ok tt)); EvPoll (now + deadline - 1); EvPoll (now + 2 * deadline - 2)])) = false.
Proof.
  intros Hd He Hs. unfold query_upstream. cbn. rewrite He. cbn.
  destruct (send_control _ _ body) as [client' sent]. cbn in Hs. subst sent. cbn.
  rewrite bool_decide_true by by rewrite lookup_insert_eq. cbn.
  by rewrite (proj2 (Z.leb_gt _ _)) by lia.
Qed.

End Router.

(** ** A concrete run: the serialiser carries ids only *)

Module QueryDemo.

Definition one_id {A} (f : Z -> A) (b : list byte) : result string A :=
  match b with [x] => Ok (f (byte_to_Z x)) | _ => Err "decode" end.

#[export] Instance hop_reply_codec : Postcard ChainHopReply :=
  {| to_allocvec r := Ok [byte_of_Z (hr_query_id r)]; from_bytes := one_id (fun id => mkHopReply id [] false None) |}.
#[export] Instance canary_reply_codec : Postcard CanaryReply :=
  {| to_allocvec r := Ok [byte_of_Z (cr_query_id r)]; from_bytes := one_id (fun id => mkCanaryReply id [] false None) |}.
#[export] Instance hop_query_codec : Postcard ChainHopQuery :=
  {| to_allocvec r := Ok [byte_of_Z (hq_query_id r)]; from_bytes := one_id (fun id => mkHopQuery id 0 0) |}.
#[export] Instance canary_arm_codec : Postcard CanaryArm :=
  {| to_allocvec r := Ok [byte_of_Z (ca_query_id r)]; from_bytes _ := Err "decode" |}.

Definition demo_start : QueryRouter * ChainClientHandle * Query := query_upstream router_new (mkClient true []) 7%nat 16 5000 100.

(** A late reply to another query, another registration, the ack and the answer. *)
Definition demo_events : list QueryEvent :=
  [EvBody (as_byte ControlFrame.ChainHopReply) [byte_of_Z 9]; EvRegister HopQuery 8%nat; EvAck (Some (Ok tt));
   EvPoll 200; EvBody (as_byte ControlFrame.ChainHopReply) [byte_of_Z 1]; EvCancel CanaryQuery 1; EvPoll 300].

End QueryDemo.

(** ** Properties *)

Module QueryProps.
Section QueryProps.
Context `{Extern} `{!Postcard ChainHopReply} `{!Postcard CanaryReply} `{!Postcard ChainHopQuery} `{!Postcard CanaryArm}.

(** C35: A query upstream is answered only by the reply that carries its own id
    and kind, whatever bodies, registrations and cancellations of other queries
    arrive in between (fewer than 2^32 - 1 registrations, after which ids
    repeat), and it ends at the latest two deadlines after it started, with a
    reply or an error.  When its request could be encoded it stays registered
    until it is answered or ends, and once it has ended its registration is
    gone; when the encoding fails it ends at once with that error, and its
    registration is left behind. *)
Theorem query_correlated alive k q client w deadline now q0 client' x0 evs :
  fits 32 (next_id q) -> (forall id, pending_of k q !! id <> Some w) ->
  started k q client w deadline now (q0, client', x0) ->
  Forall (event_other x0) evs -> registrations evs < 2 ^ 32 - 1 ->
  let '(q', x') := query_run alive (q0, x0) evs in
  (forall r, q_phase x' = Finished (Ok r) -> answers x' r /\ q_kind x' = k /\ q_id x' = next_id q) /\
  (~ encode_failed x0 -> pending_of k q' !! next_id q =
     if is_finished x' then None else match q_slot x' with None => Some w | Some _ => None end) /\
  (encode_failed x0 -> encode_failed x' /\ pending_of k q0 !! next_id q = Some w) /\
  (forall evs1 t1 evs2 t2, evs = evs1 ++ [EvPoll t1] ++ evs2 ++ [EvPoll t2] ->
     Forall (polls_by t1) evs1 -> now + deadline <= t1 -> t1 + deadline <= t2 -> is_finished x' = true).
Proof.
  intros Hid Hfresh Hs Hother Hregs.
  destruct (started_ok _ _ _ _ _ _ _ _ _ Hid Hfresh Hs) as (Hk & Hi & Hw & Hd & [[[e Hf] Hleak]|(Henc & Hq & Hp)]).
  { pose proof (run_finished alive (Err (QueryEncode e)) evs (q0, x0) Hf) as Hrun.
    destruct (query_run alive (q0, x0) evs) as [q' x']. cbn [snd] in Hrun. split_and!.
    - intros r Hr. congruence.
    - intros []. by exists e.
    - intros _. split; [by exists e|done].
    - intros. unfold is_finished. by rewrite Hrun. }
  destruct (run_ok alive evs 0 q0 x0 Hq ltac:(done) ltac:(lia) Hother) as [Hq' (Hk' & Hi' & Hw')].
  destruct (query_run alive (q0, x0) evs) as [q' x'] eqn:Hrun. cbn [fst snd] in *.
  split_and!.
  - intros r Hr. split_and!; [by apply (qo_done _ _ _ Hq')|congruence..].
  - intros _. rewrite <- Hk, <- Hk', <- Hi, <- Hi', (qo_pending _ _ _ Hq'). by rewrite Hw', Hw.
  - done.
  - intros evs1 t1 evs2 t2 -> Hby Ht1 Ht2. change x' with (snd (q', x')). rewrite <- Hrun.
    apply (query_bounded alive q0 x0 now); rewrite ?Hd; auto.
Qed.

End QueryProps.

Import QueryDemo.

Lemma query_correlated_witness :
  let '(q', x') := query_run (fun _ => true) (fst (fst demo_start), snd demo_start) demo_events in
  q_phase x' = Finished (Ok (HopAnswer (mkHopReply 1 [] false None))) /\ answers x' (HopAnswer (mkHopReply 1 [] false None)) /\
  pending_chain_hop q' !! 1 = None.
Proof.
  pose proof (query_correlated (fun _ => true) HopQuery router_new (mkClient true []) 7%nat 5000 100
    (fst (fst demo_start)) (snd (fst demo_start)) (snd demo_start) demo_events) as Hc.
  assert (q_phase (snd (query_run (fun _ => true) (fst (fst demo_start), snd demo_start) demo_events)) =
    Finished (Ok (HopAnswer (mkHopReply 1 [] false None)))) as Hp by done.
  destruct (query_run _ _ _) as [q' x'].
  destruct Hc as (Ha & Hpend & _).
  - done.
  - done.
  - by exists 16.
  - unfold demo_events. repeat first [apply Forall_nil; done|apply Forall_cons; split|exact I|by left|done].
  - done.
  - cbn in Hp. split_and!; [done|by apply Ha|]. etrans; [apply Hpend; by intros [e He]|]. unfold is_finished. by rewrite Hp.
Defined.

End QueryProps.
