(* ===== verification/ChainClient.v ===== *)
(** * The chain client ([yggdrasil/src/chain/client/mod.rs], [run_loop.rs],
    [handshake.rs], [backoff.rs])

    The dialling side of a chain link: resolve, bind, handshake, run a session
    until it ends, back off, repeat.  A [Turn] is what one iteration of the
    session loop reads from the outside: the clock at each reading, the sources
    its [select!] finds ready, the results of its sends, and what the handles
    queue meanwhile.  An [Attempt] is the same for one round of the outer
    loop. *)

From S2P Require Import Prelude RustStd External Error Instances Wire ControlFrame PubKey Auth Reliability.

Definition HANDSHAKE_TIMEOUT : Z := Time.from_secs 5.
Definition BACKOFF_MIN : Z := Time.from_millis 500.
Definition BACKOFF_MAX : Z := Time.from_secs 30.
Definition ACK_DEADLINE_MULTIPLIER : Z := 6.
Definition FAST_PROBE_AFTER_MULTIPLIER : Z := 2.
Definition FAST_PROBE_DEADLINE_MULTIPLIER : Z := 1.

(** [tokio::time::interval] with [MissedTickBehavior::Delay]: the timeout after
    the one at [timeout] was found elapsed at [now]. *)
Class Interval := next_timeout (period timeout now : Z) : Z.

(** The next tick is a period after the scheduled or after the actual one. *)
Class IntervalLaws `{Interval} : Prop :=
  next_timeout_bounds period timeout now :
    0 <= period -> timeout <= now -> timeout + period <= next_timeout period timeout now <= now + period.

(** [Instant::elapsed] saturates at zero. *)
Definition elapsed (now t : Z) : Z := Z.max 0 (now - t).

Inductive SessionExit := ExitRekey | ExitCancelled | ExitReconnectRequested.

Section Client.
Context `{Snow.Lib} `{!Postcard ControlEnvelope} `{!Postcard ControlAck} `{!Interval}.
Context {B : Type}.

Inductive ClientError :=
  | ResolveFailed | NoAddresses | BindFailed | ConnectFailed
  | BuildHandshake1 (e : Error) | SendHandshake1 | RecvHandshake2 | Handshake2Timeout
  | ParseHandshake2 (e : Error) | ExpectedHandshake2 (t : PacketType) (sid : SessionId)
  | CompleteHandshake (e : Error)
  | ProbeUnanswered | NoAck | NoAckEver
  | RecvFailed | EncodeHeartbeat (e : Error) | SendHeartbeat.

Record ControlOp := mkOp { op_body_type : Z; op_body : list byte; op_completion : Waiter }.

(** The fixed part of the configuration, [body_handler] as its closure on the
    state it captured. *)
Record ChainClientConfig := mkClientConfig {
  endpoint : string;
  upstream_pubkey : PubKey;
  client_keys : StaticKeyPair;
  heartbeat_interval : Z;
  rekey_interval : Z;
  body_handler : option (B -> Z -> list byte -> B * AckStatus);
  local_bind : option Net.IpAddr
}.

Record ChainClient := mkChainClient {
  control_rx : list ControlOp;
  session_epoch : Z;
  handler_state : B
}.

Definition client_new (h : B) : ChainClient := mkChainClient [] 0 h.
Definition client_send (c : ChainClient) (ops : list ControlOp) : ChainClient :=
  mkChainClient (control_rx c ++ ops) (session_epoch c) (handler_state c).

(** The locals of [heartbeat_loop]. *)
Record Loop := mkLoop {
  lp_session : Session;
  lp_started : Z;
  lp_ticker : Z;
  lp_last_ack_at : option Z;
  lp_heartbeats_sent : Z;
  lp_acks_received : Z;
  lp_probe_pending_since : option Z;
  lp_channel : ControlChannel
}.

Definition with_session (lp : Loop) (s : Session) : Loop :=
  mkLoop s (lp_started lp) (lp_ticker lp) (lp_last_ack_at lp) (lp_heartbeats_sent lp) (lp_acks_received lp)
    (lp_probe_pending_since lp) (lp_channel lp).
Definition with_channel (lp : Loop) (c : ControlChannel) : Loop :=
  mkLoop (lp_session lp) (lp_started lp) (lp_ticker lp) (lp_last_ack_at lp) (lp_heartbeats_sent lp)
    (lp_acks_received lp) (lp_probe_pending_since lp) c.
Definition with_ticker (lp : Loop) (t : Z) : Loop :=
  mkLoop (lp_session lp) (lp_started lp) t (lp_last_ack_at lp) (lp_heartbeats_sent lp) (lp_acks_received lp)
    (lp_probe_pending_since lp) (lp_channel lp).
Definition count_heartbeat (lp : Loop) (probe : option Z) : Loop :=
  mkLoop (lp_session lp) (lp_started lp) (lp_ticker lp) (lp_last_ack_at lp) (wrap 64 (lp_heartbeats_sent lp + 1))
    (lp_acks_received lp) probe (lp_channel lp).
Definition count_ack (lp : Loop) (now : Z) : Loop :=
  mkLoop (lp_session lp) (lp_started lp) (lp_ticker lp) (Some now) (lp_heartbeats_sent lp)
    (wrap 64 (lp_acks_received lp + 1)) None (lp_channel lp).

Definition loop_new (s : Session) (started : Z) : Loop := mkLoop s started started None 0 0 None channel_new.

Record Turn := mkTurn {
  tn_rekey_at : Z;                  (** [session_started.elapsed()] *)
  tn_probe_at : Z;                  (** [probe_at.elapsed()] *)
  tn_silence_at : Z;                (** [last.elapsed()], [session_started.elapsed()] *)
  tn_probe_ok : bool;               (** the probe's [send] *)
  tn_probe_sent_at : Z;
  tn_select_at : Z;                 (** when the retransmit timer is computed *)
  tn_sends : list ControlOp;        (** queued by the handles *)
  tn_now : Z;                       (** when the [select!] completes *)
  tn_cancelled : bool;
  tn_reconnect : bool;
  tn_datagram : option (option (list byte));  (** [Some None]: [recv] failed *)
  tn_unix_ms : Z;
  tn_arm_now : Z;                   (** [Instant::now()] in the arm *)
  tn_ok : nat -> bool               (** the sends of the arm, in order *)
}.

(** What leaves the client. *)
Record Effects := mkEffects {
  packets : list (list byte);
  told : list Notify;
  dropped : list Waiter   (** completions dropped without a result *)
}.
Definition no_effects : Effects := mkEffects [] [] [].
Definition eff_app (a b : Effects) : Effects :=
  mkEffects (packets a ++ packets b) (told a ++ told b) (dropped a ++ dropped b).
Definition sent (ok : bool) (packet : list byte) : list (list byte) := if ok then [packet] else [].

Inductive Status := Going | Ended (r : result ClientError SessionExit) | Panicked.

(** ** The checks at the top of the loop *)

Definition fire_probe (tn : Turn) (lp : Loop) : Loop * list (list byte) :=
  let '(s, r) := encode_heartbeat (lp_session lp) (tn_unix_ms tn) 0 in
  let lp := with_session lp s in
  match r with
  | Ok (_, packet) =>
      if tn_probe_ok tn then (count_heartbeat lp (Some (tn_probe_sent_at tn)), [packet]) else (lp, [])
  | Err _ => (lp, [])
  end.

Definition top_checks (cfg : ChainClientConfig) (tn : Turn) (lp : Loop) : Loop * list (list byte) * Status :=
  let hb := heartbeat_interval cfg in
  if rekey_interval cfg <=? elapsed (tn_rekey_at tn) (lp_started lp) then (lp, [], Ended (Ok ExitRekey))
  else if (match lp_probe_pending_since lp with
           | Some probe_at => hb * FAST_PROBE_DEADLINE_MULTIPLIER <? elapsed (tn_probe_at tn) probe_at
           | None => false
           end)
  then (lp, [], Ended (Err ProbeUnanswered))
  else
    match lp_last_ack_at lp with
    | Some last =>
        let since_ack := elapsed (tn_silence_at tn) last in
        let '(lp, out) :=
          if negb (bool_decide (is_Some (lp_probe_pending_since lp))) && (hb * FAST_PROBE_AFTER_MULTIPLIER <? since_ack)
          then fire_probe tn lp else (lp, []) in
        (lp, out, if hb * ACK_DEADLINE_MULTIPLIER <? since_ack then Ended (Err NoAck) else Going)
    | None =>
        (lp, [], if (0 <? lp_heartbeats_sent lp) && (hb * ACK_DEADLINE_MULTIPLIER <? elapsed (tn_silence_at tn) (lp_started lp))
                 then Ended (Err NoAckEver) else Going)
    end.

(** ** The arms of the [select!] *)

Inductive Arm :=
  | ArmCancelled
  | ArmReconnect
  | ArmRecv (d : option (list byte))
  | ArmTick
  | ArmControl (op : ControlOp) (rest : list ControlOp)
  | ArmRetransmit.

Definition retx_at (tn : Turn) (lp : Loop) : Z :=
  default (tn_select_at tn + Time.from_secs 3600) (next_tick_at (lp_channel lp)).

(** [biased]: the first source that is ready at [tn_now]; [None] is a
    [select!] that has not completed. *)
Definition select (tn : Turn) (lp : Loop) (queue : list ControlOp) : option Arm :=
  if tn_cancelled tn then Some ArmCancelled
  else if tn_reconnect tn then Some ArmReconnect
  else match tn_datagram tn with
  | Some d => Some (ArmRecv d)
  | None =>
      if lp_ticker lp <=? tn_now tn then Some ArmTick
      else match queue with
      | op :: rest => Some (ArmControl op rest)
      | [] => if retx_at tn lp <=? tn_now tn then Some ArmRetransmit else None
      end
  end.

Definition dispatch_body (cfg : ChainClientConfig) (h : B) (body_type : Z) (body : list byte) : B * AckStatus :=
  match body_handler cfg with Some f => f h body_type body | None => (h, AckUnknown) end.

Definition set_handler (c : ChainClient) (h : B) : ChainClient := mkChainClient (control_rx c) (session_epoch c) h.

(** A datagram, parsed. *)
Definition on_packet (cfg : ChainClientConfig) (tn : Turn) (c : ChainClient) (lp : Loop) (v : PacketView) :
    ChainClient * Loop * Effects :=
  match packet_type v with
  | HeartbeatAck =>
      let '(s, r) := decode_heartbeat_ack (lp_session lp) v in
      let lp := with_session lp s in
      match r with Ok _ => (c, count_ack lp (tn_arm_now tn), no_effects) | Err _ => (c, lp, no_effects) end
  | Control =>
      let '(s, r) := decode_control (lp_session lp) v in
      let lp := with_session lp s in
      match r with
      | Err _ => (c, lp, no_effects)
      | Ok env =>
          let '(ch, d) := on_inbound (lp_channel lp) env in
          let lp := with_channel lp ch in
          let '(h, status) := match d with
                              | Deliver env => dispatch_body cfg (handler_state c) (env_body_type env) (env_body env)
                              | Duplicate => (handler_state c, AckOk)
                              end in
          let '(s, r) := encode_control_ack (lp_session lp) (mkAck (env_seq env) status) in
          (set_handler c h, with_session lp s,
           mkEffects match r with Ok (_, packet) => sent (tn_ok tn 0%nat) packet | Err _ => [] end [] [])
      end
  | ControlAckPkt =>
      let '(s, r) := decode_control_ack (lp_session lp) v in
      let lp := with_session lp s in
      match r with
      | Err _ => (c, lp, no_effects)
      | Ok ack => let '(ch, _, ns) := on_ack (lp_channel lp) ack in (c, with_channel lp ch, mkEffects [] ns [])
      end
  | _ => (c, lp, no_effects)
  end.

(** [for env in due]: the [i]-th send of the arm. *)
Fixpoint retransmit (ok : nat -> bool) (i : nat) (s : Session) (due : list ControlEnvelope) : Session * list (list byte) :=
  match due with
  | [] => (s, [])
  | env :: due =>
      let '(s, r) := encode_control s env in
      match r with
      | Ok (_, packet) => let '(s, out) := retransmit ok (S i) s due in (s, sent (ok i) packet ++ out)
      | Err _ => retransmit ok i s due
      end
  end.

Definition run_arm (cfg : ChainClientConfig) (tn : Turn) (c : ChainClient) (lp : Loop) (arm : Arm) :
    ChainClient * Loop * Effects * Status :=
  match arm with
  | ArmCancelled => (c, lp, no_effects, Ended (Ok ExitCancelled))
  | ArmReconnect => (c, lp, no_effects, Ended (Ok ExitReconnectRequested))
  | ArmRecv None => (c, lp, no_effects, Ended (Err RecvFailed))
  | ArmRecv (Some datagram) =>
      match parse (firstn (Z.to_nat MAX_PACKET_LEN) datagram) with
      | Err _ => (c, lp, no_effects, Going)
      | Ok v => (on_packet cfg tn c lp v, Going)
      end
  | ArmTick =>
      let lp := with_ticker lp (next_timeout (heartbeat_interval cfg) (lp_ticker lp) (tn_now tn)) in
      let '(s, r) := encode_heartbeat (lp_session lp) (tn_unix_ms tn) 0 in
      let lp := with_session lp s in
      match r with
      | Err e => (c, lp, no_effects, Ended (Err (EncodeHeartbeat e)))
      | Ok (_, packet) =>
          if tn_ok tn 0%nat
          then (c, count_heartbeat lp (lp_probe_pending_since lp), mkEffects [packet] [] [], Going)
          else (c, lp, no_effects, Ended (Err SendHeartbeat))
      end
  | ArmControl op rest =>
      let c := mkChainClient rest (session_epoch c) (handler_state c) in
      match enqueue (lp_channel lp) (op_body_type op) (op_body op) (op_completion op) (tn_arm_now tn) with
      | None => (c, lp, mkEffects [] [] [op_completion op], Panicked)
      | Some (ch, env) =>
          let '(s, r) := encode_control (lp_session lp) env in
          (c, with_session (with_channel lp ch) s,
           mkEffects match r with Ok (_, packet) => sent (tn_ok tn 0%nat) packet | Err _ => [] end [] [], Going)
      end
  | ArmRetransmit =>
      let '(ch, due, ns) := next_due (lp_channel lp) (tn_arm_now tn) in
      let '(s, out) := retransmit (tn_ok tn) 0 (lp_session lp) due in
      (c, with_session (with_channel lp ch) s, mkEffects out ns [], Going)
  end.

(** One iteration; [None] when its [select!] does not complete. *)
Definition turn (cfg : ChainClientConfig) (tn : Turn) (c : ChainClient) (lp : Loop) :
    option (ChainClient * Loop * Effects * Status) :=
  let c := client_send c (tn_sends tn) in
  let '(lp, out, st) := top_checks cfg tn lp in
  match st with
  | Going =>
      arm ← select tn lp (control_rx c);
      let '(c, lp, eff, st) := run_arm cfg tn c lp arm in
      Some (c, lp, eff_app (mkEffects out [] []) eff, st)
  | _ => Some (c, lp, mkEffects out [] [], st)
  end.

(** An execution has no inputs past its end. *)
Definition unused {A} (l : list A) : bool := match l with [] => true | _ => false end.

(** The loop over [turns]: left, its channel is dropped and aborts what is
    pending. *)
Fixpoint heartbeat_loop (cfg : ChainClientConfig) (c : ChainClient) (lp : Loop) (turns : list Turn) :
    option (ChainClient * Loop * Effects * Status) :=
  match turns with
  | [] => Some (c, lp, no_effects, Going)
  | tn :: turns =>
      '(c, lp, eff, st) ← turn cfg tn c lp;
      match st with
      | Going =>
          '(c, lp, eff', st) ← heartbeat_loop cfg c lp turns;
          Some (c, lp, eff_app eff eff', st)
      | _ =>
          let '(ch, ns) := abort_all (lp_channel lp) in
          if unused turns then Some (c, with_channel lp ch, eff_app eff (mkEffects [] ns []), st) else None
      end
  end.

(** ** A session and the outer loop *)

Record Attempt := mkAttempt {
  at_cancelled : bool;                          (** the token, at the loop's top *)
  at_addrs : option (list Net.SocketAddr);      (** [lookup_host]; [None]: it failed *)
  at_bind_ok : bool;
  at_connect_ok : bool;
  at_session_id : SessionId;
  at_rng : Snow.Entropy;
  at_hs_sent : bool;
  at_hs_reply : option (option (list byte));    (** [None]: none within [HANDSHAKE_TIMEOUT] *)
  at_sends : list ControlOp;                    (** queued before the session runs *)
  at_started : Z;
  at_turns : list Turn;
  at_sleep_cancelled : bool                     (** [sleep_or_cancel] *)
}.

Definition resolve_endpoint (addrs : option (list Net.SocketAddr)) : result ClientError Net.SocketAddr :=
  match addrs with
  | None => Err ResolveFailed
  | Some [] => Err NoAddresses
  | Some (a :: _) => Ok a
  end.

Definition bind_addr (cfg : ChainClientConfig) (target : Net.SocketAddr) : Net.SocketAddr :=
  match local_bind cfg, target with
  | Some (Net.IpV4 ip), Net.V4 _ => Net.SocketAddr_new (Net.IpV4 ip) 0
  | Some (Net.IpV6 ip), Net.V6 _ => Net.SocketAddr_new (Net.IpV6 ip) 0
  | _, Net.V4 _ => Net.SocketAddr_new (Net.IpV4 Net.V4_UNSPECIFIED) 0
  | _, Net.V6 _ => Net.SocketAddr_new (Net.IpV6 Net.V6_UNSPECIFIED) 0
  end.

(** [handshake], with the socket's answers from the attempt. *)
Definition handshake (cfg : ChainClientConfig) (a : Attempt) : list (list byte) * result ClientError Session :=
  match initiator_start (at_rng a) (client_keys cfg) (upstream_pubkey cfg) (at_session_id a) with
  | Err e => ([], Err (BuildHandshake1 e))
  | Ok (initiator, hs1) =>
      if negb (at_hs_sent a) then ([], Err SendHandshake1)
      else ([hs1],
        datagram ← match at_hs_reply a with
                   | None => Err Handshake2Timeout
                   | Some None => Err RecvHandshake2
                   | Some (Some d) => Ok d
                   end;
        view ← map_err ParseHandshake2 (parse (firstn (Z.to_nat MAX_PACKET_LEN) datagram));
        if negb (bool_decide (packet_type view = Handshake2))
        then Err (ExpectedHandshake2 (packet_type view) (session_id view))
        else map_err CompleteHandshake (initiator_complete initiator view))
  end.

Definition open_socket (cfg : ChainClientConfig) (a : Attempt) : result ClientError (Net.SocketAddr * Net.SocketAddr) :=
  target_addr ← resolve_endpoint (at_addrs a);
  if negb (at_bind_ok a) then Err BindFailed
  else if negb (at_connect_ok a) then Err ConnectFailed
  else Ok (bind_addr cfg target_addr, target_addr).

Definition run_session_once (cfg : ChainClientConfig) (c : ChainClient) (a : Attempt) :
    option (ChainClient * option Loop * Effects * Status) :=
  match open_socket cfg a with
  | Err e => if unused (at_turns a) then Some (c, None, no_effects, Ended (Err e)) else None
  | Ok _ =>
      let '(out, r) := handshake cfg a in
      match r with
      | Err e => if unused (at_turns a) then Some (c, None, mkEffects out [] [], Ended (Err e)) else None
      | Ok session =>
          let c := mkChainClient (control_rx c) (saturating_add 64 (session_epoch c) 1) (handler_state c) in
          '(c, lp, eff, st) ← heartbeat_loop cfg c (loop_new session (at_started a)) (at_turns a);
          Some (c, Some lp, eff_app (mkEffects out [] []) eff, st)
      end
  end.

(** Where [run] is after the attempts it was given: between two sessions, in
    one, returned, or unwound by a panic. *)
Inductive RunState :=
  | Between (backoff : Z)
  | InSession (lp : Loop) (backoff : Z)
  | Returned
  | Unwound.

(** [run] consumes the client: its queue is dropped with it. *)
Definition drop_client (c : ChainClient) : ChainClient * Effects :=
  (mkChainClient [] (session_epoch c) (handler_state c), mkEffects [] [] (map op_completion (control_rx c))).

Definition leave (c : ChainClient) (rs : RunState) (eff : Effects) (log : list (result ClientError SessionExit * option Z))
    (rest : list Attempt) :
    option (ChainClient * RunState * Effects * list (result ClientError SessionExit * option Z)) :=
  let '(c, eff') := drop_client c in if unused rest then Some (c, rs, eff_app eff eff', log) else None.

(** The loop of [run]; the last component lists the outcome of each session
    that ended, with the time slept after an error. *)
Fixpoint run_from (cfg : ChainClientConfig) (backoff : Z) (c : ChainClient) (attempts : list Attempt) :
    option (ChainClient * RunState * Effects * list (result ClientError SessionExit * option Z)) :=
  match attempts with
  | [] => Some (c, Between backoff, no_effects, [])
  | a :: rest =>
      let c := client_send c (at_sends a) in
      if at_cancelled a then if unused (at_turns a) then leave c Returned no_effects [] rest else None
      else
        '(c, lp, eff, st) ← run_session_once cfg c a;
        match st with
        | Going => match lp, rest with Some lp, [] => Some (c, InSession lp backoff, eff, []) | _, _ => None end
        | Panicked => leave c Unwound eff [] rest
        | Ended (Ok ExitCancelled) => leave c Returned eff [(Ok ExitCancelled, None)] rest
        | Ended (Ok exit) =>
            '(c, rs, eff', log) ← run_from cfg BACKOFF_MIN c rest;
            Some (c, rs, eff_app eff eff', (Ok exit, None) :: log)
        | Ended (Err e) =>
            if at_sleep_cancelled a then leave c Returned eff [(Err e, Some backoff)] rest
            else
              '(c, rs, eff', log) ← run_from cfg (Z.min (backoff * 2) BACKOFF_MAX) c rest;
              Some (c, rs, eff_app eff eff', (Err e, Some backoff) :: log)
        end
  end.

Definition run (cfg : ChainClientConfig) (h : B) (attempts : list Attempt) :
    option (ChainClient * RunState * Effects * list (result ClientError SessionExit * option Z)) :=
  run_from cfg BACKOFF_MIN (client_new h) attempts.

(** ** Waiters: told once, queued or dropped *)

Definition gone (eff : Effects) : list Waiter := (told eff).*1 ++ dropped eff.
Definition ops_waiters (ops : list ControlOp) : list Waiter := map op_completion ops.
Definition in_flight (c : ChainClient) (lp : Loop) : list Waiter :=
  waiters (outbound (lp_channel lp)) ++ ops_waiters (control_rx c).

Lemma gone_app a b : gone (eff_app a b) ≡ₚ gone a ++ gone b.
Proof. unfold gone. cbn. rewrite fmap_app. solve_Permutation. Qed.

(** One channel operation inside an arm. *)
Lemma arm_channel c lp lp' op ch o ws :
  channel_inv (lp_channel lp) -> channel_step (lp_channel lp) op = Some (ch, o) -> lp_channel lp' = ch ->
  enqueued_waiters [op] = ws ->
  channel_inv (lp_channel lp') /\ (notified o).*1 ++ in_flight c lp' ≡ₚ in_flight c lp ++ ws.
Proof.
  intros Hc Hs <- <-. split; [by eapply channel_step_inv|]. unfold in_flight.
  rewrite app_assoc, (step_waiters _ _ _ _ Hc Hs). solve_Permutation.
Qed.

(** [conserved]: the channel stays well formed and no waiter is lost. *)
Definition conserved (c : ChainClient) (lp : Loop) (c' : ChainClient) (lp' : Loop) (eff : Effects) (new : list Waiter) : Prop :=
  channel_inv (lp_channel lp') /\ gone eff ++ in_flight c' lp' ≡ₚ in_flight c lp ++ new.

Lemma conserved_id c lp c' lp' eff : channel_inv (lp_channel lp) ->
  lp_channel lp' = lp_channel lp -> control_rx c' = control_rx c -> told eff = [] -> dropped eff = [] ->
  conserved c lp c' lp' eff [].
Proof.
  intros Hc Hlp Hq Ht Hd. split; [by rewrite Hlp|]. unfold gone, in_flight. rewrite Ht, Hd, Hlp, Hq. cbn. by rewrite app_nil_r.
Qed.

Lemma conserved_op c lp c' lp' eff op ch o : channel_inv (lp_channel lp) ->
  channel_step (lp_channel lp) op = Some (ch, o) -> enqueued_waiters [op] = [] ->
  lp_channel lp' = ch -> control_rx c' = control_rx c -> told eff = notified o -> dropped eff = [] ->
  conserved c lp c' lp' eff [].
Proof.
  intros Hc Hs Hw Hch Hq Ht Hd. destruct (arm_channel c lp lp' op ch o [] Hc Hs Hch Hw) as [? Hp].
  split; [done|]. unfold gone. rewrite Ht, Hd, app_nil_r, <- Hp. f_equiv. unfold in_flight. by rewrite Hq.
Qed.

Lemma on_packet_conserved cfg tn c lp v : channel_inv (lp_channel lp) ->
  let '(c', lp', eff) := on_packet cfg tn c lp v in conserved c lp c' lp' eff [].
Proof.
  intros Hc. unfold on_packet. destruct (packet_type v); try by apply conserved_id.
  - destruct (decode_heartbeat_ack _ _) as [s []]; by apply conserved_id.
  - destruct (decode_control _ _) as [s [env|]]; [|by apply conserved_id]. cbn [with_session lp_channel].
    destruct (on_inbound _ _) as [ch d] eqn:Hin.
    destruct (match d with Deliver _ => _ | Duplicate => _ end) as [h status].
    destruct (encode_control_ack _ _) as [s' r].
    eapply (conserved_op _ _ _ _ _ (OpInbound env)); [done|cbn; by rewrite Hin|done..].
  - destruct (decode_control_ack _ _) as [s [ack|]]; [|by apply conserved_id]. cbn [with_session lp_channel].
    destruct (on_ack _ _) as [[ch b] ns] eqn:Ha.
    eapply (conserved_op _ _ _ _ _ (OpAck ack)); [done|cbn; by rewrite Ha|done..].
Qed.

Lemma select_control tn lp q op rest : select tn lp q = Some (ArmControl op rest) -> q = op :: rest.
Proof. unfold select. repeat case_match; naive_solver. Qed.

Lemma run_arm_conserved cfg tn c lp arm : channel_inv (lp_channel lp) -> select tn lp (control_rx c) = Some arm ->
  let '(c', lp', eff, st) := run_arm cfg tn c lp arm in conserved c lp c' lp' eff [].
Proof.
  intros Hc Hsel. destruct arm as [| |[d|]| |op rest|]; cbn [run_arm]; try by apply conserved_id.
  - destruct (parse _) as [v|]; [|by apply conserved_id].
    pose proof (on_packet_conserved cfg tn c lp v Hc) as Hp. by destruct (on_packet cfg tn c lp v) as [[c' lp'] eff].
  - destruct (encode_heartbeat _ _ _) as [s [[ctr p]|]]; [|by apply conserved_id].
    destruct (tn_ok tn 0); by apply conserved_id.
  - apply select_control in Hsel. destruct (enqueue _ _ _ _ _) as [[ch env]|] eqn:He.
    + destruct (encode_control _ _) as [s r].
      pose proof (arm_channel c lp (with_session (with_channel lp ch) s)
        (OpEnqueue (op_body_type op) (op_body op) (op_completion op) (tn_arm_now tn)) ch (mkOutput [env] [] []) [op_completion op] Hc) as Ha.
      destruct Ha as [? Ha]; [cbn; by rewrite He|done|done|]. split; [done|]. cbn in *.
      unfold in_flight in *. cbn in *. rewrite Hsel in Ha |- *. cbn in *. unfold gone. cbn.
      apply (Permutation_app_inv_r [op_completion op]). rewrite <- app_assoc. etrans; [|etrans; [apply Ha|]]; solve_Permutation.
    + split; [done|]. unfold gone, in_flight. cbn. rewrite Hsel. cbn. rewrite app_nil_r. solve_Permutation.
  - destruct (next_due _ _) as [[ch due] ns] eqn:Hd. destruct (retransmit _ _ _ _) as [s out].
    eapply (conserved_op _ _ _ _ _ (OpTick (tn_arm_now tn))); [done|cbn; by rewrite Hd|done..].
Qed.

Lemma fire_probe_channel tn lp : lp_channel (fst (fire_probe tn lp)) = lp_channel lp.
Proof. unfold fire_probe. destruct (encode_heartbeat _ _ _) as [s [[]|]]; [|done]. by destruct (tn_probe_ok tn). Qed.

Lemma top_checks_channel cfg tn lp : lp_channel (fst (fst (top_checks cfg tn lp))) = lp_channel lp.
Proof.
  pose proof (fire_probe_channel tn lp) as Hf. unfold top_checks. destruct (rekey_interval cfg <=? _); [done|].
  destruct (match lp_probe_pending_since lp with Some _ => _ | None => _ end); [done|].
  destruct (lp_last_ack_at lp); [|done]. destruct (_ && _); [|done]. by destruct (fire_probe tn lp).
Qed.

Definition turn_waiters (tn : Turn) : list Waiter := ops_waiters (tn_sends tn).

Lemma turn_conserved cfg tn c lp c' lp' eff st : channel_inv (lp_channel lp) ->
  turn cfg tn c lp = Some (c', lp', eff, st) -> conserved c lp c' lp' eff (turn_waiters tn).
Proof.
  intros Hc. unfold turn. pose proof (top_checks_channel cfg tn lp) as Htop.
  destruct (top_checks cfg tn lp) as [[lp1 out] st1]. cbn in Htop.
  assert (in_flight (client_send c (tn_sends tn)) lp1 = in_flight c lp ++ turn_waiters tn) as Hsend.
  { unfold in_flight, turn_waiters, ops_waiters. cbn. by rewrite Htop, map_app, app_assoc. }
  assert (forall st', Some (client_send c (tn_sends tn), lp1, mkEffects out [] [], st') = Some (c', lp', eff, st) ->
    conserved c lp c' lp' eff (turn_waiters tn)) as Hend.
  { intros st' [= <- <- <- <-]. split; [by rewrite Htop|]. by rewrite Hsend. }
  destruct st1; [|by apply Hend..]. destruct (select _ _ _) as [arm|] eqn:Hsel; [|done]. cbn [mbind option_bind].
  assert (channel_inv (lp_channel lp1)) as Hc1 by (by rewrite Htop).
  pose proof (run_arm_conserved cfg tn _ lp1 arm Hc1 Hsel) as Harm.
  destruct (run_arm _ _ _ _ _) as [[[c2 lp2] eff2] st2]. intros [= <- <- <- <-].
  destruct Harm as [? Hp]. split; [done|]. rewrite Hsend, app_nil_r in Hp. rewrite gone_app, <- Hp. done.
Qed.

Lemma loop_conserved cfg turns : forall c lp c' lp' eff st, channel_inv (lp_channel lp) ->
  heartbeat_loop cfg c lp turns = Some (c', lp', eff, st) ->
  conserved c lp c' lp' eff (turns ≫= turn_waiters) /\ (st <> Going -> outbound (lp_channel lp') = []).
Proof.
  induction turns as [|tn turns IH]; intros c lp c' lp' eff st Hc; cbn [heartbeat_loop].
  { intros [= <- <- <- <-]. split; [by apply conserved_id|done]. }
  destruct (turn cfg tn c lp) as [[[[c1 lp1] eff1] st1]|] eqn:Ht; [|done]. cbn [mbind option_bind].
  destruct (turn_conserved _ _ _ _ _ _ _ _ Hc Ht) as [Hc1 Hp1].
  assert (forall st', st' <> Going ->
    (let '(ch, ns) := abort_all (lp_channel lp1) in
     if unused turns then Some (c1, with_channel lp1 ch, eff_app eff1 (mkEffects [] ns []), st') else None) = Some (c', lp', eff, st) ->
    conserved c lp c' lp' eff ((tn :: turns) ≫= turn_waiters) /\ (st <> Going -> outbound (lp_channel lp') = [])) as Hend.
  { intros st' Hst'. destruct (abort_all (lp_channel lp1)) as [ch ns] eqn:Ha.
    destruct turns; [|done]. cbn [unused]. intros [= <- <- <- <-].
    destruct (arm_channel c1 lp1 (with_channel lp1 ch) OpAbort ch (mkOutput [] ns []) [] Hc1) as [Hc2 Hp2]; [unfold channel_step; by rewrite Ha|done|done|].
    split; [|intros _; cbn; by injection Ha as <- _]. split; [done|]. cbn [mbind list_bind]. rewrite app_nil_r, gone_app, <- Hp1.
    unfold gone at 2. cbn [told dropped]. rewrite app_nil_r, <- app_assoc. f_equiv. cbn in Hp2. by rewrite Hp2, app_nil_r. }
  destruct st1; [|by apply Hend..].
  destruct (heartbeat_loop cfg c1 lp1 turns) as [[[[c2 lp2] eff2] st2]|] eqn:Hl; [|done]. cbn [mbind option_bind].
  intros [= <- <- <- <-]. destruct (IH _ _ _ _ _ _ Hc1 Hl) as [[Hc2 Hp2] Hst]. split; [|done].
  split; [done|]. cbn [mbind list_bind]. rewrite app_assoc, <- Hp1, gone_app, <- app_assoc, Hp2. by rewrite app_assoc.
Qed.

(** What the client still holds. *)
Definition held (c : ChainClient) (lp : option Loop) : list Waiter :=
  match lp with Some lp => waiters (outbound (lp_channel lp)) | None => [] end ++ ops_waiters (control_rx c).

Lemma session_conserved cfg c a c' lp' eff st :
  run_session_once cfg c a = Some (c', lp', eff, st) ->
  gone eff ++ held c' lp' ≡ₚ ops_waiters (control_rx c) ++ (at_turns a ≫= turn_waiters) /\
  (st <> Going -> held c' lp' = ops_waiters (control_rx c')).
Proof.
  unfold run_session_once. destruct (open_socket cfg a).
  2:{ destruct (at_turns a); [|done]. intros [= <- <- <- <-]. cbn. by rewrite app_nil_r. }
  destruct (handshake cfg a) as [out [s|e]].
  2:{ destruct (at_turns a); [|done]. intros [= <- <- <- <-]. cbn. by rewrite app_nil_r. }
  set (c1 := mkChainClient _ _ _). set (lp1 := loop_new _ _).
  destruct (heartbeat_loop cfg c1 lp1 (at_turns a)) as [[[[c2 lp2] eff2] st2]|] eqn:Hl; [|done]. cbn [mbind option_bind].
  intros [= <- <- <- <-]. destruct (loop_conserved cfg (at_turns a) c1 lp1 _ _ _ _ channel_new_inv Hl) as [[_ Hp] Hst].
  split; [|intros Hs; unfold held; by rewrite (Hst Hs)]. rewrite gone_app. exact Hp.
Qed.

Definition attempt_waiters (a : Attempt) : list Waiter := ops_waiters (at_sends a) ++ (at_turns a ≫= turn_waiters).

Definition held_in (c : ChainClient) (rs : RunState) : list Waiter :=
  held c match rs with InSession lp _ => Some lp | _ => None end.

Definition finished (rs : RunState) : bool := match rs with Returned | Unwound => true | _ => false end.

Lemma leave_conserved c rs eff log rest c' rs' eff' log' :
  finished rs = true -> leave c rs eff log rest = Some (c', rs', eff', log') ->
  rest = [] /\ rs' = rs /\ log' = log /\ held_in c' rs' = [] /\ gone eff' ≡ₚ gone eff ++ ops_waiters (control_rx c).
Proof.
  intros Hrs. unfold leave. cbn. destruct rest; [|done]. intros [= <- <- <- <-].
  split_and!; try done; [by destruct rs|]. by rewrite gone_app.
Qed.

Lemma run_conserved cfg attempts : forall b c c' rs eff log,
  run_from cfg b c attempts = Some (c', rs, eff, log) ->
  gone eff ++ held_in c' rs ≡ₚ ops_waiters (control_rx c) ++ (attempts ≫= attempt_waiters) /\
  (finished rs = true -> held_in c' rs = []).
Proof.
  induction attempts as [|a rest IH]; intros b c c' rs eff log; cbn [run_from].
  { intros [= <- <- <- <-]. cbn. by rewrite app_nil_r. }
  assert (ops_waiters (control_rx (client_send c (at_sends a))) = ops_waiters (control_rx c) ++ ops_waiters (at_sends a)) as Hsend
    by apply map_app.
  destruct (at_cancelled a).
  { destruct (at_turns a) eqn:Hturns; [|done]. cbn [unused].
    intros (-> & -> & -> & Hh & Hp)%leave_conserved; [|done]. rewrite Hh. split; [|done].
    cbn [mbind list_bind]. unfold attempt_waiters. rewrite Hp, Hturns, Hsend, !app_nil_r. done. }
  destruct (run_session_once _ _ _) as [[[[c1 lp1] eff1] st1]|] eqn:Hs; [|done]. cbn [mbind option_bind].
  apply session_conserved in Hs as [Hp1 Hh1]. rewrite Hsend in Hp1.
  assert (forall rs0 log0, finished rs0 = true -> st1 <> Going -> leave c1 rs0 eff1 log0 rest = Some (c', rs, eff, log) ->
    gone eff ++ held_in c' rs ≡ₚ ops_waiters (control_rx c) ++ ((a :: rest) ≫= attempt_waiters) /\
    (finished rs = true -> held_in c' rs = [])) as Hleave.
  { intros rs0 log0 Hf Hst (-> & -> & -> & Hh & Hp)%leave_conserved; [|done]. rewrite Hh. split; [|done].
    rewrite (Hh1 Hst) in Hp1. cbn [mbind list_bind]. unfold attempt_waiters. rewrite Hp, Hp1. solve_Permutation. }
  assert (forall b', st1 <> Going ->
    ('(c, rs, eff', log) ← run_from cfg b' c1 rest; Some (c, rs, eff_app eff1 eff', log)) ≫=
       (fun x => Some (x.1.1.1, x.1.1.2, x.1.2)) = Some (c', rs, eff) ->
    gone eff ++ held_in c' rs ≡ₚ ops_waiters (control_rx c) ++ ((a :: rest) ≫= attempt_waiters) /\
    (finished rs = true -> held_in c' rs = [])) as Hnext.
  { intros b' Hst. destruct (run_from cfg b' c1 rest) as [[[[c2 rs2] eff2] log2]|] eqn:Hr; [|done]. cbn.
    intros [= <- <- <-]. destruct (IH _ _ _ _ _ _ Hr) as [Hp2 Hf2]. split; [|done].
    rewrite (Hh1 Hst) in Hp1. unfold attempt_waiters at 1.
    rewrite gone_app, <- app_assoc, Hp2, app_assoc, Hp1. solve_Permutation. }
  destruct st1 as [|[[]|e]|].
  - destruct lp1 as [lp1|], rest; try done. intros [= <- <- <- <-]. split; [|done]. cbn [mbind list_bind].
    unfold attempt_waiters, held_in. rewrite Hp1. solve_Permutation.
  - intros Hr. apply (Hnext BACKOFF_MIN); [done|]. by destruct (run_from _ _ _ _) as [[[[]]]|]; simplify_eq/=.
  - by apply Hleave.
  - intros Hr. apply (Hnext BACKOFF_MIN); [done|]. by destruct (run_from _ _ _ _) as [[[[]]]|]; simplify_eq/=.
  - destruct (at_sleep_cancelled a); [by apply Hleave|].
    intros Hr. apply (Hnext (Z.min (b * 2) BACKOFF_MAX)); [done|]. by destruct (run_from _ _ _ _) as [[[[]]]|]; simplify_eq/=.
  - by apply Hleave.
Qed.

(** ** Backoff *)

(** After [k] failed sessions in a row. *)
Definition backoff_after (k : nat) : Z := Z.min (BACKOFF_MIN * 2 ^ Z.of_nat k) BACKOFF_MAX.

Fixpoint sleeps (k : nat) (outcomes : list (result ClientError SessionExit)) : list (option Z) :=
  match outcomes with
  | [] => []
  | Ok _ :: l => None :: sleeps 0 l
  | Err _ :: l => Some (backoff_after k) :: sleeps (S k) l
  end.

Lemma backoff_after_S k : Z.min (backoff_after k * 2) BACKOFF_MAX = backoff_after (S k).
Proof.
  unfold backoff_after. rewrite Nat2Z.inj_succ, Z.pow_succ_r by lia.
  assert (0 < 2 ^ Z.of_nat k) by lia. assert (0 < BACKOFF_MIN /\ 0 < BACKOFF_MAX) as [] by done. lia.
Qed.

Lemma run_sleeps cfg attempts : forall k c c' rs eff log,
  run_from cfg (backoff_after k) c attempts = Some (c', rs, eff, log) -> log.*2 = sleeps k log.*1.
Proof.
  induction attempts as [|a rest IH]; intros k c c' rs eff log; cbn [run_from].
  { by intros [= <- <- <- <-]. }
  destruct (at_cancelled a).
  { destruct (unused _); [|done]. by intros (_ & _ & -> & _)%leave_conserved. }
  destruct (run_session_once _ _ _) as [[[[c1 lp1] eff1] st1]|]; [|done]. cbn [mbind option_bind].
  destruct st1 as [|[[]|e]|].
  - destruct lp1, rest; try done. by intros [= <- <- <- <-].
  - destruct (run_from _ _ _ _) as [[[[]]]|] eqn:Hr; intros; simplify_eq/=. f_equal. by eapply (IH 0%nat).
  - by intros (_ & _ & -> & _)%leave_conserved.
  - destruct (run_from _ _ _ _) as [[[[]]]|] eqn:Hr; intros; simplify_eq/=. f_equal. by eapply (IH 0%nat).
  - destruct (at_sleep_cancelled a); [by intros (_ & _ & -> & _)%leave_conserved|]. rewrite backoff_after_S.
    destruct (run_from _ _ _ _) as [[[[]]]|] eqn:Hr; intros; simplify_eq/=. f_equal. by eapply (IH (S k)).
  - by intros (_ & _ & -> & _)%leave_conserved.
Qed.

(** ** Time *)

(** [P] holds at every iteration of an execution; its last argument is the
    time the iteration starts, which is when the arm before it read the clock. *)
Fixpoint along (P : Turn -> Loop -> Z -> Prop) (cfg : ChainClientConfig) (c : ChainClient) (lp : Loop) (t : Z)
    (turns : list Turn) : Prop :=
  match turns with
  | [] => True
  | tn :: rest =>
      P tn lp t /\
      match turn cfg tn c lp with
      | Some (c', lp', _, Going) => along P cfg c' lp' (tn_arm_now tn) rest
      | _ => True
      end
  end.

Definition end_time (t : Z) (turns : list Turn) : Z := foldl (fun _ tn => tn_arm_now tn) t turns.

(** The clock is monotone. *)
Definition clocked (tn : Turn) (lp : Loop) (t : Z) : Prop :=
  t <= tn_rekey_at tn /\ tn_rekey_at tn <= tn_probe_at tn /\ tn_probe_at tn <= tn_silence_at tn /\
  tn_silence_at tn <= tn_probe_sent_at tn /\ tn_probe_sent_at tn <= tn_select_at tn /\
  tn_select_at tn <= tn_now tn /\ tn_now tn <= tn_arm_now tn.

(** The loop runs in no time and is woken when its ticker is due. *)
Definition punctual (tn : Turn) (lp : Loop) (t : Z) : Prop :=
  tn_rekey_at tn = t /\ tn_probe_at tn = t /\ tn_silence_at tn = t /\ tn_probe_sent_at tn = t /\ tn_select_at tn = t /\
  t <= tn_now tn <= Z.max t (lp_ticker lp) /\ tn_arm_now tn = tn_now tn.

(** The probe, if this iteration fires one, leaves. *)
Definition probe_leaves (tn : Turn) (lp : Loop) (t : Z) : Prop :=
  is_ok (snd (encode_heartbeat (lp_session lp) (tn_unix_ms tn) 0)) = true /\ tn_probe_ok tn = true.

Lemma punctual_clocked tn lp t : punctual tn lp t -> clocked tn lp t.
Proof. unfold punctual, clocked. lia. Qed.

(** What an arm does to the times. *)
Definition arm_times (cfg : ChainClientConfig) (tn : Turn) (lp lp' : Loop) : Prop :=
  lp_started lp' = lp_started lp /\
  (lp_last_ack_at lp' = lp_last_ack_at lp /\ lp_probe_pending_since lp' = lp_probe_pending_since lp \/
   lp_last_ack_at lp' = Some (tn_arm_now tn) /\ lp_probe_pending_since lp' = None) /\
  (lp_ticker lp' = lp_ticker lp /\ lp_heartbeats_sent lp' = lp_heartbeats_sent lp \/
   lp_ticker lp <= tn_now tn /\ lp_ticker lp' = next_timeout (heartbeat_interval cfg) (lp_ticker lp) (tn_now tn) /\
   lp_heartbeats_sent lp' = wrap 64 (lp_heartbeats_sent lp + 1)).

Lemma on_packet_times cfg tn c lp v : arm_times cfg tn lp (snd (fst (on_packet cfg tn c lp v))).
Proof.
  unfold on_packet. destruct (packet_type v); try (split_and!; auto; done).
  - destruct (decode_heartbeat_ack _ _) as [s []]; split_and!; auto; done.
  - destruct (decode_control _ _) as [s [env|]]; [|by split_and!; auto].
    destruct (on_inbound _ _) as [ch d]. destruct (match d with Deliver _ => _ | Duplicate => _ end) as [h status].
    destruct (encode_control_ack _ _) as [s' r]. split_and!; auto; done.
  - destruct (decode_control_ack _ _) as [s [ack|]]; [|by split_and!; auto].
    destruct (on_ack _ _) as [[ch b] ns]. split_and!; auto; done.
Qed.

Lemma select_tick tn lp q : select tn lp q = Some ArmTick -> lp_ticker lp <= tn_now tn.
Proof. unfold select. intros. repeat case_match; simplify_eq; lia. Qed.

Lemma run_arm_times cfg tn c lp arm c' lp' eff :
  select tn lp (control_rx c) = Some arm -> run_arm cfg tn c lp arm = (c', lp', eff, Going) -> arm_times cfg tn lp lp'.
Proof.
  intros Hsel. destruct arm as [| |[d|]| |op rest|]; cbn [run_arm]; try done.
  - destruct (parse _) as [v|]; [|by intros [= <- <- <-]; split_and!; auto].
    pose proof (on_packet_times cfg tn c lp v) as Hp. destruct (on_packet cfg tn c lp v) as [[c1 lp1] eff1]. by intros [= <- <- <-].
  - apply select_tick in Hsel. destruct (encode_heartbeat _ _ _) as [s [[ctr p]|]]; [|done].
    destruct (tn_ok tn 0); [|done]. intros [= <- <- <-]. split_and!; auto 6.
  - destruct (enqueue _ _ _ _ _) as [[ch env]|]; [|done]. destruct (encode_control _ _) as [s r].
    intros [= <- <- <-]. split_and!; auto; done.
  - destruct (next_due _ _) as [[ch due] ns]. destruct (retransmit _ _ _ _) as [s out].
    intros [= <- <- <-]. split_and!; auto; done.
Qed.

Definition dead (e : ClientError) : bool := match e with ProbeUnanswered | NoAck | NoAckEver => true | _ => false end.

(** The three intervals. *)
Notation hb cfg := (heartbeat_interval cfg).

(** What the checks leave when they let the loop go on. *)
Record top_passed (cfg : ChainClientConfig) (tn : Turn) (lp lp' : Loop) : Prop := {
  tp_started : lp_started lp' = lp_started lp;
  tp_ticker : lp_ticker lp' = lp_ticker lp;
  tp_last : lp_last_ack_at lp' = lp_last_ack_at lp;
  tp_probe : forall p, lp_probe_pending_since lp = Some p -> tn_probe_at tn - p <= hb cfg;
  tp_silence : forall a, lp_last_ack_at lp = Some a -> tn_silence_at tn - a <= 6 * hb cfg;
  tp_never : lp_last_ack_at lp = None ->
    lp_heartbeats_sent lp <= 0 \/ tn_silence_at tn - lp_started lp <= 6 * hb cfg;
  tp_fired :
    (lp_probe_pending_since lp' = lp_probe_pending_since lp /\ lp_heartbeats_sent lp' = lp_heartbeats_sent lp /\
     forall a t, lp_last_ack_at lp = Some a -> lp_probe_pending_since lp = None -> probe_leaves tn lp t ->
       tn_silence_at tn - a <= 2 * hb cfg) \/
    (lp_probe_pending_since lp = None /\ lp_probe_pending_since lp' = Some (tn_probe_sent_at tn) /\
     lp_heartbeats_sent lp' = wrap 64 (lp_heartbeats_sent lp + 1) /\
     exists a, lp_last_ack_at lp = Some a /\ 2 * hb cfg < tn_silence_at tn - a)
}.

Lemma fire_probe_spec tn lp : let lp' := fst (fire_probe tn lp) in
  lp_started lp' = lp_started lp /\ lp_ticker lp' = lp_ticker lp /\ lp_last_ack_at lp' = lp_last_ack_at lp /\
  ((lp_probe_pending_since lp' = lp_probe_pending_since lp /\ lp_heartbeats_sent lp' = lp_heartbeats_sent lp /\
    forall t, ~ probe_leaves tn lp t) \/
   (lp_probe_pending_since lp' = Some (tn_probe_sent_at tn) /\ lp_heartbeats_sent lp' = wrap 64 (lp_heartbeats_sent lp + 1))).
Proof.
  unfold fire_probe, probe_leaves. destruct (encode_heartbeat _ _ _) as [s [[ctr p]|e]]; cbn; [destruct (tn_probe_ok tn)|];
    split_and!; auto; left; split_and!; try done; by intros _ [].
Qed.

Lemma top_going cfg tn lp lp' out : 0 <= hb cfg -> top_checks cfg tn lp = (lp', out, Going) -> top_passed cfg tn lp lp'.
Proof.
  intros Hhb. unfold top_checks. destruct (rekey_interval cfg <=? _); [done|].
  destruct (match lp_probe_pending_since lp with Some _ => _ | None => _ end) eqn:Hprobe; [done|].
  assert (forall p, lp_probe_pending_since lp = Some p -> tn_probe_at tn - p <= hb cfg) as Hp.
  { intros p Hp. rewrite Hp in Hprobe. unfold elapsed, FAST_PROBE_DEADLINE_MULTIPLIER in Hprobe. lia. }
  unfold elapsed, ACK_DEADLINE_MULTIPLIER, FAST_PROBE_AFTER_MULTIPLIER. destruct (lp_last_ack_at lp) as [a|] eqn:Hlast.
  - pose proof (fire_probe_spec tn lp) as Hf. destruct (_ && _) eqn:Hcond.
    + destruct (fire_probe tn lp) as [lp1 out1]. cbn in Hf. destruct (hb cfg * 6 <? _) eqn:Hdl; [done|]. intros [= <- <-].
      destruct Hf as (? & ? & ? & Hf). apply andb_true_iff in Hcond as [Hnone Hlate].
      rewrite negb_true_iff, bool_decide_eq_false, <- eq_None_not_Some in Hnone.
      constructor; try done; [intros a' [= <-]%(eq_trans (eq_sym Hlast)); lia|congruence|].
      destruct Hf as [(? & ? & Hnl)|[? ?]]; [left|right]; split_and!; try done.
      * intros a' t _ _ []%Hnl.
      * exists a. split; [done|lia].
    + destruct (hb cfg * 6 <? _) eqn:Hdl; [done|]. intros [= <- <-]. constructor; try done; [intros a' [= <-]%(eq_trans (eq_sym Hlast)); lia|congruence|].
      left. split_and!; try done. intros a' t [= <-]%(eq_trans (eq_sym Hlast)) Hnone _. rewrite Hnone in Hcond. cbn in Hcond. lia.
  - destruct (_ && _) eqn:Hcond; [done|]. intros [= <- <-]. constructor; try done; [congruence| |left; split_and!; try done; congruence].
    intros _. apply andb_false_iff in Hcond. lia.
Qed.

Lemma turn_going cfg tn c lp c' lp' eff : 0 <= hb cfg -> turn cfg tn c lp = Some (c', lp', eff, Going) ->
  exists lp1, top_passed cfg tn lp lp1 /\ arm_times cfg tn lp1 lp'.
Proof.
  intros Hhb. unfold turn. destruct (top_checks cfg tn lp) as [[lp1 out] [| |]] eqn:Htop; [|done..].
  apply top_going in Htop; [|done]. destruct (select _ _ _) as [arm|] eqn:Hsel; [|done]. cbn [mbind option_bind].
  destruct (run_arm _ _ _ _ _) as [[[c2 lp2] eff2] st2] eqn:Harm. intros [= <- <- <- ->].
  exists lp1. split; [done|]. by eapply run_arm_times.
Qed.

Lemma run_arm_alive cfg tn c lp arm c' lp' eff e : run_arm cfg tn c lp arm = (c', lp', eff, Ended (Err e)) -> dead e = false.
Proof.
  destruct arm as [| |[d|]| |op rest|]; cbn [run_arm]; try done.
  - by destruct (parse _).
  - by intros [= _ _ _ <-].
  - destruct (encode_heartbeat _ _ _) as [s [[ctr p]|e']]; [destruct (tn_ok tn 0); [done|]|]; by intros [= _ _ _ <-].
  - destruct (enqueue _ _ _ _ _) as [[ch env]|]; [|done]. by destruct (encode_control _ _).
  - destruct (next_due _ _) as [[ch due] ns]. by destruct (retransmit _ _ _ _).
Qed.

Lemma turn_dead cfg tn c lp c' lp' eff e : turn cfg tn c lp = Some (c', lp', eff, Ended (Err e)) -> dead e = true ->
  lp_started lp' = lp_started lp /\ lp_last_ack_at lp' = lp_last_ack_at lp /\
  ((exists p, lp_probe_pending_since lp = Some p /\ hb cfg < elapsed (tn_probe_at tn) p) \/
   (exists a, lp_last_ack_at lp = Some a /\ 6 * hb cfg < elapsed (tn_silence_at tn) a) \/
   (lp_last_ack_at lp = None /\ 6 * hb cfg < elapsed (tn_silence_at tn) (lp_started lp))).
Proof.
  intros Ht He. unfold turn in Ht. destruct (top_checks cfg tn lp) as [[lp1 out] st] eqn:Htop.
  assert (st = Ended (Err e) /\ lp1 = lp') as [-> ->].
  { destruct st; [|by simplify_eq..]. destruct (select _ _ _) as [arm|]; [|done]. cbn [mbind option_bind] in Ht.
    destruct (run_arm _ _ _ _ _) as [[[c2 lp2] eff2] st2] eqn:Harm. injection Ht as <- <- <- ->.
    apply run_arm_alive in Harm. congruence. }
  clear Ht. revert Htop. unfold top_checks, ACK_DEADLINE_MULTIPLIER, FAST_PROBE_DEADLINE_MULTIPLIER.
  destruct (rekey_interval cfg <=? _); [done|].
  destruct (match lp_probe_pending_since lp with Some _ => _ | None => _ end) eqn:Hprobe.
  { intros [= <- <- _]. split_and!; try done. left. destruct (lp_probe_pending_since lp) as [p|]; [|done]. exists p. split; [done|lia]. }
  destruct (lp_last_ack_at lp) as [a|] eqn:Hlast.
  - pose proof (fire_probe_spec tn lp) as Hf.
    destruct (if _ && _ then fire_probe tn lp else (lp, [])) as [lp1 out1] eqn:Hcond.
    assert (lp_started lp1 = lp_started lp /\ lp_last_ack_at lp1 = lp_last_ack_at lp) as [Hs Hl].
    { destruct (_ && _); [|by simplify_eq]. rewrite Hcond in Hf. cbn in Hf. naive_solver. }
    destruct (heartbeat_interval cfg * 6 <? _) eqn:Hdl; [|done]. intros [= <- <- _]. split_and!; try congruence.
    right. left. exists a. split; [done|lia].
  - destruct (_ && _) eqn:Hcond; [|done]. intros [= <- <- _]. split_and!; try congruence. right. right.
    apply andb_true_iff in Hcond as [_ Hcond]. split; [done|lia].
Qed.

(** A probe is pending only after two intervals of silence. *)
Definition silence_inv (cfg : ChainClientConfig) (lp : Loop) : Prop :=
  forall p, lp_probe_pending_since lp = Some p -> exists a, lp_last_ack_at lp = Some a /\ 2 * hb cfg < p - a.

Lemma turn_silence cfg tn c lp c' lp' eff t : 0 <= hb cfg -> silence_inv cfg lp -> clocked tn lp t ->
  turn cfg tn c lp = Some (c', lp', eff, Going) -> silence_inv cfg lp'.
Proof.
  intros Hhb Hinv Hck Ht. apply turn_going in Ht as (lp1 & [] & (_ & Hack & _)); [|done].
  assert (silence_inv cfg lp1) as Hinv1.
  { intros p Hp. rewrite tp_last0. destruct tp_fired0 as [(Heq & _ & _)|(_ & Heq & _ & a & Ha & Hlate)].
    - apply Hinv. congruence.
    - exists a. split; [done|]. unfold clocked in Hck. rewrite Heq in Hp. injection Hp as <-. lia. }
  intros p Hp. destruct Hack as [[Hl Hpr]|[_ Hpr]]; [|congruence]. rewrite Hl. apply Hinv1. congruence.
Qed.

(** A session is declared dead only after that much silence. *)
Definition long_silence (cfg : ChainClientConfig) (lp : Loop) (t : Z) : Prop :=
  match lp_last_ack_at lp with
  | Some a => a + 3 * hb cfg < t
  | None => lp_started lp + 6 * hb cfg < t
  end.

Lemma loop_dead cfg turns : 0 <= hb cfg -> forall c lp t c' lp' eff e, silence_inv cfg lp ->
  along clocked cfg c lp t turns -> heartbeat_loop cfg c lp turns = Some (c', lp', eff, Ended (Err e)) -> dead e = true ->
  exists tn, last turns = Some tn /\ long_silence cfg lp' (tn_silence_at tn).
Proof.
  intros Hhb. induction turns as [|tn turns IH]; intros c lp t c' lp' eff e Hinv; [done|].
  cbn [heartbeat_loop along]. intros [Hck Hal].
  destruct (turn cfg tn c lp) as [[[[c1 lp1] eff1] st1]|] eqn:Ht; [|done]. cbn [mbind option_bind].
  destruct st1 as [|r|]; [| |by destruct turns].
  - destruct (heartbeat_loop cfg c1 lp1 turns) as [[[[c2 lp2] eff2] st2]|] eqn:Hl; [|done]. intros [= <- <- <- ->] He.
    destruct (IH _ _ _ _ _ _ _ (turn_silence _ _ _ _ _ _ _ _ Hhb Hinv Hck Ht) Hal Hl He) as (tn' & Hlast & Hs).
    exists tn'. split; [|done]. by destruct turns.
  - destruct turns; [|done]. intros [= <- <- <- ->] He. exists tn. split; [done|].
    destruct (turn_dead _ _ _ _ _ _ _ _ Ht He) as (Hs & Hl & Hwhy). unfold long_silence. cbn. rewrite Hl, Hs.
    unfold elapsed, clocked in *. destruct Hwhy as [(p & Hp & Hlate)|[(a & -> & Hlate)|[-> Hlate]]]; [|lia..].
    destruct (Hinv p Hp) as (a & -> & Ha). lia.
Qed.

(** ** Detection *)

Context `{!IntervalLaws}.

(** A session that goes on at [t] has been acked recently; [n] bounds its
    iterations. *)
Record prompt (cfg : ChainClientConfig) (n : Z) (lp : Loop) (t : Z) : Prop := {
  pr_ticker : lp_ticker lp <= t + hb cfg;
  pr_count : 0 <= lp_heartbeats_sent lp <= 2 * n;
  pr_acked : forall a, lp_last_ack_at lp = Some a -> a <= t <= a + 7 * hb cfg;
  pr_never : lp_last_ack_at lp = None ->
    lp_started lp <= t <= lp_started lp + 7 * hb cfg /\
    (lp_heartbeats_sent lp = 0 -> lp_ticker lp = lp_started lp /\ t = lp_started lp)
}.

Definition probed (cfg : ChainClientConfig) (lp : Loop) (t : Z) : Prop :=
  forall a, lp_last_ack_at lp = Some a ->
    match lp_probe_pending_since lp with
    | None => t <= a + 3 * hb cfg
    | Some p => p <= a + 3 * hb cfg /\ t <= p + 2 * hb cfg
    end.

Lemma turn_prompt cfg tn c lp c' lp' eff t n : 0 <= hb cfg -> 0 <= n < 2 ^ 62 ->
  prompt cfg n lp t -> punctual tn lp t -> turn cfg tn c lp = Some (c', lp', eff, Going) -> prompt cfg (n + 1) lp' (tn_arm_now tn).
Proof.
  intros Hhb Hn [] Hpu Ht. apply turn_going in Ht as (lp1 & [] & (Hst & Hack & Htick)); [|done]. unfold punctual in Hpu.
  assert (0 <= lp_heartbeats_sent lp1 <= 2 * n + 1 /\ (lp_last_ack_at lp = None -> lp_heartbeats_sent lp1 = lp_heartbeats_sent lp))
    as [Hc1 Hc2].
  { destruct tp_fired0 as [(_ & -> & _)|(_ & _ & -> & a & Ha & _)]; [lia|].
    split; [|congruence]. rewrite wrap_small by (unfold fits; lia). lia. }
  assert (0 <= lp_heartbeats_sent lp' <= 2 * n + 2) as Hc3.
  { destruct Htick as [[_ ->]|(_ & _ & ->)]; [lia|]. rewrite wrap_small by (unfold fits; lia). lia. }
  constructor.
  - destruct Htick as [[-> _]|(Hdue & -> & _)]; [lia|].
    pose proof (next_timeout_bounds (hb cfg) (lp_ticker lp1) (tn_now tn) Hhb Hdue). lia.
  - lia.
  - intros a Ha. destruct Hack as [[Hl _]|[Hl _]]; rewrite Hl in Ha; [|injection Ha as <-; lia].
    rewrite tp_last0 in Ha. specialize (tp_silence0 a Ha). specialize (pr_acked0 a Ha). lia.
  - intros Hnone. destruct Hack as [[Hl _]|[Hl _]]; [|congruence]. rewrite Hl, tp_last0 in Hnone.
    specialize (tp_never0 Hnone). destruct (pr_never0 Hnone) as [Hb Hz]. rewrite Hst, tp_started0, Hc2 in * by done. split; [lia|].
    intros Hzero. destruct Htick as [[-> Hh]|(_ & _ & Hh)]; [lia|].
    rewrite Hh, wrap_small in Hzero by (unfold fits; lia). lia.
Qed.

Lemma turn_probed cfg tn c lp c' lp' eff t n : 0 <= hb cfg ->
  prompt cfg n lp t -> probed cfg lp t -> punctual tn lp t -> probe_leaves tn lp t ->
  turn cfg tn c lp = Some (c', lp', eff, Going) -> probed cfg lp' (tn_arm_now tn).
Proof.
  intros Hhb [] Hpb Hpu Hpl Ht. apply turn_going in Ht as (lp1 & [] & (Hst & Hack & Htick)); [|done]. unfold punctual in Hpu.
  intros a Ha. destruct Hack as [[Hl Hpr]|[Hl Hpr]]; rewrite Hpr; [|rewrite Hl in Ha; injection Ha as <-; lia].
  rewrite Hl, tp_last0 in Ha. specialize (Hpb a Ha).
  destruct tp_fired0 as [(-> & _ & Hquiet)|(Hnone & -> & _ & _)]; [|rewrite Hnone in Hpb; lia].
  destruct (lp_probe_pending_since lp) as [p|] eqn:Hp.
  - specialize (tp_probe0 p eq_refl). lia.
  - specialize (Hquiet a t Ha eq_refl Hpl). lia.
Qed.

Lemma loop_prompt cfg turns : 0 <= hb cfg -> forall c lp t n c' lp' eff, 0 <= n -> n + zlen turns < 2 ^ 62 ->
  prompt cfg n lp t -> along punctual cfg c lp t turns ->
  heartbeat_loop cfg c lp turns = Some (c', lp', eff, Going) ->
  prompt cfg (n + zlen turns) lp' (end_time t turns) /\
  (probed cfg lp t -> along probe_leaves cfg c lp t turns -> probed cfg lp' (end_time t turns)).
Proof.
  intros Hhb. induction turns as [|tn turns IH]; intros c lp t n c' lp' eff Hn Hlen Hp.
  { cbn. unfold zlen. cbn. rewrite Z.add_0_r. by intros _ [= <- <- <-]. }
  assert (zlen (tn :: turns) = 1 + zlen turns /\ 0 <= zlen turns) as [Hz Hz0] by (unfold zlen; cbn; lia).
  rewrite Hz in *. cbn [heartbeat_loop along]. intros [Hpu Hal].
  destruct (turn cfg tn c lp) as [[[[c1 lp1] eff1] st1]|] eqn:Ht; [|done]. cbn [mbind option_bind].
  destruct st1; [|by destruct turns..].
  destruct (heartbeat_loop cfg c1 lp1 turns) as [[[[c2 lp2] eff2] st2]|] eqn:Hl; [|done]. intros [= <- <- <- ->].
  assert (prompt cfg (n + 1) lp1 (tn_arm_now tn)) as Hp1 by (eapply turn_prompt; eauto; lia).
  destruct (IH _ _ _ (n + 1) _ _ _ ltac:(lia) ltac:(lia) Hp1 Hal Hl) as [Hp2 Hpb2].
  rewrite Z.add_assoc. split; [done|]. intros Hpb [Hpl Hpls]. apply Hpb2; [|done]. by apply (turn_probed cfg tn c lp c1 lp1 eff1 t n).
Qed.

Lemma along_impl (P Q : Turn -> Loop -> Z -> Prop) cfg turns : (forall tn lp t, P tn lp t -> Q tn lp t) -> forall c lp t,
  along P cfg c lp t turns -> along Q cfg c lp t turns.
Proof.
  intros HPQ. induction turns as [|tn turns IH]; intros c lp t; [done|]. cbn. intros [? Hal]. split; [auto|].
  destruct (turn cfg tn c lp) as [[[[c1 lp1] eff1] []]|]; auto.
Qed.

Lemma loop_new_prompt cfg s started : 0 <= hb cfg -> prompt cfg 0 (loop_new s started) started /\ probed cfg (loop_new s started) started.
Proof. intros Hhb. split; [|done]. constructor; cbn; try done; lia. Qed.

End Client.

(** ** A concrete session: a transport without a cipher *)

Module ClientDemo.

#[export] Instance plain_snow : Snow.Lib := {|
  Snow.Entropy := unit;
  Snow.HandshakeState := unit;
  Snow.TransportState := Z;
  Snow.build_initiator _ _ _ _ := Ok tt;
  Snow.build_responder _ _ _ := Ok tt;
  Snow.hs_write_message _ m _ := Ok (tt, m);
  Snow.hs_read_message _ m _ := Ok (tt, m);
  Snow.get_remote_static _ := None;
  Snow.is_handshake_finished _ := true;
  Snow.into_transport_mode _ := Ok 0;
  Snow.sending_nonce t := t;
  Snow.set_receiving_nonce t _ := t;
  Snow.write_message t m _ := (t + 1, Ok m);
  Snow.read_message t m _ := (t, Ok m)
|}.

#[export] Instance delay_interval : Interval := fun period timeout now =>
  if timeout + Time.from_millis 5 <? now then now + period else timeout + period.

#[export] Instance delay_interval_laws : IntervalLaws.
Proof. intros p t n Hp Ht. unfold next_timeout, delay_interval. destruct (_ <? _) eqn:?; lia. Qed.

Definition demo_key : PubKey := X25519 (repeat "000"%byte 32).
Definition demo_cfg : ChainClientConfig (B := unit) :=
  mkClientConfig "upstream:7117" demo_key (KeyPair (repeat "000"%byte 32) (repeat "000"%byte 32))
    (Time.from_secs 5) (Time.from_secs 3600) None None.
Definition demo_sid : SessionId := mkSessionId "001"%byte "002"%byte "003"%byte "004"%byte.
Definition demo_session : Session := mkSession 0 demo_sid None.

(** An iteration that starts at [t] and whose [select!] completes at [now]. *)
Definition demo_turn (t now : Z) (sends : list ControlOp) (d : option (list byte)) : Turn :=
  mkTurn t t t true t t sends now false false (Some <$> d) 0 now (fun _ => true).

Definition demo_ack : option (list byte) :=
  match snd (encode_heartbeat_ack (mkSession 7 demo_sid None) 0 0) with Ok (_, p) => Some p | Err _ => None end.

Definition secs : Z -> Z := Time.from_secs.

(** One ack a nanosecond after the first heartbeat, then silence. *)
Definition demo_silence : list Turn :=
  [demo_turn 0 0 [] None; demo_turn 0 1 [] demo_ack; demo_turn 1 (secs 5) [] None; demo_turn (secs 5) (secs 10) [] None;
   demo_turn (secs 10) (secs 15) [] None; demo_turn (secs 15) (secs 20) [] None; demo_turn (secs 20) (secs 25) [] None].

(** The ticker alone wakes a silent session: with the default interval it is
    still waiting for the probe's answer 25 s after the last ack, and ends then. *)
Definition outcome (turns : list Turn) : option (result ClientError SessionExit) :=
  match heartbeat_loop demo_cfg (client_new tt) (loop_new demo_session 0) turns with
  | Some (_, _, _, Ended r) => Some r
  | _ => None
  end.
Definition still_going (turns : list Turn) : bool :=
  match heartbeat_loop demo_cfg (client_new tt) (loop_new demo_session 0) turns with Some (_, _, _, Going) => true | _ => false end.
Definition is_probe_unanswered (r : option (result ClientError SessionExit)) : bool :=
  match r with Some (Err ProbeUnanswered) => true | _ => false end.

Lemma silence_noticed_after_25s :
  still_going demo_silence = true /\
  is_probe_unanswered (outcome (demo_silence ++ [demo_turn (secs 25) (secs 25) [] None])) = true.
Proof. by vm_compute. Qed.

(** [punctual], evaluated. *)
Definition punctualb (tn : Turn) (lp : Loop) (t : Z) : bool :=
  (tn_rekey_at tn =? t) && (tn_probe_at tn =? t) && (tn_silence_at tn =? t) && (tn_probe_sent_at tn =? t) &&
  (tn_select_at tn =? t) && (t <=? tn_now tn) && (tn_now tn <=? Z.max t (lp_ticker lp)) && (tn_arm_now tn =? tn_now tn).

Fixpoint alongb (c : ChainClient) (lp : Loop) (t : Z) (turns : list Turn) : bool :=
  match turns with
  | [] => true
  | tn :: rest =>
      punctualb tn lp t &&
      match turn demo_cfg tn c lp with
      | Some (c', lp', _, Going) => alongb c' lp' (tn_arm_now tn) rest
      | _ => true
      end
  end.

Lemma alongb_sound turns : forall c lp t, alongb c lp t turns = true -> along punctual demo_cfg c lp t turns.
Proof.
  induction turns as [|tn turns IH]; intros c lp t; [done|]. cbn [alongb along]. intros [Hp Hr]%andb_true_iff. split.
  - unfold punctualb, punctual in *. lia.
  - destruct (turn _ _ _ _) as [[[[c1 lp1] eff1] []]|]; auto.
Qed.

Definition demo_attempt (addrs : option (list Net.SocketAddr)) (sends : list ControlOp) (turns : list Turn) : Attempt :=
  mkAttempt false addrs true true demo_sid tt true (Some (Some (write_preamble [] Handshake2 demo_sid))) sends 0 turns false.
Definition demo_op (w : Waiter) : ControlOp := mkOp 1 [] w.
Definition cancel_turn (t : Z) (sends : list ControlOp) : Turn :=
  mkTurn t t t true t t sends t true false None 0 t (fun _ => true).

(** Two failed resolutions, then a session that is cancelled with one
    operation unacked and one queued. *)
Definition demo_attempts : list Attempt :=
  [demo_attempt None [demo_op 1%nat] []; demo_attempt (Some []) [] [];
   demo_attempt (Some [Net.SocketAddr_new (Net.IpV4 (Net.v4_new 192 0 2 1)) 7117]) [demo_op 2%nat]
     [demo_turn 0 0 [] None; demo_turn 0 1 [] None; cancel_turn 1 [demo_op 3%nat]]].

Definition run_returned (attempts : list Attempt) : bool :=
  match run demo_cfg tt attempts with Some (_, Returned, _, _) => true | _ => false end.
Definition run_slept (attempts : list Attempt) : option (list (option Z)) :=
  (fun x => (snd x).*2) <$> run demo_cfg tt attempts.

End ClientDemo.

(** ** Properties *)

Module ClientProps.
Section ClientProps.
Context `{Snow.Lib} `{!Postcard ControlEnvelope} `{!Postcard ControlAck} `{!Interval} `{!IntervalLaws}.
Context {B : Type}.

(** C22: A session is declared dead only after more than three heartbeat
    intervals without an ack (six when none ever came), on any monotone clock;
    and when the loop is woken at its own timers a session that goes on was
    acked within the last seven intervals (or started then), within the last
    five when its probes leave the socket. *)
Theorem session_liveness (cfg : ChainClientConfig (B := B)) c s started turns c' lp' eff st :
  0 <= heartbeat_interval cfg -> zlen turns < 2 ^ 62 ->
  heartbeat_loop cfg c (loop_new s started) turns = Some (c', lp', eff, st) ->
  (forall e, st = Ended (Err e) -> dead e = true -> along clocked cfg c (loop_new s started) started turns ->
     exists tn, last turns = Some tn /\ long_silence cfg lp' (tn_silence_at tn)) /\
  (st = Going -> along punctual cfg c (loop_new s started) started turns ->
     let since := end_time started turns - default (lp_started lp') (lp_last_ack_at lp') in
     since <= 7 * heartbeat_interval cfg /\
     (along probe_leaves cfg c (loop_new s started) started turns -> is_Some (lp_last_ack_at lp') ->
      since <= 5 * heartbeat_interval cfg)).
Proof.
  intros Hhb Hlen Hrun. split.
  - intros e -> He Hck. eapply (loop_dead cfg turns Hhb); [|exact Hck|exact Hrun|done]. done.
  - intros -> Hpu since. destruct (loop_new_prompt cfg s started Hhb) as [Hp Hpb].
    destruct (loop_prompt cfg turns Hhb _ _ _ 0 _ _ _ ltac:(done) ltac:(lia) Hp Hpu Hrun) as [Hp' Hpb'].
    unfold since. destruct (lp_last_ack_at lp') as [a|] eqn:Hl; cbn.
    + split; [pose proof (pr_acked _ _ _ _ Hp' a Hl); lia|]. intros Hpl _. specialize (Hpb' Hpb Hpl a Hl).
      destruct (lp_probe_pending_since lp'); lia.
    + split; [destruct (pr_never _ _ _ _ Hp' Hl); lia|]. intros _ [? [=]].
Qed.

(** C4: No control operation is lost or answered twice, over any run of the
    client with its reconnects: the waiters of everything the handles queued
    are those told a result, those dropped, those awaiting an ack in the
    current session and those still queued, each once; when [run] returns or
    panics none are left. *)
Theorem client_waiters_conserved (cfg : ChainClientConfig (B := B)) h attempts c rs eff log :
  run cfg h attempts = Some (c, rs, eff, log) ->
  (told eff).*1 ++ dropped eff ++ held_in c rs ≡ₚ attempts ≫= attempt_waiters /\
  (finished rs = true -> held_in c rs = []).
Proof. intros Hrun. destruct (run_conserved _ _ _ _ _ _ _ _ Hrun) as [Hp Hf]. split; [|done]. by rewrite app_assoc. Qed.

(** The time slept after the [k]-th failed session in a row is 500 ms
    doubled [k - 1] times, at most 30 s, and a rekey or a requested reconnect is
    followed by no sleep and starts the count again. *)
Theorem reconnect_backoff_exact (cfg : ChainClientConfig (B := B)) h attempts c rs eff log :
  run cfg h attempts = Some (c, rs, eff, log) -> log.*2 = sleeps 0 log.*1.
Proof. apply (run_sleeps cfg attempts 0). Qed.

End ClientProps.

Import ClientDemo.

Lemma session_liveness_witness :
  match heartbeat_loop demo_cfg (client_new tt) (loop_new demo_session 0) demo_silence with
  | Some (_, lp', _, Going) => secs 25 - default (lp_started lp') (lp_last_ack_at lp') <= 7 * secs 5
  | _ => False
  end.
Proof.
  assert (still_going demo_silence = true) as Hgo by (vm_compute; reflexivity). unfold still_going in Hgo.
  destruct (heartbeat_loop _ _ _ _) as [[[[c' lp'] eff] st]|] eqn:Hrun; [|done].
  pose proof (session_liveness demo_cfg (client_new tt) demo_session 0 demo_silence c' lp' eff st) as Hs.
  destruct st; [|done..]. apply Hs; [done|done|exact Hrun|done|]. apply alongb_sound. vm_compute. reflexivity.
Defined.

Lemma client_waiters_conserved_witness :
  match run demo_cfg tt demo_attempts with
  | Some (c, rs, eff, log) => (told eff).*1 ++ dropped eff ++ held_in c rs ≡ₚ [1; 2; 3]%nat /\ rs = Returned
  | None => False
  end.
Proof.
  assert (run_returned demo_attempts = true) as Hgo by (vm_compute; reflexivity). unfold run_returned in Hgo.
  destruct (run _ _ _) as [[[[c rs] eff] log]|] eqn:Hrun; [|done].
  pose proof (client_waiters_conserved demo_cfg tt demo_attempts c rs eff log Hrun) as [Hp _].
  split; [exact Hp|by destruct rs].
Defined.

Lemma reconnect_backoff_exact_witness :
  match run demo_cfg tt demo_attempts with
  | Some (_, _, _, log) => log.*2 = sleeps 0 log.*1 /\ log.*2 = [Some BACKOFF_MIN; Some (2 * BACKOFF_MIN); None]
  | None => False
  end.
Proof.
  assert (run_slept demo_attempts = Some [Some BACKOFF_MIN; Some (2 * BACKOFF_MIN); None]) as Hgo by (vm_compute; reflexivity).
  unfold run_slept in Hgo.
  destruct (run _ _ _) as [[[[c rs] eff] log]|] eqn:Hrun; [|done].
  split; [exact (reconnect_backoff_exact demo_cfg tt demo_attempts c rs eff log Hrun)|].
  apply (inj Some) in Hgo. exact Hgo.
Defined.

End ClientProps.
