(* ===== verification/Resolver.v ===== *)
(** * Upstream resolvers ([yggdrasil/src/proxy/resolver.rs])

    Where a listener dials: the peer the heartbeats discovered, a fixed
    address, or a name that is looked up again every 30 s.  The peer state is
    shared with the heartbeat server and an argument of what reads it; the
    [watch] cell of a name is the last address it was sent. *)

From S2P Require Import Prelude RustStd External Instances RuleTypes Error Rule PubKey PeerState ChainTypes NetFmt.

Definition DNS_REFRESH_INTERVAL : Z := Time.from_secs 30.

Inductive UpstreamResolver :=
  | RDynamic (port : Z)
  | RStatic (addr : Net.SocketAddr)
  | RDns (host : string) (port : Z) (current : option Net.SocketAddr).

Definition current_target (p : PeerState) (r : UpstreamResolver) : option Net.SocketAddr :=
  match r with
  | RDynamic port => (fun ip => Net.SocketAddr_new ip port) <$> current_ip p
  | RStatic addr => Some addr
  | RDns _ _ current => current
  end.

(** The receiver of the peer's [watch], with what it has seen. *)
Inductive WatchHandle := WatchDynamic (seen : nat) | NeverFires.

Definition watch_ip_changes (p : PeerState) (r : UpstreamResolver) : WatchHandle :=
  match r with RDynamic _ => WatchDynamic (wakes p) | RStatic _ | RDns _ _ _ => NeverFires end.

(** One poll of [changed]: [None] is pending. *)
Definition changed (p : PeerState) (h : WatchHandle) : option WatchHandle :=
  match h with
  | WatchDynamic seen => if (seen =? wakes p)%nat then None else Some (WatchDynamic (wakes p))
  | NeverFires => None
  end.

Definition describe (r : UpstreamResolver) : string :=
  match r with
  | RDynamic port => "dynamic:peer:" +:+ Str.show_uint port
  | RStatic addr => "static:" +:+ show_socket_addr addr
  | RDns host port _ => "dns:" +:+ host +:+ ":" +:+ Str.show_uint port
  end.

Definition is_dynamic (r : UpstreamResolver) : bool := match r with RDynamic _ => true | _ => false end.

(** One round of [spawn_dns_refresh]: [None] is a failed lookup. *)
Definition dns_refresh (r : UpstreamResolver) (lookup : option (list Net.SocketAddr)) : UpstreamResolver :=
  match r, lookup with
  | RDns host port _, Some (addr :: _) => RDns host port (Some addr)
  | _, _ => r
  end.

(** ** The factory *)

Record ResolverFactory := mkFactory { rf_mode : Mode; rf_peer_state : bool }.

Definition new_relay : ResolverFactory := mkFactory Relay true.
Definition new_gateway : ResolverFactory := mkFactory Gateway true.
Definition new_terminal : ResolverFactory := mkFactory Terminal false.

Inductive ResolverBuildError :=
  | ModeMismatch (rule : string) (mode : Mode) (detail : string)
  | Internal (detail : string).

Definition resolver_build (f : ResolverFactory) (r : Rule) : result ResolverBuildError UpstreamResolver :=
  parsed_target ← match target r with
                  | Some s => t ← map_err (fun _ => Internal "rule has unparseable target string (validation bug)") (target_parse s);
                              Ok (Some t)
                  | None => Ok None
                  end;
  match rf_mode f, target_port r, parsed_target with
  | Gateway, Some port, None | Relay, Some port, None =>
      if rf_peer_state f then Ok (RDynamic port)
      else Err (Internal "relay-mode factory has no peer_state (logic error)")
  | Gateway, None, Some _ | Relay, None, Some _ =>
      Err (ModeMismatch (name r) (rf_mode f)
        "rule has target (terminal-style) but daemon accepts inbound chain traffic; terminal rules cannot run on a relay or gateway")
  | Terminal, None, Some (Static addr) => Ok (RStatic addr)
  | Terminal, None, Some (Dns host port) => Ok (RDns host port None)
  | Terminal, Some _, None =>
      Err (ModeMismatch (name r) Terminal
        "rule has target_port (relay-style) but daemon is in terminal mode; relay rules cannot run on a terminal")
  | _, Some _, Some _ => Err (Internal "rule has both target_port and target set (validation bug)")
  | _, None, None => Err (Internal "rule has neither target_port nor target set (validation bug)")
  end.

(** ** Lemmas *)

(** On a rule that validated the factory of a mode fails only for rules of the
    other kind, and what it builds dials what the rule says. *)
Lemma resolver_build_valid f r : rule_valid r -> f = new_relay \/ f = new_gateway \/ f = new_terminal ->
  match resolver_build f r with
  | Ok (RDynamic port) => rf_mode f <> Terminal /\ target_port r = Some port /\ target r = None
  | Ok (RStatic addr) => rf_mode f = Terminal /\ exists s, target r = Some s /\ target_parse s = Ok (Static addr)
  | Ok (RDns host port current) =>
      rf_mode f = Terminal /\ current = None /\ exists s, target r = Some s /\ target_parse s = Ok (Dns host port)
  | Err (ModeMismatch n m _) => n = name r /\ m = rf_mode f /\ (rf_mode f = Terminal <-> is_Some (target_port r))
  | Err (Internal _) => False
  end.
Proof.
  intros Hv Hf. unfold resolver_build. destruct (valid_dest r Hv) as [(p & -> & Hp & ->)|(s & t & -> & -> & Ht & Hpp)].
  - destruct Hf as [-> |[-> | ->]]; cbn; naive_solver.
  - cbn. rewrite Ht. cbn. destruct Hf as [-> |[-> | ->]]; cbn; [naive_solver..|].
    destruct t; cbn; split_and!; eauto.
Qed.

(** A lookup that fails keeps the target. *)
Lemma dns_refresh_keeps p r lookup : is_Some (current_target p r) -> is_Some (current_target p (dns_refresh r lookup)).
Proof. destruct r, lookup as [[]|]; cbn; eauto. Qed.

(** The watch of a listener fires exactly when a heartbeat changed the address. *)
Lemma changed_heartbeat p r addr now : is_dynamic r = true ->
  is_Some (changed (fst (record_heartbeat p addr now)) (watch_ip_changes p r)) <->
  current_ip p <> Some (Net.ip addr).
Proof.
  destruct r; try done. intros _. cbn. unfold record_heartbeat. destruct (current_ip p) as [old|].
  - case_bool_decide as Heq; cbn.
    + rewrite Nat.eqb_refl. subst. split; [by intros []|naive_solver].
    + rewrite (proj2 (Nat.eqb_neq _ _)) by lia. split; [naive_solver|eauto].
  - cbn. rewrite (proj2 (Nat.eqb_neq _ _)) by lia. split; [naive_solver|eauto].
Qed.
