(* ===== verification/TcpProxy.v ===== *)
(** * The TCP proxy of a rule ([yggdrasil/src/proxy/tcp.rs])

    What happens to one accepted connection, as a function of the client's bytes
    up to its end of stream, and the tasks of a proxy as a machine: its accept
    loops, its connections, and the graceful drain. *)

From S2P Require Import Prelude RustStd External Instances RuleTypes Error Rule PubKey PeerState Canary ChainTypes NetFmt ProxyProtocol Resolver.

Definition LISTEN_BACKLOG : Z := 1024.
Definition FORWARD_BUFFER_SIZE : Z := 32 * 1024.
Definition CANARY_PEEK_TIMEOUT : Z := Time.from_millis 200.

(** ** Listeners *)

(** [bind a i]: the address of the [i]-th socket bound to [a]. *)
Definition build_tcp_listener_sockets (bind : Net.SocketAddr -> nat -> option Net.SocketAddr) (addr : Net.SocketAddr) (workers : nat) :
    option (list Net.SocketAddr) :=
  if (workers =? 1)%nat then l ← bind addr 0%nat; Some [l]
  else
    first ← bind addr 0%nat;
    rest ← mapM (bind first) (seq 1 (workers - 1));
    Some (first :: rest).

(** ** One connection *)

(** [peek]: the bytes there within [CANARY_PEEK_TIMEOUT], at most
    [CANARY_TOKEN_LEN] of them; [None] when it times out or fails. *)
Definition peek_and_match_canary_token (arm_table : CanaryArmTable) (local_addr : Net.SocketAddr) (peek : option (list byte)) (now : Z) : option Token :=
  buf ← peek;
  if zlen buf <? CANARY_TOKEN_LEN then None
  else if match_token arm_table (local_addr, Tcp) buf now then Some buf else None.

Inductive Accepted := AcEcho (token : Token) | AcForward (target : Net.SocketAddr) | AcDropped.

(** What an accept loop does with a connection; [now] and [now'] are before and
    after the peek. *)
Definition accept_one (arm_table : CanaryArmTable) (p : PeerState) (resolver : UpstreamResolver) (local_addr : Net.SocketAddr)
    (peek : option (list byte)) (now now' : Z) : Accepted :=
  let forward := match current_target p resolver with Some target => AcForward target | None => AcDropped end in
  if is_armed arm_table (local_addr, Tcp) now then
    match peek_and_match_canary_token arm_table local_addr peek now' with Some token => AcEcho token | None => forward end
  else forward.

(** The reply to a probe: the client's bytes after the token.  [None]: the
    stream ends before it. *)
Definition run_canary_echo (input : list byte) : option (list byte) :=
  if zlen input <? CANARY_TOKEN_LEN then None else Some (skipn (Z.to_nat CANARY_TOKEN_LEN) input).

(** What the system answers: the connect and the two writes to the upstream;
    [net_pumped] bytes are copied before the connection ends. *)
Record Network := mkNetwork { net_connect : bool; net_header : bool; net_leftover : bool; net_pumped : nat }.

Inductive ConnError := ConnectFailed | InboundHeader (e : IoError) | HeaderWrite | LeftoverWrite.

(** What the upstream gets of the client's bytes, and the client it is told
    about. *)
Definition handle_connection (rule : Rule) (client_addr server_listen : Net.SocketAddr) (expect_inbound_proxy : bool) (net : Network)
    (input : list byte) : result ConnError (list byte) :=
  if negb (net_connect net) then Err ConnectFailed
  else
    '(client_addr, leftover, rest) ←
      (if expect_inbound_proxy then
         '(decode, rest) ← map_err InboundHeader (read_optional_header input);
         Ok (match endpoints decode with Some e => ep_client e | None => client_addr end, leftover decode, rest)
       else Ok (client_addr, [], input));
    header ← match proxy_protocol rule with
             | Some version => if net_header net then Ok (encode_header version client_addr server_listen) else Err HeaderWrite
             | None => Ok []
             end;
    match leftover with
    | [] => Ok (header ++ firstn (net_pumped net) rest)
    | _ => if net_leftover net then Ok (header ++ leftover ++ firstn (net_pumped net) rest) else Err LeftoverWrite
    end.

Inductive ErrorKind := ConnectionReset | ConnectionAborted | BrokenPipe | UnexpectedEnd | OtherKind.

Definition is_benign_close (e : ErrorKind) : bool :=
  match e with ConnectionReset | ConnectionAborted | BrokenPipe | UnexpectedEnd => true | OtherKind => false end.

(** ** The tasks of a proxy *)

(** A worker waits for a connection, peeks at one, or has left its loop. *)
Inductive WorkerState := WAccept | WPeek (client : Net.SocketAddr) | WExited.

(** Where [stop] is; [StDrain] carries when the drain times out, [StFinal] when
    the last wait does. *)
Inductive StopPhase := StRunning | StJoin (drain : option Z) | StDrain (until : Z) | StFinal (until : Z) | StStopped.

Record TcpProxy := mkTcp {
  t_workers : list WorkerState;
  t_conns : gmap nat Accepted;
  t_next : nat;
  accept_cancel : bool;
  conn_cancel : bool;
  t_phase : StopPhase
}.

(** [spawn_with_arm_table], the sockets bound. *)
Definition tcp_spawn (workers : nat) : option TcpProxy :=
  if (workers =? 0)%nat then None else Some (mkTcp (replicate workers WAccept) ∅ 0 false false StRunning).

Inductive TcpEvent :=
  | TvAccept (w : nat) (client : Net.SocketAddr)                  (** a connection *)
  | TvPlaced (w : nat) (client : Net.SocketAddr) (a : Accepted)   (** and what [accept_one] made of it *)
  | TvExit (w : nat)
  | TvEnd (id : nat)                                              (** a connection ends by itself *)
  | TvCut (id : nat)                                              (** or because it was cancelled *)
  | TvCancel
  | TvStop (drain : option Z)
  | TvJoined (now : Z)
  | TvDrained
  | TvTimeout (now : Z).

(** Taking a connection, or dropping it. *)
Definition place (st : TcpProxy) (w : nat) (a : Accepted) : TcpProxy :=
  let ws := <[w := WAccept]> (t_workers st) in
  match a with
  | AcDropped => mkTcp ws (t_conns st) (t_next st) (accept_cancel st) (conn_cancel st) (t_phase st)
  | _ => mkTcp ws (<[t_next st := a]> (t_conns st)) (S (t_next st)) (accept_cancel st) (conn_cancel st) (t_phase st)
  end.

Definition with_phase (st : TcpProxy) (conns_cut : bool) (p : StopPhase) : TcpProxy :=
  mkTcp (t_workers st) (t_conns st) (t_next st) true (conn_cancel st || conns_cut) p.

(** [None]: the event cannot happen. *)
Definition tcp_step (st : TcpProxy) (ev : TcpEvent) : option TcpProxy :=
  match ev with
  | TvAccept w client =>
      match t_workers st !! w, accept_cancel st with
      | Some WAccept, false => Some (mkTcp (<[w := WPeek client]> (t_workers st)) (t_conns st) (t_next st) false (conn_cancel st) (t_phase st))
      | _, _ => None
      end
  | TvPlaced w client a =>
      match t_workers st !! w with
      | Some (WPeek client') => if bool_decide (client = client') then Some (place st w a) else None
      | _ => None
      end
  | TvExit w =>
      match t_workers st !! w, accept_cancel st with
      | Some WAccept, true => Some (mkTcp (<[w := WExited]> (t_workers st)) (t_conns st) (t_next st) true (conn_cancel st) (t_phase st))
      | _, _ => None
      end
  | TvEnd id =>
      if bool_decide (is_Some (t_conns st !! id))
      then Some (mkTcp (t_workers st) (delete id (t_conns st)) (t_next st) (accept_cancel st) (conn_cancel st) (t_phase st)) else None
  | TvCut id =>
      if bool_decide (is_Some (t_conns st !! id)) && conn_cancel st
      then Some (mkTcp (t_workers st) (delete id (t_conns st)) (t_next st) (accept_cancel st) true (t_phase st)) else None
  | TvCancel => match t_phase st with StRunning => Some (with_phase st true StRunning) | _ => None end
  | TvStop drain => match t_phase st with StRunning => Some (with_phase st false (StJoin drain)) | _ => None end
  | TvJoined now =>
      match t_phase st with
      | StJoin drain =>
          if forallb (fun w => match w with WExited => true | _ => false end) (t_workers st) then
            match drain with
            | Some t => if t =? 0 then Some (with_phase st true StStopped) else Some (with_phase st false (StDrain (now + t)))
            | None => Some (with_phase st true StStopped)
            end
          else None
      | _ => None
      end
  | TvDrained =>
      match t_phase st with
      | StDrain _ | StFinal _ => if bool_decide (t_conns st = ∅) then Some (with_phase st false StStopped) else None
      | _ => None
      end
  | TvTimeout now =>
      match t_phase st with
      | StDrain until => if until <=? now then Some (with_phase st true (StFinal (now + Time.from_millis 250))) else None
      | StFinal until => if until <=? now then Some (with_phase st false StStopped) else None
      | _ => None
      end
  end.

Fixpoint tcp_run (st : TcpProxy) (evs : list TcpEvent) : option TcpProxy :=
  match evs with [] => Some st | ev :: evs => st ← tcp_step st ev; tcp_run st evs end.

(** ** Lemmas *)

Lemma build_listeners_same bind addr workers first rest : build_tcp_listener_sockets bind addr workers = Some (first :: rest) ->
  (forall a i b, bind a i = Some b -> (1 <= i)%nat -> b = a) -> Forall (fun a => a = first) rest.
Proof.
  unfold build_tcp_listener_sockets. destruct (workers =? 1)%nat; intros (f & Hf & Hr)%bind_Some Hsame; [by injection Hr as <- <-|].
  apply bind_Some in Hr as (l & Hl & [= <- <-]). apply mapM_Some in Hl. rewrite Forall_forall. intros a Ha.
  apply list_elem_of_lookup in Ha as [i Hi]. destruct (Forall2_lookup_r _ _ _ _ _ Hl Hi) as (n & Hn & Hb).
  apply (Hsame _ _ _ Hb). apply lookup_seq in Hn as [-> _]. lia.
Qed.

Lemma tcp_run_snoc st evs ev : tcp_run st (evs ++ [ev]) = st' ← tcp_run st evs; tcp_step st' ev.
Proof. revert st. induction evs as [|e evs IH]; intros st; cbn; [by destruct (tcp_step st ev)|]. destruct (tcp_step st e); [apply IH|done]. Qed.

(** What the phase and the flags say about the past. *)
Record past (evs : list TcpEvent) (st : TcpProxy) : Prop := {
  pa_join d : t_phase st = StJoin d -> TvStop d ∈ evs;
  pa_drain until : t_phase st = StDrain until -> exists t j, t <> 0 /\ until = j + t /\ TvStop (Some t) ∈ evs /\ TvJoined j ∈ evs;
  pa_cut : conn_cancel st = true -> TvCancel ∈ evs \/ TvStop None ∈ evs \/ TvStop (Some 0) ∈ evs \/
    exists t j now, t <> 0 /\ j + t <= now /\ TvStop (Some t) ∈ evs /\ TvJoined j ∈ evs /\ TvTimeout now ∈ evs;
  pa_joined : match t_phase st with StRunning | StJoin _ => True | _ => Forall (fun w => w = WExited) (t_workers st) end;
  pa_final until : t_phase st = StFinal until -> conn_cancel st = true;
  pa_stopped : t_phase st = StStopped -> conn_cancel st = true \/ t_conns st = ∅
}.

Lemma past_mono evs ev st : past evs st -> past (evs ++ [ev]) st.
Proof.
  intros [Hj Hd Hc Hw Hf Hs]. split; [..|done|done|done].
  - intros d Hp. apply elem_of_app. left. by apply Hj.
  - intros u Hp. destruct (Hd u Hp) as (t & j & ? & ? & ? & ?). exists t, j. rewrite !elem_of_app. auto.
  - intros Hcut. destruct (Hc Hcut) as [?|[?|[?|(t & j & n & ? & ? & ? & ? & ?)]]]; rewrite !elem_of_app; [by auto..|].
    right. right. right. exists t, j, n. rewrite !elem_of_app. auto 10.
Qed.

(** A worker that is still in its loop: the proxy has not joined them. *)
Lemma joined_no_worker st w x : match t_phase st with StRunning | StJoin _ => True | _ => Forall (fun w => w = WExited) (t_workers st) end ->
  t_workers st !! w = Some x -> x <> WExited -> match t_phase st with StRunning | StJoin _ => True | _ => False end.
Proof. intros Hw Hx Hne. destruct (t_phase st); try done; exfalso; rewrite Forall_lookup in Hw; by apply Hne, (Hw w). Qed.

Lemma forallb_exited ws : forallb (fun w => match w with WExited => true | _ => false end) ws = true -> Forall (fun w => w = WExited) ws.
Proof. rewrite forallb_forall, Forall_forall. intros Hf w Hw%list_elem_of_In. specialize (Hf w Hw). by destruct w. Qed.

Lemma past_step evs ev st st' : past evs st -> tcp_step st ev = Some st' -> past (evs ++ [ev]) st'.
Proof.
  intros Hpast Hstep. pose proof (past_mono evs ev st Hpast) as [Hj Hd Hc Hw Hf Hs].
  assert (forall e, e ∈ evs -> e ∈ evs ++ [ev]) as Hold by (intros e He; apply elem_of_app; by left).
  assert (ev ∈ evs ++ [ev]) as Hnew by (apply elem_of_app; right; apply list_elem_of_here).
  destruct ev as [w c|w c a|w|id|id| |d|now| |now]; cbn in Hstep.
  - destruct (t_workers st !! w) as [[]|] eqn:Hl; try done. destruct (accept_cancel st); [done|]. injection Hstep as <-.
    pose proof (joined_no_worker st w _ Hw Hl ltac:(done)) as Hr. split; cbn; try done. by destruct (t_phase st).
  - destruct (t_workers st !! w) as [[]|] eqn:Hl; try done. case_bool_decide; [|done]. injection Hstep as <-.
    pose proof (joined_no_worker st w _ Hw Hl ltac:(done)) as Hr. unfold place.
    destruct a; split; cbn; try done; (destruct (t_phase st); [done..|]); done.
  - destruct (t_workers st !! w) as [[]|] eqn:Hl; try done. destruct (accept_cancel st); [|done]. injection Hstep as <-.
    pose proof (joined_no_worker st w _ Hw Hl ltac:(done)) as Hr. split; cbn; try done. by destruct (t_phase st).
  - case_bool_decide; [|done]. injection Hstep as <-. split; cbn; try done. intros Hp. destruct (Hs Hp) as [->| ->]; [by left|right; apply delete_empty].
  - destruct (bool_decide _ && _) eqn:Hb; [|done]. injection Hstep as <-. apply andb_true_iff in Hb as [_ Hcut]. split; cbn; try done; [by intros _; apply Hc|by left].
  - destruct (t_phase st) eqn:Hp; try done. injection Hstep as <-. split; cbn; try done. by left.
  - destruct (t_phase st) eqn:Hp; try done. injection Hstep as <-. split; cbn; try done; [by intros d' [= <-]|by rewrite orb_false_r].
  - destruct (t_phase st) eqn:Hp; try done. destruct (forallb _ _) eqn:Hall; [|done]. apply forallb_exited in Hall. pose proof (Hj _ eq_refl) as Hstop.
    destruct drain as [t|]; [destruct (Z.eqb_spec t 0) as [->|Ht]|]; injection Hstep as <-; (split; cbn; try done); rewrite ?orb_true_r, ?orb_false_r; auto.
    intros u [= <-]. exists t, now. auto.
  - assert (t_conns st = ∅ /\ st' = with_phase st false StStopped /\ Forall (fun w => w = WExited) (t_workers st)) as (He & -> & Hall).
    { destruct (t_phase st); try done; (case_bool_decide; [|done]); by injection Hstep as <-. }
    split; cbn; try done; [by rewrite orb_false_r|by right].
  - destruct (t_phase st) eqn:Hp; try done; (destruct (Z.leb_spec until now) as [Hle|]; [|done]); injection Hstep as <-; (split; cbn; try done); rewrite ?orb_true_r, ?orb_false_r; try done.
    + intros _. right. right. right. destruct (Hd until eq_refl) as (t & j & Ht & -> & Hst & Hjo). by exists t, j, now.
    + intros _. left. by apply (Hf until).
Qed.

Lemma spawn_past n st : tcp_spawn n = Some st -> past [] st.
Proof. unfold tcp_spawn. destruct (n =? 0)%nat; [done|]. intros [= <-]. by split. Qed.

Lemma run_past st0 evs st : past [] st0 -> tcp_run st0 evs = Some st -> past evs st.
Proof.
  intros H0. revert st. induction evs as [|ev evs IH] using rev_ind; intros st; [by intros [= <-]|].
  rewrite tcp_run_snoc. intros (st1 & H1 & H2)%bind_Some. eapply past_step; [by apply IH|done].
Qed.

Lemma tcp_run_app st evs evs' : tcp_run st (evs ++ evs') = st' ← tcp_run st evs; tcp_run st' evs'.
Proof. revert st. induction evs as [|e evs IH]; intros st; cbn; [done|]. destruct (tcp_step st e); [apply IH|done]. Qed.

Module TcpProxyProps.

(** C21: A graceful stop spares the connections: when [stop] is asked to drain
    for a time [t], a connection is cut only once [t] has passed since the last
    accept loop ended; and when it returns, no accept loop runs, and each
    connection has ended or been told to. *)
Theorem graceful_stop n st0 evs st t :
  tcp_spawn n = Some st0 -> tcp_run st0 evs = Some st -> TvCancel ∉ evs -> (forall d, TvStop d ∈ evs -> d = Some t) -> t <> 0 ->
  (forall evs1 id evs2, evs = evs1 ++ TvCut id :: evs2 -> exists j now, TvJoined j ∈ evs1 /\ TvTimeout now ∈ evs1 /\ j + t <= now) /\
  (t_phase st = StStopped -> Forall (fun w => w = WExited) (t_workers st) /\ (t_conns st = ∅ \/ conn_cancel st = true)).
Proof.
  intros Hsp Hrun Hnc Hd Ht. pose proof (spawn_past n st0 Hsp) as H0. split.
  - intros evs1 id evs2 ->. rewrite tcp_run_app in Hrun. apply bind_Some in Hrun as (st1 & H1 & H2). apply bind_Some in H2 as (st2 & H2 & _).
    destruct (run_past st0 evs1 st1 H0 H1) as [_ _ Hc _ _ _].
    assert (forall e, e ∈ evs1 -> e ∈ evs1 ++ TvCut id :: evs2) as Hin by (intros e He; apply elem_of_app; by left).
    cbn in H2. destruct (bool_decide _ && conn_cancel st1) eqn:Hb; [|done]. apply andb_true_iff in Hb as [_ Hcut].
    destruct (Hc Hcut) as [?|[Hn|[Hz|(t' & j & now & _ & Hle & Hs & Hj & Hto)]]].
    + by destruct Hnc; apply Hin.
    + apply Hin, Hd in Hn. done.
    + apply Hin, Hd in Hz. congruence.
    + apply Hin, Hd in Hs as [= ->]. by exists j, now.
  - intros Hp. destruct (run_past st0 evs st H0 Hrun) as [_ _ _ Hw _ Hs]. rewrite Hp in Hw. split; [done|]. destruct (Hs Hp); auto.
Qed.

(** One worker, one connection that outlives the drain. *)
Definition demo_peer_addr : Net.SocketAddr := Net.SocketAddr_new (Net.IpV4 (Net.v4_new 203 0 113 7)) 54321.
Definition demo_tcp_events : list TcpEvent :=
  [TvAccept 0 demo_peer_addr; TvPlaced 0 demo_peer_addr (AcForward demo_peer_addr); TvStop (Some 30); TvExit 0; TvJoined 100; TvTimeout 130; TvCut 0; TvDrained].

Lemma graceful_stop_witness : exists j now, TvJoined j ∈ take 6 demo_tcp_events /\ TvTimeout now ∈ take 6 demo_tcp_events /\ j + 30 <= now.
Proof.
  destruct (tcp_run (mkTcp [WAccept] ∅ 0 false false StRunning) demo_tcp_events) as [st|] eqn:Hrun; [|by vm_compute in Hrun].
  apply (fun a b c => proj1 (graceful_stop 1 _ demo_tcp_events st 30 eq_refl Hrun a b c)) with (id := 0%nat) (evs2 := [TvDrained]).
  - set_solver.
  - intros d. unfold demo_tcp_events. rewrite !elem_of_cons. intros Hd. repeat destruct Hd as [[=]|Hd]; [done|by apply not_elem_of_nil in Hd].
  - done.
  - reflexivity.
Defined.

End TcpProxyProps.
