(* ===== verification/UdpProxy.v ===== *)
(** * The UDP proxy of a rule ([yggdrasil/src/proxy/udp/mod.rs])

    The workers each run a frontend loop and the return loops of their flows on
    one thread; the reaper and the watcher for address changes run on others.
    [udp_step] is one atomic action of one of them on the shared state: a
    [DashMap] call on one key, a read-modify-write of the flow counter, one
    read of the resolver.  A step that is not enabled is [None].  On a
    worker's thread the frontend and the return loops change over only where
    the source awaits. *)

From S2P Require Import Prelude RustStd External Instances RuleTypes Error Rule PubKey PeerState Canary ChainTypes NetFmt ProxyProtocol Resolver.

Definition MAX_FLOWS_PER_RULE_DEFAULT : Z := 65536.
Definition RECV_BUFFER_LEN : Z := 65535.
Definition PENDING_PROXY_TTL : Z := Time.from_secs 5.

(** [available]: [available_parallelism()], when it is known. *)
Definition resolve_workers (server_default available : option Z) : Z :=
  Z.max 1 (default (default 1 available) server_default).

(** ** State *)

(** A flow: its upstream socket, which also names the task that reads it, the
    address the socket is connected to, and [last_seen_ms]. *)
Record FlowEntry := mkFlow { fl_sock : nat; fl_target : Net.SocketAddr; last_seen_ms : Z }.

#[global] Instance FlowEntry_eq_dec : EqDecision FlowEntry.
Proof. solve_decision. Defined.

Notation Shard := (gmap Net.SocketAddr FlowEntry).
Notation Datagram := (list byte * Net.SocketAddr)%type.

(** Where [handle_inbound] of a worker is. *)
Inductive Front :=
  | FWait                                                        (** between datagrams *)
  | FMissed (payload : list byte) (client : Net.SocketAddr)      (** no flow found *)
  | FTargeted (payload : list byte) (client target : Net.SocketAddr)
  | FBinding (payload : list byte) (client target : Net.SocketAddr)  (** awaits the socket *)
  | FSpawned (payload : list byte) (client target : Net.SocketAddr) (sock : nat)
  | FReserved (payload : list byte) (client target : Net.SocketAddr) (sock : nat).

(** A return loop that left its [recv] with an error. *)
Inductive Leaving := Removing (sock : nat) (client : Net.SocketAddr) | Discounting (sock : nat).

Record UdpWorker := mkWorker {
  w_flows : Shard;
  w_pending : gmap Net.SocketAddr (Net.SocketAddr * Z);   (** [pending_real_clients] *)
  w_batch : list Datagram;
  w_armed : bool;                                         (** [arm_active] of the batch *)
  w_slow : list Datagram;                                 (** [slow_path] *)
  w_front : Front;
  w_leaving : option Leaving
}.

Record Task := mkTask { tk_worker : nat; tk_client : Net.SocketAddr; tk_aborted : bool }.

Inductive Reaper :=
  | RIdle
  | RScan (w : nat) (now_ms : Z) (victims : list Net.SocketAddr)
  | RRemove (w : nat) (now_ms : Z) (victims : list Net.SocketAddr)
  | RDiscount (w : nat) (now_ms : Z) (sock : nat) (victims : list Net.SocketAddr)
  | RAbort (w : nat) (now_ms : Z) (sock : nat) (victims : list Net.SocketAddr).

(** [todo]: the clients of the shard that [retain] has not visited. *)
Inductive Drainer :=
  | DUnborn
  | DIdle (seen : nat)
  | DRetain (seen : nat) (w : nat) (todo : gset Net.SocketAddr) (drained : Z).

Record UdpProxy := mkProxy {
  workers : list UdpWorker;
  flow_count : Z;
  tasks : gmap nat Task;
  next_sock : nat;
  reaper : Reaper;
  drainer : Drainer;
  peer : PeerState;
  resolver : UpstreamResolver;
  arm_table : CanaryArmTable
}.

Record UdpConfig := mkUdpConfig {
  uc_rule : Rule;
  local_addr : Net.SocketAddr;
  start : Z;
  max_flows : Z;
  expect_inbound_proxy : bool
}.

Inductive Output :=
  | ToUpstream (sock : nat) (bytes : list byte)
  | ToClient (w : nat) (client : Net.SocketAddr) (bytes : list byte).

Definition worker_new : UdpWorker := mkWorker ∅ ∅ [] false [] FWait None.

(** [spawn_with_arm_table], with the sockets bound. *)
Definition udp_spawn (n : nat) (p : PeerState) (r : UpstreamResolver) (arms : CanaryArmTable) : UdpProxy :=
  mkProxy (repeat worker_new n) 0 ∅ 0 RIdle DUnborn p r arms.

Definition active_flows (st : UdpProxy) : nat := sum_list_with (fun w => size (w_flows w)) (workers st).

(** ** Updates *)

Definition with_workers (st : UdpProxy) (ws : list UdpWorker) : UdpProxy :=
  mkProxy ws (flow_count st) (tasks st) (next_sock st) (reaper st) (drainer st) (peer st) (resolver st) (arm_table st).
Definition set_worker (st : UdpProxy) (i : nat) (w : UdpWorker) : UdpProxy := with_workers st (<[i := w]> (workers st)).
Definition with_count (st : UdpProxy) (n : Z) : UdpProxy :=
  mkProxy (workers st) n (tasks st) (next_sock st) (reaper st) (drainer st) (peer st) (resolver st) (arm_table st).
Definition with_tasks (st : UdpProxy) (ts : gmap nat Task) : UdpProxy :=
  mkProxy (workers st) (flow_count st) ts (next_sock st) (reaper st) (drainer st) (peer st) (resolver st) (arm_table st).
Definition with_reaper (st : UdpProxy) (r : Reaper) : UdpProxy :=
  mkProxy (workers st) (flow_count st) (tasks st) (next_sock st) r (drainer st) (peer st) (resolver st) (arm_table st).
Definition with_drainer (st : UdpProxy) (d : Drainer) : UdpProxy :=
  mkProxy (workers st) (flow_count st) (tasks st) (next_sock st) (reaper st) d (peer st) (resolver st) (arm_table st).
Definition with_peer (st : UdpProxy) (p : PeerState) : UdpProxy :=
  mkProxy (workers st) (flow_count st) (tasks st) (next_sock st) (reaper st) (drainer st) p (resolver st) (arm_table st).
Definition with_resolver (st : UdpProxy) (r : UpstreamResolver) : UdpProxy :=
  mkProxy (workers st) (flow_count st) (tasks st) (next_sock st) (reaper st) (drainer st) (peer st) r (arm_table st).
Definition with_arms (st : UdpProxy) (t : CanaryArmTable) : UdpProxy :=
  mkProxy (workers st) (flow_count st) (tasks st) (next_sock st) (reaper st) (drainer st) (peer st) (resolver st) t.

Definition set_flows (w : UdpWorker) (m : Shard) : UdpWorker :=
  mkWorker m (w_pending w) (w_batch w) (w_armed w) (w_slow w) (w_front w) (w_leaving w).
Definition set_front (w : UdpWorker) (f : Front) : UdpWorker :=
  mkWorker (w_flows w) (w_pending w) (w_batch w) (w_armed w) (w_slow w) f (w_leaving w).
Definition set_pending (w : UdpWorker) (m : gmap Net.SocketAddr (Net.SocketAddr * Z)) : UdpWorker :=
  mkWorker (w_flows w) m (w_batch w) (w_armed w) (w_slow w) (w_front w) (w_leaving w).
Definition set_queues (w : UdpWorker) (batch slow : list Datagram) : UdpWorker :=
  mkWorker (w_flows w) (w_pending w) batch (w_armed w) slow (w_front w) (w_leaving w).
Definition set_leaving (w : UdpWorker) (l : option Leaving) : UdpWorker :=
  mkWorker (w_flows w) (w_pending w) (w_batch w) (w_armed w) (w_slow w) (w_front w) l.

(** [start.elapsed().as_millis() as u64]. *)
Definition now_ms (cfg : UdpConfig) (now : Z) : Z := wrap 64 (Time.as_millis (Z.max 0 (now - start cfg))).

(** [entry.last_seen_ms.store(..)] on the entry of [client]. *)
Definition touch (m : Shard) (client : Net.SocketAddr) (ms : Z) : Shard :=
  alter (fun f => mkFlow (fl_sock f) (fl_target f) ms) client m.

Definition abort_task (ts : gmap nat Task) (sock : nat) : gmap nat Task :=
  alter (fun t => mkTask (tk_worker t) (tk_client t) true) sock ts.

(** [fetch_sub] on an [AtomicUsize] wraps. *)
Definition fetch_sub (count n : Z) : Z := wrap 64 (count - n).

(** [try_reserve_flow]: the compare-exchange loop ends with the test and the
    increment on one value of the counter. *)
Definition try_reserve_flow (cfg : UdpConfig) (count : Z) : option Z :=
  if max_flows cfg <=? count then None else Some (count + 1).

(** ** The frontend *)

(** The canary test of one datagram. *)
Definition is_probe (cfg : UdpConfig) (t : CanaryArmTable) (armed : bool) (payload : list byte) (now : Z) : bool :=
  armed && (CANARY_TOKEN_LEN <=? zlen payload) &&
  match_token t (local_addr cfg, Udp) (firstn (Z.to_nat CANARY_TOKEN_LEN) payload) now.

Inductive TrySend := Sent | WouldBlock | SendFailed.

(** [try_handle_inbound_fast]: [None] is its [false]. *)
Definition try_handle_inbound_fast (cfg : UdpConfig) (w : UdpWorker) (payload : list byte) (client : Net.SocketAddr)
    (now : Z) (r : TrySend) : UdpWorker * option (list Output) :=
  match w_flows w !! client with
  | None => (w, None)
  | Some entry =>
      (set_flows w (touch (w_flows w) client (now_ms cfg now)),
       match r with
       | Sent => Some [ToUpstream (fl_sock entry) payload]
       | WouldBlock => None
       | SendFailed => Some []
       end)
  end.

(** One datagram of the batch. *)
Definition dispatch_datagram (cfg : UdpConfig) (i : nat) (arms : CanaryArmTable) (w : UdpWorker) (d : Datagram)
    (now : Z) (r : TrySend) : UdpWorker * list Output :=
  let '(payload, from) := d in
  let slow w := set_queues w (w_batch w) (w_slow w ++ [d]) in
  if is_probe cfg arms (w_armed w) payload now then
    match r with
    | Sent => (w, [ToClient i from payload])
    | WouldBlock => (slow w, [])
    | SendFailed => (w, [])
    end
  else
    match try_handle_inbound_fast cfg w payload from now r with
    | (w, Some out) => (w, out)
    | (w, None) => (slow w, [])
    end.

(** The first reads of [handle_inbound]: a flow, or a decoded PROXY header, or
    on to the target. *)
Definition handle_inbound (cfg : UdpConfig) (w : UdpWorker) (payload : list byte) (client : Net.SocketAddr)
    (now : Z) (sent : bool) : UdpWorker * list Output :=
  match w_flows w !! client with
  | Some entry =>
      (set_flows w (touch (w_flows w) client (now_ms cfg now)),
       if sent then [ToUpstream (fl_sock entry) payload] else [])
  | None =>
      match (if expect_inbound_proxy cfg then decode_v2_from_datagram payload else None) with
      | Some e => (set_pending w (<[client := (ep_client e, now)]> (w_pending w)), [])
      | None => (set_front w (FMissed payload client), [])
      end
  end.

(** [outbound_client_addr]: the stashed client while it is fresh. *)
Definition outbound_client (w : UdpWorker) (client : Net.SocketAddr) (now : Z) : Net.SocketAddr :=
  match w_pending w !! client with
  | Some (real, stashed_at) => if Z.max 0 (now - stashed_at) <=? PENDING_PROXY_TTL then real else client
  | None => client
  end.

(** After [create_flow]: drain the stash, send the header and the datagram. *)
Definition first_sends (cfg : UdpConfig) (w : UdpWorker) (payload : list byte) (client : Net.SocketAddr) (sock : nat)
    (now : Z) (header_sent payload_sent : bool) : UdpWorker * list Output :=
  let outbound := outbound_client w client now in
  let header := match proxy_protocol (uc_rule cfg) with
                | Some ProxyV2 => [ToUpstream sock (encode_header ProxyV2 outbound (local_addr cfg))]
                | _ => []
                end in
  (set_front (set_pending w (delete client (w_pending w))) FWait,
   (if header_sent then header else []) ++ (if payload_sent then [ToUpstream sock payload] else [])).

(** The bind address of an upstream socket. *)
Definition upstream_bind_addr (target : Net.SocketAddr) : Net.SocketAddr :=
  match Net.ip target with
  | Net.IpV4 _ => Net.SocketAddr_new (Net.IpV4 Net.V4_UNSPECIFIED) 0
  | Net.IpV6 _ => Net.SocketAddr_new (Net.IpV6 Net.V6_UNSPECIFIED) 0
  end.

(** What a return loop received and whether each send to the client succeeded:
    a batch of [recvmmsg], or one datagram of [recv]. *)
Inductive ReturnMode :=
  | Batched (ds : list (list byte * bool))
  | Single (payload : list byte) (sent : bool).

Definition touch_client (cfg : UdpConfig) (t : Task) (w : UdpWorker) (now : Z) : UdpWorker :=
  set_flows w (touch (w_flows w) (tk_client t) (now_ms cfg now)).

(** [upstream_batch_forward]: refreshes the flow once, whatever was sent. *)
Definition upstream_batch_forward (cfg : UdpConfig) (t : Task) (w : UdpWorker) (ds : list (list byte * bool)) (now : Z) :
    UdpWorker * list Output :=
  (touch_client cfg t w now,
   omap (fun '(payload, ok) => if ok : bool then Some (ToClient (tk_worker t) (tk_client t) payload) else None) ds).

(** One turn of [upstream_to_client_loop_single]: refreshes the flow after a
    send that succeeded. *)
Definition forward_single (cfg : UdpConfig) (t : Task) (w : UdpWorker) (payload : list byte) (sent : bool) (now : Z) :
    UdpWorker * list Output :=
  if sent then (touch_client cfg t w now, [ToClient (tk_worker t) (tk_client t) payload]) else (w, []).

Definition return_forward (cfg : UdpConfig) (t : Task) (w : UdpWorker) (mode : ReturnMode) (now : Z) : UdpWorker * list Output :=
  match mode with
  | Batched [] => (w, [])
  | Batched ds => upstream_batch_forward cfg t w ds now
  | Single payload sent => forward_single cfg t w payload sent now
  end.

(** ** Steps *)

Inductive Event :=
  | EvBatch (i : nat) (ds : list Datagram) (now : Z)              (** [recv.recv] returned *)
  | EvDispatch (i : nat) (now : Z) (r : TrySend)                  (** next datagram of the batch *)
  | EvSlow (i : nat) (now : Z) (sent : bool)                      (** next one of [slow_path] *)
  | EvTarget (i : nat)                                            (** [resolver.current_target()] *)
  | EvCapacity (i : nat)                                          (** [flow_count.load() >= max_flows] *)
  | EvBound (i : nat) (ok : bool)                                 (** the socket, and the task on it *)
  | EvEntry (i : nat) (now : Z) (header_sent payload_sent : bool) (** [flows.entry], [try_reserve_flow] *)
  | EvInsert (i : nat) (created now : Z) (header_sent payload_sent : bool)
  | EvReturn (sock : nat) (mode : ReturnMode) (now : Z)           (** a return loop forwards *)
  | EvReturnError (sock : nat)
  | EvLeaveRemove (i : nat)
  | EvLeaveDiscount (i : nat)
  | EvReapStart (now : Z)
  | EvReapVisit (client : Net.SocketAddr)
  | EvReapScanned
  | EvReapRemove
  | EvReapDiscount
  | EvReapAbort
  | EvReapNext
  | EvWatch                                                       (** the watcher subscribes *)
  | EvDrainStart
  | EvDrainVisit (client : Net.SocketAddr)
  | EvDrainShard
  | EvHeartbeat (addr : Net.SocketAddr) (now : Z)
  | EvLookup (addrs : option (list Net.SocketAddr))               (** the DNS refresh *)
  | EvArm (op : ArmOp).

(** The worker's thread is at an await: another of its tasks may run. *)
Definition at_await (w : UdpWorker) : bool :=
  match w_front w with FWait | FBinding _ _ _ => true | _ => false end.

(** The frontend of worker [i] runs. *)
Definition on_front (st : UdpProxy) (i : nat) (k : UdpWorker -> option (UdpWorker * list Output)) :
    option (UdpProxy * list Output) :=
  w ← workers st !! i;
  match w_leaving w with
  | Some _ => None
  | None => '(w', out) ← k w; Some (set_worker st i w', out)
  end.

(** The task of [sock] is polled: it was not aborted and its thread is free. *)
Definition on_task (st : UdpProxy) (sock : nat) (k : Task -> UdpWorker -> option (UdpWorker * list Output)) :
    option (UdpProxy * list Output) :=
  t ← tasks st !! sock;
  w ← workers st !! tk_worker t;
  if tk_aborted t || negb (at_await w) then None
  else match w_leaving w with
  | Some _ => None
  | None => '(w', out) ← k t w; Some (set_worker st (tk_worker t) w', out)
  end.

Definition idle_ms (cfg : UdpConfig) : Z := wrap 64 (Time.as_millis (resolved_idle_timeout (uc_rule cfg))).

(** How often the reaper runs. *)
Definition reaper_interval (cfg : UdpConfig) : Z := Z.max (resolved_idle_timeout (uc_rule cfg) / 4) (Time.from_millis 100).

(** The test of [reap_idle]. *)
Definition is_idle (cfg : UdpConfig) (now : Z) (f : FlowEntry) : bool :=
  idle_ms cfg <=? saturating_sub now (last_seen_ms f).

Definition shard_clients (st : UdpProxy) (i : nat) : gset Net.SocketAddr :=
  match workers st !! i with Some w => dom (w_flows w) | None => ∅ end.

(** [frontend_loop]: a batch arrives, then each datagram of it, then each of
    [slow_path]. *)
Definition frontend_step (cfg : UdpConfig) (st : UdpProxy) (ev : Event) : option (UdpProxy * list Output) :=
  match ev with
  | EvBatch i ds now =>
      on_front st i (fun w =>
        match w_front w, w_batch w, w_slow w with
        | FWait, [], [] =>
            Some (mkWorker (w_flows w) (w_pending w) ds (is_armed (arm_table st) (local_addr cfg, Udp) now) [] FWait None, [])
        | _, _, _ => None
        end)
  | EvDispatch i now r =>
      on_front st i (fun w =>
        match w_front w, w_batch w with
        | FWait, d :: rest => Some (dispatch_datagram cfg i (arm_table st) (set_queues w rest (w_slow w)) d now r)
        | _, _ => None
        end)
  | EvSlow i now sent =>
      on_front st i (fun w =>
        match w_front w, w_batch w, w_slow w with
        | FWait, [], (payload, from) :: rest =>
            let w := set_queues w [] rest in
            if is_probe cfg (arm_table st) (w_armed w) payload now
            then Some (w, if sent then [ToClient i from payload] else [])
            else Some (handle_inbound cfg w payload from now sent)
        | _, _, _ => None
        end)
  | _ => None
  end.

(** [handle_inbound] of a datagram without a flow, up to [create_flow]. *)
Definition admit_step (cfg : UdpConfig) (st : UdpProxy) (ev : Event) : option (UdpProxy * list Output) :=
  match ev with
  | EvTarget i =>
      on_front st i (fun w =>
        match w_front w with
        | FMissed payload client =>
            Some (set_front w match current_target (peer st) (resolver st) with
                              | Some t => FTargeted payload client t
                              | None => FWait
                              end, [])
        | _ => None
        end)
  | EvCapacity i =>
      on_front st i (fun w =>
        match w_front w with
        | FTargeted payload client t =>
            Some (set_front w (if max_flows cfg <=? flow_count st then FWait else FBinding payload client t), [])
        | _ => None
        end)
  | _ => None
  end.

(** [create_flow] and [try_reserve_flow], and the first sends behind them. *)
Definition create_step (cfg : UdpConfig) (st : UdpProxy) (ev : Event) : option (UdpProxy * list Output) :=
  match ev with
  | EvBound i ok =>
      '(st', out) ← on_front st i (fun w =>
        match w_front w with
        | FBinding payload client t => Some (set_front w (if ok then FSpawned payload client t (next_sock st) else FWait), [])
        | _ => None
        end);
      match workers st !! i with
      | Some w =>
          match w_front w with
          | FBinding _ client _ =>
              if ok then Some (mkProxy (workers st') (flow_count st') (<[next_sock st := mkTask i client false]> (tasks st'))
                                 (S (next_sock st)) (reaper st') (drainer st') (peer st') (resolver st') (arm_table st'), out)
              else Some (st', out)
          | _ => None
          end
      | None => None
      end
  | EvEntry i now header_sent payload_sent =>
      w ← workers st !! i;
      match w_leaving w, w_front w with
      | None, FSpawned payload client t sock =>
          match w_flows w !! client with
          | Some existing =>
              let '(w', out) := first_sends cfg w payload client (fl_sock existing) now header_sent payload_sent in
              Some (with_tasks (set_worker st i w') (abort_task (tasks st) sock), out)
          | None =>
              match try_reserve_flow cfg (flow_count st) with
              | None => Some (with_tasks (set_worker st i (set_front w FWait)) (abort_task (tasks st) sock), [])
              | Some n => Some (with_count (set_worker st i (set_front w (FReserved payload client t sock))) n, [])
              end
          end
      | _, _ => None
      end
  | EvInsert i created now header_sent payload_sent =>
      on_front st i (fun w =>
        match w_front w with
        | FReserved payload client t sock =>
            Some (first_sends cfg (set_flows w (<[client := mkFlow sock t (now_ms cfg created)]> (w_flows w)))
                    payload client sock now header_sent payload_sent)
        | _ => None
        end)
  | _ => None
  end.

(** [upstream_to_client_loop], batched or single. *)
Definition return_step (cfg : UdpConfig) (st : UdpProxy) (ev : Event) : option (UdpProxy * list Output) :=
  match ev with
  | EvReturn sock mode now => on_task st sock (fun t w => Some (return_forward cfg t w mode now))
  | EvReturnError sock =>
      on_task st sock (fun t w => Some (set_leaving w (Some (Removing sock (tk_client t))), []))
  | EvLeaveRemove i =>
      w ← workers st !! i;
      match w_leaving w with
      | Some (Removing sock client) =>
          match w_flows w !! client with
          | Some _ => Some (set_worker st i (set_leaving (set_flows w (delete client (w_flows w))) (Some (Discounting sock))), [])
          | None => Some (with_tasks (set_worker st i (set_leaving w None)) (delete sock (tasks st)), [])
          end
      | _ => None
      end
  | EvLeaveDiscount i =>
      w ← workers st !! i;
      match w_leaving w with
      | Some (Discounting sock) =>
          Some (with_count (with_tasks (set_worker st i (set_leaving w None)) (delete sock (tasks st))) (fetch_sub (flow_count st) 1), [])
      | _ => None
      end
  | _ => None
  end.

(** [reap_idle]. *)
Definition reap_step (cfg : UdpConfig) (st : UdpProxy) (ev : Event) : option (UdpProxy * list Output) :=
  match ev with
  | EvReapStart now =>
      match reaper st with RIdle => Some (with_reaper st (RScan 0 (now_ms cfg now) []), []) | _ => None end
  | EvReapVisit client =>
      match reaper st with
      | RScan i ms victims =>
          w ← workers st !! i;
          f ← w_flows w !! client;
          Some (with_reaper st (RScan i ms (if is_idle cfg ms f then victims ++ [client] else victims)), [])
      | _ => None
      end
  | EvReapScanned =>
      match reaper st with RScan i ms victims => Some (with_reaper st (RRemove i ms victims), []) | _ => None end
  | EvReapRemove =>
      match reaper st with
      | RRemove i ms (client :: rest) =>
          w ← workers st !! i;
          match w_flows w !! client with
          | Some f =>
              Some (with_reaper (set_worker st i (set_flows w (delete client (w_flows w)))) (RDiscount i ms (fl_sock f) rest), [])
          | None => Some (with_reaper st (RRemove i ms rest), [])
          end
      | _ => None
      end
  | EvReapDiscount =>
      match reaper st with
      | RDiscount i ms sock rest => Some (with_reaper (with_count st (fetch_sub (flow_count st) 1)) (RAbort i ms sock rest), [])
      | _ => None
      end
  | EvReapAbort =>
      match reaper st with
      | RAbort i ms sock rest => Some (with_reaper (with_tasks st (abort_task (tasks st) sock)) (RRemove i ms rest), [])
      | _ => None
      end
  | EvReapNext =>
      match reaper st with
      | RRemove i ms [] =>
          Some (with_reaper st (if (S i <? length (workers st))%nat then RScan (S i) ms [] else RIdle), [])
      | _ => None
      end
  | _ => None
  end.

(** [ipchange_loop] and [drain_all_flows]. *)
Definition drain_step (cfg : UdpConfig) (st : UdpProxy) (ev : Event) : option (UdpProxy * list Output) :=
  match ev with
  | EvWatch =>
      match drainer st with
      | DUnborn => if is_dynamic (resolver st) then Some (with_drainer st (DIdle (wakes (peer st))), []) else None
      | _ => None
      end
  | EvDrainStart =>
      match drainer st with
      | DIdle seen =>
          if (seen =? wakes (peer st))%nat then None
          else Some (with_drainer st (DRetain (wakes (peer st)) 0 (shard_clients st 0) 0), [])
      | _ => None
      end
  | EvDrainVisit client =>
      match drainer st with
      | DRetain seen i todo n =>
          w ← workers st !! i;
          match w_flows w !! client with
          | Some f =>
              Some (with_drainer (with_tasks (set_worker st i (set_flows w (delete client (w_flows w)))) (abort_task (tasks st) (fl_sock f)))
                      (DRetain seen i (todo ∖ {[client]}) (n + 1)), [])
          | None => Some (with_drainer st (DRetain seen i (todo ∖ {[client]}) n), [])
          end
      | _ => None
      end
  | EvDrainShard =>
      match drainer st with
      | DRetain seen i todo n =>
          if bool_decide (todo = ∅)
          then Some (with_drainer (with_count st (fetch_sub (flow_count st) n))
                       (if (S i <? length (workers st))%nat then DRetain seen (S i) (shard_clients st (S i)) 0 else DIdle seen), [])
          else None
      | _ => None
      end
  | _ => None
  end.

(** One step; the last three are the heartbeat server, the DNS refresh and the
    arm table, which run beside the proxy. *)
Definition udp_step (cfg : UdpConfig) (st : UdpProxy) (ev : Event) : option (UdpProxy * list Output) :=
  match ev with
  | EvBatch _ _ _ | EvDispatch _ _ _ | EvSlow _ _ _ => frontend_step cfg st ev
  | EvTarget _ | EvCapacity _ => admit_step cfg st ev
  | EvBound _ _ | EvEntry _ _ _ _ | EvInsert _ _ _ _ _ => create_step cfg st ev
  | EvReturn _ _ _ | EvReturnError _ | EvLeaveRemove _ | EvLeaveDiscount _ => return_step cfg st ev
  | EvReapStart _ | EvReapVisit _ | EvReapScanned | EvReapRemove | EvReapDiscount | EvReapAbort | EvReapNext => reap_step cfg st ev
  | EvWatch | EvDrainStart | EvDrainVisit _ | EvDrainShard => drain_step cfg st ev
  | EvHeartbeat addr now => Some (with_peer st (fst (record_heartbeat (peer st) addr now)), [])
  | EvLookup addrs => Some (with_resolver st (dns_refresh (resolver st) addrs), [])
  | EvArm op => Some (with_arms st (arm_step (arm_table st) op), [])
  end.

(** The equation of the step at hand. *)
Ltac open_step := cbn [udp_step frontend_step admit_step create_step return_step reap_step drain_step].
Ltac open_step_in H := cbn [udp_step frontend_step admit_step create_step return_step reap_step drain_step] in H.

Fixpoint udp_run (cfg : UdpConfig) (st : UdpProxy) (evs : list Event) : option (UdpProxy * list Output) :=
  match evs with
  | [] => Some (st, [])
  | ev :: evs =>
      '(st, out) ← udp_step cfg st ev;
      '(st, out') ← udp_run cfg st evs;
      Some (st, out ++ out')
  end.

(** The end of [UdpProxyInner::run], when the threads have joined. *)
Definition udp_shutdown (st : UdpProxy) : UdpProxy :=
  mkProxy (map (fun w => set_flows w ∅) (workers st)) 0
    (foldr (fun w ts => foldr (fun '(_, f) ts => abort_task ts (fl_sock f)) ts (map_to_list (w_flows w))) (tasks st) (workers st))
    (next_sock st) (reaper st) (drainer st) (peer st) (resolver st) (arm_table st).

(** ** The flow counter *)

Definition front_client (f : Front) : option Net.SocketAddr :=
  match f with
  | FWait => None
  | FMissed _ c | FTargeted _ c _ | FBinding _ c _ | FSpawned _ c _ _ | FReserved _ c _ _ => Some c
  end.

(** What a worker holds of the counter: its flows, a reservation, a flow it
    removed and has not discounted. *)
Definition weight (w : UdpWorker) : Z :=
  Z.of_nat (size (w_flows w)) + (match w_front w with FReserved _ _ _ _ => 1 | _ => 0 end)
  + (match w_leaving w with Some (Discounting _) => 1 | _ => 0 end).
Definition weights (ws : list UdpWorker) : Z := foldr Z.add 0 (weight <$> ws).
Arguments weights : simpl never.

Definition reaper_owes (r : Reaper) : Z := match r with RDiscount _ _ _ _ => 1 | _ => 0 end.
Definition drainer_owes (d : Drainer) : Z := match d with DRetain _ _ _ n => n | _ => 0 end.

(** The client a frontend is working for has no flow yet. *)
Definition fresh (w : UdpWorker) : Prop := forall c, front_client (w_front w) = Some c -> w_flows w !! c = None.

Record udp_inv (cfg : UdpConfig) (st : UdpProxy) : Prop := {
  ui_count : flow_count st = weights (workers st) + reaper_owes (reaper st) + drainer_owes (drainer st);
  ui_cap : flow_count st <= max_flows cfg;
  ui_drained : 0 <= drainer_owes (drainer st);
  ui_fresh : Forall fresh (workers st)
}.

Lemma weights_insert ws i w w' : ws !! i = Some w -> weights (<[i := w']> ws) = weights ws - weight w + weight w'.
Proof.
  revert i. induction ws as [|x ws IH]; intros [|i] Hi; try done.
  - injection Hi as ->. unfold weights. cbn. lia.
  - change (weight x + weights (<[i := w']> ws) = weight x + weights ws - weight w + weight w'). rewrite (IH i Hi). lia.
Qed.

Lemma weight_nonneg w : 0 <= weight w.
Proof. unfold weight. repeat case_match; lia. Qed.

Lemma weights_nonneg ws : 0 <= weights ws.
Proof. unfold weights. induction ws as [|w ws IH]; cbn; [done|]. pose proof (weight_nonneg w). lia. Qed.

Lemma touch_lookup m c c' ms : touch m c ms !! c' = None <-> m !! c' = None.
Proof.
  unfold touch. destruct (decide (c = c')) as [->|].
  - rewrite lookup_alter_eq. by destruct (m !! c').
  - by rewrite lookup_alter_ne.
Qed.

Lemma touch_size m c ms : size (touch m c ms) = size m.
Proof. rewrite <- !size_dom. unfold touch. by rewrite dom_alter_L. Qed.

(** A worker update that keeps its share of the counter. *)
Definition light (w w' : UdpWorker) : Prop := weight w' = weight w /\ (fresh w -> fresh w').

Lemma set_worker_inv cfg st i w w' : udp_inv cfg st -> workers st !! i = Some w -> light w w' -> udp_inv cfg (set_worker st i w').
Proof.
  intros [] Hi [Hw Hf]. constructor; cbn; try done.
  - rewrite (weights_insert _ _ _ _ Hi). lia.
  - apply Forall_insert; [done|]. apply Hf. by eapply Forall_lookup_1.
Qed.

Lemma on_front_inv cfg st i k st' out : udp_inv cfg st -> on_front st i k = Some (st', out) ->
  (forall w w' o, workers st !! i = Some w -> w_leaving w = None -> fresh w -> k w = Some (w', o) -> light w w') -> udp_inv cfg st'.
Proof.
  intros Hinv. unfold on_front. destruct (workers st !! i) as [w|] eqn:Hi; [|done]. cbn.
  destruct (w_leaving w) eqn:Hl; [done|]. destruct (k w) as [[w' o]|] eqn:Hk; [|done]. cbn. intros [= <- <-] Hlight.
  eapply set_worker_inv; [done|done|]. eapply Hlight; eauto. by eapply Forall_lookup_1; [apply Hinv|].
Qed.

Lemma on_task_inv cfg st sock k st' out : udp_inv cfg st -> on_task st sock k = Some (st', out) ->
  (forall t w w' o, k t w = Some (w', o) -> w_leaving w = None -> light w w') -> udp_inv cfg st'.
Proof.
  intros Hinv. unfold on_task. destruct (tasks st !! sock) as [t|]; [|done]. cbn.
  destruct (workers st !! tk_worker t) as [w|] eqn:Hi; [|done]. cbn. destruct (_ || _); [done|].
  destruct (w_leaving w) eqn:Hl; [done|]. destruct (k t w) as [[w' o]|] eqn:Hk; [|done]. cbn. intros [= <- <-] Hlight.
  eapply set_worker_inv; eauto.
Qed.

(** The updates the handlers are made of. *)
Lemma light_touch w c ms : light w (set_flows w (touch (w_flows w) c ms)).
Proof.
  split; [unfold weight; cbn; by rewrite touch_size|]. intros Hf c' Hc. cbn in *. rewrite touch_lookup. auto.
Qed.

Lemma light_refl w : light w w.
Proof. done. Qed.

Lemma light_trans w1 w2 w3 : light w1 w2 -> light w2 w3 -> light w1 w3.
Proof. intros [? ?] [? ?]. split; [lia|auto]. Qed.

(** A front that is not a reservation may change to one that has no new client. *)
Lemma light_front w f : (forall p c t s, w_front w <> FReserved p c t s) -> (forall p c t s, f <> FReserved p c t s) ->
  (forall c, front_client f = Some c -> w_flows w !! c = None) -> light w (set_front w f).
Proof.
  intros Hw Hf Hc. split; [|intros _; exact Hc]. unfold weight. cbn.
  destruct (w_front w) eqn:?, f eqn:?; try done; exfalso; first [eapply Hw; reflexivity|eapply Hf; reflexivity].
Qed.

Lemma light_same w w' : w_flows w' = w_flows w -> w_front w' = w_front w ->
  w_leaving w' = w_leaving w -> light w w'.
Proof. intros H1 H2 H3. split; unfold weight, fresh; by rewrite H1, ?H2, ?H3. Qed.

Lemma dispatch_light cfg i arms w d now r : light w (fst (dispatch_datagram cfg i arms w d now r)).
Proof.
  destruct d as [payload from]. unfold dispatch_datagram, try_handle_inbound_fast.
  destruct (is_probe _ _ _ _ _); [destruct r; by apply light_same|].
  destruct (w_flows w !! from); [|by apply light_same].
  destruct r; cbn; apply (light_touch w).
Qed.

Lemma handle_inbound_light cfg w payload client now sent : w_front w = FWait ->
  light w (fst (handle_inbound cfg w payload client now sent)).
Proof.
  intros Hw. unfold handle_inbound. destruct (w_flows w !! client) eqn:Hc; [apply light_touch|].
  destruct (if expect_inbound_proxy cfg then _ else _); [by apply light_same|].
  apply light_front; rewrite ?Hw; try done. by intros c [= <-].
Qed.

Lemma return_light cfg t w mode now : light w (fst (return_forward cfg t w mode now)).
Proof. unfold return_forward. destruct mode as [[|]|? []]; try apply light_touch; done. Qed.

(** A reservation becomes a flow. *)
Lemma insert_light cfg w payload client t sock created now hs ps :
  w_front w = FReserved payload client t sock -> fresh w ->
  light w (fst (first_sends cfg (set_flows w (<[client := mkFlow sock t (now_ms cfg created)]> (w_flows w))) payload client sock now hs ps)).
Proof.
  intros Hw Hf. split; [|by intros _ c]. unfold weight, first_sends. cbn. rewrite Hw.
  rewrite map_size_insert_None; [lia|]. apply Hf. by rewrite Hw.
Qed.

(** Deleting a flow leaves a debt of one. *)
Lemma weight_delete w c f : w_flows w !! c = Some f -> weight (set_flows w (delete c (w_flows w))) = weight w - 1.
Proof.
  intros Hc. unfold weight. cbn. rewrite map_size_delete_Some by eauto.
  assert (size (w_flows w) <> 0%nat). { rewrite map_size_ne_0_lookup. by exists c, f. } lia.
Qed.

Lemma fresh_delete w c : fresh w -> fresh (set_flows w (delete c (w_flows w))).
Proof. intros Hf c' Hc. cbn in *. apply lookup_delete_None. auto. Qed.

Lemma light_fst w w0 (p : UdpWorker * list Output) w' o : light w w0 -> light w0 (fst p) -> Some p = Some (w', o) -> light w w'.
Proof. intros H1 H2 [= ->]. by eapply light_trans. Qed.

(** A flow moves from a shard into a debt. *)
Lemma delete_inv cfg st i w c f k : udp_inv cfg st -> workers st !! i = Some w -> w_flows w !! c = Some f ->
  flow_count k = flow_count st -> workers k = <[i := set_flows w (delete c (w_flows w))]> (workers st) ->
  reaper_owes (reaper k) + drainer_owes (drainer k) = reaper_owes (reaper st) + drainer_owes (drainer st) + 1 ->
  drainer_owes (drainer st) <= drainer_owes (drainer k) -> udp_inv cfg k.
Proof.
  intros [] Hi Hc Hn Hws Ho Hd. constructor; rewrite ?Hn, ?Hws; try done; [|lia|].
  - rewrite (weights_insert _ _ _ _ Hi), (weight_delete w c f Hc). lia.
  - apply Forall_insert; [done|]. apply fresh_delete. by eapply Forall_lookup_1.
Qed.

(** A debt is paid. *)
Lemma pay_inv cfg st k n : max_flows cfg < 2 ^ 64 -> udp_inv cfg st -> flow_count k = fetch_sub (flow_count st) n ->
  weights (workers k) + reaper_owes (reaper k) + drainer_owes (drainer k) =
    weights (workers st) + reaper_owes (reaper st) + drainer_owes (drainer st) - n ->
  0 <= n -> 0 <= drainer_owes (drainer k) -> Forall fresh (workers k) -> udp_inv cfg k.
Proof.
  intros Hmax [] Hn Heq Hn0 Hd Hf. pose proof (weights_nonneg (workers k)).
  assert (0 <= reaper_owes (reaper k)) by (unfold reaper_owes; case_match; lia).
  unfold fetch_sub in Hn. rewrite wrap_small in Hn by (unfold fits; lia). constructor; try done; lia.
Qed.

(** Steps that leave the shards and the counter alone. *)
Lemma frame_inv cfg st k : udp_inv cfg st -> workers k = workers st -> flow_count k = flow_count st ->
  reaper_owes (reaper k) = reaper_owes (reaper st) -> drainer_owes (drainer k) = drainer_owes (drainer st) -> udp_inv cfg k.
Proof. intros [] Hw Hn Hr Hd. constructor; rewrite ?Hw, ?Hn, ?Hr, ?Hd; done. Qed.

Lemma front_step_inv cfg st ev st' out : udp_inv cfg st ->
  match ev with EvBatch _ _ _ | EvDispatch _ _ _ | EvSlow _ _ _ | EvTarget _ | EvCapacity _ | EvInsert _ _ _ _ _ => True | _ => False end ->
  udp_step cfg st ev = Some (st', out) -> udp_inv cfg st'.
Proof.
  intros Hinv Hev Hs. destruct ev; try done; open_step_in Hs; eapply (on_front_inv _ _ _ _ _ _ Hinv Hs); intros w w' o _ Hl Hf Hk;
    clear Hs; destruct (w_front w) eqn:Hw; try done.
  - destruct (w_batch w), (w_slow w); try done. simplify_eq. by apply light_same.
  - destruct (w_batch w) as [|d rest]; [done|]. eapply light_fst; [|apply dispatch_light|exact Hk]. by apply light_same.
  - destruct (w_batch w), (w_slow w) as [|[payload from] rest]; try done. destruct (is_probe _ _ _ _ _).
    + simplify_eq. by apply light_same.
    + eapply (light_fst _ (set_queues w [] rest)); [by apply light_same|by apply handle_inbound_light|exact Hk].
  - simplify_eq. apply light_front; rewrite ?Hw; try done; case_match; try done. intros c [= <-]. apply Hf. by rewrite Hw.
  - simplify_eq. apply light_front; rewrite ?Hw; try done; case_match; try done. intros c [= <-]. apply Hf. by rewrite Hw.
  - eapply light_fst; [apply light_refl|by apply insert_light|exact Hk].
Qed.


Lemma bound_inv cfg st i ok st' out : udp_inv cfg st -> udp_step cfg st (EvBound i ok) = Some (st', out) -> udp_inv cfg st'.
Proof.
  intros Hinv. open_step. destruct (on_front _ _ _) as [[st1 o1]|] eqn:Hf; [|done]. cbn [mbind option_bind].
  assert (udp_inv cfg st1) as Hinv1.
  { eapply (on_front_inv _ _ _ _ _ _ Hinv Hf). intros w w' o _ Hl Hfr Hk. destruct (w_front w) eqn:Hw; try done. simplify_eq.
    apply light_front; rewrite ?Hw; try done; case_match; try done. intros c [= <-]. apply Hfr. by rewrite Hw. }
  intros Hs. repeat case_match; simplify_eq; try done. by eapply frame_inv.
Qed.

Lemma entry_inv cfg st i now hs ps st' out : udp_inv cfg st -> udp_step cfg st (EvEntry i now hs ps) = Some (st', out) -> udp_inv cfg st'.
Proof.
  intros Hinv. open_step. destruct (workers st !! i) as [w|] eqn:Hi; [|done]. cbn [mbind option_bind].
  destruct (w_leaving w) eqn:Hl; [done|]. destruct (w_front w) as [| | | |payload client t sock|] eqn:Hw; try done.
  assert (fresh w) as Hfr by (by eapply Forall_lookup_1; [apply Hinv|]).
  rewrite (Hfr client) by by rewrite Hw. unfold try_reserve_flow. destruct (max_flows cfg <=? flow_count st) eqn:Hcap; intros [= <- <-].
  - eapply frame_inv; [eapply (set_worker_inv cfg st i w (set_front w FWait)); [done|done|]|done..].
    apply light_front; by rewrite ?Hw.
  - destruct Hinv. constructor; cbn; try done; [|lia|].
    + rewrite (weights_insert _ _ _ _ Hi), ui_count0. unfold weight. cbn. rewrite Hw. lia.
    + apply Forall_insert; [done|]. intros c [= <-]. apply Hfr. by rewrite Hw.
Qed.

Lemma leave_inv cfg st i st' out : max_flows cfg < 2 ^ 64 -> udp_inv cfg st ->
  udp_step cfg st (EvLeaveRemove i) = Some (st', out) \/ udp_step cfg st (EvLeaveDiscount i) = Some (st', out) -> udp_inv cfg st'.
Proof.
  intros Hmax Hinv. open_step. destruct (workers st !! i) as [w|] eqn:Hi; [|naive_solver]. cbn [mbind option_bind].
  assert (fresh w) as Hfr by (by eapply Forall_lookup_1; [apply Hinv|]).
  destruct (w_leaving w) as [[sock client|sock]|] eqn:Hl; [| |naive_solver]; intros [Hs|Hs]; try done.
  - destruct (w_flows w !! client) as [f|] eqn:Hc; simplify_eq.
    + destruct Hinv. constructor; cbn; try done.
      * rewrite (weights_insert _ _ _ _ Hi), ui_count0. pose proof (weight_delete w _ f Hc) as Hw. unfold weight in *. cbn in *.
        rewrite Hl in *. lia.
      * apply Forall_insert; [done|]. by apply (fresh_delete w client).
    + eapply frame_inv; [eapply (set_worker_inv cfg st i w (set_leaving w None)); [done|done|]|done..].
      split; [|done]. unfold weight. cbn. by rewrite Hl.
  - injection Hs as <- <-. eapply (pay_inv cfg st _ 1 Hmax Hinv); cbn; try done; [|apply Hinv|].
    + rewrite (weights_insert _ _ _ _ Hi). unfold weight. cbn. rewrite Hl. lia.
    + apply Forall_insert; [apply Hinv|done].
Qed.

Lemma reap_inv cfg st ev st' out : max_flows cfg < 2 ^ 64 -> udp_inv cfg st ->
  match ev with EvReapStart _ | EvReapVisit _ | EvReapScanned | EvReapRemove | EvReapDiscount | EvReapAbort | EvReapNext => True | _ => False end ->
  udp_step cfg st ev = Some (st', out) -> udp_inv cfg st'.
Proof.
  intros Hmax Hinv Hev. destruct ev; try done; open_step; destruct (reaper st) as [|w ms vs|w ms vs|w ms s vs|w ms s vs] eqn:Hr; try done.
  - intros [= <- <-]. eapply frame_inv; cbn; rewrite ?Hr; done.
  - destruct (workers st !! w) as [wk|]; [|done]. cbn. destruct (w_flows wk !! client); [|done]. cbn.
    intros [= <- <-]. eapply frame_inv; cbn; rewrite ?Hr; done.
  - intros [= <- <-]. eapply frame_inv; cbn; rewrite ?Hr; done.
  - destruct vs as [|c vs]; [done|]. destruct (workers st !! w) as [wk|] eqn:Hi; [|done]. cbn [mbind option_bind].
    destruct (w_flows wk !! c) as [f|] eqn:Hc; intros [= <- <-].
    + eapply (delete_inv cfg st w wk c f); cbn; rewrite ?Hr; cbn; try done; lia.
    + eapply frame_inv; cbn; rewrite ?Hr; done.
  - intros [= <- <-]. eapply (pay_inv cfg st _ 1 Hmax Hinv); cbn; rewrite ?Hr; cbn; try done; [lia|apply Hinv..].
  - intros [= <- <-]. eapply frame_inv; cbn; rewrite ?Hr; done.
  - destruct vs; [|done]. intros [= <- <-]. eapply frame_inv; cbn; rewrite ?Hr; try done. by case_match.
Qed.

Lemma drain_inv cfg st ev st' out : max_flows cfg < 2 ^ 64 -> udp_inv cfg st ->
  match ev with EvWatch | EvDrainStart | EvDrainVisit _ | EvDrainShard => True | _ => False end ->
  udp_step cfg st ev = Some (st', out) -> udp_inv cfg st'.
Proof.
  intros Hmax Hinv Hev. pose proof (ui_drained _ _ Hinv) as Hd0.
  destruct ev; try done; open_step; destruct (drainer st) as [|seen|seen w todo n] eqn:Hr; try done.
  - case_match; [|done]. intros [= <- <-]. eapply frame_inv; cbn; rewrite ?Hr; done.
  - case_match; [done|]. intros [= <- <-]. eapply frame_inv; cbn; rewrite ?Hr; done.
  - destruct (workers st !! w) as [wk|] eqn:Hi; [|done]. cbn [mbind option_bind].
    destruct (w_flows wk !! client) as [f|] eqn:Hc; intros [= <- <-].
    + eapply (delete_inv cfg st w wk client f); cbn; rewrite ?Hr; cbn; try done; lia.
    + eapply frame_inv; cbn; rewrite ?Hr; done.
  - case_bool_decide; [|done]. intros [= <- <-]. cbn in Hd0.
    eapply (pay_inv cfg st _ n Hmax Hinv); cbn; rewrite ?Hr; cbn; try done; [|by case_match|apply Hinv].
    case_match; cbn; lia.
Qed.

Lemma step_inv cfg st ev st' out : max_flows cfg < 2 ^ 64 -> udp_inv cfg st ->
  udp_step cfg st ev = Some (st', out) -> udp_inv cfg st'.
Proof.
  intros Hmax Hinv Hs. destruct ev; 
    try (eapply front_step_inv; [exact Hinv| |exact Hs]; exact I); try (eapply reap_inv; [exact Hmax|exact Hinv| |exact Hs]; exact I);
    try (eapply drain_inv; [exact Hmax|exact Hinv| |exact Hs]; exact I).
  - by eapply bound_inv.
  - by eapply entry_inv.
  - cbn in Hs. eapply (on_task_inv _ _ _ _ _ _ Hinv Hs). intros t w w' o Hk _. eapply light_fst; [apply light_refl|apply return_light|exact Hk].
  - cbn in Hs. eapply (on_task_inv _ _ _ _ _ _ Hinv Hs). intros t w w' o [= <- <-] Hl. split; [|done]. unfold weight. cbn. by rewrite Hl.
  - eapply leave_inv; eauto.
  - eapply leave_inv; eauto.
  - cbn in Hs. simplify_eq. by eapply frame_inv.
  - cbn in Hs. simplify_eq. by eapply frame_inv.
  - cbn in Hs. simplify_eq. by eapply frame_inv.
Qed.

Lemma run_inv cfg evs : max_flows cfg < 2 ^ 64 -> forall st st' out, udp_inv cfg st -> udp_run cfg st evs = Some (st', out) -> udp_inv cfg st'.
Proof.
  intros Hmax. induction evs as [|ev evs IH]; intros st st' out Hinv; cbn; [by intros [= <- <-]|].
  destruct (udp_step cfg st ev) as [[st1 o1]|] eqn:Hs; [|done]. cbn.
  destruct (udp_run cfg st1 evs) as [[st2 o2]|] eqn:Hr; [|done]. intros [= <- <-].
  eapply IH; [|done]. by eapply step_inv.
Qed.

Lemma spawn_inv cfg n p r arms : 0 <= max_flows cfg -> udp_inv cfg (udp_spawn n p r arms).
Proof.
  intros Hm. constructor; cbn; try done.
  - unfold weights. rewrite Z.add_0_r, Z.add_0_r. induction n as [|n IH]; cbn [repeat fmap list_fmap foldr]; [done|].
    rewrite <- IH. done.
  - apply Forall_forall. intros w Hw. apply list_elem_of_In, repeat_spec in Hw as ->. by intros c.
Qed.
