(* ===== verification/UdpFlows.v ===== *)
(** * What happens to the flows of a UDP proxy

    Over the interleavings of [UdpProxy]: which flows leave the table, which
    targets the table holds after an address change, and the races the
    hypotheses exclude. *)

From S2P Require Import Prelude RustStd External Instances RuleTypes Error Rule PubKey PeerState Canary ChainTypes NetFmt ProxyProtocol Resolver UdpProxy.

Definition flow_at (st : UdpProxy) (i : nat) (c : Net.SocketAddr) : option FlowEntry :=
  w ← workers st !! i; w_flows w !! c.

(** ** Steps, seen from one flow *)

Definition same_flow (f f' : FlowEntry) : Prop := fl_sock f' = fl_sock f /\ fl_target f' = fl_target f.

(** What a step did to the flow of [c] at worker [i]: nothing but a refresh, or
    it removed it, or it made it. *)
Inductive flow_change (st : UdpProxy) (ev : Event) (i : nat) (c : Net.SocketAddr) : option FlowEntry -> option FlowEntry -> Prop :=
  | FlowSame o : flow_change st ev i c o o
  | FlowTouched f f' : same_flow f f' -> flow_change st ev i c (Some f) (Some f')
  | FlowReaped f ms rest : ev = EvReapRemove -> reaper st = RRemove i ms (c :: rest) -> flow_change st ev i c (Some f) None
  | FlowDrained f seen todo n : ev = EvDrainVisit c -> drainer st = DRetain seen i todo n -> flow_change st ev i c (Some f) None
  | FlowFailed f w sock : ev = EvLeaveRemove i -> workers st !! i = Some w -> w_leaving w = Some (Removing sock c) ->
      flow_change st ev i c (Some f) None
  | FlowMade created now hs ps w payload t sock f : ev = EvInsert i created now hs ps -> workers st !! i = Some w ->
      w_front w = FReserved payload c t sock -> fl_sock f = sock -> fl_target f = t -> flow_change st ev i c None (Some f).

Lemma flow_at_set st i j c w : (i < length (workers st))%nat ->
  flow_at (set_worker st i w) j c = if decide (i = j) then w_flows w !! c else flow_at st j c.
Proof.
  intros Hi. unfold flow_at. cbn. case_decide as Hij.
  - subst. by rewrite list_lookup_insert_eq.
  - by rewrite list_lookup_insert_ne.
Qed.

Lemma flow_at_workers st st' j c : workers st' = workers st -> flow_at st' j c = flow_at st j c.
Proof. unfold flow_at. by intros ->. Qed.

Lemma worker_change st ev j w w' st' i c : workers st !! j = Some w -> workers st' = <[j := w']> (workers st) ->
  (i = j -> flow_change st ev i c (w_flows w !! c) (w_flows w' !! c)) ->
  flow_change st ev i c (flow_at st i c) (flow_at st' i c).
Proof.
  intros Hj Hws Hc. unfold flow_at. rewrite Hws. destruct (decide (i = j)) as [->|Hij].
  - rewrite Hj, list_lookup_insert_eq by (by eapply lookup_lt_Some). by apply Hc.
  - rewrite list_lookup_insert_ne by done. apply FlowSame.
Qed.

Lemma same_change st ev st' i c : workers st' = workers st -> flow_change st ev i c (flow_at st i c) (flow_at st' i c).
Proof. intros Hws. rewrite (flow_at_workers st st' i c Hws). apply FlowSame. Qed.

(** The frontend's own updates refresh flows and nothing else. *)
Definition refreshed (m m' : gmap Net.SocketAddr FlowEntry) : Prop := m' = m \/ exists c ms, m' = touch m c ms.

Lemma refreshed_change st ev i c m m' : refreshed m m' -> flow_change st ev i c (m !! c) (m' !! c).
Proof.
  intros [-> |(c' & ms & ->)]; [apply FlowSame|]. unfold touch. destruct (decide (c' = c)) as [->|].
  - rewrite lookup_alter_eq. destruct (m !! c) as [f|]; cbn; [by apply FlowTouched|apply FlowSame].
  - rewrite lookup_alter_ne by done. apply FlowSame.
Qed.

Lemma on_front_inversion st i k st' out : on_front st i k = Some (st', out) ->
  exists w w', workers st !! i = Some w /\ w_leaving w = None /\ k w = Some (w', out) /\ st' = set_worker st i w'.
Proof.
  unfold on_front. destruct (workers st !! i) as [w|] eqn:Hw; [|done]. cbn. destruct (w_leaving w) eqn:Hl; [done|].
  destruct (k w) as [[w' o]|] eqn:Hk; [|done]. cbn. intros [= <- <-]. by exists w, w'.
Qed.

Lemma on_task_inversion st sock k st' out : on_task st sock k = Some (st', out) ->
  exists t w w', tasks st !! sock = Some t /\ workers st !! tk_worker t = Some w /\ tk_aborted t = false /\ at_await w = true /\
    w_leaving w = None /\ k t w = Some (w', out) /\ st' = set_worker st (tk_worker t) w'.
Proof.
  unfold on_task. destruct (tasks st !! sock) as [t|] eqn:Ht; [|done]. cbn. destruct (workers st !! tk_worker t) as [w|] eqn:Hw; [|done]. cbn.
  destruct (tk_aborted t) eqn:Ha, (at_await w) eqn:Hat; try done. cbn. destruct (w_leaving w) eqn:Hl; [done|].
  destruct (k t w) as [[w' o]|] eqn:Hk; [|done]. cbn. intros [= <- <-]. by exists t, w, w'.
Qed.

Lemma dispatch_refreshed cfg i arms w d now r : refreshed (w_flows w) (w_flows (fst (dispatch_datagram cfg i arms w d now r))).
Proof.
  destruct d as [payload from]. unfold dispatch_datagram, try_handle_inbound_fast.
  destruct (is_probe _ _ _ _ _); [destruct r; by left|]. destruct (w_flows w !! from); [|by left]. destruct r; right; by do 2 eexists.
Qed.

Lemma handle_inbound_refreshed cfg w payload client now sent :
  refreshed (w_flows w) (w_flows (fst (handle_inbound cfg w payload client now sent))).
Proof.
  unfold handle_inbound. destruct (w_flows w !! client); [right; by do 2 eexists|].
  by destruct (if expect_inbound_proxy cfg then _ else _); left.
Qed.

Lemma return_refreshed cfg t w mode now : refreshed (w_flows w) (w_flows (fst (return_forward cfg t w mode now))).
Proof. unfold return_forward. destruct mode as [[|]|? []]; (by left) || (right; by do 2 eexists). Qed.

Lemma delete_change st ev i c c' (m : gmap Net.SocketAddr FlowEntry) :
  (c = c' -> forall f, m !! c = Some f -> flow_change st ev i c (Some f) None) ->
  flow_change st ev i c (m !! c) (delete c' m !! c).
Proof.
  intros Hd. destruct (decide (c = c')) as [->|].
  - rewrite lookup_delete_eq. destruct (m !! c') eqn:Hm; [by apply Hd|apply FlowSame].
  - rewrite lookup_delete_ne by done. apply FlowSame.
Qed.

(** The frontend. *)
Lemma front_step_flow cfg st ev st' out i c : udp_inv cfg st ->
  match ev with EvBatch _ _ _ | EvDispatch _ _ _ | EvSlow _ _ _ | EvTarget _ | EvCapacity _ | EvBound _ _ | EvEntry _ _ _ _ | EvInsert _ _ _ _ _ => True | _ => False end ->
  udp_step cfg st ev = Some (st', out) -> flow_change st ev i c (flow_at st i c) (flow_at st' i c).
Proof.
  intros Hinv Hev. destruct ev; try done; open_step.
  - intros (w & w' & Hi & _ & Hk & ->)%on_front_inversion. eapply worker_change; [done|done|]. intros ->.
    repeat case_match; simplify_eq. apply FlowSame.
  - intros (w & w' & Hi & _ & Hk & ->)%on_front_inversion. eapply worker_change; [done|done|]. intros ->.
    destruct (w_front w), (w_batch w) as [|d rest]; try done. injection Hk as Hk. apply (f_equal fst) in Hk. cbn in Hk. rewrite <- Hk.
    apply refreshed_change, (dispatch_refreshed cfg _ _ (set_queues w rest (w_slow w))).
  - intros (w & w' & Hi & _ & Hk & ->)%on_front_inversion. eapply worker_change; [done|done|]. intros ->.
    destruct (w_front w); try done. destruct (w_batch w), (w_slow w) as [|[payload from] rest]; try done. destruct (is_probe _ _ _ _ _); [simplify_eq; apply FlowSame|].
    injection Hk as Hk. apply (f_equal fst) in Hk. cbn in Hk. rewrite <- Hk.
    apply refreshed_change, (handle_inbound_refreshed cfg (set_queues w [] rest)).
  - intros (w & w' & Hi & _ & Hk & ->)%on_front_inversion. eapply worker_change; [done|done|]. intros ->.
    destruct (w_front w); simplify_eq. apply FlowSame.
  - intros (w & w' & Hi & _ & Hk & ->)%on_front_inversion. eapply worker_change; [done|done|]. intros ->.
    destruct (w_front w); simplify_eq. apply FlowSame.
  - destruct (on_front _ _ _) as [[st1 o1]|] eqn:Hf; [|done]. cbn [mbind option_bind].
    apply on_front_inversion in Hf as (w & w' & Hi & _ & Hk & ->). rewrite Hi.
    destruct (w_front w) eqn:Hw; try done. injection Hk as <- <-.
    destruct ok; intros [= <- <-]; (eapply (worker_change _ _ _ _ _ _ _ _ Hi); [done|intros ->; apply FlowSame]).
  - destruct (workers st !! i0) as [w|] eqn:Hi; [|done]. cbn [mbind option_bind].
    destruct (w_leaving w); [done|]. destruct (w_front w) as [| | | |payload client t sock|] eqn:Hw; try done.
    rewrite (Forall_lookup_1 _ _ _ _ (ui_fresh _ _ Hinv) Hi client) by by rewrite Hw.
    destruct (try_reserve_flow _ _); intros [= <- <-]; (eapply (worker_change _ _ _ _ _ _ _ _ Hi); [done|intros ->; apply FlowSame]).
  - intros (w & w' & Hi & _ & Hk & ->)%on_front_inversion. eapply worker_change; [done|done|]. intros ->.
    destruct (w_front w) as [| | | | |payload client t sock] eqn:Hw; try done. unfold first_sends in Hk.
    injection Hk as <- <-. cbn. destruct (decide (client = c)) as [->|].
    + rewrite lookup_insert_eq, (Forall_lookup_1 _ _ _ _ (ui_fresh _ _ Hinv) Hi c) by by rewrite Hw. by eapply FlowMade.
    + rewrite lookup_insert_ne by done. apply FlowSame.
Qed.

(** The return loops. *)
Lemma loop_step_flow cfg st ev st' out i c : udp_inv cfg st ->
  match ev with EvReturn _ _ _ | EvReturnError _ | EvLeaveRemove _ | EvLeaveDiscount _ => True | _ => False end ->
  udp_step cfg st ev = Some (st', out) -> flow_change st ev i c (flow_at st i c) (flow_at st' i c).
Proof.
  intros Hinv Hev. destruct ev; try done; open_step.
  - intros (t & w & w' & _ & Hi & _ & _ & _ & Hk & ->)%on_task_inversion. eapply worker_change; [done|done|]. intros ->.
    injection Hk as Hk. apply (f_equal fst) in Hk. cbn in Hk. rewrite <- Hk. apply refreshed_change, return_refreshed.
  - intros (t & w & w' & _ & Hi & _ & _ & _ & Hk & ->)%on_task_inversion. eapply worker_change; [done|done|]. intros ->.
    simplify_eq. apply FlowSame.
  - destruct (workers st !! i0) as [w|] eqn:Hi; [|done]. cbn [mbind option_bind].
    destruct (w_leaving w) as [[sock client|sock]|] eqn:Hl; try done.
    destruct (w_flows w !! client) as [f|] eqn:Hc; intros [= <- <-];
      (eapply (worker_change _ _ _ _ _ _ _ _ Hi); [done|intros ->]); [|apply FlowSame].
    apply delete_change. intros -> f' Hf'. by eapply FlowFailed.
  - destruct (workers st !! i0) as [w|] eqn:Hi; [|done]. cbn [mbind option_bind].
    destruct (w_leaving w) as [[|sock]|] eqn:Hl; try done. intros [= <- <-].
    eapply (worker_change _ _ _ _ _ _ _ _ Hi); [done|intros ->]. apply FlowSame.
Qed.

(** The reaper and the watcher. *)
Lemma sweep_step_flow cfg st ev st' out i c : udp_inv cfg st ->
  match ev with EvReapStart _ | EvReapVisit _ | EvReapScanned | EvReapRemove | EvReapDiscount | EvReapAbort | EvReapNext | EvWatch | EvDrainStart | EvDrainVisit _ | EvDrainShard => True | _ => False end ->
  udp_step cfg st ev = Some (st', out) -> flow_change st ev i c (flow_at st i c) (flow_at st' i c).
Proof.
  intros Hinv Hev. destruct ev; try done; open_step.
  - destruct (reaper st); try done. intros [= <- <-]. by apply same_change.
  - destruct (reaper st) as [|j ms vs| | |]; try done. destruct (workers st !! j) as [w|]; [|done]. cbn.
    destruct (w_flows w !! client); [|done]. intros [= <- <-]. by apply same_change.
  - destruct (reaper st); try done. intros [= <- <-]. by apply same_change.
  - destruct (reaper st) as [| |j ms [|client vs]| |] eqn:Hr; try done. destruct (workers st !! j) as [w|] eqn:Hi; [|done]. cbn [mbind option_bind].
    destruct (w_flows w !! client) as [f|] eqn:Hc; intros [= <- <-]; [|by apply same_change].
    eapply (worker_change _ _ _ _ _ _ _ _ Hi); [done|intros ->]. apply delete_change. intros -> f' _. by eapply FlowReaped.
  - destruct (reaper st); try done. intros [= <- <-]. by apply same_change.
  - destruct (reaper st); try done. intros [= <- <-]. by apply same_change.
  - destruct (reaper st) as [| |j ms [|client vs]| |]; try done. intros [= <- <-]. by apply same_change.
  - destruct (drainer st); try done. destruct (is_dynamic _); [|done]. intros [= <- <-]. by apply same_change.
  - destruct (drainer st); try done. destruct (_ =? _)%nat; [done|]. intros [= <- <-]. by apply same_change.
  - destruct (drainer st) as [| |seen j todo n] eqn:Hd; try done. destruct (workers st !! j) as [w|] eqn:Hi; [|done]. cbn [mbind option_bind].
    destruct (w_flows w !! client) as [f|] eqn:Hc; intros [= <- <-]; [|by apply same_change].
    eapply (worker_change _ _ _ _ _ _ _ _ Hi); [done|intros ->]. apply delete_change. intros -> f' _. by eapply FlowDrained.
  - destruct (drainer st) as [| |seen j todo n]; try done. destruct (bool_decide _); [|done]. intros [= <- <-]. by apply same_change.
Qed.

(** Every step, on every flow. *)
Lemma step_flow cfg st ev st' out i c : udp_inv cfg st -> udp_step cfg st ev = Some (st', out) ->
  flow_change st ev i c (flow_at st i c) (flow_at st' i c).
Proof.
  intros Hinv Hs. destruct ev; try (eapply front_step_flow; [exact Hinv| |exact Hs]; exact I);
    try (eapply loop_step_flow; [exact Hinv| |exact Hs]; exact I); try (eapply sweep_step_flow; [exact Hinv| |exact Hs]; exact I);
    cbn in Hs; simplify_eq; by apply same_change.
Qed.

(** ** Flows that stay *)

(** No address change is waiting to be drained. *)
Definition settled (st : UdpProxy) : Prop :=
  match drainer st with
  | DUnborn => True
  | DIdle seen => seen = wakes (peer st)
  | DRetain _ _ _ _ => False
  end.

(** The reaper has not picked the flow of [c] at worker [i]. *)
Definition unmarked (st : UdpProxy) (i : nat) (c : Net.SocketAddr) : Prop :=
  match reaper st with
  | RIdle => True
  | RScan j _ vs | RRemove j _ vs | RDiscount j _ _ vs | RAbort j _ _ vs => j = i -> c ∉ vs
  end.

Definition leaving_at (st : UdpProxy) (i : nat) : option Leaving := w ← workers st !! i; w_leaving w.

(** No return loop is about to remove it. *)
Definition unfailing (st : UdpProxy) (i : nat) (c : Net.SocketAddr) : Prop :=
  forall sock, leaving_at st i <> Some (Removing sock c).

(** No return loop but the one on [sock] still runs for client [c] of worker
    [i]. *)
Definition sole (st : UdpProxy) (i : nat) (c : Net.SocketAddr) (sock : nat) : Prop :=
  forall s t, tasks st !! s = Some t -> tk_aborted t = false -> tk_worker t = i -> tk_client t = c -> s = sock.

(** Events that give no reason to drop the flow of socket [own]: heartbeats
    confirm the address, the reaper finds it in use, its upstream socket does not
    fail. *)
Definition calm (cfg : UdpConfig) (i : nat) (c : Net.SocketAddr) (own : nat) (st : UdpProxy) (ev : Event) : Prop :=
  match ev with
  | EvHeartbeat addr _ => current_ip (peer st) = Some (Net.ip addr)
  | EvReapVisit _ => forall ms vs f, reaper st = RScan i ms vs -> flow_at st i c = Some f -> is_idle cfg ms f = false
  | EvReturnError sock => sock <> own
  | _ => True
  end.

Fixpoint calm_run (cfg : UdpConfig) (i : nat) (c : Net.SocketAddr) (own : nat) (st : UdpProxy) (evs : list Event) : Prop :=
  match evs with
  | [] => True
  | ev :: evs => calm cfg i c own st ev /\ match udp_step cfg st ev with Some (st', _) => calm_run cfg i c own st' evs | None => True end
  end.

Lemma record_same p addr now : current_ip p = Some (Net.ip addr) ->
  wakes (fst (record_heartbeat p addr now)) = wakes p /\ current_ip (fst (record_heartbeat p addr now)) = current_ip p.
Proof. intros Hip. unfold record_heartbeat. rewrite Hip. by rewrite bool_decide_true. Qed.

(** What a step leaves alone. *)
Lemma on_front_frame st i k st' out : on_front st i k = Some (st', out) ->
  reaper st' = reaper st /\ drainer st' = drainer st /\ peer st' = peer st /\ resolver st' = resolver st /\ tasks st' = tasks st.
Proof. by intros (w & w' & _ & _ & _ & ->)%on_front_inversion. Qed.

Lemma on_task_frame st s k st' out : on_task st s k = Some (st', out) ->
  reaper st' = reaper st /\ drainer st' = drainer st /\ peer st' = peer st /\ resolver st' = resolver st /\ tasks st' = tasks st.
Proof. by intros (t & w & w' & _ & _ & _ & _ & _ & _ & ->)%on_task_inversion. Qed.

(** The steps of the workers. *)
Definition worker_event (ev : Event) : bool :=
  match ev with
  | EvBatch _ _ _ | EvDispatch _ _ _ | EvSlow _ _ _ | EvTarget _ | EvCapacity _ | EvBound _ _ | EvEntry _ _ _ _ | EvInsert _ _ _ _ _
  | EvReturn _ _ _ | EvReturnError _ | EvLeaveRemove _ | EvLeaveDiscount _ => true
  | _ => false
  end.

Lemma worker_event_frame cfg st ev st' out : worker_event ev = true -> udp_step cfg st ev = Some (st', out) ->
  reaper st' = reaper st /\ drainer st' = drainer st /\ peer st' = peer st /\ resolver st' = resolver st.
Proof.
  intros Hev. destruct ev; try done; open_step; try (intros Hs%on_front_frame; naive_solver); try (intros Hs%on_task_frame; naive_solver).
  - destruct (on_front _ _ _) as [[st1 o1]|] eqn:Hf; [|done]. apply on_front_frame in Hf as (? & ? & ? & ? & ?). cbn [mbind option_bind].
    intros. repeat case_match; simplify_eq; naive_solver.
  - destruct (workers st !! i) as [w|]; [|done]. cbn [mbind option_bind]. intros. unfold first_sends in *. repeat case_match; simplify_eq; done.
  - destruct (workers st !! i) as [w|]; [|done]. cbn [mbind option_bind]. intros. repeat case_match; simplify_eq; done.
  - destruct (workers st !! i) as [w|]; [|done]. cbn [mbind option_bind]. intros. repeat case_match; simplify_eq; done.
Qed.

Lemma leaving_set st i w w' j : workers st !! i = Some w -> leaving_at (set_worker st i w') j =
  if decide (i = j) then w_leaving w' else leaving_at st j.
Proof.
  intros Hi. unfold leaving_at. cbn. case_decide as Hij.
  - subst. by rewrite list_lookup_insert_eq by (by eapply lookup_lt_Some).
  - by rewrite list_lookup_insert_ne.
Qed.

(** A worker update that does not put a return loop into its removal. *)
Lemma leaving_keeps st i w w' j sock c : workers st !! i = Some w ->
  (forall s c', w_leaving w' = Some (Removing s c') -> w_leaving w = Some (Removing s c')) ->
  leaving_at (set_worker st i w') j = Some (Removing sock c) -> leaving_at st j = Some (Removing sock c).
Proof.
  intros Hi Hk. rewrite (leaving_set _ _ _ _ _ Hi). case_decide as Hij; [|done]. subst. intros Hl%Hk. unfold leaving_at. by rewrite Hi.
Qed.

Lemma front_leaving st i k st' out j sock c : on_front st i k = Some (st', out) ->
  (forall w w' o, w_leaving w = None -> k w = Some (w', o) -> w_leaving w' = None) ->
  leaving_at st' j = Some (Removing sock c) -> leaving_at st j = Some (Removing sock c).
Proof.
  intros (w & w' & Hi & Hl & Hk & ->)%on_front_inversion Hnone. apply (leaving_keeps _ _ _ _ _ _ _ Hi).
  intros s c'. by rewrite (Hnone _ _ _ Hl Hk).
Qed.

Lemma dispatch_leaving cfg i arms w d now r : w_leaving (fst (dispatch_datagram cfg i arms w d now r)) = w_leaving w.
Proof.
  destruct d as [payload from]. unfold dispatch_datagram, try_handle_inbound_fast.
  destruct (is_probe _ _ _ _ _); [by destruct r|]. destruct (w_flows w !! from); [by destruct r|done].
Qed.

Lemma worker_leaving cfg st ev st' out j sock c : worker_event ev = true -> udp_step cfg st ev = Some (st', out) ->
  leaving_at st' j = Some (Removing sock c) -> leaving_at st j = Some (Removing sock c) \/
  (ev = EvReturnError sock /\ exists t, tasks st !! sock = Some t /\ tk_worker t = j /\ tk_client t = c).
Proof.
  intros Hev. destruct ev; try done; open_step; try (intros Hs Hl; left; revert Hl; eapply (front_leaving _ _ _ _ _ _ _ _ Hs));
    try (intros w w' o Hl Hk; clear Hs).
  - by destruct (w_front w), (w_batch w), (w_slow w); simplify_eq.
  - destruct (w_front w), (w_batch w); try done. injection Hk as Hk. apply (f_equal fst) in Hk. cbn in Hk. subst. by rewrite dispatch_leaving.
  - destruct (w_front w); try done. destruct (w_batch w), (w_slow w) as [|[payload from] rest]; try done.
    destruct (is_probe _ _ _ _ _); [by simplify_eq|]. unfold handle_inbound in Hk. by repeat case_match; simplify_eq.
  - by destruct (w_front w); simplify_eq.
  - by destruct (w_front w); simplify_eq.
  - destruct (on_front _ _ _) as [[st1 o1]|] eqn:Hf; [|done]. cbn [mbind option_bind]. intros Hs Hl. left.
    assert (leaving_at st1 j = Some (Removing sock c)) as Hl1 by (repeat case_match; simplify_eq; exact Hl).
    revert Hl1. eapply (front_leaving _ _ _ _ _ _ _ _ Hf). intros w w' o Hn Hk. by destruct (w_front w); simplify_eq.
  - destruct (workers st !! i) as [w|] eqn:Hi; [|done]. cbn [mbind option_bind]. intros Hs Hl. left.
    destruct (w_leaving w) eqn:Hlw; [done|]. destruct (w_front w) as [| | | |p' c' t' s'|] eqn:Hw; try done.
    unfold first_sends in Hs. repeat case_match; simplify_eq; revert Hl; apply (leaving_keeps _ _ _ _ _ _ _ Hi); cbn; congruence.
  - unfold first_sends in Hk. by destruct (w_front w); simplify_eq.
  - intros (t & w & w' & _ & Hi & _ & _ & Hn & Hk & ->)%on_task_inversion Hl. left. revert Hl. apply (leaving_keeps _ _ _ _ _ _ _ Hi).
    unfold return_forward, upstream_batch_forward, forward_single in Hk. repeat case_match; simplify_eq; cbn; congruence.
  - intros (t & w & w' & Ht & Hi & _ & _ & Hn & Hk & ->)%on_task_inversion. simplify_eq. rewrite (leaving_set _ _ _ _ _ Hi).
    case_decide as Hij; [|by left]. cbn. intros [= <- <-]. right. split; [done|]. by exists t.
  - destruct (workers st !! i) as [w|] eqn:Hi; [|done]. cbn [mbind option_bind]. intros Hs Hl. left.
    repeat case_match; simplify_eq; revert Hl; apply (leaving_keeps _ _ _ _ _ _ _ Hi); cbn; congruence.
  - destruct (workers st !! i) as [w|] eqn:Hi; [|done]. cbn [mbind option_bind]. intros Hs Hl. left.
    repeat case_match; simplify_eq; revert Hl; apply (leaving_keeps _ _ _ _ _ _ _ Hi); cbn; congruence.
Qed.

(** The other threads only ever delete from a shard. *)
Lemma other_workers cfg st ev st' out : worker_event ev = false -> udp_step cfg st ev = Some (st', out) ->
  workers st' = workers st \/ exists i w c, workers st !! i = Some w /\ workers st' = <[i := set_flows w (delete c (w_flows w))]> (workers st).
Proof.
  intros Hev. destruct ev; try done; open_step; try (intros [= <- <-]; by left);
    try (destruct (reaper st); try done; intros [= <- <-]; by left).
  - destruct (reaper st) as [|i ms vs| | |]; try done. destruct (workers st !! i) as [w|]; [|done]. cbn.
    destruct (w_flows w !! client); [|done]. intros [= <- <-]. by left.
  - destruct (reaper st) as [| |i ms [|client vs]| |]; try done. destruct (workers st !! i) as [w|] eqn:Hi; [|done]. cbn [mbind option_bind].
    destruct (w_flows w !! client); intros [= <- <-]; [right; by exists i, w, client|by left].
  - destruct (reaper st) as [| |i ms [|client vs]| |]; try done. intros [= <- <-]. by left.
  - destruct (drainer st); try done. destruct (is_dynamic _); [|done]. intros [= <- <-]. by left.
  - destruct (drainer st); try done. destruct (_ =? _)%nat; [done|]. intros [= <- <-]. by left.
  - destruct (drainer st) as [| |seen i todo n]; try done. destruct (workers st !! i) as [w|] eqn:Hi; [|done]. cbn [mbind option_bind].
    destruct (w_flows w !! client); intros [= <- <-]; [right; by exists i, w, client|by left].
  - destruct (drainer st) as [| |seen i todo n]; try done. destruct (bool_decide _); [|done]. intros [= <- <-]. by left.
Qed.

Lemma other_leaving cfg st ev st' out j sock c : worker_event ev = false -> udp_step cfg st ev = Some (st', out) ->
  leaving_at st' j = Some (Removing sock c) -> leaving_at st j = Some (Removing sock c).
Proof.
  intros Hev Hs. destruct (other_workers _ _ _ _ _ Hev Hs) as [Hw|(i & w & c' & Hi & Hw)].
  - unfold leaving_at. by rewrite Hw.
  - intros Hl. assert (leaving_at (set_worker st i (set_flows w (delete c' (w_flows w)))) j = Some (Removing sock c)) as Hl'.
    { unfold leaving_at in *. by rewrite Hw in Hl. }
    revert Hl'. by apply (leaving_keeps _ _ _ _ _ _ _ Hi).
Qed.

Definition reap_event (ev : Event) : bool :=
  match ev with EvReapStart _ | EvReapVisit _ | EvReapScanned | EvReapRemove | EvReapDiscount | EvReapAbort | EvReapNext => true | _ => false end.

Lemma reap_event_frame cfg st ev st' out : reap_event ev = true -> udp_step cfg st ev = Some (st', out) ->
  drainer st' = drainer st /\ peer st' = peer st /\ resolver st' = resolver st.
Proof.
  intros Hev. destruct ev; try done; open_step; try (destruct (reaper st); try done; by intros [= <- <-]).
  - destruct (reaper st) as [|i ms vs| | |]; try done. destruct (workers st !! i) as [w|]; [|done]. cbn.
    destruct (w_flows w !! client); [|done]. by intros [= <- <-].
  - destruct (reaper st) as [| |i ms [|client vs]| |]; try done. destruct (workers st !! i) as [w|] eqn:Hi; [|done]. cbn [mbind option_bind].
    by destruct (w_flows w !! client); intros [= <- <-].
  - destruct (reaper st) as [| |i ms [|client vs]| |]; try done. by intros [= <- <-].
Qed.

(** The conditions under which a flow stays are kept by calm events. *)
Record steady (st : UdpProxy) (i : nat) (c : Net.SocketAddr) (own : nat) : Prop := {
  st_settled : settled st;
  st_unmarked : unmarked st i c;
  st_unfailing : unfailing st i c;
  st_sole : sole st i c own
}.

(** A step leaves the running return loops as they are, ends some, or starts the
    one of a flow that is being created. *)
Definition live_sub (ts' ts : gmap nat Task) : Prop := forall s t, ts' !! s = Some t -> tk_aborted t = false -> ts !! s = Some t.

Lemma abort_live ts k : live_sub (abort_task ts k) ts.
Proof.
  intros s t. unfold abort_task. destruct (decide (k = s)) as [->|]; [|by rewrite lookup_alter_ne].
  rewrite lookup_alter_eq. destruct (ts !! s); [|done]. by intros [= <-].
Qed.

Lemma delete_live (ts : gmap nat Task) k : live_sub (delete k ts) ts.
Proof. by intros s t [_ Ht]%lookup_delete_Some. Qed.

Lemma step_tasks cfg st ev st' out : udp_step cfg st ev = Some (st', out) ->
  live_sub (tasks st') (tasks st) \/
  exists j w payload client target, workers st !! j = Some w /\ w_front w = FBinding payload client target /\
    tasks st' = <[next_sock st := mkTask j client false]> (tasks st).
Proof.
  assert (forall ts, live_sub ts ts) as Hrefl by (by intros ts s t).
  assert (forall st1, tasks st1 = tasks st -> live_sub (tasks st1) (tasks st)) as Hsame by (by intros st1 ->).
  destruct ev; open_step; try (intros Hs%on_front_frame; left; apply Hsame; naive_solver); try (intros Hs%on_task_frame; left; apply Hsame; naive_solver).
  1: { destruct (on_front _ _ _) as [[st1 o1]|] eqn:Hf; [|done]. apply on_front_frame in Hf as (_ & _ & _ & _ & Ht). cbn [mbind option_bind].
    destruct (workers st !! i) as [w|] eqn:Hi; [|done]. destruct (w_front w) eqn:Hw; try done. destruct ok; intros [= <- <-]; [right|left; by apply Hsame].
    eexists i, w, _, _, _. split_and!; [done|done|]. cbn. by rewrite Ht. }
  all: intros Hs; left; unfold mbind, option_bind, first_sends in Hs; repeat (case_match; try done); simplify_eq; cbn;
    first [apply Hrefl|apply abort_live|apply delete_live].
Qed.

Lemma step_sole cfg st ev st' out i c sock : udp_inv cfg st -> udp_step cfg st ev = Some (st', out) -> is_Some (flow_at st i c) ->
  sole st i c sock -> sole st' i c sock.
Proof.
  intros Hinv Hs [f Hf] Hsole s t Ht Ha Hw Hc. destruct (step_tasks _ _ _ _ _ Hs) as [Hlive|(j & w & payload & client & target & Hj & Hfr & Hts)].
  - eapply Hsole; eauto.
  - rewrite Hts in Ht. apply lookup_insert_Some in Ht as [[<- <-]|[_ Ht]]; [|by eapply Hsole]. cbn in Hw, Hc. subst.
    pose proof (Forall_lookup_1 _ _ _ _ (ui_fresh _ _ Hinv) Hj c) as Hnone. rewrite Hfr in Hnone. unfold flow_at in Hf. rewrite Hj in Hf. cbn in Hf.
    by rewrite Hnone in Hf.
Qed.

Lemma calm_settled cfg i c own st ev st' out : settled st -> calm cfg i c own st ev -> udp_step cfg st ev = Some (st', out) -> settled st'.
Proof.
  intros Hset Hcalm Hs. destruct (worker_event ev) eqn:Hev.
  { destruct (worker_event_frame _ _ _ _ _ Hev Hs) as (_ & Hd & Hp & _). unfold settled in *. by rewrite Hd, Hp. }
  destruct (reap_event ev) eqn:Hrev.
  { destruct (reap_event_frame _ _ _ _ _ Hrev Hs) as (Hd & Hp & _). unfold settled in *. by rewrite Hd, Hp. }
  unfold settled in *. destruct ev; try done; open_step_in Hs.
  - destruct (drainer st); try done. destruct (is_dynamic _); [|done]. by injection Hs as <- <-.
  - destruct (drainer st) as [|seen|]; try done. rewrite Hset, Nat.eqb_refl in Hs. done.
  - destruct (drainer st); try done.
  - destruct (drainer st); try done.
  - injection Hs as <- <-. cbn. destruct (record_same (peer st) addr now Hcalm) as [-> _]. done.
  - injection Hs as <- <-. done.
  - injection Hs as <- <-. done.
Qed.

Lemma calm_unmarked cfg i c own st ev st' out : unmarked st i c -> is_Some (flow_at st i c) -> calm cfg i c own st ev ->
  udp_step cfg st ev = Some (st', out) -> unmarked st' i c.
Proof.
  intros Hun [f Hf] Hcalm Hs. destruct (worker_event ev) eqn:Hev.
  { destruct (worker_event_frame _ _ _ _ _ Hev Hs) as (Hr & _). unfold unmarked in *. by rewrite Hr. }
  unfold unmarked in *. destruct ev; try done; open_step_in Hs; try (injection Hs as <- <-; done).
  - destruct (reaper st); try done. injection Hs as <- <-. cbn. set_solver.
  - destruct (reaper st) as [|j ms vs| | |] eqn:Hr; try done. destruct (workers st !! j) as [w|] eqn:Hj; [|done]. cbn in Hs.
    destruct (w_flows w !! client) as [f'|] eqn:Hc; [|done]. injection Hs as <- <-. cbn. intros ->. specialize (Hun eq_refl).
    destruct (is_idle cfg ms f') eqn:Hidle; [|done]. intros [?|Hin]%elem_of_app; [done|]. apply list_elem_of_singleton in Hin as <-.
    rewrite (Hcalm ms vs f' Hr) in Hidle; [done|]. unfold flow_at. by rewrite Hj.
  - destruct (reaper st); try done. by injection Hs as <- <-.
  - destruct (reaper st) as [| |j ms [|client vs]| |] eqn:Hr; try done. destruct (workers st !! j) as [w|]; [|done]. cbn [mbind option_bind] in Hs.
    destruct (w_flows w !! client); injection Hs as <- <-; cbn; intros ->; specialize (Hun eq_refl); set_solver.
  - destruct (reaper st); try done. by injection Hs as <- <-.
  - destruct (reaper st); try done. by injection Hs as <- <-.
  - destruct (reaper st) as [| |j ms [|client vs]| |] eqn:Hr; try done. injection Hs as <- <-. cbn [with_reaper reaper]. destruct (S j <? length (workers st))%nat; [set_solver|done].
  - destruct (drainer st); try done. destruct (is_dynamic _); [|done]. by injection Hs as <- <-.
  - destruct (drainer st); try done. destruct (_ =? _)%nat; [done|]. by injection Hs as <- <-.
  - destruct (drainer st) as [| |seen j todo n]; try done. destruct (workers st !! j) as [w|]; [|done]. cbn [mbind option_bind] in Hs.
    by destruct (w_flows w !! client); injection Hs as <- <-.
  - destruct (drainer st) as [| |seen j todo n]; try done. destruct (bool_decide _); [|done]. by injection Hs as <- <-.
Qed.

Lemma calm_unfailing cfg i c own st ev st' out : unfailing st i c -> sole st i c own -> calm cfg i c own st ev -> udp_step cfg st ev = Some (st', out) -> unfailing st' i c.
Proof.
  intros Hun Hsole Hcalm Hs sock Hl. destruct (worker_event ev) eqn:Hev.
  - destruct (worker_leaving _ _ _ _ _ _ _ _ Hev Hs Hl) as [Hl'|(-> & t & Ht & Hw & Hc)]; [by eapply Hun|]. apply Hcalm.
    open_step_in Hs. apply on_task_inversion in Hs as (t' & _ & _ & Ht' & _ & Ha & _). rewrite Ht in Ht'. injection Ht' as <-. by eapply Hsole.
  - by eapply Hun, other_leaving.
Qed.

(** A flow under steady conditions outlives a calm step. *)
Lemma calm_step cfg i c own st ev st' out f : udp_inv cfg st -> steady st i c own -> calm cfg i c own st ev -> flow_at st i c = Some f ->
  udp_step cfg st ev = Some (st', out) -> steady st' i c own /\ exists f', flow_at st' i c = Some f' /\ same_flow f f'.
Proof.
  intros Hinv [Hset Hun Hfail Hsole] Hcalm Hf Hs. split.
  { constructor; [by eapply calm_settled|eapply calm_unmarked; eauto|by eapply calm_unfailing|by eapply step_sole; eauto]. }
  pose proof (step_flow cfg st ev st' out i c Hinv Hs) as Hch. rewrite Hf in Hch. inversion Hch as [o Ho Ho'|f1 f2 Hsame|? ms rest Hev Hr|? seen todo n Hev Hd|? w sock Hev Hi Hl|]; subst.
  - by exists f.
  - by exists f2.
  - exfalso. unfold unmarked in Hun. rewrite Hr in Hun. apply (Hun eq_refl). by left.
  - exfalso. unfold settled in Hset. by rewrite Hd in Hset.
  - exfalso. apply (Hfail sock). unfold leaving_at. by rewrite Hi.
Qed.

Lemma calm_run_keeps cfg evs : max_flows cfg < 2 ^ 64 -> forall i c own st st' out f, udp_inv cfg st -> steady st i c own -> calm_run cfg i c own st evs ->
  flow_at st i c = Some f -> udp_run cfg st evs = Some (st', out) ->
  exists f', flow_at st' i c = Some f' /\ same_flow f f'.
Proof.
  intros Hmax. induction evs as [|ev evs IH]; intros i c own st st' out f Hinv Hst; cbn [calm_run udp_run].
  { intros _ Hf [= <- <-]. by exists f. }
  intros [Hcalm Hrun] Hf. destruct (udp_step cfg st ev) as [[st1 o1]|] eqn:Hs; [|done]. cbn [mbind option_bind].
  destruct (udp_run cfg st1 evs) as [[st2 o2]|] eqn:Hr; [|done]. intros [= <- <-].
  destruct (calm_step _ _ _ _ _ _ _ _ _ Hinv Hst Hcalm Hf Hs) as [Hst1 (f1 & Hf1 & [Hk1 Ht1])].
  destruct (IH i c own st1 st2 o2 f1) as (f2 & Hf2 & [Hk2 Ht2]); try done; [by eapply step_inv|].
  exists f2. split; [done|]. split; congruence.
Qed.

(** ** Targets after an address change *)

Definition current (st : UdpProxy) : option Net.SocketAddr := current_target (peer st) (resolver st).

Definition front_target (f : Front) : option Net.SocketAddr :=
  match f with
  | FWait | FMissed _ _ => None
  | FTargeted _ _ t | FBinding _ _ t | FSpawned _ _ t _ | FReserved _ _ t _ => Some t
  end.

(** The target a worker has read for the flow it is making. *)
Definition making (st : UdpProxy) (j : nat) : option Net.SocketAddr := w ← workers st !! j; front_target (w_front w).

Lemma making_set st i w w' j t : workers st !! i = Some w ->
  (front_target (w_front w') = Some t -> front_target (w_front w) = Some t \/ Some t = current st) ->
  making (set_worker st i w') j = Some t -> making st j = Some t \/ Some t = current st.
Proof.
  intros Hi Hk. unfold making. cbn. destruct (decide (i = j)) as [<-|Hij].
  - rewrite list_lookup_insert_eq by (by eapply lookup_lt_Some). rewrite Hi. exact Hk.
  - rewrite list_lookup_insert_ne by done. by left.
Qed.

Lemma dispatch_front cfg i arms w d now r : w_front (fst (dispatch_datagram cfg i arms w d now r)) = w_front w.
Proof.
  destruct d as [payload from]. unfold dispatch_datagram, try_handle_inbound_fast.
  destruct (is_probe _ _ _ _ _); [by destruct r|]. destruct (w_flows w !! from); [by destruct r|done].
Qed.

Lemma front_making cfg st ev st' out j t :
  match ev with EvBatch _ _ _ | EvDispatch _ _ _ | EvSlow _ _ _ | EvTarget _ | EvCapacity _ | EvInsert _ _ _ _ _ => True | _ => False end ->
  udp_step cfg st ev = Some (st', out) -> making st' j = Some t -> making st j = Some t \/ Some t = current st.
Proof.
  intros Hev. destruct ev; try done; open_step; intros (w & w' & Hi & _ & Hk & ->)%on_front_inversion;
    apply (making_set _ _ _ _ _ _ Hi); destruct (w_front w) eqn:Hw; try done.
  - destruct (w_batch w), (w_slow w); try done. by simplify_eq.
  - destruct (w_batch w) as [|d rest]; [done|]. injection Hk as Hk. apply (f_equal fst) in Hk. cbn in Hk. subst w'.
    rewrite dispatch_front. cbn. by rewrite Hw.
  - destruct (w_batch w), (w_slow w) as [|[payload from] rest]; try done. destruct (is_probe _ _ _ _ _); [simplify_eq; cbn; by rewrite Hw|].
    unfold handle_inbound in Hk. repeat case_match; simplify_eq; cbn; by rewrite ?Hw.
  - simplify_eq. cbn. unfold current. destruct (current_target _ _); [|done]. cbn. auto.
  - simplify_eq. cbn. case_match; [done|]. cbn. auto.
  - unfold first_sends in Hk. by simplify_eq.
Qed.

Lemma step_making cfg st ev st' out j t : udp_step cfg st ev = Some (st', out) -> making st' j = Some t -> making st j = Some t \/ Some t = current st.
Proof.
  intros Hs. destruct (worker_event ev) eqn:Hev.
  2:{ destruct (other_workers _ _ _ _ _ Hev Hs) as [Hw|(i & w & c' & Hi & Hw)]; [unfold making; rewrite Hw; by left|].
      intros Hm. assert (making (set_worker st i (set_flows w (delete c' (w_flows w)))) j = Some t) as Hm'.
      { unfold making in *. by rewrite Hw in Hm. }
      revert Hm'. apply (making_set _ _ _ _ _ _ Hi). by left. }
  destruct ev; try done; try (eapply front_making; [|exact Hs]; exact I); open_step_in Hs; clear Hev.
  - destruct (on_front _ _ _) as [[st1 o1]|] eqn:Hf; [|done]. cbn [mbind option_bind] in Hs.
    apply on_front_inversion in Hf as (w & w' & Hi & _ & Hk & ->). rewrite Hi in Hs.
    destruct (w_front w) eqn:Hw; try done. injection Hk as <- <-. intros Hm.
    assert (making (set_worker st i (set_front w (if ok then FSpawned payload client target (next_sock st) else FWait))) j = Some t) as Hm'
      by (destruct ok; injection Hs as <- <-; exact Hm).
    revert Hm'. apply (making_set _ _ _ _ _ _ Hi). rewrite Hw. destruct ok; [by left|done].
  - destruct (workers st !! i) as [w|] eqn:Hi; [|done]. cbn [mbind option_bind] in Hs. destruct (w_leaving w); [done|].
    destruct (w_front w) as [| | | |p' c' t' s'|] eqn:Hw; try done. unfold first_sends in Hs.
    repeat case_match; simplify_eq; apply (making_set _ _ _ _ _ _ Hi); rewrite ?Hw; try done; by left.
  - apply on_task_inversion in Hs as (tk & w & w' & _ & Hi & _ & _ & _ & Hk & ->). apply (making_set _ _ _ _ _ _ Hi).
    unfold return_forward, upstream_batch_forward, forward_single in Hk. repeat case_match; simplify_eq; by left.
  - apply on_task_inversion in Hs as (tk & w & w' & _ & Hi & _ & _ & _ & Hk & ->). apply (making_set _ _ _ _ _ _ Hi). simplify_eq. by left.
  - destruct (workers st !! i) as [w|] eqn:Hi; [|done]. cbn [mbind option_bind] in Hs.
    repeat case_match; simplify_eq; apply (making_set _ _ _ _ _ _ Hi); by left.
  - destruct (workers st !! i) as [w|] eqn:Hi; [|done]. cbn [mbind option_bind] in Hs.
    repeat case_match; simplify_eq; apply (making_set _ _ _ _ _ _ Hi); by left.
Qed.

(** The watcher still has to visit the flow of [c] at worker [j]. *)
Definition covered (st : UdpProxy) (j : nat) (c : Net.SocketAddr) : Prop :=
  match drainer st with
  | DUnborn => False
  | DIdle seen => seen <> wakes (peer st)
  | DRetain seen w todo _ => seen <> wakes (peer st) \/ (w < j)%nat \/ (w = j /\ c ∈ todo)
  end.

Definition seen_ok (st : UdpProxy) : Prop :=
  match drainer st with DUnborn => True | DIdle seen | DRetain seen _ _ _ => (seen <= wakes (peer st))%nat end.

Record targets_inv (st : UdpProxy) : Prop := {
  ti_seen : seen_ok st;
  ti_dynamic : is_dynamic (resolver st) = true;
  ti_flows : forall j c f, flow_at st j c = Some f -> Some (fl_target f) = current st \/ covered st j c;
  ti_making : forall j t, making st j = Some t -> Some t = current st
}.

(** The address changes only while no worker is between reading the target and
    inserting its flow, and the watcher has subscribed before it ever does. *)
Definition orderly (st : UdpProxy) (ev : Event) : Prop :=
  match ev with
  | EvHeartbeat addr _ =>
      current_ip (peer st) = Some (Net.ip addr) \/
      ((forall j, making st j = None) /\ (current_ip (peer st) = None \/ drainer st <> DUnborn))
  | _ => True
  end.

Fixpoint orderly_run (cfg : UdpConfig) (st : UdpProxy) (evs : list Event) : Prop :=
  match evs with
  | [] => True
  | ev :: evs => orderly st ev /\ match udp_step cfg st ev with Some (st', _) => orderly_run cfg st' evs | None => True end
  end.

Lemma flow_from cfg st ev st' out j c f : udp_inv cfg st -> targets_inv st -> udp_step cfg st ev = Some (st', out) ->
  flow_at st' j c = Some f -> (exists f0, flow_at st j c = Some f0 /\ fl_target f0 = fl_target f) \/ Some (fl_target f) = current st.
Proof.
  intros Hinv Hti Hs Hf. pose proof (step_flow cfg st ev st' out j c Hinv Hs) as Hch. rewrite Hf in Hch.
  remember (Some f) as of' eqn:Hof. destruct Hch as [o|f1 f2 [Hk Ht]| | | |cr now hs ps w payload t sock f2 Hev Hi Hw Hsock Ht]; simplify_eq.
  - left. by exists f.
  - left. exists f1. by rewrite Ht.
  - right. apply (ti_making st Hti j). unfold making. by rewrite Hi; cbn; rewrite Hw.
Qed.

(** A step that keeps the peer and the watcher. *)
Lemma quiet_targets cfg st ev st' out : udp_inv cfg st -> targets_inv st -> udp_step cfg st ev = Some (st', out) ->
  drainer st' = drainer st -> peer st' = peer st -> resolver st' = resolver st -> targets_inv st'.
Proof.
  intros Hinv Hti Hs Hd Hp Hr. assert (current st' = current st) as Hcur by (unfold current; by rewrite Hp, Hr).
  constructor.
  - unfold seen_ok. rewrite Hd, Hp. apply Hti.
  - rewrite Hr. apply Hti.
  - intros j c f Hf. rewrite Hcur. destruct (flow_from _ _ _ _ _ _ _ _ Hinv Hti Hs Hf) as [(f0 & Hf0 & <-)|?]; [|by left].
    unfold covered. rewrite Hd, Hp. by apply (ti_flows st Hti).
  - intros j t Hm. rewrite Hcur. destruct (step_making _ _ _ _ _ _ _ Hs Hm) as [Hm'|?]; [|done]. by apply (ti_making st Hti j).
Qed.

(** A step of the watcher or of the peer, which keeps the fronts. *)
Lemma watch_targets st st' : targets_inv st -> workers st' = workers st -> seen_ok st' -> resolver st' = resolver st ->
  current st' = current st -> (forall j c f, flow_at st j c = Some f -> covered st j c -> covered st' j c) -> targets_inv st'.
Proof.
  intros [] Hw Hseen Hr Hcur Hcov. constructor; [done|by rewrite Hr| |].
  - intros j c f. rewrite (flow_at_workers st st' j c Hw), Hcur. intros Hf. destruct (ti_flows0 j c f Hf); eauto.
  - intros j t. unfold making in *. rewrite Hw, Hcur. apply ti_making0.
Qed.

Lemma flow_at_lt st j c f : flow_at st j c = Some f -> (j < length (workers st))%nat.
Proof. unfold flow_at. destruct (workers st !! j) eqn:Hj; [|done]. intros _. by eapply lookup_lt_Some. Qed.

Lemma shard_clients_spec st j c f : flow_at st j c = Some f -> c ∈ shard_clients st j.
Proof. unfold flow_at, shard_clients. destruct (workers st !! j); [|done]. cbn. intros. by apply elem_of_dom. Qed.

(** One visit of [retain]. *)
Lemma visit_spec cfg st client st' out seen w todo n : drainer st = DRetain seen w todo n ->
  udp_step cfg st (EvDrainVisit client) = Some (st', out) ->
  (exists n', drainer st' = DRetain seen w (todo ∖ {[client]}) n') /\ peer st' = peer st /\ resolver st' = resolver st /\
  flow_at st' w client = None /\ (forall j c f, flow_at st' j c = Some f -> flow_at st j c = Some f) /\ (forall j, making st' j = making st j).
Proof.
  intros Hd. open_step. rewrite Hd. destruct (workers st !! w) as [wk|] eqn:Hw; [|done]. cbn [mbind option_bind].
  destruct (w_flows wk !! client) as [f0|] eqn:Hc; intros [= <- <-]; cbn.
  - assert (w < length (workers st))%nat as Hlt by (by eapply lookup_lt_Some).
    pose proof (fun j c => flow_at_set st w j c (set_flows wk (delete client (w_flows wk))) Hlt) as Hset.
    unfold flow_at in Hset |- *. cbn in Hset |- *. split_and!; eauto.
    + rewrite Hset, decide_True by done. by rewrite lookup_delete_eq.
    + intros j c f. rewrite Hset. case_decide as Hj; [|done]. subst. rewrite lookup_delete_Some, Hw. naive_solver.
    + intros j. unfold making. cbn. destruct (decide (w = j)) as [<-|]; [by rewrite list_lookup_insert_eq, Hw|by rewrite list_lookup_insert_ne].
  - split_and!; eauto. unfold flow_at. cbn. by rewrite Hw.
Qed.

Lemma visit_targets cfg st client st' out : targets_inv st -> udp_step cfg st (EvDrainVisit client) = Some (st', out) -> targets_inv st'.
Proof.
  intros [] Hs. destruct (drainer st) as [|seen|seen w todo n] eqn:Hd; try (cbn in Hs; rewrite Hd in Hs; done).
  destruct (visit_spec _ _ _ _ _ _ _ _ _ Hd Hs) as ([n' Hd'] & Hp & Hr & Hgone & Hflows & Hmk).
  assert (current st' = current st) as Hcur by (unfold current; by rewrite Hp, Hr). constructor.
  - unfold seen_ok in *. by rewrite Hd', Hp; rewrite Hd in ti_seen0.
  - by rewrite Hr.
  - intros j c f Hf. rewrite Hcur. destruct (ti_flows0 j c f (Hflows j c f Hf)) as [?|Hcov]; [by left|right].
    unfold covered in *. rewrite Hd', Hp. rewrite Hd in Hcov. destruct Hcov as [?|[?|[-> Hin]]]; [by left|by right; left|].
    right. right. split; [done|]. assert (c <> client) by (intros ->; congruence). set_solver.
  - intros j t. rewrite Hmk, Hcur. apply ti_making0.
Qed.

Lemma shard_targets cfg st st' out : targets_inv st -> udp_step cfg st EvDrainShard = Some (st', out) -> targets_inv st'.
Proof.
  intros Hti Hs. pose proof (ti_seen st Hti) as Hseen. unfold seen_ok in Hseen. open_step_in Hs.
  destruct (drainer st) as [|seen|seen w todo n] eqn:Hd; try done. case_bool_decide as Htodo; [|done]. injection Hs as <- <-.
  apply (watch_targets st); [done|done|unfold seen_ok; cbn [drainer with_drainer peer]; destruct (S w <? length (workers st))%nat; exact Hseen|done|done|].
  intros j c f Hf. unfold covered. rewrite Hd. cbn [drainer with_drainer peer with_count].
  pose proof (flow_at_lt _ _ _ _ Hf). destruct (Nat.ltb_spec (S w) (length (workers st))).
  - intros [?|[?|[-> Hin]]]; [by left| |set_solver]. right. destruct (decide (S w = j)) as [<-|]; [|left; lia].
    right. split; [done|by eapply shard_clients_spec].
  - intros [?|[?|[-> Hin]]]; [done|lia|set_solver].
Qed.

Lemma heartbeat_targets cfg st addr now st' out : targets_inv st -> orderly st (EvHeartbeat addr now) ->
  udp_step cfg st (EvHeartbeat addr now) = Some (st', out) -> targets_inv st'.
Proof.
  intros Hti Hord Hs. cbn in Hs. injection Hs as <- <-. pose proof (ti_seen st Hti) as Hseen. unfold seen_ok in Hseen.
  destruct (decide (current_ip (peer st) = Some (Net.ip addr))) as [Hsame|Hdiff].
  - destruct (record_same (peer st) addr now Hsame) as [Hwk Hip].
    apply (watch_targets st); [done|done| |done| |].
    + unfold seen_ok. cbn. by rewrite Hwk.
    + unfold current. cbn. destruct (resolver st); cbn; by rewrite ?Hip.
    + intros j c f _. unfold covered. cbn. by rewrite Hwk.
  - destruct Hord as [?|[Hnone Hborn]]; [done|].
    assert (wakes (fst (record_heartbeat (peer st) addr now)) = S (wakes (peer st))) as Hwk.
    { unfold record_heartbeat. destruct (current_ip (peer st)); [|done]. rewrite bool_decide_false; [done|congruence]. }
    constructor.
    + unfold seen_ok. cbn. rewrite Hwk. destruct (drainer st); lia.
    + apply Hti.
    + intros j c f Hf. right. unfold covered. cbn. rewrite Hwk. destruct (drainer st) as [|seen|seen w todo n] eqn:Hd; [|lia|left; lia].
      destruct Hborn as [Hip|?]; [|done]. destruct (ti_flows st Hti j c f Hf) as [Hcur|Hcov]; [|unfold covered in Hcov; by rewrite Hd in Hcov].
      exfalso. pose proof (ti_dynamic st Hti). unfold current in Hcur. destruct (resolver st); try done. cbn in Hcur. by rewrite Hip in Hcur.
    + intros j t. change (making (with_peer st (fst (record_heartbeat (peer st) addr now))) j) with (making st j). by rewrite Hnone.
Qed.

Lemma step_targets cfg st ev st' out : udp_inv cfg st -> targets_inv st -> orderly st ev -> udp_step cfg st ev = Some (st', out) -> targets_inv st'.
Proof.
  intros Hinv Hti Hord Hs. destruct (worker_event ev) eqn:Hev.
  { destruct (worker_event_frame _ _ _ _ _ Hev Hs) as (_ & Hd & Hp & Hr). by eapply quiet_targets. }
  destruct (reap_event ev) eqn:Hrev.
  { destruct (reap_event_frame _ _ _ _ _ Hrev Hs) as (Hd & Hp & Hr). by eapply quiet_targets. }
  pose proof (ti_seen st Hti) as Hseen. unfold seen_ok in Hseen. destruct ev; try done.
  - cbn in Hs. destruct (drainer st) eqn:Hd; try done. destruct (is_dynamic _); [|done]. injection Hs as <- <-.
    apply (watch_targets st); [done|done|unfold seen_ok; cbn; lia|done|done|]. intros j c f _. unfold covered. by rewrite Hd.
  - open_step_in Hs. destruct (drainer st) as [|seen|] eqn:Hd; try done. destruct (seen =? wakes (peer st))%nat; [done|]. injection Hs as <- <-.
    apply (watch_targets st); [done|done|unfold seen_ok; cbn; lia|done|done|].
    intros j c f Hf _. right. destruct (decide (0 = j)%nat) as [<-|]; [right; split; [done|by eapply shard_clients_spec]|left; lia].
  - by eapply visit_targets.
  - by eapply shard_targets.
  - by eapply heartbeat_targets.
  - cbn in Hs. injection Hs as <- <-. pose proof (ti_dynamic st Hti). apply (watch_targets st);
      [done|done|exact Hseen|by destruct (resolver st)|unfold current; cbn; by destruct (resolver st)|done].
  - cbn in Hs. injection Hs as <- <-. by apply (watch_targets st).
Qed.

Lemma run_targets cfg evs : max_flows cfg < 2 ^ 64 -> forall st st' out, udp_inv cfg st -> targets_inv st -> orderly_run cfg st evs ->
  udp_run cfg st evs = Some (st', out) -> targets_inv st'.
Proof.
  intros Hmax. induction evs as [|ev evs IH]; intros st st' out Hinv Hti; cbn [orderly_run udp_run]; [by intros _ [= <- <-]|].
  intros [Hord Hrun]. destruct (udp_step cfg st ev) as [[st1 o1]|] eqn:Hs; [|done]. cbn [mbind option_bind].
  destruct (udp_run cfg st1 evs) as [[st2 o2]|] eqn:Hr; [|done]. intros [= <- <-].
  eapply (IH st1); [by eapply step_inv|by eapply step_targets|done|done].
Qed.

Lemma spawn_targets n p port arms : targets_inv (udp_spawn n p (RDynamic port) arms).
Proof.
  constructor; try done.
  - intros j c f. unfold flow_at. cbn. destruct (repeat worker_new n !! j) as [w|] eqn:Hw; [|done].
    apply list_elem_of_lookup_2, list_elem_of_In, repeat_spec in Hw as ->. done.
  - intros j t. unfold making. cbn. destruct (repeat worker_new n !! j) as [w|] eqn:Hw; [|done].
    apply list_elem_of_lookup_2, list_elem_of_In, repeat_spec in Hw as ->. done.
Qed.

(** ** Concrete runs *)

Module UdpDemo.

Definition v4 (a b c d port : Z) : Net.SocketAddr := Net.SocketAddr_new (Net.IpV4 (Net.v4_new a b c d)) port.
Definition demo_client : Net.SocketAddr := v4 203 0 113 7 51000.
Definition demo_cfg : UdpConfig :=
  mkUdpConfig (mkRule "game" (v4 0 0 0 0 34197) Udp (Some 34197) None None None) (v4 0 0 0 0 34197) 0 2 false.
Definition demo_spawn : UdpProxy := udp_spawn 1 (peer_state_new None) (RDynamic 34197) ∅.
Definition home1 : Net.SocketAddr := v4 198 51 100 1 7117.
Definition home2 : Net.SocketAddr := v4 198 51 100 2 7117.
Definition payload : list byte := ["001"%byte].

(** The steps of a datagram of [demo_client], up to the awaited socket, and
    from there to its flow. *)
Definition upto_bind (now : Z) : list Event :=
  [EvBatch 0 [(payload, demo_client)] now; EvDispatch 0 now Sent; EvSlow 0 now true; EvTarget 0; EvCapacity 0].
Definition from_bind (now : Z) : list Event := [EvBound 0 true; EvEntry 0 now true true; EvInsert 0 now now true true].
Definition drain_events : list Event := [EvDrainStart; EvDrainVisit demo_client; EvDrainShard].

(** The flow's target at the end of a run, when nothing is left to drain. *)
Definition settled_target (evs : list Event) : option (option Net.SocketAddr * option Net.SocketAddr) :=
  match udp_run demo_cfg demo_spawn evs with
  | Some (st, _) =>
      match drainer st with
      | DIdle seen => if (seen =? wakes (peer st))%nat then Some (fl_target <$> flow_at st 0 demo_client, current st) else None
      | _ => None
      end
  | None => None
  end.

(** The address changes and the table is drained while a worker waits for its
    socket: the flow it then inserts keeps the old address, and the client's
    next datagrams keep the flow alive. *)
Lemma late_insert_survives_drain :
  settled_target ([EvHeartbeat home1 1; EvWatch] ++ upto_bind 10 ++ [EvHeartbeat home2 2] ++ drain_events ++ from_bind 20 ++
                  [EvBatch 0 [(payload, demo_client)] 30; EvDispatch 0 30 Sent]) =
  Some (Some (v4 198 51 100 1 34197), Some (v4 198 51 100 2 34197)).
Proof. by vm_compute. Qed.

(** The address changes after the workers started and before the watcher
    subscribed: the change counts as seen. *)
Lemma late_watch_misses_change :
  settled_target ([EvHeartbeat home1 1] ++ upto_bind 10 ++ from_bind 20 ++ [EvHeartbeat home2 2; EvWatch]) =
  Some (Some (v4 198 51 100 1 34197), Some (v4 198 51 100 2 34197)).
Proof. by vm_compute. Qed.

(** The reaper removes a flow before it aborts its task.  In between the client
    may get a new flow and the old task's socket may fail: the old task removes
    the new flow, whose task stays without one. *)
Definition minute : Z := Time.from_secs 60.
Definition successor_run : list Event :=
  [EvHeartbeat home1 1; EvWatch] ++ upto_bind 10 ++ from_bind 20 ++
  [EvReapStart (2 * minute); EvReapVisit demo_client; EvReapScanned; EvReapRemove] ++
  upto_bind (2 * minute) ++ from_bind (2 * minute) ++ [EvReturnError 0; EvLeaveRemove 0; EvLeaveDiscount 0; EvReapDiscount; EvReapAbort].

Definition orphaned (st : UdpProxy) (sock : nat) : bool :=
  match tasks st !! sock with
  | Some t => negb (tk_aborted t) && bool_decide (flow_at st (tk_worker t) (tk_client t) = None)
  | None => false
  end.

Lemma reaped_task_removes_successor :
  match udp_run demo_cfg demo_spawn successor_run with Some (st, _) => orphaned st 1 | None => false end = true.
Proof. by vm_compute. Qed.

End UdpDemo.

(** ** The conditions, evaluated *)

Definition calmb (cfg : UdpConfig) (i : nat) (c : Net.SocketAddr) (own : nat) (st : UdpProxy) (ev : Event) : bool :=
  match ev with
  | EvHeartbeat addr _ => bool_decide (current_ip (peer st) = Some (Net.ip addr))
  | EvReapVisit _ =>
      match reaper st, flow_at st i c with
      | RScan j ms _, Some f => negb (j =? i)%nat || negb (is_idle cfg ms f)
      | _, _ => true
      end
  | EvReturnError sock => negb (sock =? own)%nat
  | _ => true
  end.

Fixpoint calm_runb (cfg : UdpConfig) (i : nat) (c : Net.SocketAddr) (own : nat) (st : UdpProxy) (evs : list Event) : bool :=
  match evs with
  | [] => true
  | ev :: evs => calmb cfg i c own st ev && match udp_step cfg st ev with Some (st', _) => calm_runb cfg i c own st' evs | None => true end
  end.

Lemma calm_runb_sound cfg i c own evs : forall st, calm_runb cfg i c own st evs = true -> calm_run cfg i c own st evs.
Proof.
  induction evs as [|ev evs IH]; intros st; [done|]. cbn [calm_runb calm_run]. intros [Hc Hr]%andb_true_iff. split.
  - destruct ev; try done; cbn in *.
    + by apply negb_true_iff, Nat.eqb_neq in Hc.
    + intros ms vs f Hrs Hf. rewrite Hrs, Hf in Hc. rewrite Nat.eqb_refl in Hc. by destruct (is_idle cfg ms f).
    + by apply bool_decide_eq_true in Hc.
  - destruct (udp_step cfg st ev) as [[st' o]|]; auto.
Qed.

Definition orderlyb (st : UdpProxy) (ev : Event) : bool :=
  match ev with
  | EvHeartbeat addr _ =>
      bool_decide (current_ip (peer st) = Some (Net.ip addr)) ||
      (forallb (fun w => bool_decide (front_target (w_front w) = None)) (workers st) &&
       (bool_decide (current_ip (peer st) = None) || match drainer st with DUnborn => false | _ => true end))
  | _ => true
  end.

Fixpoint orderly_runb (cfg : UdpConfig) (st : UdpProxy) (evs : list Event) : bool :=
  match evs with
  | [] => true
  | ev :: evs => orderlyb st ev && match udp_step cfg st ev with Some (st', _) => orderly_runb cfg st' evs | None => true end
  end.

Lemma orderly_runb_sound cfg evs : forall st, orderly_runb cfg st evs = true -> orderly_run cfg st evs.
Proof.
  induction evs as [|ev evs IH]; intros st; [done|]. cbn [orderly_runb orderly_run]. intros [Hc Hr]%andb_true_iff. split.
  - destruct ev; try done. cbn in *. apply orb_true_iff in Hc as [Hc|Hc]; [left; by apply bool_decide_eq_true in Hc|right].
    apply andb_true_iff in Hc as [Hf Hd]. split.
    + intros j. unfold making. destruct (workers st !! j) as [w|] eqn:Hj; [|done]. rewrite forallb_forall in Hf.
      apply list_elem_of_lookup_2, list_elem_of_In in Hj. by apply Hf, bool_decide_eq_true in Hj.
    + apply orb_true_iff in Hd as [Hd|Hd]; [left; by apply bool_decide_eq_true in Hd|right]. by destruct (drainer st).
  - destruct (udp_step cfg st ev) as [[st' o]|]; auto.
Qed.

(** ** Properties *)

Module UdpProps.

(** No thread is in the middle of a change. *)
Definition quiescent (st : UdpProxy) : Prop :=
  Forall (fun w => weight w = Z.of_nat (size (w_flows w))) (workers st) /\ reaper_owes (reaper st) = 0 /\ drainer_owes (drainer st) = 0.

Lemma weights_flows ws : Z.of_nat (sum_list_with (fun w => size (w_flows w)) ws) <= weights ws /\
  (Forall (fun w => weight w = Z.of_nat (size (w_flows w))) ws -> weights ws = Z.of_nat (sum_list_with (fun w => size (w_flows w)) ws)).
Proof.
  induction ws as [|w ws [IH1 IH2]]; [done|].
  change (weights (w :: ws)) with (weight w + weights ws). cbn [sum_list_with].
  split; [unfold weight; repeat case_match; lia|]. intros [Hw Hws]%Forall_cons. specialize (IH2 Hws). lia.
Qed.

(** C24: Whatever the interleaving of the workers, the return loops, the reaper
    and the watcher, the flows of a rule never exceed its cap, the counter that
    enforces it stays between zero and the cap and is never below the number of
    flows, and it is exactly that number when no thread is in the middle of a
    change. *)
Theorem udp_flow_cap cfg n p r arms evs st out :
  0 <= max_flows cfg < 2 ^ 64 -> udp_run cfg (udp_spawn n p r arms) evs = Some (st, out) ->
  Z.of_nat (active_flows st) <= flow_count st <= max_flows cfg /\
  (quiescent st -> flow_count st = Z.of_nat (active_flows st)).
Proof.
  intros Hmax Hrun. assert (udp_inv cfg st) as [] by (eapply run_inv; [|apply spawn_inv|exact Hrun]; lia).
  destruct (weights_flows (workers st)) as [Hle Heq]. assert (0 <= reaper_owes (reaper st)) by (unfold reaper_owes; case_match; lia).
  unfold active_flows. split; [lia|]. intros (Hq & Hr & Hd). specialize (Heq Hq). lia.
Qed.

(** C26: A flow outlives every heartbeat that confirms the peer's address: as
    long as no change of address waits to be drained, the reaper has not picked
    the flow and finds it in use, its upstream socket does not fail, and no
    return loop of an earlier flow of the same client is still running when the
    watch begins, the flow keeps its socket and its target.  (Such a loop, which
    the reaper has not aborted yet, can remove the flow in its place:
    UdpDemo.reaped_task_removes_successor.) *)
Theorem udp_flow_persists cfg n p r arms evs0 st0 out0 i c f evs st out :
  0 <= max_flows cfg < 2 ^ 64 -> udp_run cfg (udp_spawn n p r arms) evs0 = Some (st0, out0) ->
  flow_at st0 i c = Some f -> settled st0 -> unmarked st0 i c -> unfailing st0 i c -> sole st0 i c (fl_sock f) ->
  calm_run cfg i c (fl_sock f) st0 evs -> udp_run cfg st0 evs = Some (st, out) ->
  exists f', flow_at st i c = Some f' /\ fl_sock f' = fl_sock f /\ fl_target f' = fl_target f.
Proof.
  intros Hmax Hrun0 Hf Hset Hun Hfail Hsole Hcalm Hrun.
  eapply (calm_run_keeps cfg evs); [lia| |by constructor|done..].
  eapply run_inv; [|apply spawn_inv|exact Hrun0]; lia.
Qed.

(** C27: On a rule that follows the peer, once the watcher has dealt with every
    change of address, all flows of all workers go to the current address,
    provided the address never changes between a worker's reading of the target
    and the insertion of its flow, nor before the watcher has subscribed. *)
Theorem udp_targets_current cfg n p port arms evs st out :
  0 <= max_flows cfg < 2 ^ 64 -> udp_run cfg (udp_spawn n p (RDynamic port) arms) evs = Some (st, out) ->
  orderly_run cfg (udp_spawn n p (RDynamic port) arms) evs -> settled st ->
  forall i c f, flow_at st i c = Some f -> current_target (peer st) (resolver st) = Some (fl_target f).
Proof.
  intros Hmax Hrun Hord Hset i c f Hf.
  assert (targets_inv st) as Hti by (eapply run_targets; [|apply spawn_inv|apply spawn_targets|exact Hord|exact Hrun]; lia).
  destruct (ti_flows st Hti i c f Hf) as [Hc|Hc]; [by symmetry|]. exfalso. unfold covered, settled in *. by destruct (drainer st).
Qed.

Import UdpDemo.

Definition made_events : list Event := [EvHeartbeat home1 1; EvWatch] ++ upto_bind 10 ++ from_bind 20.

(** Heartbeats from the same address and a sweep of the reaper. *)
Definition quiet_events : list Event :=
  [EvHeartbeat home1 5; EvReapStart (Time.from_secs 30); EvReapVisit demo_client; EvReapScanned; EvReapNext; EvHeartbeat home1 6].

Definition end_from (st : UdpProxy) (evs : list Event) : UdpProxy := match udp_run demo_cfg st evs with Some (st', _) => st' | None => st end.
Definition runs (st : UdpProxy) (evs : list Event) : bool := match udp_run demo_cfg st evs with Some _ => true | None => false end.
Definition made_flow : FlowEntry := mkFlow 0 (v4 198 51 100 1 34197) 0.

Lemma runs_end st evs : runs st evs = true -> exists out, udp_run demo_cfg st evs = Some (end_from st evs, out).
Proof. unfold runs, end_from. destruct (udp_run demo_cfg st evs) as [[st' out]|]; [by exists out|done]. Qed.

Lemma udp_flow_cap_witness :
  Z.of_nat (active_flows (end_from demo_spawn successor_run)) <= flow_count (end_from demo_spawn successor_run) <= 2.
Proof.
  destruct (runs_end demo_spawn successor_run) as [out Hrun]; [vm_compute; reflexivity|].
  refine (proj1 (udp_flow_cap demo_cfg 1 (peer_state_new None) (RDynamic 34197) ∅ successor_run _ out _ Hrun)). cbn. lia.
Defined.

(** Only one task was started. *)
Lemma made_tasks s : s ∈ (dom (tasks (end_from demo_spawn made_events)) : gset nat) -> s = 0%nat.
Proof.
  assert (bool_decide ((dom (tasks (end_from demo_spawn made_events)) : gset nat) = {[0%nat]}) = true) as Hd by (by vm_compute).
  apply bool_decide_eq_true in Hd as ->. set_solver.
Qed.

Lemma udp_flow_persists_witness :
  exists f', flow_at (end_from (end_from demo_spawn made_events) quiet_events) 0 demo_client = Some f' /\
    fl_sock f' = fl_sock made_flow /\ fl_target f' = fl_target made_flow.
Proof.
  destruct (runs_end demo_spawn made_events) as [out0 Hrun0]; [vm_compute; reflexivity|].
  destruct (runs_end (end_from demo_spawn made_events) quiet_events) as [out Hrun]; [vm_compute; reflexivity|].
  refine (udp_flow_persists demo_cfg 1 (peer_state_new None) (RDynamic 34197) ∅ made_events _ out0 0 demo_client made_flow
           quiet_events _ out _ Hrun0 _ _ _ _ _ _ Hrun);
    [cbn; lia|vm_compute; reflexivity|vm_compute; reflexivity|vm_compute; exact I| | |apply calm_runb_sound; vm_compute; reflexivity].
  - intros sock Hl. vm_compute in Hl. discriminate.
  - intros s t Ht _ _ _. destruct s as [|s]; [reflexivity|]. exfalso. apply (elem_of_dom_2 (D := gset nat)) in Ht.
    apply made_tasks in Ht. discriminate.
Defined.

(** A change of address, drained, and a new flow. *)
Definition moved_events : list Event := made_events ++ [EvHeartbeat home2 2] ++ drain_events ++ upto_bind 30 ++ from_bind 40.

Lemma udp_targets_current_witness :
  current_target (peer (end_from demo_spawn moved_events)) (resolver (end_from demo_spawn moved_events)) = Some (v4 198 51 100 2 34197).
Proof.
  destruct (runs_end demo_spawn moved_events) as [out Hrun]; [vm_compute; reflexivity|].
  refine (udp_targets_current demo_cfg 1 (peer_state_new None) 34197 ∅ moved_events _ out _ Hrun _ _ 0%nat demo_client
            (mkFlow 1 (v4 198 51 100 2 34197) 0) _);
    [cbn; lia|apply orderly_runb_sound; vm_compute; reflexivity|vm_compute; reflexivity|vm_compute; reflexivity].
Defined.

End UdpProps.
