(* ===== verification/UdpBatch.v ===== *)
(** * Batched datagrams ([yggdrasil/src/proxy/udp/batch_recv.rs],
    [recvmmsg_linux.rs], [sendmmsg_linux.rs])

    The buffer one [recvmmsg] fills, the headers that point into it, the
    datagrams read back from it, and the batch one [sendmmsg] sends to the
    client of a flow.  Memory is the lists of the buffer, a pointer into it is
    an offset or a slot; what a system call finds is an input, and its effect on
    the memory is the one its manual page documents.  The Linux side of each
    [cfg] is modelled.  Registering a descriptor with the reactor is an
    input. *)

From S2P Require Import Prelude RustStd External Instances RuleTypes Error NetFmt PubKey PeerState Canary ProxyProtocol Resolver UdpProxy.

(** The crate socket2: a socket address in the kernel's layout. *)
Class Socket2 := {
  sockaddr_bytes : Net.SocketAddr -> list byte;
  as_socket : list byte -> Z -> option Net.SocketAddr
}.

(** [size_of::<libc::sockaddr_storage>()]. *)
Definition SOCKADDR_STORAGE : nat := 128.

(** The numbers of a socket address have their widths. *)
Definition sock_ok (a : Net.SocketAddr) : Prop :=
  match a with
  | Net.V4 a => Net.sv4_port a ∈u 16
  | Net.V6 a => Net.sv6_port a ∈u 16 /\ Net.sv6_flowinfo a ∈u 32 /\ Net.sv6_scope_id a ∈u 32
  end.

(** An address fits the storage, and is read back from it whatever follows its
    bytes there. *)
Class Socket2Laws `{Socket2} : Prop := {
  sockaddr_fits a : (length (sockaddr_bytes a) <= SOCKADDR_STORAGE)%nat;
  as_socket_bytes a rest : sock_ok a -> as_socket (sockaddr_bytes a ++ rest) (zlen (sockaddr_bytes a)) = Some a
}.

Definition DEFAULT_BATCH : nat := 32.
Definition UPSTREAM_BATCH : nat := 16.
Definition MAX_DATAGRAM : nat := Z.to_nat 65535.
Definition EINTR_RETRIES : nat := 3.

Definition EPERM : Z := 1.
Definition EINTR : Z := 4.
Definition EAGAIN : Z := 11.
Definition ENOSYS : Z := 38.

(** An [io::Error] by its kind. *)
Inductive IoError := WouldBlock | Unsupported (errno : Z) | InvalidInput | OsError (errno : Z).

(** A run of a task: it finished, it waits for a socket, or it panicked. *)
Inductive run (A : Type) := Done (a : A) | Waiting | Panic.
Arguments Done {A} a.
Arguments Waiting {A}.
Arguments Panic {A}.

#[global] Instance run_ret : MRet run := @Done.
#[global] Instance run_bind : MBind run := fun _ _ f m =>
  match m with Done a => f a | Waiting => Waiting | Panic => Panic end.

(** [v[i]]. *)
Definition at_index {A} (l : list A) (i : nat) : run A := match l !! i with Some x => Done x | None => Panic end.

Definition assert_ (b : bool) : run unit := if b then Done tt else Panic.

(** [dst[off..off + src.len()].copy_from_slice(src)], in bounds. *)
Definition overwrite (off : nat) (src dst : list byte) : list byte := take off dst ++ src ++ drop (off + length src) dst.

(** A wake of the task: waiting failed, or the socket is ready for a call. *)
Inductive Wake (A : Type) := WakeError (e : IoError) | WakeReady (sys : nat -> result Z A).
Arguments WakeError {A} e.
Arguments WakeReady {A} sys.

(** ** The buffer *)

Record BatchBuf := mkBatchBuf {
  bb_storage : list byte;
  bb_lens : list Z;
  bb_addrs : list (list byte);
  bb_addr_lens : list Z;
  bb_batch : nat
}.

Definition sockaddr_storage_len : Z := Z.of_nat SOCKADDR_STORAGE.

Definition batch_new (batch : nat) : run BatchBuf :=
  assert_ (1 <=? batch)%nat ≫= fun _ =>
  Done (mkBatchBuf (replicate (batch * MAX_DATAGRAM) x00) (replicate batch 0) (replicate batch (replicate SOCKADDR_STORAGE x00))
          (replicate batch sockaddr_storage_len) batch).

(** [BatchScratch::with_batch]. *)
Definition with_batch (batch : nat) : run BatchBuf := batch_new (batch `max` 1).

Section Batch.
Context `{Socket2}.

Definition write_single (buf : BatchBuf) (payload : list byte) (from : Net.SocketAddr) : run BatchBuf :=
  let sa := sockaddr_bytes from in
  assert_ (length payload <=? MAX_DATAGRAM)%nat ≫= fun _ =>
  assert_ (length payload <=? length (bb_storage buf))%nat ≫= fun _ =>
  at_index (bb_lens buf) 0 ≫= fun _ =>
  at_index (bb_addrs buf) 0 ≫= fun addr =>
  assert_ (length sa <=? SOCKADDR_STORAGE)%nat ≫= fun _ =>
  at_index (bb_addr_lens buf) 0 ≫= fun _ =>
  Done (mkBatchBuf (overwrite 0 payload (bb_storage buf)) (<[0%nat := wrap 32 (zlen payload)]> (bb_lens buf))
          (<[0%nat := overwrite 0 sa addr]> (bb_addrs buf)) (<[0%nat := zlen sa]> (bb_addr_lens buf)) (bb_batch buf)).

Definition sockaddr_to_socket_addr (addr : list byte) (len : Z) : run Net.SocketAddr :=
  match as_socket addr len with Some a => Done a | None => Panic end.

Definition received_at (buf : BatchBuf) (i : nat) : run Datagram :=
  let start := (i * MAX_DATAGRAM)%nat in
  at_index (bb_lens buf) i ≫= fun len =>
  assert_ (start + Z.to_nat len <=? length (bb_storage buf))%nat ≫= fun _ =>
  at_index (bb_addrs buf) i ≫= fun addr =>
  at_index (bb_addr_lens buf) i ≫= fun alen =>
  sockaddr_to_socket_addr addr alen ≫= fun from =>
  Done (take (Z.to_nat len) (drop start (bb_storage buf)), from).

Fixpoint run_all {A B} (f : A -> run B) (l : list A) : run (list B) :=
  match l with
  | [] => Done []
  | x :: l => f x ≫= fun y => run_all f l ≫= fun ys => Done (y :: ys)
  end.

Definition iter_received (buf : BatchBuf) (n : nat) : run (list Datagram) := run_all (received_at buf) (seq 0 n).

(** ** [recvmmsg] *)

(** An [iovec] into the storage, and a header with one of them. *)
Record IoVec := mkIoVec { iov_base : nat; iov_len : nat }.
Record MmsgHdr := mkMmsg { msg_name : nat; msg_namelen : Z; msg_iov : IoVec; msg_len : Z }.

Definition prepare_header (buf : BatchBuf) (i : nat) : run MmsgHdr :=
  let off := (i * MAX_DATAGRAM)%nat in
  assert_ (off <=? length (bb_storage buf))%nat ≫= fun _ =>
  at_index (bb_addr_lens buf) i ≫= fun _ =>
  at_index (bb_addrs buf) i ≫= fun _ =>
  Done (mkMmsg i sockaddr_storage_len (mkIoVec off MAX_DATAGRAM) 0).

Definition reset_addr_lens (buf : BatchBuf) : BatchBuf :=
  mkBatchBuf (bb_storage buf) (bb_lens buf) (bb_addrs buf)
    (replicate (bb_batch buf) sockaddr_storage_len ++ drop (bb_batch buf) (bb_addr_lens buf)) (bb_batch buf).

Definition prepare_headers (buf : BatchBuf) : run (BatchBuf * list MmsgHdr) :=
  run_all (prepare_header buf) (seq 0 (bb_batch buf)) ≫= fun hs => Done (reset_addr_lens buf, hs).

(** What the kernel does with one datagram: the bytes that fit go to the
    window, the address to its slot, and the header gets both lengths. *)
Definition deliver_one (buf : BatchBuf) (h : MmsgHdr) (d : Datagram) : BatchBuf * MmsgHdr :=
  let bytes := take (iov_len (msg_iov h)) (fst d) in
  let name := sockaddr_bytes (snd d) in
  (mkBatchBuf (overwrite (iov_base (msg_iov h)) bytes (bb_storage buf)) (bb_lens buf)
     (alter (overwrite 0 (take (Z.to_nat (msg_namelen h)) name)) (msg_name h) (bb_addrs buf)) (bb_addr_lens buf) (bb_batch buf),
   mkMmsg (msg_name h) (zlen name) (msg_iov h) (zlen bytes)).

(** The queued datagrams fill the headers in order; the number of headers is
    the most one call takes. *)
Fixpoint deliver (buf : BatchBuf) (hs : list MmsgHdr) (queue : list Datagram) : BatchBuf * list MmsgHdr :=
  match hs, queue with
  | h :: hs, d :: queue =>
      let '(buf, h) := deliver_one buf h d in
      let '(buf, hs) := deliver buf hs queue in
      (buf, h :: hs)
  | _, _ => (buf, [])
  end.

Definition map_recvmmsg_error (errno : Z) : IoError :=
  if errno =? EAGAIN then WouldBlock
  else if (errno =? ENOSYS) || (errno =? EPERM) then Unsupported errno
  else OsError errno.

(** A loop over an interrupted call; [sys k] is what the [k]-th one
    returned. *)
Fixpoint retry_eintr {A} (retries k : nat) (sys : nat -> result Z A) : result IoError A :=
  match sys k with
  | Ok a => Ok a
  | Err errno =>
      match retries with
      | S retries => if errno =? EINTR then retry_eintr retries (S k) sys else Err (map_recvmmsg_error errno)
      | O => Err (map_recvmmsg_error errno)
      end
  end.

Definition recvmmsg_with_retry (sys : nat -> result Z (list Datagram)) (hs : list MmsgHdr) : result IoError (list Datagram) :=
  if u32_max <? zlen hs then Err InvalidInput else retry_eintr EINTR_RETRIES 0 sys.

(** The loop over the headers the kernel filled. *)
Definition store_lens (buf : BatchBuf) (hs : list MmsgHdr) : BatchBuf :=
  mkBatchBuf (bb_storage buf) ((msg_len <$> hs) ++ drop (length hs) (bb_lens buf)) (bb_addrs buf)
    ((msg_namelen <$> hs) ++ drop (length hs) (bb_addr_lens buf)) (bb_batch buf).

Definition recv_with_headers (sys : nat -> result Z (list Datagram)) (buf : BatchBuf) : run (BatchBuf * result IoError nat) :=
  prepare_headers buf ≫= fun '(buf, hs) =>
  match recvmmsg_with_retry sys hs with
  | Err e => Done (buf, Err e)
  | Ok queue =>
      let '(buf, hs) := deliver buf hs queue in
      assert_ (length hs <=? length (bb_lens buf))%nat ≫= fun _ =>
      Done (store_lens buf hs, Ok (length hs))
  end.

Fixpoint recv_batch (wakes : list (Wake (list Datagram))) (buf : BatchBuf) : run (BatchBuf * result IoError nat) :=
  match wakes with
  | [] => Waiting
  | WakeError e :: _ => Done (buf, Err e)
  | WakeReady sys :: wakes =>
      recv_with_headers sys buf ≫= fun '(buf, r) =>
      match r with
      | Err WouldBlock => recv_batch wakes buf
      | _ => Done (buf, r)
      end
  end.

(** ** The receiver of a worker *)

(** Whether the batched reader is in use. *)
Definition BatchRecv : Type := bool.

(** [registered]: the descriptor could be registered with the reactor. *)
Definition batch_recv_new (registered : bool) : BatchRecv := registered.

(** [recv_from] into a buffer of [MAX_DATAGRAM] bytes. *)
Definition recv_single (single : result IoError Datagram) (buf : BatchBuf) : run (BatchRecv * BatchBuf * result IoError nat) :=
  match single with
  | Err e => Done (false, buf, Err e)
  | Ok (bytes, from) => write_single buf (take MAX_DATAGRAM bytes) from ≫= fun buf => Done (false, buf, Ok 1%nat)
  end.

Definition batch_recv (r : BatchRecv) (wakes : list (Wake (list Datagram))) (single : result IoError Datagram) (buf : BatchBuf) :
    run (BatchRecv * BatchBuf * result IoError nat) :=
  if r then
    recv_batch wakes buf ≫= fun '(buf, res) =>
    match res with
    | Err (Unsupported _) => recv_single single buf
    | _ => Done (true, buf, res)
    end
  else recv_single single buf.

(** ** [sendmmsg] *)

(** A message on the wire: its bytes and where it goes. *)
Record SendHdr := mkSend { sh_payload : list byte; sh_name : list byte }.

Definition sendmmsg_with_retry (sys : nat -> result Z nat) (hs : list SendHdr) : result IoError (list SendHdr) :=
  if u32_max <? zlen hs then Err InvalidInput
  else
    match retry_eintr EINTR_RETRIES 0 sys with
    | Ok accepted => Ok (take accepted hs)
    | Err e => Err e
    end.

(** The messages the kernel took: the first ones. *)
Definition send_with_headers (sys : nat -> result Z nat) (payloads : list (list byte)) (addr : Net.SocketAddr) : result IoError (list SendHdr) :=
  sendmmsg_with_retry sys ((fun p => mkSend p (sockaddr_bytes addr)) <$> payloads).

Fixpoint send_ready (wakes : list (Wake nat)) (payloads : list (list byte)) (addr : Net.SocketAddr) : run (result IoError (list SendHdr)) :=
  match wakes with
  | [] => Waiting
  | WakeError e :: _ => Done (Err e)
  | WakeReady sys :: wakes =>
      match send_with_headers sys payloads addr with
      | Err WouldBlock => send_ready wakes payloads addr
      | r => Done r
      end
  end.

Definition send_batch (wakes : list (Wake nat)) (payloads : list (list byte)) (addr : Net.SocketAddr) : run (result IoError (list SendHdr)) :=
  match payloads with [] => Done (Ok []) | _ => send_ready wakes payloads addr end.

(** ** The return path of a flow *)

(** What goes to the client: a message of a [sendmmsg], or a [send_to] and
    whether it succeeded. *)
Inductive Send := InBatch (h : SendHdr) | SendTo (payload : list byte) (addr : Net.SocketAddr) (ok : bool).

Definition send_each (one : nat -> bool) (client : Net.SocketAddr) (payloads : list (list byte)) : list Send :=
  imap (fun k p => SendTo p client (one k)) payloads.

(** The sends of [upstream_batch_forward].  [sender]: the wakes of the batched
    sender, when there is one and it is for the flow's socket; [one k]: whether
    the [k]-th [send_to] succeeded. *)
Definition forward_sends (buf : BatchBuf) (n : nat) (sender : option (list (Wake nat))) (one : nat -> bool) (client : Net.SocketAddr) : run (list Send) :=
  iter_received buf n ≫= fun dgrams =>
  let payloads := fst <$> dgrams in
  match sender with
  | Some wakes =>
      send_batch wakes payloads client ≫= fun r =>
      match r with
      | Ok hs => Done ((InBatch <$> hs) ++ send_each one client (drop (length hs) payloads))
      | Err _ => Done (send_each one client payloads)
      end
  | None => Done (send_each one client payloads)
  end.

(** Each datagram with whether it went out, for the table of flows. *)
Definition send_outcome (s : Send) : list byte * bool :=
  match s with InBatch h => (sh_payload h, true) | SendTo p _ ok => (p, ok) end.

Definition total_bytes (sends : list Send) : Z :=
  foldr (fun s acc => let '(p, ok) := send_outcome s in if ok then zlen p + acc else acc) 0 sends.
Definition send_errs (sends : list Send) : nat := length (List.filter (fun s => negb (snd (send_outcome s))) sends).

(** One turn of [upstream_to_client_loop_batched]; [None] is the end of the
    flow. *)
Definition return_turn (buf : BatchBuf) (wakes : list (Wake (list Datagram))) (sender : option (list (Wake nat))) (one : nat -> bool)
    (client : Net.SocketAddr) : run (BatchBuf * option (list Send)) :=
  recv_batch wakes buf ≫= fun '(buf, r) =>
  match r with
  | Err _ => Done (buf, None)
  | Ok O => Done (buf, Some [])
  | Ok n => forward_sends buf n sender one client ≫= fun sends => Done (buf, Some sends)
  end.

End Batch.

(** ** What a batch holds *)

Lemma MAX_DATAGRAM_Z : Z.of_nat MAX_DATAGRAM = 65535.
Proof. unfold MAX_DATAGRAM. by rewrite Z2Nat.id. Qed.

#[local] Opaque MAX_DATAGRAM.

Module UdpBatchProps.
Section Props.
Context `{Socket2Laws}.

(** The lengths of the lists of a buffer. *)
Definition buf_wf (buf : BatchBuf) : Prop :=
  (1 <= bb_batch buf)%nat /\
  length (bb_storage buf) = (bb_batch buf * MAX_DATAGRAM)%nat /\
  length (bb_lens buf) = bb_batch buf /\
  length (bb_addrs buf) = bb_batch buf /\
  Forall (fun a => length a = SOCKADDR_STORAGE) (bb_addrs buf) /\
  length (bb_addr_lens buf) = bb_batch buf.

(** What a receiver sees of a datagram. *)
Definition truncated (d : Datagram) : Datagram := (take MAX_DATAGRAM (fst d), snd d).

(** The header of slot [i]. *)
Definition header (i : nat) : MmsgHdr := mkMmsg i sockaddr_storage_len (mkIoVec (i * MAX_DATAGRAM) MAX_DATAGRAM) 0.

(** Slot [i] of the memory holds a datagram, and its header says so. *)
Definition filled (buf : BatchBuf) (i : nat) (d : Datagram) (h : MmsgHdr) : Prop :=
  let bytes := take MAX_DATAGRAM (fst d) in
  take (length bytes) (drop (i * MAX_DATAGRAM) (bb_storage buf)) = bytes /\
  (exists rest, bb_addrs buf !! i = Some (sockaddr_bytes (snd d) ++ rest)) /\
  msg_len h = zlen bytes /\ msg_namelen h = zlen (sockaddr_bytes (snd d)).

Lemma length_overwrite off src dst : (off + length src <= length dst)%nat -> length (overwrite off src dst) = length dst.
Proof. intros ?. unfold overwrite. solve_len. Qed.

Lemma overwrite_before n off src dst : (n <= off <= length dst)%nat -> take n (overwrite off src dst) = take n dst.
Proof. intros ?. unfold overwrite. rewrite take_app_le by solve_len. rewrite take_take. f_equal. lia. Qed.

Lemma overwrite_read off src dst : (off <= length dst)%nat -> take (length src) (drop off (overwrite off src dst)) = src.
Proof.
  intros ?. unfold overwrite. rewrite drop_app_length' by solve_len. by rewrite take_app_length.
Qed.

(** A window below [N] depends only on the first [N] bytes. *)
Lemma window_agree N a l (s s' : list byte) : take N s' = take N s -> (a + l <= N)%nat -> take l (drop a s') = take l (drop a s).
Proof.
  intros Heq ?. rewrite !take_drop_commute.
  assert (Hs : forall x : list byte, take (a + l) x = take (a + l) (take N x)) by (intros x; rewrite take_take; f_equal; lia).
  by rewrite (Hs s'), (Hs s), Heq.
Qed.

Lemma run_all_done {A B} (f : A -> run B) l ys : Forall2 (fun x y => f x = Done y) l ys -> run_all f l = Done ys.
Proof. induction 1 as [|x y l ys Hx _ IH]; [done|]. cbn. rewrite Hx. cbn. by rewrite IH. Qed.

Lemma at_index_lt {A} (l : list A) i : (i < length l)%nat -> exists x, l !! i = Some x /\ at_index l i = Done x.
Proof. intros [x Hx]%lookup_lt_is_Some. exists x. unfold at_index. by rewrite Hx. Qed.

Lemma at_index_some {A} (l : list A) i x : l !! i = Some x -> at_index l i = Done x.
Proof. unfold at_index. by intros ->. Qed.

Lemma assert_ok b : b = true -> assert_ b = Done tt.
Proof. by intros ->. Qed.

Lemma slot_end i n : (i < n)%nat -> (i * MAX_DATAGRAM + MAX_DATAGRAM <= n * MAX_DATAGRAM)%nat.
Proof. intros ?. rewrite <- Nat.mul_succ_l. apply Nat.mul_le_mono_r. lia. Qed.

Lemma batch_new_wf batch : (1 <= batch)%nat -> exists buf, batch_new batch = Done buf /\ buf_wf buf /\ bb_batch buf = batch.
Proof.
  intros Hb. unfold batch_new. rewrite assert_ok by (by apply Nat.leb_le). cbn. eexists. split; [done|].
  unfold buf_wf; cbn [bb_storage bb_lens bb_addrs bb_addr_lens bb_batch]. rewrite !length_replicate.
  repeat split; try done. by apply Forall_replicate.
Qed.

(** ** Headers *)

Lemma prepare_headers_done buf : buf_wf buf -> prepare_headers buf = Done (reset_addr_lens buf, header <$> seq 0 (bb_batch buf)).
Proof.
  intros (_ & Hs & _ & Ha & _ & Hal). unfold prepare_headers.
  rewrite (run_all_done _ _ (header <$> seq 0 (bb_batch buf))); [done|].
  apply Forall2_fmap_r, Forall_Forall2_diag, Forall_seq. intros i [_ Hi]. cbn in Hi.
  pose proof (slot_end i _ Hi). unfold prepare_header.
  destruct (at_index_lt (bb_addr_lens buf) i ltac:(lia)) as (? & _ & ->).
  destruct (at_index_lt (bb_addrs buf) i ltac:(lia)) as (? & _ & ->).
  rewrite assert_ok by (apply Nat.leb_le; lia). done.
Qed.

Lemma reset_addr_lens_wf buf : buf_wf buf -> buf_wf (reset_addr_lens buf).
Proof.
  intros (? & ? & ? & ? & ? & Hal). unfold buf_wf, reset_addr_lens; cbn [bb_storage bb_lens bb_addrs bb_addr_lens bb_batch].
  repeat split; try done. solve_len.
Qed.

(** ** Delivery *)

Lemma deliver_one_wf buf i d : buf_wf buf -> (i < bb_batch buf)%nat -> buf_wf (fst (deliver_one buf (header i) d)).
Proof.
  intros (? & Hs & ? & Ha & Hf & ?) Hi. pose proof (slot_end i _ Hi). pose proof (sockaddr_fits (snd d)).
  unfold buf_wf, deliver_one; cbn [fst bb_storage bb_lens bb_addrs bb_addr_lens bb_batch header msg_iov iov_base iov_len msg_name msg_namelen].
  repeat split; try done.
  - rewrite length_overwrite; [done|]. rewrite length_take. lia.
  - by rewrite length_alter.
  - apply Forall_alter; [done|]. intros a Ha' Hl. rewrite length_overwrite; [done|]. rewrite length_take, Hl. unfold sockaddr_storage_len. lia.
Qed.

Lemma deliver_one_filled buf i d : buf_wf buf -> (i < bb_batch buf)%nat ->
  filled (fst (deliver_one buf (header i) d)) i d (snd (deliver_one buf (header i) d)).
Proof.
  intros (? & Hs & ? & Ha & Hf & ?) Hi. pose proof (slot_end i _ Hi). pose proof (sockaddr_fits (snd d)) as Hfit.
  unfold filled, deliver_one; cbn [fst snd bb_storage bb_addrs header msg_iov iov_base iov_len msg_name msg_namelen msg_len].
  repeat split; [apply overwrite_read; lia|].
  destruct (lookup_lt_is_Some_2 (bb_addrs buf) i ltac:(lia)) as [a Ha']. rewrite list_lookup_alter_eq, Ha'. cbn [fmap option_fmap option_map].
  rewrite (take_ge (sockaddr_bytes _)) by (unfold sockaddr_storage_len; lia). by eexists.
Qed.

(** The kernel fills slots [k], [k + 1], ... and leaves the ones below. *)
Record delivered (k : nat) (buf buf' : BatchBuf) (queue : list Datagram) (hs : list MmsgHdr) : Prop := {
  de_wf : buf_wf buf';
  de_batch : bb_batch buf' = bb_batch buf;
  de_below : take (k * MAX_DATAGRAM) (bb_storage buf') = take (k * MAX_DATAGRAM) (bb_storage buf);
  de_addrs : forall i, (i < k)%nat -> bb_addrs buf' !! i = bb_addrs buf !! i;
  de_filled : Forall2 (fun '(i, d) h => filled buf' i d h) (imap (fun j d => (k + j, d)%nat) queue) hs
}.

Lemma filled_below k buf buf' i d h :
  take (k * MAX_DATAGRAM) (bb_storage buf') = take (k * MAX_DATAGRAM) (bb_storage buf) ->
  bb_addrs buf' !! i = bb_addrs buf !! i -> (i < k)%nat -> filled buf i d h -> filled buf' i d h.
Proof.
  intros Hst Had Hi (Hw & Hr & Hrest). pose proof (slot_end i k Hi). unfold filled. rewrite Had. split; [|done].
  etransitivity; [|exact Hw]. eapply window_agree; [done|]. solve_len.
Qed.

Lemma deliver_seq m : forall k buf queue, buf_wf buf -> (k + m <= bb_batch buf)%nat ->
  delivered k buf (fst (deliver buf (header <$> seq k m) queue)) (take m queue) (snd (deliver buf (header <$> seq k m) queue)).
Proof.
  induction m as [|m IH]; intros k buf queue Hwf Hk; [by split|].
  destruct queue as [|d queue]; [by split|]. cbn [seq fmap list_fmap deliver take].
  pose proof (deliver_one_wf buf k d Hwf ltac:(lia)) as Hwf1.
  pose proof (deliver_one_filled buf k d Hwf ltac:(lia)) as Hfill.
  assert (Hb1 : bb_batch (fst (deliver_one buf (header k) d)) = bb_batch buf) by done.
  assert (Hst1 : take (k * MAX_DATAGRAM) (bb_storage (fst (deliver_one buf (header k) d))) = take (k * MAX_DATAGRAM) (bb_storage buf)).
  { cbn. apply overwrite_before. destruct Hwf as (_ & -> & _). pose proof (slot_end k (bb_batch buf)). lia. }
  assert (Had1 : forall i, (i < k)%nat -> bb_addrs (fst (deliver_one buf (header k) d)) !! i = bb_addrs buf !! i).
  { intros i ?. cbn. apply list_lookup_alter_ne. lia. }
  destruct (deliver_one buf (header k) d) as [buf1 h1]; cbn [fst snd] in *.
  specialize (IH (S k) buf1 queue Hwf1 ltac:(lia)).
  destruct (deliver buf1 (header <$> seq (S k) m) queue) as [buf2 hs]; cbn [fst snd] in *.
  destruct IH as [Hwf2 Hb2 Hbelow Haddrs Hf]. split; [done|congruence|..].
  - rewrite <- Hst1. apply (f_equal (take (k * MAX_DATAGRAM))) in Hbelow. rewrite !take_take in Hbelow.
    by rewrite Nat.min_l in Hbelow by lia.
  - intros i ?. rewrite Haddrs by lia. auto.
  - cbn [imap]. constructor; [|rewrite (imap_ext _ (fun j d => (S k + j, d)%nat)) by (intros; cbn; f_equal; lia); done].
    rewrite Nat.add_0_r. eapply filled_below; [exact Hbelow|apply Haddrs; lia|lia|done].
Qed.

(** ** Receiving *)

Lemma retry_eintr_ok {A} retries : forall k (sys : nat -> result Z A) a, retry_eintr retries k sys = Ok a ->
  exists j, (j <= retries)%nat /\ sys (k + j)%nat = Ok a /\ forall i, (i < j)%nat -> sys (k + i)%nat = Err EINTR.
Proof.
  induction retries as [|retries IH]; intros k sys a; cbn; destruct (sys k) as [x|errno] eqn:Hk; try done.
  1, 2: intros [= ->]; exists 0%nat; rewrite Nat.add_0_r; repeat split; [lia|done|lia].
  destruct (errno =? EINTR) eqn:He; [|done]. apply Z.eqb_eq in He as ->. intros (j & ? & Hj & Hbefore)%IH.
  exists (S j). rewrite <- Nat.add_succ_comm. repeat split; [lia|done|]. intros [|i] ?; [by rewrite Nat.add_0_r|].
  rewrite <- Nat.add_succ_comm. apply Hbefore. lia.
Qed.

(** A buffer whose slots were filled reads back as the datagrams. *)
Lemma received_at_filled buf i d h len alen :
  buf_wf buf -> (i < bb_batch buf)%nat -> sock_ok (snd d) -> filled buf i d h ->
  bb_lens buf !! i = Some len -> bb_addr_lens buf !! i = Some alen -> len = msg_len h -> alen = msg_namelen h ->
  received_at buf i = Done (truncated d).
Proof.
  intros (? & Hs & ? & Ha & ? & ?) Hi Hok (Hw & (rest & Hrest) & Hl & Hn) Hlen Halen -> ->.
  pose proof (slot_end i _ Hi). unfold received_at, sockaddr_to_socket_addr.
  rewrite (at_index_some _ _ _ Hlen), (at_index_some _ _ _ Hrest), (at_index_some _ _ _ Halen). cbn [mbind run_bind].
  rewrite Hl, Hn, as_socket_bytes by done. unfold zlen. rewrite Nat2Z.id.
  rewrite assert_ok by (apply Nat.leb_le; solve_len). cbn [mbind run_bind]. by rewrite Hw.
Qed.

Lemma filled_store buf hs i d h : filled buf i d h -> filled (store_lens buf hs) i d h.
Proof. done. Qed.

Lemma store_lens_wf buf hs : buf_wf buf -> (length hs <= bb_batch buf)%nat -> buf_wf (store_lens buf hs).
Proof.
  intros (? & ? & Hl & ? & ? & Hal) ?. unfold buf_wf, store_lens; cbn [bb_storage bb_lens bb_addrs bb_addr_lens bb_batch].
  repeat split; try done; solve_len.
Qed.

Lemma iter_stored buf queue hs :
  buf_wf buf -> (length hs <= bb_batch buf)%nat -> Forall (fun d => sock_ok (snd d)) queue ->
  Forall2 (fun '(i, d) h => filled buf i d h) (imap (fun j d => (0 + j, d)%nat) queue) hs ->
  iter_received (store_lens buf hs) (length hs) = Done (truncated <$> queue).
Proof.
  intros Hwf Hle Hok Hf. pose proof (Forall2_length _ _ _ Hf) as Hlen. rewrite length_imap in Hlen.
  apply run_all_done, Forall2_fmap_r, Forall2_same_length_lookup. rewrite length_seq. split; [done|].
  intros i j d [-> Hi]%lookup_seq Hd. cbn [Nat.add] in *.
  destruct (lookup_lt_is_Some_2 hs i Hi) as [h Hh].
  eapply (received_at_filled _ i d h (msg_len h) (msg_namelen h)); try done.
  - by apply store_lens_wf.
  - cbn. lia.
  - by eapply (Forall_lookup_1 _ _ _ _ Hok).
  - apply filled_store. eapply (Forall2_lookup_lr _ _ _ i (i, d) h) in Hf; [done| |done].
    rewrite list_lookup_imap, Hd. done.
  - cbn. rewrite lookup_app_l by solve_len. by rewrite list_lookup_fmap, Hh.
  - cbn. rewrite lookup_app_l by solve_len. by rewrite list_lookup_fmap, Hh.
Qed.

(** The call that ended a wake: [sys] was interrupted at most [EINTR_RETRIES]
    times before it found [queue]. *)
Definition call_found {A} (sys : nat -> result Z A) (queue : A) : Prop :=
  exists j, (j <= EINTR_RETRIES)%nat /\ sys j = Ok queue /\ forall i, (i < j)%nat -> sys i = Err EINTR.

(** A receive that returned [n]: the buffer holds the first datagrams of what
    the call found. *)
Definition holds (buf : BatchBuf) (n : nat) (queue : list Datagram) : Prop :=
  n = length (take (bb_batch buf) queue) /\ iter_received buf n = Done (truncated <$> take (bb_batch buf) queue).

(** The senders the kernel reports have addresses of their widths. *)
Definition call_ok (sys : nat -> result Z (list Datagram)) : Prop :=
  forall k queue, sys k = Ok queue -> Forall (fun d => sock_ok (snd d)) queue.
Definition wakes_ok (wakes : list (Wake (list Datagram))) : Prop :=
  Forall (fun w => match w with WakeReady sys => call_ok sys | WakeError _ => True end) wakes.

Lemma recv_with_headers_exact sys buf : buf_wf buf -> call_ok sys ->
  exists buf' r, recv_with_headers sys buf = Done (buf', r) /\ buf_wf buf' /\ bb_batch buf' = bb_batch buf /\
    (forall n, r = Ok n -> exists queue, call_found sys queue /\ holds buf' n queue) /\
    (forall e, r = Err e -> retry_eintr EINTR_RETRIES 0 sys = Err e \/ e = InvalidInput /\ u32_max < Z.of_nat (bb_batch buf)).
Proof.
  intros Hwf Hcall. unfold recv_with_headers, recvmmsg_with_retry. rewrite prepare_headers_done by done. cbn [mbind run_bind].
  pose proof (reset_addr_lens_wf _ Hwf) as Hwf0.
  destruct (u32_max <? zlen (header <$> seq 0 (bb_batch buf))) eqn:Hu.
  { exists (reset_addr_lens buf), (Err InvalidInput). split_and!; [done..|]. intros e [= <-]. right. split; [done|].
    apply Z.ltb_lt in Hu. solve_len. }
  destruct (retry_eintr EINTR_RETRIES 0 sys) as [queue|e] eqn:Hr; [|exists (reset_addr_lens buf), (Err e); split_and!; try done; intros e' [= <-]; by left].
  pose proof (deliver_seq (bb_batch buf) 0 (reset_addr_lens buf) queue Hwf0 ltac:(done)) as [Hwf1 Hb _ _ Hf].
  destruct (deliver _ _ _) as [buf1 hs]; cbn [fst snd] in *. cbn in Hb.
  pose proof (Forall2_length _ _ _ Hf) as Hlen. rewrite length_imap in Hlen.
  assert (Hle : (length hs <= bb_batch buf1)%nat) by (rewrite <- Hlen, length_take; lia).
  rewrite assert_ok by (apply Nat.leb_le; destruct Hwf1 as (_ & _ & -> & _); lia). cbn [mbind run_bind].
  eexists _, _. split; [done|]. split; [by apply store_lens_wf|]. split; [done|]. split; [|done].
  intros n [= <-]. exists queue. apply (retry_eintr_ok _ 0) in Hr as (j & Hj). split; [by exists j|]. unfold holds. cbn [bb_batch store_lens].
  rewrite Hb. split; [done|]. apply iter_stored; [done..| |done]. apply Forall_take. by apply (Hcall j), Hj.
Qed.

(** The call failed: with an error that is not an empty socket, and not an
    interruption unless the retries are used up. *)
Definition call_failed {A} (sys : nat -> result Z A) : Prop :=
  exists j errno, (j <= EINTR_RETRIES)%nat /\ sys j = Err errno /\ errno <> EAGAIN /\ (errno = EINTR -> j = EINTR_RETRIES) /\
    forall i, (i < j)%nat -> sys i = Err EINTR.

(** Waiting failed, or the call did. *)
Definition failed_wake {A} (w : Wake A) : Prop := match w with WakeError _ => True | WakeReady sys => call_failed sys end.

Lemma retry_eintr_err {A} retries : forall k (sys : nat -> result Z A) e, retry_eintr retries k sys = Err e -> e <> WouldBlock ->
  exists j errno, (j <= retries)%nat /\ sys (k + j)%nat = Err errno /\ errno <> EAGAIN /\ (errno = EINTR -> j = retries) /\
    forall i, (i < j)%nat -> sys (k + i)%nat = Err EINTR.
Proof.
  induction retries as [|retries IH]; intros k sys e; cbn; destruct (sys k) as [x|errno] eqn:Hk; try done.
  - intros [= <-] Hne. exists 0%nat, errno. rewrite Nat.add_0_r. split_and!; [lia|done| |done|lia].
    intros ->. by apply Hne.
  - destruct (errno =? EINTR) eqn:He.
    + intros Hr Hne. apply Z.eqb_eq in He as ->. destruct (IH _ _ _ Hr Hne) as (j & errno & ? & Hj & ? & ? & Hbefore).
      exists (S j), errno. rewrite <- Nat.add_succ_comm. split_and!; [lia|done|done|intros; f_equal; auto|].
      intros [|i] ?; [by rewrite Nat.add_0_r|]. rewrite <- Nat.add_succ_comm. apply Hbefore. lia.
    + intros [= <-] Hne. exists 0%nat, errno. rewrite Nat.add_0_r. split_and!; [lia|done| |intros ->; by rewrite Z.eqb_refl in He|lia].
      intros ->. by apply Hne.
Qed.

(** No wake of a list gave the task anything to return. *)
Definition idle_wake {A} (w : Wake A) : Prop :=
  match w with WakeReady sys => retry_eintr EINTR_RETRIES 0 sys = Err WouldBlock | WakeError _ => False end.

(** The first wake that was not idle decides. *)
Lemma recv_batch_exact wakes : wakes_ok wakes -> forall buf, buf_wf buf ->
  (Forall idle_wake wakes /\ recv_batch wakes buf = Waiting) \/
  exists buf' r pre w post, recv_batch wakes buf = Done (buf', r) /\ buf_wf buf' /\ bb_batch buf' = bb_batch buf /\
    wakes = pre ++ w :: post /\ Forall idle_wake pre /\
    (forall n, r = Ok n -> exists sys queue, w = WakeReady sys /\ call_found sys queue /\ holds buf' n queue) /\
    (forall e, r = Err e -> Z.of_nat (bb_batch buf) <= u32_max -> failed_wake w).
Proof.
  induction 1 as [|[e|sys] wakes Hcall Hwakes IH]; intros buf Hwf; cbn [recv_batch]; [by left|right; exists buf, (Err e), [], (WakeError e), wakes; by split_and!|].
  destruct (recv_with_headers_exact sys buf Hwf Hcall) as (buf1 & r & -> & Hwf1 & Hb & Hok & Herr). cbn [mbind run_bind].
  assert (r = Err WouldBlock \/
    (r <> Err WouldBlock /\ match r with Err WouldBlock => recv_batch wakes buf1 | _ => Done (buf1, r) end = Done (buf1, r))) as [-> | [Hne ->]]
    by (destruct r as [|[]]; auto).
  - assert (idle_wake (WakeReady sys)) as Hidle by (destruct (Herr WouldBlock eq_refl) as [?|[? _]]; done).
    destruct (IH buf1 Hwf1) as [[Hall ->]|(buf2 & r2 & pre & w & post & -> & Hwf2 & Hb2 & -> & Hpre & Hok2 & Herr2)]; [left|right].
    + split; [|done]. by constructor.
    + exists buf2, r2, (WakeReady sys :: pre), w, post. split_and!; [done|done|congruence|done|by constructor|done|].
      intros e He Hu. apply (Herr2 e He). by rewrite Hb.
  - right. exists buf1, r, [], (WakeReady sys), wakes. split_and!; [done..| |].
    + intros n (queue & Hq)%Hok. by exists sys, queue.
    + intros e -> Hu. destruct (Herr e eq_refl) as [Hr|[_ ?]]; [|lia].
      apply (retry_eintr_err _ 0) in Hr as (j & errno & Hj); [by exists j, errno|congruence].
Qed.

Lemma write_single_exact buf payload from : buf_wf buf -> (length payload <= MAX_DATAGRAM)%nat -> sock_ok from ->
  exists buf', write_single buf payload from = Done buf' /\ buf_wf buf' /\ bb_batch buf' = bb_batch buf /\
    iter_received buf' 1 = Done [(payload, from)].
Proof.
  intros Hwf Hp Hok. pose proof Hwf as (Hb & Hs & Hl & Ha & Hf & Hal). pose proof (slot_end 0 (bb_batch buf) ltac:(lia)) as Hend.
  pose proof (sockaddr_fits from) as Hfit. cbn [Nat.mul Nat.add] in Hend. unfold write_single.
  destruct (at_index_lt (bb_lens buf) 0 ltac:(lia)) as (? & _ & ->).
  destruct (at_index_lt (bb_addrs buf) 0 ltac:(lia)) as (addr & Haddr & ->).
  destruct (at_index_lt (bb_addr_lens buf) 0 ltac:(lia)) as (? & _ & ->).
  rewrite !assert_ok by (apply Nat.leb_le; lia). cbn [mbind run_bind].
  rewrite wrap_small by (unfold fits, zlen; pose proof MAX_DATAGRAM_Z; lia).
  pose proof (Forall_lookup_1 _ _ _ _ Hf Haddr) as Hlen. cbn in Hlen.
  match goal with |- exists buf', Done ?b = _ /\ _ => assert (Hwf' : buf_wf b) end.
  { unfold buf_wf; cbn [bb_storage bb_lens bb_addrs bb_addr_lens bb_batch]. rewrite !length_insert.
    split_and!; try done; [rewrite length_overwrite; [done|lia]|]. apply Forall_insert; [done|].
    rewrite length_overwrite; lia. }
  eexists. split_and!; [done|exact Hwf'|done|].
  unfold iter_received. cbn [seq]. apply run_all_done. constructor; [|done].
  replace (payload, from) with (truncated (payload, from)) by (unfold truncated; cbn; by rewrite take_ge by lia).
  eapply (received_at_filled _ 0 (payload, from) (mkMmsg 0 (zlen (sockaddr_bytes from)) (mkIoVec 0 MAX_DATAGRAM) (zlen payload)));
    [done|cbn; lia|done| |cbn; by rewrite list_lookup_insert_eq by lia..|done|done].
  unfold filled. cbn [fst snd bb_storage bb_addrs msg_len msg_namelen]. rewrite (take_ge payload) by lia. split_and!; [|eexists|done..].
  - rewrite Nat.mul_0_l. apply overwrite_read. lia.
  - rewrite list_lookup_insert_eq by lia. unfold overwrite. by rewrite take_0.
Qed.

(** What a batch the kernel is handed points at: header [i] at slot [i], every
    window inside the storage and before the next one, every address slot as
    long as the header says. *)
Definition headers_in_bounds (buf : BatchBuf) (hs : list MmsgHdr) : Prop :=
  forall i h, hs !! i = Some h ->
    msg_name h = i /\ (iov_base (msg_iov h) + iov_len (msg_iov h) <= length (bb_storage buf))%nat /\
    (exists a, bb_addrs buf !! i = Some a /\ zlen a = msg_namelen h) /\
    forall j h', hs !! j = Some h' -> (i < j)%nat -> (iov_base (msg_iov h) + iov_len (msg_iov h) <= iov_base (msg_iov h'))%nat.

Lemma header_lookup n i h : (header <$> seq 0 n) !! i = Some h -> h = header i /\ (i < n)%nat.
Proof. rewrite list_lookup_fmap. intros (j & [-> ?]%lookup_seq & ->)%fmap_Some. done. Qed.

Lemma prepared_in_bounds buf : buf_wf buf -> headers_in_bounds buf (header <$> seq 0 (bb_batch buf)).
Proof.
  intros (_ & Hs & _ & Ha & Hf & _) i h [-> Hi]%header_lookup. pose proof (slot_end i _ Hi). cbn. split_and!; [done|lia| |].
  - destruct (lookup_lt_is_Some_2 (bb_addrs buf) i ltac:(lia)) as [a Ha']. exists a. split; [done|].
    unfold zlen. by rewrite (Forall_lookup_1 _ _ _ _ Hf Ha').
  - intros j h' [-> _]%header_lookup Hij. by apply slot_end.
Qed.

(** Where the datagrams of a receive came from: the call of one of the wakes,
    or [recv_from]. *)
Definition came_from (wakes : list (Wake (list Datagram))) (single : result IoError Datagram) (batch : nat) (batched : bool) (ds : list Datagram) : Prop :=
  if batched then exists sys queue, WakeReady sys ∈ wakes /\ call_found sys queue /\ ds = take batch queue
  else exists d, single = Ok d /\ ds = [d].

Definition single_ok (single : result IoError Datagram) : Prop := match single with Ok d => sock_ok (snd d) | Err _ => True end.

Lemma recv_single_exact single buf : buf_wf buf -> single_ok single ->
  exists buf' res, recv_single single buf = Done (false, buf', res) /\ buf_wf buf' /\ bb_batch buf' = bb_batch buf /\
    forall n, res = Ok n -> exists d, single = Ok d /\ n = 1%nat /\ iter_received buf' n = Done [truncated d].
Proof.
  intros Hwf Hok. destruct single as [[bytes from]|e]; cbn [recv_single]; [|exists buf, (Err e); by split_and!].
  destruct (write_single_exact buf (take MAX_DATAGRAM bytes) from) as (buf' & -> & ? & ? & Hit); [done|rewrite length_take; lia|done|].
  exists buf', (Ok 1%nat). split_and!; [done..|]. intros n [= <-]. by exists (bytes, from).
Qed.

(** C23: A worker's receive is memory safe and exact.  The headers handed to
    [recvmmsg] point at disjoint windows inside the buffer; the receive never
    panics and waits only while the socket has nothing to read; whatever the
    buffer held before, what is read back after it returns [n] is the [n]
    datagrams that one call delivered, in order, each with its sender and cut
    at [MAX_DATAGRAM], interrupted calls being repeated at most three times;
    once the batched call is unsupported the worker stays with single
    receives. *)
Theorem batch_recv_exact r wakes single buf : buf_wf buf -> wakes_ok wakes -> single_ok single ->
  (exists hs, prepare_headers buf = Done (reset_addr_lens buf, hs) /\ length hs = bb_batch buf /\ headers_in_bounds buf hs) /\
  ((r = true /\ Forall idle_wake wakes /\ batch_recv r wakes single buf = Waiting) \/
   exists r' buf' res, batch_recv r wakes single buf = Done (r', buf', res) /\ buf_wf buf' /\ bb_batch buf' = bb_batch buf /\
     (r = false -> r' = false) /\
     forall n, res = Ok n -> exists ds, came_from wakes single (bb_batch buf) r' ds /\ n = length ds /\ (n <= bb_batch buf)%nat /\
       iter_received buf' n = Done (truncated <$> ds)).
Proof.
  intros Hwf Hwakes Hsingle. split.
  { eexists. rewrite prepare_headers_done by done. split; [done|]. split; [by rewrite length_fmap, length_seq|].
    by apply prepared_in_bounds. }
  assert (Hone : forall buf0, buf_wf buf0 -> bb_batch buf0 = bb_batch buf -> exists buf' res,
    recv_single single buf0 = Done (false, buf', res) /\ buf_wf buf' /\ bb_batch buf' = bb_batch buf /\
    forall n, res = Ok n -> exists ds, came_from wakes single (bb_batch buf) false ds /\ n = length ds /\ (n <= bb_batch buf)%nat /\
       iter_received buf' n = Done (truncated <$> ds)).
  { intros buf0 Hwf0 Hb0. destruct (recv_single_exact single buf0 Hwf0 Hsingle) as (buf' & res & -> & ? & ? & Hn).
    exists buf', res. split_and!; [done..|congruence|]. intros n (d & ? & -> & ?)%Hn. exists [d].
    split_and!; [by exists d|done|by apply Hwf|done]. }
  destruct r; cbn [batch_recv].
  2: { right. destruct (Hone buf Hwf eq_refl) as (buf' & res & -> & ? & ? & ?). exists false, buf', res. by split_and!. }
  destruct (recv_batch_exact wakes Hwakes buf Hwf) as [[? ->]|(buf1 & res & pre & w & post & -> & Hwf1 & Hb1 & Hsplit & _ & Hn & _)]; [by left|right].
  cbn [mbind run_bind].
  assert ((exists errno, res = Err (Unsupported errno)) \/
    match res with Err (Unsupported _) => recv_single single buf1 | _ => Done (true, buf1, res) end = Done (true, buf1, res))
    as [[errno ->]| ->] by (destruct res as [|[]]; eauto).
  - destruct (Hone buf1 Hwf1 Hb1) as (buf' & res & -> & ? & ? & ?). exists false, buf', res. by split_and!.
  - exists true, buf1, res. split_and!; [done..|]. intros n (sys & queue & -> & ? & Hlen & Hit)%Hn. rewrite Hb1 in *.
    exists (take (bb_batch buf) queue). split_and!; [exists sys, queue; split_and!; [rewrite Hsplit; set_solver|done..]|done|rewrite Hlen, length_take; lia|done].
Qed.

(** ** Forwarding to the client *)

Definition sent_payload (s : Send) : list byte := fst (send_outcome s).

Definition goes_to (client : Net.SocketAddr) (s : Send) : Prop :=
  match s with InBatch h => sh_name h = sockaddr_bytes client | SendTo _ a _ => a = client end.

(** The sends are the payloads, in order, to the client, and fail only where a
    [send_to] did. *)
Record sends_exact (one : nat -> bool) (client : Net.SocketAddr) (payloads : list (list byte)) (sends : list Send) : Prop := {
  se_payloads : sent_payload <$> sends = payloads;
  se_client : Forall (goes_to client) sends;
  se_ok : (forall k, one k = true) -> Forall (fun s => snd (send_outcome s) = true) sends
}.

Lemma send_each_exact one client payloads : sends_exact one client payloads (send_each one client payloads).
Proof.
  unfold send_each. split.
  - apply list_eq. intros i. rewrite list_lookup_fmap, list_lookup_imap. by destruct (payloads !! i).
  - apply Forall_lookup_2. intros i s. rewrite list_lookup_imap. by intros (p & _ & ->)%fmap_Some.
  - intros Hone. apply Forall_lookup_2. intros i s. rewrite list_lookup_imap. intros (p & _ & ->)%fmap_Some. apply Hone.
Qed.

Lemma sends_exact_app one client p1 p2 s1 s2 :
  sends_exact one client p1 s1 -> sends_exact one client p2 s2 -> sends_exact one client (p1 ++ p2) (s1 ++ s2).
Proof.
  intros [Hp1 Hc1 Ho1] [Hp2 Hc2 Ho2]. split; [by rewrite fmap_app, Hp1, Hp2|by apply Forall_app|].
  intros ?. apply Forall_app. auto.
Qed.

(** The kernel took a prefix of the batch. *)
Lemma send_ready_prefix wakes payloads addr :
  (Forall idle_wake wakes /\ send_ready wakes payloads addr = Waiting) \/
  (exists e, send_ready wakes payloads addr = Done (Err e)) \/
  exists n, send_ready wakes payloads addr = Done (Ok (take n ((fun p => mkSend p (sockaddr_bytes addr)) <$> payloads))).
Proof.
  induction wakes as [|[e|sys] wakes IH]; cbn [send_ready]; [by left|right; left; by exists e|].
  unfold send_with_headers, sendmmsg_with_retry. destruct (u32_max <? _); [right; left; by eexists|].
  destruct (retry_eintr EINTR_RETRIES 0 sys) as [n|e] eqn:Hr; [right; right; by exists n|].
  destruct e; [|right; left; by eexists..]. destruct IH as [[? ?]|IH]; [left|by right]. split; [|done]. by constructor.
Qed.

Lemma take_drop_prefix {A} n (l : list A) : take n l ++ drop (length (take n l)) l = l.
Proof.
  rewrite length_take. destruct (decide (n <= length l)%nat).
  - rewrite Nat.min_l by lia. apply take_drop.
  - rewrite Nat.min_r, drop_all, take_ge by lia. apply app_nil_r.
Qed.

Lemma batch_prefix_exact one addr n payloads :
  let hs := take n ((fun p => mkSend p (sockaddr_bytes addr)) <$> payloads) in
  sends_exact one addr payloads ((InBatch <$> hs) ++ send_each one addr (drop (length hs) payloads)).
Proof.
  cbn zeta. rewrite <- fmap_take, length_fmap. rewrite <- (take_drop_prefix n payloads) at 1.
  apply sends_exact_app; [|apply send_each_exact]. induction (take n payloads) as [|p l [IHp IHc IHo]]; [by split|].
  split; [cbn; by f_equal|by constructor|constructor; [done|by apply IHo]].
Qed.

(** Some wake of the batched sender is missing: the frontend takes nothing. *)
Definition sender_idle (sender : option (list (Wake nat))) : Prop :=
  match sender with Some wakes => Forall idle_wake wakes | None => False end.

Lemma forward_sends_exact buf n sender one client ds :
  iter_received buf n = Done ds ->
  (sender_idle sender /\ forward_sends buf n sender one client = Waiting) \/
  exists sends, forward_sends buf n sender one client = Done sends /\ sends_exact one client (fst <$> ds) sends.
Proof.
  intros Hit. unfold forward_sends. rewrite Hit. cbn [mbind run_bind].
  destruct sender as [wakes|]; [|right; eexists; split; [done|apply send_each_exact]].
  unfold send_batch. destruct (fst <$> ds) as [|p ps] eqn:Hps; [right; eexists; split; [done|by split]|].
  destruct (send_ready_prefix wakes (p :: ps) client) as [[? ->]|[[e ->]|[k ->]]]; [by left|right; eexists; split; [done|]..].
  - apply send_each_exact.
  - apply batch_prefix_exact.
Qed.

(** The outputs of the flow table for sends that all went out. *)
Lemma forward_outputs cfg t w now one client payloads sends :
  sends_exact one client payloads sends -> (forall k, one k = true) ->
  snd (upstream_batch_forward cfg t w (send_outcome <$> sends) now) = ToClient (tk_worker t) (tk_client t) <$> payloads.
Proof.
  intros [<- _ Ho] Hone. specialize (Ho Hone). cbn [snd upstream_batch_forward].
  induction Ho as [|s sends Hs _ IH]; [done|]. cbn. unfold sent_payload at 1. destruct (send_outcome s) as [p ok]. cbn in Hs |- *.
  rewrite Hs. by f_equal.
Qed.


(** Where [recvmmsg] is forbidden the workers go on with single receives, but
    the return loop of a flow ends at its first datagram. *)
Lemma unsupported_ends_flow buf sender one client d errno :
  buf_wf buf -> sock_ok (snd d) -> errno = ENOSYS \/ errno = EPERM ->
  Z.of_nat (bb_batch buf) <= u32_max ->
  let wakes := [WakeReady (fun _ => Err errno)] in
  (exists buf', return_turn buf wakes sender one client = Done (buf', None)) /\
  (exists buf', batch_recv true wakes (Ok d) buf = Done (false, buf', Ok 1%nat) /\ iter_received buf' 1 = Done [truncated d]).
Proof.
  intros Hwf Hd Herr Hb wakes.
  assert (Hrecv : recv_batch wakes buf = Done (reset_addr_lens buf, Err (Unsupported errno))).
  { cbn [recv_batch wakes]. unfold recv_with_headers, recvmmsg_with_retry. rewrite prepare_headers_done by done. cbn [mbind run_bind].
    replace (u32_max <? _) with false by (symmetry; apply Z.ltb_ge; unfold zlen; by rewrite length_fmap, length_seq).
    by destruct Herr as [-> | ->]. }
  unfold return_turn, batch_recv. rewrite Hrecv. cbn [mbind run_bind]. split; [by eexists|].
  destruct (recv_single_exact (Ok d) (reset_addr_lens buf)) as (buf' & res & Heq & _ & _ & Hn); [by apply reset_addr_lens_wf|done|].
  rewrite Heq. destruct d as [bytes from]. cbn [recv_single] in Heq.
  destruct (write_single _ _ _); cbn in Heq; [|done..]. injection Heq as <- <-.
  destruct (Hn 1%nat eq_refl) as (d & [= <-] & _ & Hit). by eexists.
Qed.

End Props.

(** ** Concrete runs *)

(** The layout of a big-endian host. *)
Definition octets4 (a : Net.Ipv4Addr) : list byte := [Net.v4_a a; Net.v4_b a; Net.v4_c a; Net.v4_d a].

Definition demo_sockaddr_bytes (a : Net.SocketAddr) : list byte :=
  match a with
  | Net.V4 (Net.mkSockV4 ip port) => [x00; x02] ++ to_be 2 port ++ octets4 ip ++ replicate 8 x00
  | Net.V6 (Net.mkSockV6 (Net.mkIpv6 q0 q1 q2 q3) port flow scope) =>
      [x00; x0a] ++ to_be 2 port ++ to_be 4 flow ++ octets4 q0 ++ octets4 q1 ++ octets4 q2 ++ octets4 q3 ++ to_be 4 scope
  end.

Definition quad (l : list byte) : Net.Ipv4Addr :=
  match l with a :: b :: c :: d :: _ => Net.mkIpv4 a b c d | _ => Net.mkIpv4 x00 x00 x00 x00 end.

Definition field (l : list byte) (off n : nat) : list byte := take n (drop off l).

Definition demo_as_socket (l : list byte) (len : Z) : option Net.SocketAddr :=
  if decide (field l 0 2 = [x00; x02] /\ len = 16) then Some (Net.V4 (Net.mkSockV4 (quad (field l 4 4)) (from_be (field l 2 2))))
  else if decide (field l 0 2 = [x00; x0a] /\ len = 28) then
    Some (Net.V6 (Net.mkSockV6 (Net.mkIpv6 (quad (field l 8 4)) (quad (field l 12 4)) (quad (field l 16 4)) (quad (field l 20 4)))
                   (from_be (field l 2 2)) (from_be (field l 4 4)) (from_be (field l 24 4))))
  else None.

#[local] Instance demo_socket2 : Socket2 := {| sockaddr_bytes := demo_sockaddr_bytes; as_socket := demo_as_socket |}.

#[local] Instance demo_socket2_laws : Socket2Laws.
Proof.
  split.
  - intros [[ip port]|[[q0 q1 q2 q3] port flow scope]]; cbn; unfold SOCKADDR_STORAGE; lia.
  - intros [[[a b c d] port]|[[[] [] [] []] port flow scope]] rest Hok; cbn [sock_ok Net.sv4_port Net.sv6_port Net.sv6_flowinfo Net.sv6_scope_id] in Hok.
    + change (Some (Net.V4 (Net.mkSockV4 (Net.mkIpv4 a b c d) (from_be (to_be 2 port)))) = Some (Net.V4 (Net.mkSockV4 (Net.mkIpv4 a b c d) port))).
      by rewrite from_to_be.
    + destruct Hok as (Hp & Hf & Hs).
      match goal with |- _ = Some (Net.V6 (Net.mkSockV6 ?ip _ _ _)) =>
        transitivity (Some (Net.V6 (Net.mkSockV6 ip (from_be (to_be 2 port)) (from_be (to_be 4 flow)) (from_be (to_be 4 scope)))))
      end; [reflexivity|]. by rewrite !from_to_be.
Qed.

Definition demo_client : Net.SocketAddr := Net.V4 (Net.mkSockV4 (Net.mkIpv4 x0a x00 x00 x07) 5000).
Definition demo_peer : Net.SocketAddr := Net.V4 (Net.mkSockV4 (Net.mkIpv4 x0a x00 x00 x01) 53).

(** A call interrupted twice, then two datagrams. *)
Definition demo_wakes : list (Wake (list Datagram)) :=
  [WakeReady (fun _ => Err EAGAIN);
   WakeReady (fun k => if (k <? 2)%nat then Err EINTR else Ok [([x01; x02], demo_peer); ([x03], demo_peer)])].

Lemma demo_wakes_ok : wakes_ok demo_wakes.
Proof.
  repeat constructor; intros k queue; [done|]. destruct (k <? 2)%nat; [done|]. intros [= <-].
  repeat constructor; done.
Qed.

Lemma batch_recv_exact_witness : exists buf, batch_new 2 = Done buf /\ wakes_ok demo_wakes /\
  batch_recv true demo_wakes (Err (OsError 5)) buf <> Panic.
Proof.
  destruct (batch_new_wf 2 ltac:(lia)) as (buf & Hnew & Hwf & Hb). exists buf. split; [exact Hnew|]. split; [exact demo_wakes_ok|].
  pose proof (batch_recv_exact true demo_wakes (Err (OsError 5)) buf Hwf demo_wakes_ok I) as [_ [(_ & _ & ->)|(r' & buf' & res & -> & _)]];
    discriminate.
Defined.

(** The second wake is the first that counts, and its call finds the queue. *)
Lemma demo_call pre w post : demo_wakes = pre ++ w :: post -> Forall idle_wake pre ->
  ~ failed_wake w /\ forall sys queue, w = WakeReady sys -> call_found sys queue -> queue = [([x01; x02], demo_peer); ([x03], demo_peer)].
Proof.
  unfold demo_wakes. destruct pre as [|w1 [|w2 pre]]; cbn; intros Hw Hpre.
  - injection Hw as <- _. split; [by intros (j & errno & _ & [= <-] & ? & _)|]. intros sys queue [= <-] (j & _ & Hj & _). done.
  - injection Hw as <- <- _. split.
    + intros (j & errno & Hle & Hj & Hne & Hlast & Hbefore). destruct j as [|[|[|j]]]; cbn in Hj.
      * injection Hj as <-. by specialize (Hlast eq_refl).
      * injection Hj as <-. by specialize (Hlast eq_refl).
      * done.
      * by specialize (Hbefore 2%nat ltac:(lia)).
    + intros sys queue [= <-] (j & _ & Hj & _). cbv beta in Hj. destruct (j <=? 1)%nat; [done|]. by injection Hj as <-.
  - injection Hw as _ <- Hw. by destruct pre.
Qed.


End UdpBatchProps.
