(* ===== verification/Interpose.v ===== *)
(** * The PROXY-v2 interpose socket of HTTP/3 ([yggdrasil/src/proxy/h3_interpose.rs])

    What the inner socket's [poll_recv] answers is the input of a poll: nothing
    yet, an error, or a batch written into the caller's buffers.  The batch is
    compacted in place.  [None] is a slice index out of range, which panics. *)

From S2P Require Import Prelude RustStd External Instances RuleTypes NetFmt ProxyProtocol.

Definition MAP_TTL : Z := Time.from_secs 30.

Record MapEntry := mkMapEntry { real_client : Net.SocketAddr; last_seen : Z }.
Notation InterposeMap := (gmap Net.SocketAddr MapEntry).

Definition map_upsert (m : InterposeMap) (relay_peer client : Net.SocketAddr) (now : Z) : InterposeMap :=
  <[relay_peer := mkMapEntry client now]> m.

Definition map_lookup (m : InterposeMap) (relay_peer : Net.SocketAddr) (now : Z) : option Net.SocketAddr :=
  entry ← m !! relay_peer;
  if MAP_TTL <? Z.max 0 (now - last_seen entry) then None else Some (real_client entry).

Definition map_reap (m : InterposeMap) (now : Z) : InterposeMap :=
  filter (fun x => Z.max 0 (now - last_seen (snd x)) <= MAP_TTL) m.

(** The source of what a buffer holds, its length, and the length of each of the
    datagrams the kernel coalesced in it.  The code does not look at the
    [stride]: a buffer is decoded, kept or dropped as a whole. *)
Record RecvMeta := mkMeta { rm_addr : Net.SocketAddr; rm_len : nat; stride : nat }.

(** [&buf[..len]] and [buf[..len].copy_from_slice(src)]. *)
Definition slice_to (buf : list byte) (len : nat) : option (list byte) :=
  if (len <=? length buf)%nat then Some (firstn len buf) else None.
Definition copy_into (buf : list byte) (len : nat) (src : list byte) : option (list byte) :=
  if (len <=? length buf)%nat then Some (src ++ skipn len buf) else None.

Record Walk := mkWalk { wk_bufs : list (list byte); wk_meta : list RecvMeta; wk_map : InterposeMap; wk_write : nat }.

(** One iteration of the loop over the batch, at [read_idx]. *)
Definition walk_one (now : nat -> Z) (read_idx : nat) (s : Walk) : option Walk :=
  m ← wk_meta s !! read_idx;
  buf ← wk_bufs s !! read_idx;
  datagram ← slice_to buf (rm_len m);
  match decode_v2_from_datagram datagram with
  | Some e => Some (mkWalk (wk_bufs s) (wk_meta s) (map_upsert (wk_map s) (rm_addr m) (ep_client e) (now read_idx)) (wk_write s))
  | None =>
      if bool_decide (read_idx = wk_write s)
      then Some (mkWalk (wk_bufs s) (wk_meta s) (wk_map s) (S (wk_write s)))
      else
        dst ← wk_bufs s !! wk_write s;
        dst ← copy_into dst (rm_len m) datagram;
        _ ← wk_meta s !! wk_write s;
        Some (mkWalk (<[wk_write s := dst]> (wk_bufs s)) (<[wk_write s := m]> (wk_meta s)) (wk_map s) (S (wk_write s)))
  end.

Fixpoint walk (now : nat -> Z) (read_idx todo : nat) (s : Walk) : option Walk :=
  match todo with
  | O => Some s
  | S todo => s ← walk_one now read_idx s; walk now (S read_idx) todo s
  end.

Inductive InnerPoll :=
  | InnerPending
  | InnerError
  | InnerBatch (bufs : list (list byte)) (meta : list RecvMeta) (n : nat) (now : nat -> Z).

Inductive PollRecv :=
  | RecvPending (m : InterposeMap)
  | RecvError (m : InterposeMap)
  | RecvReady (n : nat) (bufs : list (list byte)) (meta : list RecvMeta) (m : InterposeMap).

(** [poll_recv]; the inner socket answers the polls in turn.  [Ok None] needs a
    further answer. *)
Fixpoint poll_recv (map : InterposeMap) (polls : list InnerPoll) : option (option PollRecv) :=
  match polls with
  | [] => Some None
  | InnerPending :: _ => Some (Some (RecvPending map))
  | InnerError :: _ => Some (Some (RecvError map))
  | InnerBatch bufs meta n now :: polls =>
      if bool_decide (n = 0%nat) then Some (Some (RecvReady 0 bufs meta map))
      else
        s ← walk now 0 n (mkWalk bufs meta map 0);
        if (0 <? wk_write s)%nat then Some (Some (RecvReady (wk_write s) (wk_bufs s) (wk_meta s) (wk_map s)))
        else poll_recv (wk_map s) polls
  end.

(** ** The batch as datagrams *)

Definition Received : Type := list byte * RecvMeta.

(** What the first [n] buffers hold. *)
Definition received (bufs : list (list byte)) (meta : list RecvMeta) (n : nat) : list Received :=
  (fun '(buf, m) => (firstn (rm_len m) buf, m)) <$> firstn n (zip bufs meta).

Definition is_header (d : Received) : bool := bool_decide (is_Some (decode_v2_from_datagram (fst d))).

(** Reference: the headers update the map in order. *)
Definition record_headers (map : InterposeMap) (ds : list (Received * Z)) : InterposeMap :=
  foldl (fun m '(d, now) => match decode_v2_from_datagram (fst d) with
                            | Some e => map_upsert m (rm_addr (snd d)) (ep_client e) now
                            | None => m
                            end) map ds.

(** The buffers are of one size, and hold what their metas say. *)
Definition batch_ok (cap : nat) (bufs : list (list byte)) (meta : list RecvMeta) (n : nat) : Prop :=
  Forall (fun b => length b = cap) bufs /\ Forall (fun m => (rm_len m <= cap)%nat) meta /\
  (n <= length bufs)%nat /\ (n <= length meta)%nat.

(** ** Lemmas *)

Lemma received_lookup bufs meta n i buf m : (i < n)%nat -> bufs !! i = Some buf -> meta !! i = Some m ->
  received bufs meta n !! i = Some (firstn (rm_len m) buf, m).
Proof.
  intros Hi Hb Hm. unfold received. rewrite list_lookup_fmap, lookup_take_lt by done.
  assert (zip bufs meta !! i = Some (buf, m)) as -> by (apply lookup_zip_Some; done). done.
Qed.

Lemma length_received bufs meta n : (n <= length bufs)%nat -> (n <= length meta)%nat -> length (received bufs meta n) = n.
Proof. intros. unfold received. rewrite length_fmap, length_take, length_zip. lia. Qed.

(** The walk: what is written so far is the filtered prefix, the rest of the
    batch is untouched. *)
Record walked (cap : nat) (bufs0 : list (list byte)) (meta0 : list RecvMeta) (map0 : InterposeMap) (now : nat -> Z) (n r : nat) (s : Walk) : Prop := {
  wd_ok : batch_ok cap (wk_bufs s) (wk_meta s) n;
  wd_write : (wk_write s <= r)%nat;
  wd_front : received (wk_bufs s) (wk_meta s) (wk_write s) = filter (fun d => is_header d = false) (firstn r (received bufs0 meta0 n));
  wd_rest : forall i, (r <= i)%nat -> wk_bufs s !! i = bufs0 !! i /\ wk_meta s !! i = meta0 !! i;
  wd_map : wk_map s = record_headers map0 (imap (fun i d => (d, now i)) (firstn r (received bufs0 meta0 n)))
}.

Lemma received_S bufs meta w buf m : bufs !! w = Some buf -> meta !! w = Some m ->
  received bufs meta (S w) = received bufs meta w ++ [(firstn (rm_len m) buf, m)].
Proof.
  intros Hb Hm. unfold received. erewrite take_S_r by (by apply lookup_zip_Some). by rewrite fmap_app.
Qed.

Lemma received_insert bufs meta w b m : received (<[w := b]> bufs) (<[w := m]> meta) w = received bufs meta w.
Proof.
  unfold received. f_equal. apply list_eq. intros i. destruct (decide (i < w)%nat) as [Hi|Hi].
  - rewrite !lookup_take_lt by done. apply option_eq. intros [b' m']. rewrite !lookup_zip_Some. cbn.
    by rewrite !list_lookup_insert_ne by lia.
  - by rewrite !lookup_take_ge by lia.
Qed.

(** The datagram at [r], and how it extends the walked prefix. *)
Record at_read (bufs0 : list (list byte)) (meta0 : list RecvMeta) (map0 : InterposeMap) (now : nat -> Z) (n r : nat) (s : Walk) (d : Received) : Prop := {
  ar_slice : exists buf, wk_bufs s !! r = Some buf /\ wk_meta s !! r = Some (snd d) /\ fst d = firstn (rm_len (snd d)) buf /\
    slice_to buf (rm_len (snd d)) = Some (fst d) /\ length (fst d) = rm_len (snd d);
  ar_prefix : firstn (S r) (received bufs0 meta0 n) = firstn r (received bufs0 meta0 n) ++ [d];
  ar_map : record_headers map0 (imap (fun i d => (d, now i)) (firstn (S r) (received bufs0 meta0 n))) =
    match decode_v2_from_datagram (fst d) with
    | Some e => map_upsert (wk_map s) (rm_addr (snd d)) (ep_client e) (now r)
    | None => wk_map s
    end
}.

Lemma walked_at cap bufs0 meta0 map0 now n r s : batch_ok cap bufs0 meta0 n -> walked cap bufs0 meta0 map0 now n r s -> (r < n)%nat ->
  exists d, at_read bufs0 meta0 map0 now n r s d.
Proof.
  intros (Hcap0 & Hlen0 & Hnb0 & Hnm0) [_ Hw Hfront Hrest Hmap] Hr.
  destruct (lookup_lt_is_Some_2 bufs0 r ltac:(lia)) as [buf Hbuf]. destruct (lookup_lt_is_Some_2 meta0 r ltac:(lia)) as [m Hm].
  destruct (Hrest r ltac:(lia)) as [Hbr Hmr]. rewrite Hbuf in Hbr. rewrite Hm in Hmr.
  assert (length buf = cap) as Hbl by (by eapply (Forall_lookup_1 _ _ _ _ Hcap0)).
  assert (rm_len m <= cap)%nat as Hml by (by eapply (Forall_lookup_1 _ _ _ _ Hlen0)).
  exists (firstn (rm_len m) buf, m).
  assert (firstn (S r) (received bufs0 meta0 n) = firstn r (received bufs0 meta0 n) ++ [(firstn (rm_len m) buf, m)]) as HS.
  { apply take_S_r. by apply received_lookup. }
  assert (length (firstn r (received bufs0 meta0 n)) = r) as Hlr by (rewrite length_take, length_received by done; lia).
  constructor; [|done|].
  - exists buf. unfold slice_to. cbn. rewrite (proj2 (Nat.leb_le _ _)) by lia. rewrite length_take. split_and!; try done. lia.
  - rewrite HS, imap_app, Hlr. unfold record_headers in *. rewrite foldl_app. cbn. rewrite Nat.add_0_r. by rewrite <- Hmap.
Qed.

Lemma filter_keep (l : list Received) d : is_header d = false ->
  filter (fun d => is_header d = false) (l ++ [d]) = filter (fun d => is_header d = false) l ++ [d].
Proof. intros Hd. rewrite filter_app. cbn. by rewrite decide_True. Qed.

Lemma filter_skip (l : list Received) d : is_header d = true ->
  filter (fun d => is_header d = false) (l ++ [d]) = filter (fun d => is_header d = false) l.
Proof. intros Hd. rewrite filter_app. cbn. rewrite decide_False by congruence. apply app_nil_r. Qed.

Lemma walk_one_ok cap bufs0 meta0 map0 now n r s : batch_ok cap bufs0 meta0 n -> walked cap bufs0 meta0 map0 now n r s -> (r < n)%nat ->
  exists s', walk_one now r s = Some s' /\ walked cap bufs0 meta0 map0 now n (S r) s'.
Proof.
  intros Hok0 Hwd Hr. destruct (walked_at _ _ _ _ _ _ _ _ Hok0 Hwd Hr) as [[bytes m] [(buf & Hbr & Hmr & Hd & Hsl & Hdl) HS HmapS]].
  destruct Hwd as [(Hcap & Hlen & Hnb & Hnm) Hw Hfront Hrest Hmap]. cbn [fst snd] in *.
  unfold walk_one. rewrite Hmr. cbn [mbind option_bind]. rewrite Hbr. cbn [mbind option_bind]. rewrite Hsl. cbn [mbind option_bind].
  destruct (decode_v2_from_datagram bytes) as [e|] eqn:Hdec.
  - eexists. split; [done|]. constructor; cbn [wk_bufs wk_meta wk_map wk_write]; [by split_and!|lia| |intros i Hi; apply Hrest; lia|done].
    rewrite HS, filter_skip by (unfold is_header; cbn; rewrite Hdec; by apply bool_decide_true). done.
  - assert (is_header (bytes, m) = false) as Hnh.
    { unfold is_header. cbn. rewrite Hdec. apply bool_decide_false. by intros []. }
    case_bool_decide as Heq.
    + eexists. split; [done|]. constructor; cbn [wk_bufs wk_meta wk_map wk_write]; [by split_and!|lia| |intros i Hi; apply Hrest; lia|done].
      rewrite <- Heq in *. rewrite HS, filter_keep, <- Hfront, (received_S _ _ _ buf m) by done. by rewrite Hd.
    + destruct (lookup_lt_is_Some_2 (wk_bufs s) (wk_write s) ltac:(lia)) as [dst Hdst]. rewrite Hdst. cbn [mbind option_bind].
      destruct (lookup_lt_is_Some_2 (wk_meta s) (wk_write s) ltac:(lia)) as [m0 Hm0].
      assert (length dst = cap) as Hdc by (by eapply (Forall_lookup_1 _ _ _ _ Hcap)).
      assert (rm_len m <= cap)%nat as Hml by (by eapply (Forall_lookup_1 _ _ _ _ Hlen)).
      unfold copy_into. rewrite (proj2 (Nat.leb_le _ _)) by lia. cbn [mbind option_bind]. rewrite Hm0. cbn [mbind option_bind].
      eexists. split; [done|]. constructor; cbn [wk_bufs wk_meta wk_map wk_write]; [|lia| | |done].
      * unfold batch_ok. rewrite !length_insert. split_and!; try done; apply Forall_insert; try done.
        rewrite length_app, length_skipn. lia.
      * rewrite HS, filter_keep, <- Hfront by done.
        rewrite (received_S _ _ _ (bytes ++ skipn (rm_len m) dst) m), received_insert by (apply list_lookup_insert_eq; by eapply lookup_lt_Some).
        by rewrite <- Hdl, take_app_length.
      * intros i Hi. rewrite !list_lookup_insert_ne by lia. apply Hrest. lia.
Qed.

Lemma walk_ok cap bufs0 meta0 map0 now n : batch_ok cap bufs0 meta0 n -> forall todo r s,
  walked cap bufs0 meta0 map0 now n r s -> (r + todo = n)%nat ->
  exists s', walk now r todo s = Some s' /\ walked cap bufs0 meta0 map0 now n n s'.
Proof.
  intros Hok. induction todo as [|todo IH]; intros r s Hw Hr; cbn [walk].
  { exists s. split; [done|]. assert (r = n) as <- by lia. done. }
  destruct (walk_one_ok _ _ _ _ _ _ _ _ Hok Hw ltac:(lia)) as (s1 & -> & Hw1). cbn [mbind option_bind]. apply IH; [done|lia].
Qed.

Lemma walk_start cap bufs meta map now n : batch_ok cap bufs meta n -> walked cap bufs meta map now n 0 (mkWalk bufs meta map 0).
Proof. intros Hok. constructor; cbn; try done; lia. Qed.

(** One batch: the datagrams that are not headers, in order, and the map. *)
Lemma walk_batch cap bufs meta map now n : batch_ok cap bufs meta n ->
  exists s, walk now 0 n (mkWalk bufs meta map 0) = Some s /\
    received (wk_bufs s) (wk_meta s) (wk_write s) = filter (fun d => is_header d = false) (received bufs meta n) /\
    wk_map s = record_headers map (imap (fun i d => (d, now i)) (received bufs meta n)) /\ (wk_write s <= n)%nat /\
    batch_ok cap (wk_bufs s) (wk_meta s) n.
Proof.
  intros Hok. destruct (walk_ok cap bufs meta map now n Hok n 0 _ (walk_start cap bufs meta map now n Hok) ltac:(lia)) as (s & Hs & []).
  assert (firstn n (received bufs meta n) = received bufs meta n) as Hall.
  { apply take_ge. destruct Hok as (_ & _ & ? & ?). rewrite length_received; lia. }
  rewrite Hall in *. exists s. by split_and!.
Qed.

Lemma poll_exact cap map bufs meta n now polls : batch_ok cap bufs meta n -> n <> 0%nat ->
  let ds := received bufs meta n in
  let map' := record_headers map (imap (fun i d => (d, now i)) ds) in
  match filter (fun d => is_header d = false) ds with
  | [] => poll_recv map (InnerBatch bufs meta n now :: polls) = poll_recv map' polls
  | kept => exists bufs' meta',
      poll_recv map (InnerBatch bufs meta n now :: polls) = Some (Some (RecvReady (length kept) bufs' meta' map')) /\
      received bufs' meta' (length kept) = kept
  end.
Proof.
  intros Hok Hn ds map'. destruct (walk_batch cap bufs meta map now n Hok) as (s & Hs & Hkept & Hmap & Hle & (_ & _ & Hnb & Hnm)).
  assert (length (received (wk_bufs s) (wk_meta s) (wk_write s)) = wk_write s) as Hlen by (apply length_received; lia).
  cbn [poll_recv]. rewrite bool_decide_false by done. rewrite Hs. cbn [mbind option_bind]. fold ds in Hkept, Hmap. fold map' in Hmap.
  rewrite Hkept in Hlen. destruct (filter _ ds) as [|d kept]; cbn in Hlen; rewrite <- Hlen; cbn; [by rewrite Hmap|].
  exists (wk_bufs s), (wk_meta s). rewrite Hmap. split; [done|]. rewrite <- Hkept. cbn in Hlen. by rewrite Hlen.
Qed.

Module InterposeProps.

(** C33: A batch reaches quinn without its PROXY headers and otherwise
    unchanged and in order, where a buffer of the batch counts as one datagram
    also when the kernel coalesced several in it; every header is recorded under the address it came
    from, no copy goes out of bounds, and a batch of headers only is never
    reported as an empty read but makes the socket poll again. *)
Theorem interpose_exact cap map bufs meta n now polls : batch_ok cap bufs meta n -> n <> 0%nat ->
  let ds := received bufs meta n in
  let map' := record_headers map (imap (fun i d => (d, now i)) ds) in
  match filter (fun d => is_header d = false) ds with
  | [] => poll_recv map (InnerBatch bufs meta n now :: polls) = poll_recv map' polls
  | kept => exists bufs' meta',
      poll_recv map (InnerBatch bufs meta n now :: polls) = Some (Some (RecvReady (length kept) bufs' meta' map')) /\
      received bufs' meta' (length kept) = kept
  end.
Proof. apply poll_exact. Qed.

Definition demo_peer : Net.SocketAddr := Net.SocketAddr_new (Net.IpV4 (Net.v4_new 198 51 100 1)) 50001.
Definition demo_real : Net.SocketAddr := Net.SocketAddr_new (Net.IpV4 (Net.v4_new 203 0 113 7)) 54321.
Definition demo_header : list byte := encode_header ProxyV2 demo_real demo_peer.
Definition pad (n : nat) (l : list byte) : list byte := l ++ repeat "000"%byte (n - length l).
Definition demo_bufs : list (list byte) := [pad 64 demo_header; pad 64 ["192"%byte; "001"%byte]].
Definition demo_meta : list RecvMeta := [mkMeta demo_peer (length demo_header) (length demo_header); mkMeta demo_peer 2 2].

(** A header and an application datagram: quinn gets the second. *)
Lemma interpose_exact_witness :
  exists bufs' meta', poll_recv ∅ [InnerBatch demo_bufs demo_meta 2 (fun _ => 0)] =
      Some (Some (RecvReady 1 bufs' meta' (record_headers ∅ (imap (fun i d => (d, 0)) (received demo_bufs demo_meta 2))))) /\
    received bufs' meta' 1 = [(["192"%byte; "001"%byte], mkMeta demo_peer 2 2)].
Proof.
  assert (filter (fun d => is_header d = false) (received demo_bufs demo_meta 2) = [(["192"%byte; "001"%byte], mkMeta demo_peer 2 2)]) as Hf by (vm_compute; reflexivity).
  pose proof (interpose_exact 64 ∅ demo_bufs demo_meta 2 (fun _ => 0) []) as Hi. cbv zeta in Hi. rewrite Hf in Hi. apply Hi; [|done].
  split_and!; [repeat constructor|repeat constructor|vm_compute; lia|vm_compute; lia].
Defined.

End InterposeProps.
