(* ===== verification/UdpChain.v ===== *)
(** * The client's address along a chain of UDP proxies

    A gateway, any number of relays and the interpose socket of the terminal,
    composed: each hop is a [UdpProxy] on which a datagram from an address
    without a flow runs undisturbed through its steps, and what a hop sends to
    its upstream socket is what the next one receives. *)

From S2P Require Import Prelude RustStd External Instances RuleTypes Error Rule PubKey PeerState Canary ChainTypes NetFmt ProxyProtocol Resolver.
From S2P Require Import UdpProxy UdpFlows Interpose.

(** A hop that is about to receive: worker 0 waits, the address has no flow,
    there is a target and room, and no canary is armed. *)
Record ready (cfg : UdpConfig) (st : UdpProxy) (from : Net.SocketAddr) (now : Z) : Prop := {
  rd_worker : exists flows pending armed ws, workers st = mkWorker flows pending [] armed [] FWait None :: ws /\
    flows !! from = None /\ pending !! from = None;
  rd_target : exists t, current_target (peer st) (resolver st) = Some t;
  rd_room : flow_count st < max_flows cfg;
  rd_unarmed : is_armed (arm_table st) (local_addr cfg, Udp) now = false;
  rd_v2 : proxy_protocol (uc_rule cfg) = Some ProxyV2
}.

Definition flow_events (from : Net.SocketAddr) (ds : list (list byte)) (now : Z) : list Event :=
  [EvBatch 0 ((fun d => (d, from)) <$> ds) now] ++ ((fun _ => EvDispatch 0 now Sent) <$> ds) ++ ((fun _ => EvSlow 0 now true) <$> ds) ++
  [EvTarget 0; EvCapacity 0; EvBound 0 true; EvEntry 0 now true true; EvInsert 0 now now true true].

Definition sent_upstream (out : list Output) : list (list byte) :=
  omap (fun o => match o with ToUpstream _ b => Some b | ToClient _ _ _ => None end) out.

Lemma run_quiet cfg st ev evs st1 : udp_step cfg st ev = Some (st1, []) -> udp_run cfg st (ev :: evs) = udp_run cfg st1 evs.
Proof. intros H1. cbn [udp_run]. rewrite H1. cbn [mbind option_bind]. by destruct (udp_run cfg st1 evs) as [[]|]. Qed.

(** The state of a hop whose worker 0 is [w]. *)
Definition hop (st : UdpProxy) (ws : list UdpWorker) (w : UdpWorker) : UdpProxy :=
  mkProxy (w :: ws) (flow_count st) (tasks st) (next_sock st) (reaper st) (drainer st) (peer st) (resolver st) (arm_table st).

(** *** The steps of an undisturbed worker *)

Lemma batch_step cfg st ws flows pending armed ds now : is_armed (arm_table st) (local_addr cfg, Udp) now = false ->
  udp_step cfg (hop st ws (mkWorker flows pending [] armed [] FWait None)) (EvBatch 0 ds now) =
  Some (hop st ws (mkWorker flows pending ds false [] FWait None), []).
Proof. intros Ha. cbn -[is_armed]. by rewrite Ha. Qed.

Lemma dispatch_step cfg st ws flows pending d from rest slow now : flows !! from = None ->
  udp_step cfg (hop st ws (mkWorker flows pending ((d, from) :: rest) false slow FWait None)) (EvDispatch 0 now Sent) =
  Some (hop st ws (mkWorker flows pending rest false (slow ++ [(d, from)]) FWait None), []).
Proof. intros Hf. cbn. unfold try_handle_inbound_fast. cbn. by rewrite Hf. Qed.

Lemma slow_header_step cfg st ws flows pending d from rest e now : flows !! from = None -> expect_inbound_proxy cfg = true ->
  decode_v2_from_datagram d = Some e ->
  udp_step cfg (hop st ws (mkWorker flows pending [] false ((d, from) :: rest) FWait None)) (EvSlow 0 now true) =
  Some (hop st ws (mkWorker flows (<[from := (ep_client e, now)]> pending) [] false rest FWait None), []).
Proof. intros Hf He Hd. cbn. unfold handle_inbound. cbn. rewrite Hf, He. by rewrite Hd. Qed.

Lemma slow_miss_step cfg st ws flows pending d from rest now : flows !! from = None ->
  (expect_inbound_proxy cfg = true -> decode_v2_from_datagram d = None) ->
  udp_step cfg (hop st ws (mkWorker flows pending [] false ((d, from) :: rest) FWait None)) (EvSlow 0 now true) =
  Some (hop st ws (mkWorker flows pending [] false rest (FMissed d from) None), []).
Proof.
  intros Hf Hd. cbn. unfold handle_inbound. cbn. rewrite Hf. destruct (expect_inbound_proxy cfg); [by rewrite Hd|done].
Qed.

(** From the miss to the first sends on the new socket. *)
Lemma create_steps cfg st ws flows pending d from now t : flows !! from = None -> current_target (peer st) (resolver st) = Some t ->
  flow_count st < max_flows cfg -> proxy_protocol (uc_rule cfg) = Some ProxyV2 ->
  exists st', udp_run cfg (hop st ws (mkWorker flows pending [] false [] (FMissed d from) None))
      [EvTarget 0; EvCapacity 0; EvBound 0 true; EvEntry 0 now true true; EvInsert 0 now now true true] =
    Some (st', [ToUpstream (next_sock st) (encode_header ProxyV2 (outbound_client (mkWorker flows pending [] false [] FWait None) from now) (local_addr cfg));
                ToUpstream (next_sock st) d]) /\
    flow_at st' 0 from = Some (mkFlow (next_sock st) t (now_ms cfg now)).
Proof.
  intros Hf Ht Hroom Hv2. eexists. split.
  - cbn -[encode_header Z.leb current_target first_sends]. rewrite Ht. cbn -[encode_header Z.leb first_sends].
    rewrite (proj2 (Z.leb_gt _ _)) by lia. cbn -[encode_header Z.leb first_sends]. rewrite Hf.
    unfold try_reserve_flow. rewrite (proj2 (Z.leb_gt _ _)) by lia. cbn -[encode_header Z.leb first_sends]. unfold first_sends. rewrite Hv2. cbn -[encode_header]. reflexivity.
  - unfold flow_at. cbn. by rewrite lookup_insert_eq.
Qed.

Lemma ready_hop cfg st from now : ready cfg st from now -> exists flows pending armed ws,
  st = hop st ws (mkWorker flows pending [] armed [] FWait None) /\ flows !! from = None /\ pending !! from = None.
Proof.
  intros [(flows & pending & armed & ws & Hws & Hf & Hp) _ _ _ _]. exists flows, pending, armed, ws. split_and!; try done.
  destruct st. cbn in *. by subst.
Qed.

(** A datagram that is no header: a new flow that announces [from]. *)
Lemma plain_hop cfg st from body now : ready cfg st from now -> (expect_inbound_proxy cfg = true -> decode_v2_from_datagram body = None) ->
  exists st' out, udp_run cfg st (flow_events from [body] now) = Some (st', out) /\
    sent_upstream out = [encode_header ProxyV2 from (local_addr cfg); body].
Proof.
  intros Hr Hexp. destruct (ready_hop _ _ _ _ Hr) as (flows & pending & armed & ws & Hst & Hf & Hp). destruct Hr as [_ [t Ht] Hroom Harm Hv2].
  destruct (create_steps cfg st ws flows pending body from now t Hf Ht Hroom Hv2) as (st' & Hc & _).
  unfold outbound_client in Hc. cbn [w_pending] in Hc. rewrite Hp in Hc.
  exists st', [ToUpstream (next_sock st) (encode_header ProxyV2 from (local_addr cfg)); ToUpstream (next_sock st) body]. split; [|done].
  rewrite Hst at 1. unfold flow_events. cbn [fmap list_fmap List.app].
  erewrite run_quiet by (by apply batch_step). erewrite run_quiet by (by apply dispatch_step).
  erewrite run_quiet by (by apply slow_miss_step). exact Hc.
Qed.

(** A header and a datagram: a new flow that announces the header's client. *)
Lemma bridged_hop cfg st from hdr body e now : ready cfg st from now -> expect_inbound_proxy cfg = true ->
  decode_v2_from_datagram hdr = Some e -> decode_v2_from_datagram body = None ->
  exists st' out, udp_run cfg st (flow_events from [hdr; body] now) = Some (st', out) /\
    sent_upstream out = [encode_header ProxyV2 (ep_client e) (local_addr cfg); body].
Proof.
  intros Hr Hexp Hh Ha. destruct (ready_hop _ _ _ _ Hr) as (flows & pending & armed & ws & Hst & Hf & Hp). destruct Hr as [_ [t Ht] Hroom Harm Hv2].
  destruct (create_steps cfg st ws flows (<[from := (ep_client e, now)]> pending) body from now t Hf Ht Hroom Hv2) as (st' & Hc & _).
  unfold outbound_client in Hc. cbn [w_pending] in Hc. rewrite lookup_insert_eq, Z.sub_diag in Hc.
  exists st', [ToUpstream (next_sock st) (encode_header ProxyV2 (ep_client e) (local_addr cfg)); ToUpstream (next_sock st) body]. split; [|done].
  rewrite Hst at 1. unfold flow_events. cbn [fmap list_fmap List.app].
  erewrite run_quiet by (by apply batch_step). erewrite run_quiet by (by apply dispatch_step). erewrite run_quiet by (by apply dispatch_step).
  erewrite run_quiet by (by apply slow_header_step). erewrite run_quiet by (by apply slow_miss_step). exact Hc.
Qed.

(** ** The chain *)

(** A hop, the address its upstream socket has for the next one, and when the
    datagrams reach it. *)
Record Hop := mkHop { h_cfg : UdpConfig; h_state : UdpProxy; h_source : Net.SocketAddr; h_time : Z }.

(** What arrives behind [hops], and from where. *)
Fixpoint pass (hops : list Hop) (from : Net.SocketAddr) (ds : list (list byte)) : option (Net.SocketAddr * list (list byte)) :=
  match hops with
  | [] => Some (from, ds)
  | h :: hops =>
      '(_, out) ← udp_run (h_cfg h) (h_state h) (flow_events from ds (h_time h));
      pass hops (h_source h) (sent_upstream out)
  end.

(** The relays behind the gateway: each waits for headers, is ready for the hop
    before it, and listens on the client's family. *)
Fixpoint relays_ready (client : Net.SocketAddr) (from : Net.SocketAddr) (hops : list Hop) : Prop :=
  match hops with
  | [] => True
  | h :: hops =>
      ready (h_cfg h) (h_state h) from (h_time h) /\ expect_inbound_proxy (h_cfg h) = true /\
      same_family (Net.ip client) (Net.ip (local_addr (h_cfg h))) = true /\ fits 16 (Net.port (local_addr (h_cfg h))) /\
      relays_ready client (h_source h) hops
  end.

(** A header that carries the client. *)
Definition announces (hdr : list byte) (client : Net.SocketAddr) : Prop :=
  exists e, decode_v2_from_datagram hdr = Some e /\ ep_client e = plain client.

Lemma header_announces client server : fits 16 (Net.port client) -> fits 16 (Net.port server) ->
  same_family (Net.ip client) (Net.ip server) = true -> announces (encode_header ProxyV2 client server) client.
Proof.
  intros Hc Hs Hf. pose proof (proj2 (ProxyProtocolProps.v2_roundtrip client server [] Hc Hs)) as Hd. rewrite app_nil_r in Hd.
  unfold announces. cbn [encode_header]. rewrite Hd. by apply carried_client.
Qed.

Lemma relays_pass client hops : fits 16 (Net.port client) -> forall from hdr body, relays_ready client from hops -> announces hdr client ->
  decode_v2_from_datagram body = None ->
  exists src hdr', pass hops from [hdr; body] = Some (src, [hdr'; body]) /\ announces hdr' client.
Proof.
  intros Hport. induction hops as [|h hops IH]; intros from hdr body Hready Hann Happ; [by exists from, hdr|].
  destruct Hready as (Hr & Hexp & Hfam & Hp & Hrest). destruct Hann as (e & Hd & He).
  destruct (bridged_hop _ _ _ _ _ _ _ Hr Hexp Hd Happ) as (st' & out & Hrun & Hout).
  cbn [pass]. rewrite Hrun. cbn [mbind option_bind]. rewrite Hout. apply IH; try done. rewrite He.
  destruct (header_announces (plain client) (local_addr (h_cfg h))) as (e' & Hd' & He').
  { by destruct client. }
  { done. }
  { by destruct client. }
  exists e'. by rewrite plain_plain in He'.
Qed.

(** What quinn and the interpose map get of a header and a datagram. *)
Lemma terminal_poll cap bufs meta (now : nat -> Z) hdr body src rest1 rest2 client polls : batch_ok cap bufs meta 2 ->
  received bufs meta 2 = [(hdr, mkMeta src (length hdr) rest1); (body, mkMeta src (length body) rest2)] ->
  announces hdr client -> decode_v2_from_datagram body = None ->
  exists bufs' meta' map', poll_recv ∅ (InnerBatch bufs meta 2 now :: polls) = Some (Some (RecvReady 1 bufs' meta' map')) /\
    received bufs' meta' 1 = [(body, mkMeta src (length body) rest2)] /\
    forall t, t <= now 0%nat + MAP_TTL -> map_lookup map' src t = Some (plain client).
Proof.
  intros Hok Hr (e & Hd & He) Hb. pose proof (poll_exact cap ∅ bufs meta 2 now polls Hok ltac:(done)) as Hp. cbv zeta in Hp. rewrite Hr in Hp.
  cbn [filter list_filter is_header fst] in Hp.
  destruct (decide (is_header (hdr, mkMeta src (length hdr) rest1) = false)) as [H1|_].
  { unfold is_header in H1. cbn [fst] in H1. rewrite Hd in H1. by rewrite bool_decide_true in H1. }
  destruct (decide (is_header (body, mkMeta src (length body) rest2) = false)) as [_|H2].
  2:{ destruct H2. unfold is_header. cbn [fst]. rewrite Hb. done. }
  destruct Hp as (bufs' & meta' & -> & Hr'). exists bufs', meta'. eexists. split_and!; [done|done|].
  intros t Ht. unfold record_headers. cbn [imap foldl compose fst snd rm_addr]. rewrite Hd, Hb. unfold map_upsert, map_lookup. cbn [rm_addr].
  rewrite lookup_insert_eq. cbn. rewrite (proj2 (Z.ltb_ge _ _)), He by (change MAP_TTL with 30000000000 in *; lia). done.
Qed.

Module UdpChainProps.

(** C8: the first datagram of a client arrives behind a gateway and any number
    of relays unchanged and right after one header, and the header carries the
    client's address and port, not those of the hop before it, when the hops
    listen on the client's family; the terminal's socket hands quinn the
    datagram alone and answers the lookup of its source with the client for
    [MAP_TTL]. *)
Theorem chain_client_ip gateway relays client body polls :
  ready (h_cfg gateway) (h_state gateway) client (h_time gateway) -> decode_v2_from_datagram body = None ->
  fits 16 (Net.port client) -> fits 16 (Net.port (local_addr (h_cfg gateway))) ->
  same_family (Net.ip client) (Net.ip (local_addr (h_cfg gateway))) = true -> relays_ready client (h_source gateway) relays ->
  exists src hdr, pass (gateway :: relays) client [body] = Some (src, [hdr; body]) /\
    forall cap bufs meta (now : nat -> Z) rest1 rest2, batch_ok cap bufs meta 2 ->
      received bufs meta 2 = [(hdr, mkMeta src (length hdr) rest1); (body, mkMeta src (length body) rest2)] ->
      exists bufs' meta' map', poll_recv ∅ (InnerBatch bufs meta 2 now :: polls) = Some (Some (RecvReady 1 bufs' meta' map')) /\
        received bufs' meta' 1 = [(body, mkMeta src (length body) rest2)] /\
        forall t, t <= now 0%nat + MAP_TTL -> map_lookup map' src t = Some (plain client).
Proof.
  intros Hr Hb Hc Hs Hf Hrel. destruct (plain_hop _ _ _ body _ Hr (fun _ => Hb)) as (st' & out & Hrun & Hout).
  cbn [pass]. rewrite Hrun. cbn [mbind option_bind]. rewrite Hout.
  destruct (relays_pass client relays Hc (h_source gateway) _ body Hrel (header_announces _ _ Hc Hs Hf) Hb) as (src & hdr & Hp & Hann).
  exists src, hdr. split; [done|]. intros. by eapply terminal_poll.
Qed.

Definition demo_hop (listen target source : Net.SocketAddr) (expect : bool) : Hop :=
  mkHop (mkUdpConfig (mkRule "h3" listen Udp (Some 443) None None (Some ProxyV2)) listen 0 16 expect)
    (udp_spawn 1 (peer_state_new None) (RStatic target) ∅) source 5.

Definition demo_gateway : Hop := demo_hop (UdpDemo.v4 198 51 100 1 443) (UdpDemo.v4 10 0 0 2 443) (UdpDemo.v4 10 0 0 1 40001) false.
Definition demo_relay : Hop := demo_hop (UdpDemo.v4 10 0 0 2 443) (UdpDemo.v4 10 0 0 3 443) (UdpDemo.v4 10 0 0 2 40002) true.

Lemma demo_ready listen target source expect from :
  ready (h_cfg (demo_hop listen target source expect)) (h_state (demo_hop listen target source expect)) from 5.
Proof. split; try done; [by exists ∅, ∅, false, []|by exists target]. Qed.

(** A gateway and one relay. *)
Lemma chain_client_ip_witness :
  exists src hdr, pass [demo_gateway; demo_relay] UdpDemo.demo_client [UdpDemo.payload] = Some (src, [hdr; UdpDemo.payload]).
Proof.
  destruct (chain_client_ip demo_gateway [demo_relay] UdpDemo.demo_client UdpDemo.payload []) as (src & hdr & Hp & _).
  - apply demo_ready.
  - by vm_compute.
  - by split; vm_compute.
  - by split; vm_compute.
  - reflexivity.
  - split_and!; [apply demo_ready|done|done|by split; vm_compute|done].
  - by exists src, hdr.
Defined.

(** A relay that listens on IPv6 behind a gateway on IPv4 writes a header
    without endpoints for the client the gateway announced: the next hop cannot
    tell it from a datagram of the flow. *)
Definition v6_relay : Hop :=
  demo_hop (Net.SocketAddr_new (Net.IpV6 (Net.mkIpv6 (Net.v4_new 0 0 0 0) (Net.v4_new 0 0 0 0) (Net.v4_new 0 0 0 0) (Net.v4_new 0 0 0 0))) 443)
    (UdpDemo.v4 10 0 0 3 443) (UdpDemo.v4 10 0 0 2 40002) true.

Definition announced (r : option (Net.SocketAddr * list (list byte))) : option (list (option Net.SocketAddr)) :=
  option_map (fun x => List.map (fun d => option_map ep_client (decode_v2_from_datagram d)) (snd x)) r.

Lemma mixed_family_loses_client :
  announced (pass [demo_gateway] UdpDemo.demo_client [UdpDemo.payload]) = Some [Some UdpDemo.demo_client; None] /\
  announced (pass [demo_gateway; v6_relay] UdpDemo.demo_client [UdpDemo.payload]) = Some [None; None].
Proof. split; by vm_compute. Qed.

End UdpChainProps.
