(* ===== verification/Certs.v ===== *)
(** * The certificate store ([yggdrasil/src/proxy/certs/])

    The three-rung resolution of a route's certificate ([loader.rs]), the store
    the TLS listeners read ([store.rs]) and the bookkeeping of the file watcher
    ([watcher.rs]).  The disk at the time of a call, the clock and the outcome
    of an inotify call are arguments. *)

From S2P Require Import Prelude RustStd External Instances RuleTypes Error Rule RuleSet.

(** ** Paths *)

Module Path.

Definition SEP : ascii := "/".

(** [Path::join]. *)
Definition join (a b : string) : string :=
  if Str.starts_with b "/" then b
  else match rev (Str.to_list a) with
       | [] => b
       | c :: _ => if bool_decide (c = SEP) then a +:+ b else a +:+ "/" +:+ b
       end.

(** Trailing separators and [.] components do not count, on the reversed
    path. *)
Fixpoint drop_trailing (rl : list ascii) : list ascii :=
  match rl with
  | c :: rl' =>
      if bool_decide (c = SEP) then drop_trailing rl'
      else match rl' with
           | d :: rl'' => if bool_decide (c = "."%char) && bool_decide (d = SEP) then drop_trailing rl'' else rl
           | [] => rl
           end
  | [] => []
  end.

(** [Path::parent]. *)
Definition parent (p : string) : option string :=
  match drop_trailing (rev (Str.to_list p)) with
  | [] => None
  | rl =>
      match drop_trailing (Str.drop_while (fun c => negb (bool_decide (c = SEP))) rl) with
      | [] => Some (if Str.starts_with p "/" then "/" else "")
      | rl' => Some (Str.of_list (rev rl'))
      end
  end.

End Path.

(** ** The crates rustls, rustls-pki-types and x509-parser *)

Inductive GeneralName := DNSName (name : string) | OtherName.

Class TlsLib := {
  tls_error : Type;
  CertificateDer : Type;
  PrivateKeyDer : Type;
  SigningKey : Type;
  X509 : Type;
  pem_slice_iter : list byte -> result tls_error (list CertificateDer);
  (** [None] is [NoItemsFound] *)
  from_pem_slice : list byte -> result (option tls_error) PrivateKeyDer;
  any_supported_type : PrivateKeyDer -> result tls_error SigningKey;
  parse_x509_certificate : CertificateDer -> result tls_error X509;
  subject_alternative_name : X509 -> result tls_error (option (list GeneralName))
}.

(** A SAN covers a host: the same name, or a wildcard for its first label. *)
Inductive covers : string -> string -> Prop :=
  | CoversExact h : covers h h
  | CoversWildcard label rest :
      label <> "" -> "."%char ∉ Str.to_list label -> "*"%char ∉ Str.to_list rest ->
      covers ("*." +:+ rest) (label +:+ String "." rest).

Section Certs.
Context `{Extern} `{UrlLib} `{TlsLib}.

(** ** Data ([origin.rs]) *)

Inductive CertError :=
  | CertRead (rule route path : string) (source : io_error)
  | KeyRead (rule route path : string) (source : io_error)
  | CertEmpty (rule route path : string)
  | KeyEmpty (rule route path : string)
  | PemError (rule route kind path : string) (detail : tls_error)
  | SigningKeyError (rule route : string) (detail : tls_error)
  | NoSource (rule route : string).

Inductive CertOrigin := OriginConvention (cert key : string) | OriginDefault (cert key : string).

Definition as_label (o : CertOrigin) : string :=
  match o with OriginConvention cert _ => "convention:" +:+ cert | OriginDefault cert _ => "default:" +:+ cert end.

Definition watched_paths (o : CertOrigin) : list string :=
  match o with OriginConvention cert key | OriginDefault cert key => [cert; key] end.

Record CertifiedKey := mkCertified { ck_chain : list CertificateDer; ck_key : SigningKey }.

Record CertEntry := mkEntry { ce_key : CertifiedKey; ce_origin : CertOrigin; loaded_at_unix_ms : Z }.

Record ReloadSpec := mkSpec {
  rs_rule_name : string;
  rs_route : HttpRoute;
  rs_cert_dir : string;
  rs_default : option (string * string)
}.

(** ** Loading ([loader.rs]) *)

(** The disk a call reads. *)
Record Disk := mkDisk { is_file : string -> bool; fs_read : string -> result io_error (list byte) }.

Record CertContext := mkContext {
  cc_rule_name : string;
  cc_cert_dir : string;
  cc_default : option (string * string);
  cc_default_sans : option (list string)
}.

Definition parse_pem_pair (rule route cert_path : string) (cert_pem : list byte) (key_path : string) (key_pem : list byte) :
    result CertError CertifiedKey :=
  chain ← map_err (PemError rule route "certificate" cert_path) (pem_slice_iter cert_pem);
  match chain with
  | [] => Err (CertEmpty rule route cert_path)
  | _ =>
      key_der ← map_err (fun e => match e with
                                  | None => KeyEmpty rule route key_path
                                  | Some e => PemError rule route "private key" key_path e
                                  end) (from_pem_slice key_pem);
      signing_key ← map_err (SigningKeyError rule route) (any_supported_type key_der);
      Ok (mkCertified chain signing_key)
  end.

Definition load_pem_pair (d : Disk) (rule route cert_path key_path : string) : result CertError CertifiedKey :=
  cert_pem ← map_err (CertRead rule route cert_path) (fs_read d cert_path);
  key_pem ← map_err (KeyRead rule route key_path) (fs_read d key_path);
  parse_pem_pair rule route cert_path cert_pem key_path key_pem.

(** The names are kept in a [HashSet]: their order is arbitrary. *)
Definition read_default_cert_sans (d : Disk) (cert_path : string) : result CertError (list string) :=
  let D := "<default>" in
  pem ← map_err (CertRead D D cert_path) (fs_read d cert_path);
  chain ← map_err (PemError D D "certificate" cert_path) (pem_slice_iter pem);
  match chain with
  | [] => Err (CertEmpty D D cert_path)
  | leaf :: _ =>
      cert ← map_err (PemError D D "x509" cert_path) (parse_x509_certificate leaf);
      ext ← map_err (PemError D D "x509-sans" cert_path) (subject_alternative_name cert);
      Ok (remove_dups (omap (fun gn => match gn with DNSName n => Some (Str.to_ascii_lowercase n) | OtherName => None end)
                            (default [] ext)))
  end.

Definition san_covers (san host : string) : bool :=
  if bool_decide (san = host) then true
  else match Str.strip_prefix san "*." with
       | Some rest =>
           if bool_decide ("*"%char ∈ Str.to_list rest) then false
           else match Str.split_once "." host with
                | Some (leftmost, host_rest) => negb (Str.is_empty leftmost) && bool_decide (host_rest = rest)
                | None => false
                end
       | None => false
       end.

Definition any_san_covers (sans : list string) (hostname : string) : bool :=
  existsb (fun san => san_covers san (Str.to_ascii_lowercase hostname)) sans.

Definition convention_cert (dir host : string) : string := Path.join (Path.join dir host) "fullchain.pem".
Definition convention_key (dir host : string) : string := Path.join (Path.join dir host) "privkey.pem".

Definition load_route_cert (d : Disk) (ctx : CertContext) (route : HttpRoute) (now : Z) : result CertError (option CertEntry) :=
  let conv_cert := convention_cert (cc_cert_dir ctx) (hostname route) in
  let conv_key := convention_key (cc_cert_dir ctx) (hostname route) in
  if is_file d conv_cert && is_file d conv_key then
    key ← load_pem_pair d (cc_rule_name ctx) (hostname route) conv_cert conv_key;
    Ok (Some (mkEntry key (OriginConvention conv_cert conv_key) now))
  else
    match cc_default ctx with
    | Some (cert_path, key_path) =>
        if match cc_default_sans ctx with Some sans => any_san_covers sans (hostname route) | None => false end then
          key ← load_pem_pair d (cc_rule_name ctx) (hostname route) cert_path key_path;
          Ok (Some (mkEntry key (OriginDefault cert_path key_path) now))
        else Ok None
    | None => Ok None
    end.

(** ** The store ([store.rs]) *)

Record CertStore := mkStore { cs_entries : gmap string CertEntry; cs_specs : gmap string ReloadSpec }.

Definition store_new : CertStore := mkStore ∅ ∅.
Definition store_insert (s : CertStore) (host : string) (e : CertEntry) : CertStore :=
  mkStore (<[Str.to_ascii_lowercase host := e]> (cs_entries s)) (cs_specs s).
Definition store_remove (s : CertStore) (host : string) : CertStore :=
  let key := Str.to_ascii_lowercase host in mkStore (delete key (cs_entries s)) (delete key (cs_specs s)).
Definition record_reload_spec (s : CertStore) (host : string) (spec : ReloadSpec) : CertStore :=
  mkStore (cs_entries s) (<[Str.to_ascii_lowercase host := spec]> (cs_specs s)).
Definition watched_paths_for (s : CertStore) (host : string) : list string :=
  match cs_entries s !! Str.to_ascii_lowercase host with Some e => watched_paths (ce_origin e) | None => [] end.
Definition store_contains (s : CertStore) (host : string) : bool :=
  bool_decide (is_Some (cs_entries s !! Str.to_ascii_lowercase host)).
(** [lookup], and [resolve] for a server name. *)
Definition store_lookup (s : CertStore) (host : string) : option CertifiedKey :=
  ce_key <$> cs_entries s !! Str.to_ascii_lowercase host.

Definition default_sans (d : Disk) (server_default : option (string * string)) : result CertError (option (list string)) :=
  match server_default with
  | Some (cert, _) => sans ← read_default_cert_sans d cert; Ok (Some sans)
  | None => Ok None
  end.

(** The loop of [load_routes_into_store]: the store keeps what was loaded
    before an error. *)
Fixpoint load_each (d : Disk) (ctx : CertContext) (routes : list HttpRoute) (now : Z) (s : CertStore) (cert_less : list string) :
    CertStore * result CertError (list string) :=
  match routes with
  | [] => (s, Ok cert_less)
  | route :: routes =>
      match load_route_cert d ctx route now with
      | Err e => (s, Err e)
      | Ok None => load_each d ctx routes now s (cert_less ++ [hostname route])
      | Ok (Some entry) =>
          let spec := mkSpec (cc_rule_name ctx) route (cc_cert_dir ctx) (cc_default ctx) in
          load_each d ctx routes now (store_insert (record_reload_spec s (hostname route) spec) (hostname route) entry) cert_less
      end
  end.

Definition load_routes_into_store (d : Disk) (rule_name : string) (routes : list HttpRoute) (s : CertStore) (cert_dir : string)
    (server_default : option (string * string)) (now : Z) : CertStore * result CertError (list string) :=
  match default_sans d server_default with
  | Err e => (s, Err e)
  | Ok sans => load_each d (mkContext rule_name cert_dir server_default sans) routes now s []
  end.

(** [reload_host] takes the lock twice: it resolves the certificate from the
    recorded spec, and then writes what it found.  [None]: no spec. *)
Definition reload_resolve (d : Disk) (s : CertStore) (host : string) (now : Z) : option (result CertError (option CertEntry)) :=
  spec ← cs_specs s !! Str.to_ascii_lowercase host;
  Some (sans ← default_sans d (rs_default spec);
        load_route_cert d (mkContext (rs_rule_name spec) (rs_cert_dir spec) (rs_default spec) sans) (rs_route spec) now).

Definition reload_commit (s : CertStore) (host : string) (r : option (result CertError (option CertEntry))) : CertStore :=
  let key := Str.to_ascii_lowercase host in
  match r with
  | None | Some (Err _) => s
  | Some (Ok (Some e)) => mkStore (<[key := e]> (cs_entries s)) (cs_specs s)
  | Some (Ok None) => mkStore (delete key (cs_entries s)) (cs_specs s)
  end.

Definition reload_host (d : Disk) (s : CertStore) (host : string) (now : Z) : CertStore :=
  reload_commit s host (reload_resolve d s host now).

(** ** The watcher's tables ([watcher.rs]) *)

Record WatcherState := mkWatcher { host_paths : gmap string (list string); watched_dirs : gmap string nat }.

Definition parent_dirs (paths : list string) : gset string := list_to_set (omap Path.parent paths).

(** One more host watches [dir]; [ok]: the inotify call, made for the first. *)
Definition add_watched_dir (ok : string -> bool) (dir : string) (dirs : gmap string nat) : gmap string nat :=
  let count := S (default 0%nat (dirs !! dir)) in
  if (count =? 1)%nat && negb (ok dir) then delete dir dirs else <[dir := count]> dirs.

Definition decrement_watched_dir (dir : string) (dirs : gmap string nat) : gmap string nat :=
  match dirs !! dir with
  | None => dirs
  | Some count => if (count - 1 =? 0)%nat then delete dir dirs else <[dir := (count - 1)%nat]> dirs
  end.

Definition watcher_register (ok : string -> bool) (w : WatcherState) (host : string) (paths : list string) : WatcherState :=
  match paths with
  | [] => w
  | _ =>
      let key := Str.to_ascii_lowercase host in
      let prev_dirs := parent_dirs (default [] (host_paths w !! key)) in
      let new_dirs := parent_dirs paths in
      let dirs := set_fold (add_watched_dir ok) (watched_dirs w) (new_dirs ∖ prev_dirs) in
      mkWatcher (<[key := paths]> (host_paths w)) (set_fold decrement_watched_dir dirs (prev_dirs ∖ new_dirs))
  end.

Definition watcher_unregister (w : WatcherState) (host : string) : WatcherState :=
  let key := Str.to_ascii_lowercase host in
  match host_paths w !! key with
  | None => w
  | Some paths => mkWatcher (delete key (host_paths w)) (set_fold decrement_watched_dir (watched_dirs w) (parent_dirs paths))
  end.

(** The hosts a batch of changed paths reloads. *)
Definition affected_hosts (w : WatcherState) (events : list string) : gset string :=
  dom (filter (fun hp => Exists (fun p => p ∈ events) (snd hp)) (host_paths w)).

(** ** Coverage *)

Lemma strip_wildcard san rest : Str.strip_prefix san "*." = Some rest <-> san = "*." +:+ rest.
Proof.
  unfold Str.strip_prefix, Str.starts_with. split.
  - destruct san as [|a [|b san]]; cbn; try done.
    + by destruct (bool_decide _).
    + destruct (decide ("*"%char = a)) as [<-|]; [|by rewrite bool_decide_false]. rewrite bool_decide_true by done. cbn.
      destruct (decide ("."%char = b)) as [<-|]; [|by rewrite bool_decide_false]. rewrite bool_decide_true by done. cbn.
      intros [= <-]. by change (String "*" (String "." san) = String "*" (String "." (Str.of_list (Str.to_list san)))); rewrite Str.of_to_list.
  - intros ->. cbn. f_equal. apply Str.of_to_list.
Qed.

Lemma san_covers_spec san host : san_covers san host = true <-> covers san host.
Proof.
  unfold san_covers. destruct (decide (san = host)) as [->|Hne].
  { rewrite bool_decide_true by done. split; [intros _; constructor|done]. }
  rewrite bool_decide_false by done. split.
  - destruct (Str.strip_prefix san "*.") as [rest|] eqn:Hs; [|done]. apply strip_wildcard in Hs as ->.
    case_bool_decide as Hstar; [done|]. destruct (Str.split_once "." host) as [[label host_rest]|] eqn:Hh; [|done].
    intros [Hl ->%bool_decide_eq_true]%andb_true_iff. apply Str.split_once_Some in Hh as [-> Hdot].
    constructor; try done. by destruct label.
  - intros Hc. destruct Hc as [|label rest Hl Hd Hstar]; [done|].
    rewrite (proj2 (strip_wildcard _ rest)) by done. rewrite bool_decide_false by done.
    rewrite Str.split_once_app by done. rewrite bool_decide_true by done. by destruct label.
Qed.

Lemma any_san_covers_spec sans host : any_san_covers sans host = true <-> exists san, san ∈ sans /\ covers san (Str.to_ascii_lowercase host).
Proof.
  unfold any_san_covers. rewrite existsb_exists. setoid_rewrite san_covers_spec. by setoid_rewrite list_elem_of_In.
Qed.

(** ** What the store serves *)

(** The store, and the reloads that resolved a certificate and have not written
    it yet. *)
Record StoreState := mkStoreState { ss_store : CertStore; ss_pending : list (string * option (result CertError (option CertEntry))) }.

Inductive StoreOp :=
  | OpLoad (d : Disk) (rule_name : string) (routes : list HttpRoute) (cert_dir : string) (server_default : option (string * string)) (now : Z)
  | OpResolve (d : Disk) (host : string) (now : Z)
  | OpCommit (i : nat)
  | OpRemove (host : string).

Definition store_step (st : StoreState) (op : StoreOp) : StoreState :=
  match op with
  | OpLoad d rule_name routes cert_dir server_default now =>
      mkStoreState (fst (load_routes_into_store d rule_name routes (ss_store st) cert_dir server_default now)) (ss_pending st)
  | OpResolve d host now => mkStoreState (ss_store st) (ss_pending st ++ [(host, reload_resolve d (ss_store st) host now)])
  | OpCommit i =>
      match ss_pending st !! i with
      | Some (host, r) => mkStoreState (reload_commit (ss_store st) host r) (delete i (ss_pending st))
      | None => st
      end
  | OpRemove host => mkStoreState (store_remove (ss_store st) host) (ss_pending st)
  end.

Definition store_run : list StoreOp -> StoreState := foldl store_step (mkStoreState store_new []).

(** The files at these paths hold the key pair [k]. *)
Definition pem_pair_of (d : Disk) (cert key : string) (k : CertifiedKey) : Prop :=
  exists cert_pem key_pem der, fs_read d cert = Ok cert_pem /\ fs_read d key = Ok key_pem /\
    pem_slice_iter cert_pem = Ok (ck_chain k) /\ ck_chain k <> [] /\
    from_pem_slice key_pem = Ok der /\ any_supported_type der = Ok (ck_key k).

(** The leaf of a chain has a subject alternative name that covers [host]. *)
Definition leaf_names (chain : list CertificateDer) (host : string) : Prop :=
  exists leaf rest x names n, chain = leaf :: rest /\ parse_x509_certificate leaf = Ok x /\
    subject_alternative_name x = Ok (Some names) /\ DNSName n ∈ names /\ covers (Str.to_ascii_lowercase n) host.

(** Both files of the directory of a host are there. *)
Definition has_own_files (d : Disk) (dir h : string) : Prop :=
  is_file d (Path.join (Path.join dir h) "fullchain.pem") = true /\ is_file d (Path.join (Path.join dir h) "privkey.pem") = true.

(** What may be served for a route: the pair in its own directory when that is
    there, else the default pair when its leaf names the host. *)
Definition entry_from (d : Disk) (dir : string) (def : option (string * string)) (route : HttpRoute) (e : CertEntry) : Prop :=
  match ce_origin e with
  | OriginConvention cert key =>
      cert = Path.join (Path.join dir (hostname route)) "fullchain.pem" /\ key = Path.join (Path.join dir (hostname route)) "privkey.pem" /\
      has_own_files d dir (hostname route) /\ pem_pair_of d cert key (ce_key e)
  | OriginDefault cert key =>
      def = Some (cert, key) /\ ~ has_own_files d dir (hostname route) /\ pem_pair_of d cert key (ce_key e) /\
      leaf_names (ck_chain (ce_key e)) (lc_hostname route)
  end.

(** The disk an operation read. *)
Definition disk_read (op : StoreOp) : option Disk :=
  match op with OpLoad d _ _ _ _ _ | OpResolve d _ _ => Some d | OpCommit _ | OpRemove _ => None end.

(** A load of the run had a route of this name, with this directory and
    default. *)
Definition configured (ops : list StoreOp) (host : string) (route : HttpRoute) (dir : string) (def : option (string * string)) : Prop :=
  lc_hostname route = host /\ exists d rule routes now, OpLoad d rule routes dir def now ∈ ops /\ route ∈ routes.

(** A certificate that is right for [host]: read from the disk by an operation
    of the run, for a route that was configured. *)
Definition right_for (ops : list StoreOp) (host : string) (e : CertEntry) : Prop :=
  exists op d route dir def, op ∈ ops /\ disk_read op = Some d /\ configured ops host route dir def /\ entry_from d dir def route e.

Lemma right_for_app ops ops' host e : right_for ops host e -> right_for (ops ++ ops') host e.
Proof.
  intros (op & d & route & dir & def & Hop & Hd & (Hh & d' & rule & routes & now & Hl & Hr) & He).
  exists op, d, route, dir, def. split_and!; [apply elem_of_app; by left|done| |done].
  split; [done|]. exists d', rule, routes, now. split; [apply elem_of_app; by left|done].
Qed.

Lemma load_pem_pair_ok d rule route cert key k : load_pem_pair d rule route cert key = Ok k -> pem_pair_of d cert key k.
Proof.
  unfold load_pem_pair, parse_pem_pair. destruct (fs_read d cert) as [cp|] eqn:Hc; cbn; [|done].
  destruct (fs_read d key) as [kp|] eqn:Hk; cbn; [|done]. destruct (pem_slice_iter cp) as [chain|] eqn:Hp; cbn; [|done].
  destruct chain as [|c chain]; [done|]. destruct (from_pem_slice kp) as [der|] eqn:Hd; cbn; [|done].
  destruct (any_supported_type der) as [sk|] eqn:Hs; cbn; [|done]. intros [= <-]. by exists cp, kp, der.
Qed.

(** A name of the default certificate is one of the leaf of its file. *)
Lemma default_san_leaf d cert sans san chain pem : read_default_cert_sans d cert = Ok sans -> san ∈ sans ->
  fs_read d cert = Ok pem -> pem_slice_iter pem = Ok chain ->
  exists leaf rest x names n, chain = leaf :: rest /\ parse_x509_certificate leaf = Ok x /\
    subject_alternative_name x = Ok (Some names) /\ DNSName n ∈ names /\ san = Str.to_ascii_lowercase n.
Proof.
  unfold read_default_cert_sans. intros Hr Hin Hf Hp. rewrite Hf in Hr. cbn in Hr. rewrite Hp in Hr. cbn in Hr.
  destruct chain as [|leaf rest]; [done|]. destruct (parse_x509_certificate leaf) as [x|] eqn:Hx; cbn in Hr; [|done].
  destruct (subject_alternative_name x) as [ext|] eqn:He; cbn in Hr; [|done]. injection Hr as <-.
  apply elem_of_remove_dups, list_elem_of_omap in Hin as ([n|] & Hin & Hn); [|done]. injection Hn as <-.
  destruct ext as [names|]; [|by apply not_elem_of_nil in Hin]. by exists leaf, rest, x, names, n.
Qed.

Lemma own_files_spec d dir h : is_file d (convention_cert dir h) && is_file d (convention_key dir h) = true <-> has_own_files d dir h.
Proof. apply andb_true_iff. Qed.

(** ** What a load finds *)

(** The default certificate names the host. *)
Definition default_names (d : Disk) (def : option (string * string)) (host : string) : Prop :=
  exists cert key pem chain, def = Some (cert, key) /\ fs_read d cert = Ok pem /\ pem_slice_iter pem = Ok chain /\ leaf_names chain host.

Lemma default_covers d def sans host : default_sans d def = Ok sans ->
  (match sans with Some l => any_san_covers l host | None => false end = true <-> default_names d def (Str.to_ascii_lowercase host)).
Proof.
  unfold default_sans. destruct def as [[cert key]|]; [|intros [= <-]; split; [done|by intros (? & ? & ? & ? & [=] & _)]].
  destruct (read_default_cert_sans d cert) as [l|] eqn:Hr; cbn; [|done]. intros [= <-]. rewrite any_san_covers_spec. split.
  - intros (san & Hin & Hc). pose proof Hr as Hr'. unfold read_default_cert_sans in Hr'.
    destruct (fs_read d cert) as [pem|] eqn:Hf; cbn in Hr'; [|done]. destruct (pem_slice_iter pem) as [chain|] eqn:Hp; cbn in Hr'; [|done].
    destruct (default_san_leaf _ _ _ _ _ _ Hr Hin Hf Hp) as (leaf & rest & x & names & n & -> & ? & ? & ? & ->).
    exists cert, key, pem, (leaf :: rest). split_and!; try done. by exists leaf, rest, x, names, n.
  - intros (cert' & key' & pem & chain & [= <- <-] & Hf & Hp & (leaf & rest & x & names & n & -> & Hx & Hs & Hin & Hc)).
    unfold read_default_cert_sans in Hr. rewrite Hf in Hr. cbn in Hr. rewrite Hp in Hr. cbn in Hr. rewrite Hx in Hr. cbn in Hr.
    rewrite Hs in Hr. cbn in Hr. injection Hr as <-. exists (Str.to_ascii_lowercase n). split; [|done].
    apply elem_of_remove_dups, list_elem_of_omap. by exists (DNSName n).
Qed.

Lemma load_route_exact d rule dir def sans route now r : default_sans d def = Ok sans ->
  load_route_cert d (mkContext rule dir def sans) route now = Ok r ->
  match r with
  | Some e => entry_from d dir def route e
  | None => ~ has_own_files d dir (hostname route) /\ ~ default_names d def (lc_hostname route)
  end.
Proof.
  intros Hsans. pose proof (default_covers d def sans (hostname route) Hsans) as Hcov.
  unfold load_route_cert. cbn -[convention_cert convention_key].
  destruct (is_file d _ && is_file d _) eqn:Hfiles.
  - apply own_files_spec in Hfiles. destruct (load_pem_pair _ _ _ _ _) as [k|] eqn:Hl; cbn; [|done]. intros [= <-].
    by apply load_pem_pair_ok in Hl.
  - assert (~ has_own_files d dir (hostname route)) as Hno by (rewrite <- own_files_spec; congruence).
    destruct def as [[cert key]|].
    2:{ intros [= <-]. split; [done|]. by intros (? & ? & ? & ? & [=] & _). }
    destruct (match sans with Some l => any_san_covers l (hostname route) | None => false end).
    2:{ intros [= <-]. split; [done|]. intros Hd. by apply Hcov in Hd. }
    destruct (proj1 Hcov eq_refl) as (cert' & key' & pem & chain & [= <- <-] & Hf & Hp & Hleaf).
    destruct (load_pem_pair _ _ _ _ _) as [k|] eqn:Hl; cbn; [|done]. intros [= <-]. apply load_pem_pair_ok in Hl.
    unfold entry_from. cbn. split_and!; [done..|]. destruct Hl as (pem' & ? & ? & Hf' & _ & Hp' & _).
    rewrite Hf in Hf'. injection Hf' as <-. rewrite Hp in Hp'. by injection Hp' as <-.
Qed.

(** A load that succeeds serves every route that has a source, and names the
    others. *)
Lemma load_each_exact d rule dir def sans routes now : default_sans d def = Ok sans ->
  forall s less s' less', load_each d (mkContext rule dir def sans) routes now s less = (s', Ok less') ->
  (forall k, is_Some (cs_entries s !! k) -> is_Some (cs_entries s' !! k)) /\
  (forall route, route ∈ routes -> is_Some (cs_entries s' !! lc_hostname route) \/
     ~ has_own_files d dir (hostname route) /\ ~ default_names d def (lc_hostname route) /\ hostname route ∈ less') /\
  (forall h, h ∈ less -> h ∈ less').
Proof.
  intros Hsans. induction routes as [|route routes IH]; intros s less s' less'; cbn [load_each].
  { intros [= <- <-]. split_and!; [done| |done]. by intros route ?%not_elem_of_nil. }
  destruct (load_route_cert _ _ _ _) as [[e|]|] eqn:Hl; [|..|done].
  - intros (Hk & Hr & Hless)%IH. split_and!; [| |done].
    + intros k Hs. apply Hk. cbn. destruct (decide (k = Str.to_ascii_lowercase (hostname route))) as [->|]; [rewrite lookup_insert_eq; by eexists|by rewrite lookup_insert_ne].
    + intros r [->|Hin]%elem_of_cons; [left|by apply Hr]. apply Hk. cbn. unfold lc_hostname. rewrite lookup_insert_eq. by eexists.
  - apply (load_route_exact _ _ _ _ _ _ _ _ Hsans) in Hl. intros (Hk & Hr & Hless)%IH. split_and!; [done| |].
    + intros r [->|Hin]%elem_of_cons; [right|by apply Hr]. destruct Hl. split_and!; [done..|]. apply Hless. set_solver.
    + intros h ?. apply Hless. set_solver.
Qed.

(** ** The store over a run *)

Record store_inv (ops : list StoreOp) (st : StoreState) : Prop := {
  si_entries k e : cs_entries (ss_store st) !! k = Some e -> right_for ops k e;
  si_specs k s : cs_specs (ss_store st) !! k = Some s -> configured ops k (rs_route s) (rs_cert_dir s) (rs_default s);
  si_pending h e : (h, Some (Ok (Some e))) ∈ ss_pending st -> right_for ops (Str.to_ascii_lowercase h) e
}.

Lemma store_inv_app ops ops' st : store_inv ops st -> store_inv (ops ++ ops') st.
Proof.
  intros [He Hs Hp]. split.
  - intros k e ?%He. by apply right_for_app.
  - intros k s (Hh & d & rule & routes & now & Hl & Hr)%Hs. split; [done|]. exists d, rule, routes, now. split; [apply elem_of_app; by left|done].
  - intros h e ?%Hp. by apply right_for_app.
Qed.

Lemma load_each_inv ops d rule all dir def sans now p : default_sans d def = Ok sans -> OpLoad d rule all dir def now ∈ ops ->
  forall routes s less, (forall r, r ∈ routes -> r ∈ all) -> store_inv ops (mkStoreState s p) ->
  store_inv ops (mkStoreState (fst (load_each d (mkContext rule dir def sans) routes now s less)) p).
Proof.
  intros Hsans Hop. induction routes as [|route routes IH]; intros s less Hall Hinv; [done|]. cbn [load_each].
  assert (forall r, r ∈ routes -> r ∈ all) as Hall' by (intros r ?; apply Hall; by right).
  destruct (load_route_cert _ _ _ _) as [[e|]|] eqn:Hl; [|by apply IH|done]. apply IH; [done|].
  apply (load_route_exact _ _ _ _ _ _ _ _ Hsans) in Hl.
  assert (configured ops (lc_hostname route) route dir def) as Hconf.
  { split; [done|]. exists d, rule, all, now. split; [done|]. apply Hall. by left. }
  assert (right_for ops (lc_hostname route) e) as He by (by exists (OpLoad d rule all dir def now), d, route, dir, def).
  destruct Hinv as [Hent Hspec Hpend]. split; cbn in *.
  - intros k e' [[<- <-]|[_ Hk]]%lookup_insert_Some; [done|by eapply Hent].
  - intros k s' [[<- <-]|[_ Hk]]%lookup_insert_Some; [done|by eapply Hspec].
  - done.
Qed.

(** What a reload resolved is right for its host. *)
Lemma resolve_right ops st d host now e : store_inv ops st ->
  reload_resolve d (ss_store st) host now = Some (Ok (Some e)) -> right_for (ops ++ [OpResolve d host now]) (Str.to_ascii_lowercase host) e.
Proof.
  intros [_ Hspec _]. unfold reload_resolve.
  destruct (cs_specs (ss_store st) !! Str.to_ascii_lowercase host) as [spec|] eqn:Hs; [|done]. cbn. intros [= Hr].
  destruct (default_sans d (rs_default spec)) as [sans|] eqn:Hd; cbn in Hr; [|done].
  apply (load_route_exact _ _ _ _ _ _ _ _ Hd) in Hr.
  exists (OpResolve d host now), d, (rs_route spec), (rs_cert_dir spec), (rs_default spec).
  split_and!; [apply elem_of_app; right; by left|done| |done].
  destruct (Hspec _ _ Hs) as (Hh & d' & rule & routes & now' & Hl & Hin). split; [done|].
  exists d', rule, routes, now'. split; [apply elem_of_app; by left|done].
Qed.

Lemma store_step_inv ops st op : store_inv ops st -> store_inv (ops ++ [op]) (store_step st op).
Proof.
  intros Hinv0. pose proof (store_inv_app ops [op] st Hinv0) as Hinv.
  destruct op as [d rule routes dir def now|d host now|i|host]; cbn [store_step].
  - unfold load_routes_into_store. destruct (default_sans d def) eqn:Hs; [|by destruct st].
    apply (load_each_inv _ d rule routes); [done|apply elem_of_app; right; by left|done|by destruct st].
  - destruct Hinv as [Hent Hspec Hpend]. split; cbn; try done. intros h e [Hin|Hin]%elem_of_app; [by apply Hpend|].
    apply list_elem_of_singleton in Hin as [= -> Hr]. by apply (resolve_right ops st).
  - destruct (ss_pending st !! i) as [[host r]|] eqn:Hi; [|done]. destruct Hinv as [Hent Hspec Hpend]. split.
    + intros k e. destruct r as [[[e'|]|]|]; cbn; try by apply Hent.
      * intros [[<- <-]|[_ Hk]]%lookup_insert_Some; [|by apply Hent]. apply Hpend. by eapply list_elem_of_lookup_2.
      * intros [_ Hk]%lookup_delete_Some. by apply Hent.
    + destruct r as [[[e'|]|]|]; cbn; apply Hspec.
    + cbn. intros h e Hin%list_elem_of_delete_inv. by apply Hpend.
  - destruct Hinv as [Hent Hspec Hpend]. split; cbn; try done.
    + intros k e [_ Hk]%lookup_delete_Some. by apply Hent.
    + intros k s [_ Hk]%lookup_delete_Some. by apply Hspec.
Qed.

Lemma store_run_inv ops : store_inv ops (store_run ops).
Proof.
  unfold store_run. induction ops as [|op ops IH] using rev_ind; [split; cbn; intros; set_solver|].
  rewrite foldl_app. by apply store_step_inv.
Qed.

End Certs.

Module CertProps.


(** A certificate file lists its names, a key file is its key. *)
#[export] Instance demo_tls : TlsLib := {|
  tls_error := string; CertificateDer := string; PrivateKeyDer := string; SigningKey := string; X509 := string;
  pem_slice_iter b := match b with [] => Ok [] | _ => Ok [Str.of_bytes b] end;
  from_pem_slice b := match b with [] => Err None | _ => Ok (Str.of_bytes b) end;
  any_supported_type k := Ok k;
  parse_x509_certificate c := Ok c;
  subject_alternative_name c := Ok (Some (DNSName <$> Str.split "," c)) |}.

Definition demo_files : gmap string string :=
  <["/certs/a.example/fullchain.pem" := "a.example"]> (<["/certs/a.example/privkey.pem" := "key-a"]>
  (<["/default.pem" := "*.example"]> (<["/default.key" := "key-d"]> ∅))).

Definition demo_disk : Disk := mkDisk (fun p => bool_decide (is_Some (demo_files !! p)))
  (fun p => match demo_files !! p with Some s => Ok (Str.to_bytes s) | None => Err "not found" end).

Definition demo_http_route (host : string) : HttpRoute := mkRoute host ("http", "10.0.0.1", 8080) None [].
Definition demo_load : StoreOp :=
  OpLoad demo_disk "__https__" [demo_http_route "A.example"; demo_http_route "b.example"; demo_http_route "b.c.example"]
    "/certs" (Some ("/default.pem", "/default.key")) 7.

Definition demo_entry_b : CertEntry := mkEntry (mkCertified ["*.example"] "key-d") (OriginDefault "/default.pem" "/default.key") 7.


(** A host removed between the two locks of [reload_host] is back in the store
    afterwards, without a spec. *)
Lemma removed_host_returns :
  let st := store_run [demo_load; OpResolve demo_disk "b.example" 9; OpRemove "b.example"; OpCommit 0] in
  store_contains (ss_store st) "b.example" = true /\ cs_specs (ss_store st) !! "b.example" = None.
Proof. split; by vm_compute. Qed.

(** Host [a] fails to watch the directory and host [b] then succeeds: removing
    [a] ends the watch that [b] needs. *)
Lemma failed_watch_steals_count :
  let w0 := mkWatcher ∅ ∅ in
  let w1 := watcher_register (fun _ => false) w0 "a" ["/certs/x.pem"] in
  let w2 := watcher_register (fun _ => true) w1 "b" ["/certs/x.pem"] in
  watched_dirs w2 !! "/certs" = Some 1%nat /\ watched_dirs (watcher_unregister w2 "a") !! "/certs" = None /\
  host_paths (watcher_unregister w2 "a") !! "b" = Some ["/certs/x.pem"].
Proof. split_and!; by vm_compute. Qed.

End CertProps.
