(* ===== verification/HttpForward.v ===== *)
(** * Forwarding of HTTP requests ([yggdrasil/src/proxy/forward.rs],
    [http_frontend/route.rs], [http_frontend/request.rs], [h3_frontend.rs])

    The route table, the header surgery of both transports and the handling of
    one request up to the response.  The backend is an argument; bodies other
    than the buffered one of HTTP/3 are not modelled. *)

From S2P Require Import Prelude RustStd External Instances RuleTypes Error Rule RuleSet NetFmt ProxyProtocol.

(** ** The crate http *)

Class HttpLib := {
  HeaderName : Type;
  HeaderValue : Type;
  HeaderMap : Type;
  Uri : Type;
  #[global] HeaderName_eq_dec :: EqDecision HeaderName;
  from_static : string -> HeaderName;
  name_from_bytes : string -> option HeaderName;
  value_from_str : string -> option HeaderValue;
  value_to_str : HeaderValue -> option string;
  get_all : HeaderMap -> HeaderName -> list HeaderValue;
  hm_remove : HeaderMap -> HeaderName -> HeaderMap;
  hm_insert : HeaderMap -> HeaderName -> HeaderValue -> HeaderMap;
  hm_empty : HeaderMap;
  uri_authority : Uri -> option string;
  uri_path_and_query : Uri -> option string;
  (** [Uri::builder()] with the scheme [http] and this authority and path *)
  build_http_uri : string -> string -> option Uri
}.

(** What the documentation of [HeaderMap], [HeaderName] and [HeaderValue] says. *)
Class HttpLaws `{HttpLib} : Prop := {
  from_static_inj a b : from_static a = from_static b -> a = b;
  get_all_remove m k : get_all (hm_remove m k) k = [];
  get_all_remove_ne m k k' : k <> k' -> get_all (hm_remove m k) k' = get_all m k';
  get_all_insert m k v : get_all (hm_insert m k v) k = [v];
  get_all_insert_ne m k k' v : k <> k' -> get_all (hm_insert m k v) k' = get_all m k';
  value_from_visible s : Forall (fun c => 32 <= Str.code c < 127) (Str.to_list s) -> is_Some (value_from_str s)
}.

(** ** Strings *)

Definition eq_ignore_ascii_case (a b : string) : bool := bool_decide (Str.to_ascii_lowercase a = Str.to_ascii_lowercase b).

Fixpoint contains_list (p l : list ascii) : bool :=
  Str.starts_with_list p l || match l with [] => false | _ :: l' => contains_list p l' end.
Definition str_contains (s p : string) : bool := contains_list (Str.to_list p) (Str.to_list s).

(** [trim_end_matches('.')]. *)
Definition trim_end_dots (s : string) : string :=
  Str.of_list (rev (Str.drop_while (fun c => bool_decide (c = "."%char)) (rev (Str.to_list s)))).

(** The host in front of the last colon. *)
Definition without_port (host : string) : string :=
  match Str.rsplit_once ":" host with Some (h, _) => h | None => host end.

(** A double quote and a line feed. *)
Definition LF : string := String (ascii_of_N 10) "".
Definition DQ : string := String (ascii_of_N 34) "".

Section HttpForward.
Context `{UrlLib} `{HttpLib}.

(** ** Routes ([route.rs]) *)

Record RouteEntry := mkRouteEntry {
  re_target : Url;
  re_hsts : option HstsConfig;
  re_headers : list (string * string);
  re_rule_name : string
}.

Definition RouteTable : Type := gmap string RouteEntry.

(** [extend]: the hosts that were replaced, in order. *)
Fixpoint table_extend (t : RouteTable) (routes : list HttpRoute) (rule_name : string) : RouteTable * list string :=
  match routes with
  | [] => (t, [])
  | r :: routes =>
      let key := lc_hostname r in
      let '(t', replaced) := table_extend (<[key := mkRouteEntry (route_target r) (hsts r) (headers r) rule_name]> t) routes rule_name in
      (t', if bool_decide (is_Some (t !! key)) then key :: replaced else replaced)
  end.

Definition table_build (routes : list HttpRoute) (rule_name : string) : RouteTable := fst (table_extend ∅ routes rule_name).

Definition remove_by_rule (t : RouteTable) (rule_name : string) : RouteTable := filter (fun kv => re_rule_name (snd kv) <> rule_name) t.

Definition table_lookup (t : RouteTable) (host : string) : option RouteEntry :=
  t !! Str.to_ascii_lowercase (without_port (trim_end_dots host)).

(** ** Header surgery ([forward.rs]) *)

Definition CONNECTION : HeaderName := from_static "connection".
Definition UPGRADE : HeaderName := from_static "upgrade".
Definition HOST : HeaderName := from_static "host".

Definition hop_by_hop_headers : list HeaderName :=
  [CONNECTION; from_static "proxy-authenticate"; from_static "proxy-authorization"; from_static "te"; from_static "trailer";
   from_static "transfer-encoding"; UPGRADE].

Definition untrusted_headers : list HeaderName :=
  from_static <$> ["x-forwarded-for"; "x-forwarded-proto"; "x-forwarded-protocol"; "x-forwarded-host"; "x-forwarded-port"; "x-real-ip"; "forwarded"].

Definition remove_all (h : HeaderMap) (names : list HeaderName) : HeaderMap := foldl hm_remove h names.

Definition strip_untrusted_forwarding (h : HeaderMap) : HeaderMap := remove_all h untrusted_headers.

(** The names a [Connection] header nominates. *)
Definition nominated (h : HeaderMap) : list HeaderName :=
  strs ← omap value_to_str (get_all h CONNECTION);
  omap (fun tok =>
          let t := Str.trim tok in
          if eq_ignore_ascii_case t "close" || eq_ignore_ascii_case t "keep-alive" then None else name_from_bytes t)
       (Str.split "," strs).

Definition strip_hop_by_hop (h : HeaderMap) : HeaderMap := remove_all (remove_all h (nominated h)) hop_by_hop_headers.

Definition insert_if (h : HeaderMap) (names : list string) (v : option HeaderValue) : HeaderMap :=
  match v with Some v => foldl (fun h n => hm_insert h (from_static n) v) h names | None => h end.

Definition inject_forwarded (h : HeaderMap) (client_ip : Net.IpAddr) (host : option string) (scheme : string) : HeaderMap :=
  let h := insert_if h ["x-forwarded-for"; "x-real-ip"] (value_from_str (show_ip client_ip)) in
  let h := insert_if h ["x-forwarded-proto"; "x-forwarded-protocol"] (value_from_str scheme) in
  match host with Some host => insert_if h ["x-forwarded-host"] (value_from_str host) | None => h end.

Definition hsts_value (cfg : HstsConfig) : string :=
  "max-age=" +:+ Str.show_uint (max_age cfg) +:+ (if include_subdomains cfg then "; includeSubDomains" else "") +:+
  (if preload cfg then "; preload" else "").

Definition maybe_inject_hsts (h : HeaderMap) (cfg : option HstsConfig) : HeaderMap :=
  match cfg with
  | None => h
  | Some cfg =>
      match get_all h (from_static "strict-transport-security") with
      | _ :: _ => h
      | [] => insert_if h ["strict-transport-security"] (value_from_str (hsts_value cfg))
      end
  end.

Definition apply_static_response_headers (h : HeaderMap) (statics : list (string * string)) : HeaderMap :=
  foldl (fun h '(n, v) => match name_from_bytes n, value_from_str v with
                          | Some hn, Some hv => hm_insert h hn hv
                          | _, _ => h
                          end) h statics.

Definition build_upstream_uri (orig : Uri) (upstream : Url) : option Uri :=
  let pq := default "/" (uri_path_and_query orig) in
  authority ← match url_host_str upstream, url_port_or_known_default upstream with
              | Some h, Some p => Some (h +:+ ":" +:+ Str.show_uint p)
              | Some h, None => Some h
              | None, _ => None
              end;
  build_http_uri authority pq.

(** ** One request on HTTP/1.1 or HTTP/2 ([request.rs]) *)

Record Request := mkRequest { rq_connect : bool; rq_http11 : bool; rq_uri : Uri; rq_headers : HeaderMap }.
Record Response := mkResponse { resp_status : Z; resp_headers : HeaderMap; resp_text : string }.

Record ConnContext := mkConn {
  cx_rule : option Rule;
  cx_client_addr : Net.SocketAddr;
  cx_routes : RouteTable;
  cx_tls : bool;
  cx_emit_alt_svc : bool
}.

Definition forwarded_scheme (ctx : ConnContext) : string := if cx_tls ctx then "https" else "http".

Definition hm_get (h : HeaderMap) (n : HeaderName) : option string := v ← head (get_all h n); value_to_str v.

Definition extract_host (r : Request) : option string :=
  match uri_authority (rq_uri r) with Some a => Some a | None => hm_get (rq_headers r) HOST end.

Definition mentions_upgrade (h : HeaderMap) : bool :=
  match hm_get h CONNECTION with Some s => str_contains (Str.to_ascii_lowercase s) "upgrade" | None => false end.

Definition is_websocket_upgrade (h : HeaderMap) : bool :=
  match hm_get h UPGRADE with Some s => eq_ignore_ascii_case s "websocket" | None => false end && mentions_upgrade h.

Definition short_response (status : Z) (body : string) : Response :=
  mkResponse status (insert_if hm_empty ["content-type"] (value_from_str "text/plain; charset=utf-8")) body.

Definition sanitise_request_headers (h : HeaderMap) : HeaderMap := strip_untrusted_forwarding (strip_hop_by_hop h).

Definition sanitise_request_headers_for_websocket (h : HeaderMap) : HeaderMap :=
  let h := remove_all h (from_static <$> ["proxy-authenticate"; "proxy-authorization"; "te"; "trailer"; "transfer-encoding"]) in
  let h := if mentions_upgrade h then h else hm_remove h CONNECTION in
  strip_untrusted_forwarding h.

Definition sanitise_response_headers (h : HeaderMap) : HeaderMap := strip_hop_by_hop h.

Definition maybe_inject_alt_svc (resp : Response) (ctx : ConnContext) : Response :=
  match cx_rule ctx with
  | Some rule =>
      if negb (cx_tls ctx) || negb (cx_emit_alt_svc ctx) || negb (bool_decide (protocol rule = Https)) then resp
      else match get_all (resp_headers resp) (from_static "alt-svc") with
           | _ :: _ => resp
           | [] =>
               let value := "h3=" +:+ DQ +:+ ":" +:+ Str.show_uint (Net.port (listen rule)) +:+ DQ +:+ "; ma=86400" in
               mkResponse (resp_status resp) (insert_if (resp_headers resp) ["alt-svc"] (value_from_str value)) (resp_text resp)
           end
  | None => resp
  end.

(** What goes to the backend. *)
Definition outgoing (sanitise : HeaderMap -> HeaderMap) (r : Request) (client_ip : Net.IpAddr) (host scheme : string) (upstream : Url) :
    option Request :=
  uri ← build_upstream_uri (rq_uri r) upstream;
  Some (mkRequest (rq_connect r) true uri (inject_forwarded (sanitise (rq_headers r)) client_ip (Some host) scheme)).

Section Backend.
Variable backend : Request -> option Response.

Definition sanitise_response (r : Response) : Response :=
  mkResponse (resp_status r) (sanitise_response_headers (resp_headers r)) (resp_text r).

Definition forward_normal (ctx : ConnContext) (r : Request) (upstream : Url) (host : string) : option Response :=
  out ← outgoing sanitise_request_headers r (Net.ip (cx_client_addr ctx)) host (forwarded_scheme ctx) upstream;
  resp ← backend out;
  Some (sanitise_response resp).

(** After a [101] the connection is bridged and the response goes through. *)
Definition forward_websocket (ctx : ConnContext) (r : Request) (upstream : Url) (host : string) : option Response :=
  out ← outgoing sanitise_request_headers_for_websocket r (Net.ip (cx_client_addr ctx)) host (forwarded_scheme ctx) upstream;
  resp ← backend out;
  Some (if resp_status resp =? 101 then resp else sanitise_response resp).

(** The headers of a route's policy. *)
Definition with_policy (entry : RouteEntry) (resp : Response) : Response :=
  mkResponse (resp_status resp)
    (apply_static_response_headers (maybe_inject_hsts (resp_headers resp) (re_hsts entry)) (re_headers entry)) (resp_text resp).

Definition serve_request (ctx : ConnContext) (r : Request) : Response :=
  match extract_host r with
  | None => maybe_inject_alt_svc (short_response 400 "") ctx
  | Some host =>
      match table_lookup (cx_routes ctx) host with
      | None => maybe_inject_alt_svc (short_response 404 ("no route" +:+ LF)) ctx
      | Some entry =>
          let is_websocket := rq_http11 r && is_websocket_upgrade (rq_headers r) in
          let resp := (if is_websocket then forward_websocket else forward_normal) ctx r (re_target entry) host in
          maybe_inject_alt_svc (with_policy entry (default (short_response 502 "") resp)) ctx
      end
  end.

(** ** One request on HTTP/3 ([h3_frontend.rs]) *)

(** [collect_h3_request_body]: [None] is [TooLarge]. *)
Fixpoint collect_h3_request_body (cap : Z) (buf : list byte) (chunks : list (list byte)) : option (list byte) :=
  match chunks with
  | [] => Some buf
  | chunk :: chunks =>
      if cap <? saturating_add 64 (zlen buf) (zlen chunk) then None else collect_h3_request_body cap (buf ++ chunk) chunks
  end.

Definition websocket_h3_501 : Response :=
  mkResponse 501 (insert_if (insert_if hm_empty ["content-type"] (value_from_str "text/plain; charset=utf-8"))
                    ["sec-websocket-version"] (value_from_str "13"))
    ("websocket-over-h3 (RFC 9220 extended CONNECT) not supported; fall back to HTTP/2" +:+ LF).

(** [chunks]: the body, up to its end. *)
Definition handle_stream (routes : RouteTable) (peer_addr : Net.SocketAddr) (request_body_limit : Z) (r : Request) (chunks : list (list byte)) :
    Response :=
  match extract_host r with
  | None => short_response 400 ("missing :authority/Host" +:+ LF)
  | Some host =>
      match table_lookup routes host with
      | None => short_response 404 ("no route" +:+ LF)
      | Some entry =>
          if rq_connect r then websocket_h3_501
          else match outgoing sanitise_request_headers r (Net.ip peer_addr) host "https" (re_target entry) with
               | None => short_response 502 ("bad upstream" +:+ LF)
               | Some out =>
                   match collect_h3_request_body request_body_limit [] chunks with
                   | None => short_response 413 ("request body exceeds h3 buffer cap" +:+ LF)
                   | Some _ =>
                       match backend out with
                       | None => short_response 502 ("backend unreachable" +:+ LF)
                       | Some resp => with_policy entry (sanitise_response resp)
                       end
                   end
               end
      end
  end.

End Backend.

(** ** What the backend sees *)

Context `{!HttpLaws}.

Lemma get_all_remove_all names h k : get_all (remove_all h names) k = if decide (k ∈ names) then [] else get_all h k.
Proof.
  revert h. induction names as [|n names IH]; intros h.
  - destruct (decide (k ∈ [])) as [Hk|]; [by apply not_elem_of_nil in Hk|done].
  - cbn. rewrite IH. destruct (decide (k = n)) as [->|Hne].
    + rewrite get_all_remove. destruct (decide (n ∈ n :: names)) as [|Hn]; [by destruct (decide _)|]. destruct Hn. apply list_elem_of_here.
    + rewrite get_all_remove_ne by done. apply decide_ext. rewrite elem_of_cons. naive_solver.
Qed.

Lemma get_all_insert_if names h v k :
  get_all (insert_if h names v) k = match v with
                                    | Some v => if decide (k ∈ from_static <$> names) then [v] else get_all h k
                                    | None => get_all h k
                                    end.
Proof.
  destruct v as [v|]; [|done]. cbn [insert_if]. revert h. induction names as [|n names IH]; intros h.
  - destruct (decide (k ∈ _)) as [Hk|]; [by apply not_elem_of_nil in Hk|done].
  - cbn [foldl]. rewrite IH. destruct (decide (k = from_static n)) as [->|Hne].
    + rewrite get_all_insert. destruct (decide (from_static n ∈ from_static <$> n :: names)) as [|Hn]; [by destruct (decide _)|].
      destruct Hn. apply list_elem_of_here.
    + rewrite get_all_insert_ne by done. apply decide_ext. rewrite fmap_cons, elem_of_cons. naive_solver.
Qed.

Lemma show_ip_value ip : is_Some (value_from_str (show_ip ip)).
Proof.
  apply value_from_visible. assert (addr_text (show_ip ip)) as Ht by (destruct ip; [apply show_ipv4_text|apply show_ipv6_text]).
  eapply Forall_impl; [exact Ht|]. intros c Hc%bool_decide_eq_true.
  assert (Forall (fun c => 32 <= Str.code c < 127) (Str.to_list "0123456789abcdef:.")) as Hall by (repeat constructor; by vm_compute).
  by eapply Forall_forall in Hc; [|exact Hall].
Qed.

Lemma get_inject b ip host scheme k :
  get_all (inject_forwarded b ip (Some host) scheme) k =
  if decide (k ∈ from_static <$> ["x-forwarded-host"]) then match value_from_str host with Some v => [v] | None => get_all b k end
  else if decide (k ∈ from_static <$> ["x-forwarded-proto"; "x-forwarded-protocol"])
  then match value_from_str scheme with Some v => [v] | None => get_all b k end
  else if decide (k ∈ from_static <$> ["x-forwarded-for"; "x-real-ip"])
  then match value_from_str (show_ip ip) with Some v => [v] | None => get_all b k end
  else get_all b k.
Proof.
  assert (forall l1 l2 : list string, forallb (fun a => negb (bool_decide (a ∈ l2))) l1 = true -> k ∈ from_static <$> l1 -> k ∈ from_static <$> l2 -> False) as Hdis.
  { intros l1 l2 Hd (a & -> & Ha)%list_elem_of_fmap (b' & Hb & Hin)%list_elem_of_fmap. apply from_static_inj in Hb as ->.
    rewrite forallb_forall in Hd. specialize (Hd b' (proj1 (list_elem_of_In _ _) Ha)). by rewrite bool_decide_true in Hd. }
  unfold inject_forwarded. rewrite !get_all_insert_if.
  destruct (decide (k ∈ from_static <$> ["x-forwarded-host"])) as [Ha|_],
    (decide (k ∈ from_static <$> ["x-forwarded-proto"; "x-forwarded-protocol"])) as [Hb|_],
    (decide (k ∈ from_static <$> ["x-forwarded-for"; "x-real-ip"])) as [Hc|_];
    first [exfalso; first [refine (Hdis _ _ _ Ha Hb); reflexivity|refine (Hdis _ _ _ Ha Hc); reflexivity|refine (Hdis _ _ _ Hb Hc); reflexivity]
          |repeat case_match; done].
Qed.

(** The request without what must not reach the backend. *)
Definition sanitised (websocket : bool) : HeaderMap -> HeaderMap :=
  if websocket then sanitise_request_headers_for_websocket else sanitise_request_headers.

Lemma sanitised_untrusted ws h k : k ∈ untrusted_headers -> get_all (sanitised ws h) k = [].
Proof.
  intros Hk. destruct ws; cbn [sanitised]; unfold sanitise_request_headers_for_websocket, sanitise_request_headers, strip_untrusted_forwarding;
    by rewrite get_all_remove_all, decide_True.
Qed.

Lemma sanitised_kept ws h k : k ∉ untrusted_headers -> k ∉ hop_by_hop_headers -> (ws = false -> k ∉ nominated h) ->
  get_all (sanitised ws h) k = get_all h k.
Proof.
  intros Hu Hh Hn. destruct ws; cbn [sanitised]; unfold sanitise_request_headers_for_websocket, sanitise_request_headers, strip_untrusted_forwarding.
  - rewrite get_all_remove_all, decide_False by done. unfold hop_by_hop_headers in Hh.
    case_match; [|rewrite get_all_remove_ne by (intros <-; set_solver)]; (rewrite get_all_remove_all, decide_False; [done|set_solver]).
  - rewrite get_all_remove_all, decide_False by done. unfold strip_hop_by_hop. by rewrite !get_all_remove_all, !decide_False by auto.
Qed.

End HttpForward.

Module HttpForwardProps.

(** Whether a static name is in a list of static names. *)
Ltac names Hin Hout :=
  repeat match goal with
         | |- context [decide (from_static ?a ∈ from_static <$> ?l)] =>
             first [rewrite (decide_True (P := from_static a ∈ from_static <$> l) _ _ (Hin l a ltac:(apply (bool_decide_unpack _); vm_compute; exact I)))
                   |rewrite (decide_False (P := from_static a ∈ from_static <$> l) _ _ (Hout l a ltac:(apply (bool_decide_unpack _); vm_compute; exact I)))]
         end.

(** A [Connection] header of the request lists the name, among those its commas
    separate, and it is not an option of the connection itself. *)
Definition nominates `{UrlLib} `{HttpLib} (h : HeaderMap) (k : HeaderName) : Prop :=
  exists v s tok, v ∈ get_all h (from_static "connection") /\ value_to_str v = Some s /\ tok ∈ Str.split "," s /\
    eq_ignore_ascii_case (Str.trim tok) "close" = false /\ eq_ignore_ascii_case (Str.trim tok) "keep-alive" = false /\
    name_from_bytes (Str.trim tok) = Some k.

Lemma nominated_spec `{UrlLib} `{HttpLib} h k : k ∈ nominated h <-> nominates h k.
Proof.
  unfold nominated, nominates. rewrite list_elem_of_bind. split.
  - intros (s & (tok & Htok & Hk)%list_elem_of_omap & (v & Hv & Hs)%list_elem_of_omap). exists v, s, tok.
    destruct (eq_ignore_ascii_case (Str.trim tok) "close"), (eq_ignore_ascii_case (Str.trim tok) "keep-alive"); done.
  - intros (v & s & tok & Hv & Hs & Htok & Hc & Hka & Hk). exists s. split; apply list_elem_of_omap; [|by exists v].
    exists tok. by rewrite Hc, Hka.
Qed.

(** C15: The forwarding headers a backend receives are the proxy's own, whatever
    the client sent: the client's address, the scheme and the host, each once,
    and no [Forwarded] or [X-Forwarded-Port]; on a plain request no hop-by-hop
    header, and none a [Connection] header nominates, goes through; everything
    else does, unchanged; and the request goes to the route's target. *)
Theorem backend_request_exact `{UrlLib} `{HttpLaws} ws r ip host scheme upstream out :
  outgoing (sanitised ws) r ip host scheme upstream = Some out ->
  let sees n := get_all (rq_headers out) (from_static n) in
  build_upstream_uri (rq_uri r) upstream = Some (rq_uri out) /\
  (exists v, value_from_str (show_ip ip) = Some v /\ sees "x-forwarded-for" = [v] /\ sees "x-real-ip" = [v]) /\
  sees "x-forwarded-proto" = option_list (value_from_str scheme) /\ sees "x-forwarded-protocol" = option_list (value_from_str scheme) /\
  sees "x-forwarded-host" = option_list (value_from_str host) /\ sees "x-forwarded-port" = [] /\ sees "forwarded" = [] /\
  (ws = false -> forall k, k ∈ hop_by_hop_headers \/ nominates (rq_headers r) k -> k ∉ untrusted_headers -> get_all (rq_headers out) k = []) /\
  (forall k, k ∉ untrusted_headers -> k ∉ hop_by_hop_headers -> (ws = false -> ~ nominates (rq_headers r) k) ->
     get_all (rq_headers out) k = get_all (rq_headers r) k).
Proof.
  unfold outgoing. destruct (build_upstream_uri _ _) as [uri|] eqn:Hu; [|done]. cbn [mbind option_bind]. intros Heq.
  assert (rq_uri out = uri /\ rq_headers out = inject_forwarded (sanitised ws (rq_headers r)) ip (Some host) scheme) as [-> ->]
    by (by apply (inj Some) in Heq as <-).
  pose proof (get_inject (sanitised ws (rq_headers r)) ip host scheme) as Hg. set (o := inject_forwarded _ _ _ _) in *. clearbody o.
  assert (forall l a, a ∈ l -> from_static a ∈ from_static <$> l) as Hin by (intros l a; apply list_elem_of_fmap_2).
  assert (forall (l : list string) a, a ∉ l -> from_static a ∉ from_static <$> l) as Hout.
  { intros l a Ha (b & Hb%from_static_inj & Hin')%list_elem_of_fmap. by subst. }
  assert (forall k, k ∉ untrusted_headers -> get_all o k =
            get_all (sanitised ws (rq_headers r)) k) as Hother.
  { intros k Hk. unfold untrusted_headers in Hk. rewrite Hg, !decide_False; [done|set_solver..]. }
  split_and!.
  - done.
  - destruct (show_ip_value ip) as [v Hv]. exists v. split_and!; [done|..]; rewrite Hg, Hv; names Hin Hout; done.
  - rewrite Hg. names Hin Hout. destruct (value_from_str scheme); [done|]. apply sanitised_untrusted, Hin. set_solver.
  - rewrite Hg. names Hin Hout. destruct (value_from_str scheme); [done|]. apply sanitised_untrusted, Hin. set_solver.
  - rewrite Hg. names Hin Hout. destruct (value_from_str host); [done|]. apply sanitised_untrusted, Hin. set_solver.
  - rewrite Hg. names Hin Hout. apply sanitised_untrusted, Hin. set_solver.
  - rewrite Hg. names Hin Hout. apply sanitised_untrusted, Hin. set_solver.
  - intros -> k Hk Hnk. rewrite Hother by done. unfold sanitised, sanitise_request_headers, strip_untrusted_forwarding, strip_hop_by_hop.
    rewrite !get_all_remove_all. rewrite <- nominated_spec in Hk. repeat case_decide; naive_solver.
  - intros k Hu' Hh Hn. rewrite <- nominated_spec in Hn. by rewrite Hother, sanitised_kept.
Qed.

Definition visible (s : string) : bool := Str.all_bytes (fun c => (32 <=? Str.code c) && (Str.code c <? 127)) s.

(** Headers as a list of lower-case names and values. *)
#[export] Instance demo_http : HttpLib := {|
  HeaderName := string; HeaderValue := string; HeaderMap := list (string * string); Uri := option string * string;
  from_static := id;
  name_from_bytes s := if visible s then Some (Str.to_ascii_lowercase s) else None;
  value_from_str s := if visible s then Some s else None;
  value_to_str := Some;
  get_all m k := omap (fun '(n, v) => if bool_decide (n = k) then Some v else None) m;
  hm_remove m k := filter (fun nv => fst nv <> k) m;
  hm_insert m k v := filter (fun nv => fst nv <> k) m ++ [(k, v)];
  hm_empty := [];
  uri_authority := fst; uri_path_and_query u := Some (snd u);
  build_http_uri a p := Some (Some a, p) |}.

Lemma demo_get_remove (m : list (string * string)) k k' :
  omap (fun '(n, v) => if bool_decide (n = k') then Some v else None) (filter (fun nv => fst nv <> k) m) =
  if decide (k = k') then [] else omap (fun '(n, v) => if bool_decide (n = k') then Some v else None) m.
Proof.
  induction m as [|[n v] m IH]; [by case_decide|]. rewrite filter_cons. cbn [fst]. destruct (decide (n <> k)) as [Hn|Hn].
  - cbn [omap list_omap]. rewrite IH. repeat case_decide; subst; try done.
  - apply dec_stable in Hn as ->. rewrite IH. cbn [omap list_omap]. case_decide; [done|]. by rewrite bool_decide_false.
Qed.

#[export] Instance demo_http_laws : HttpLaws.
Proof.
  constructor; cbn.
  - done.
  - intros m k. by rewrite demo_get_remove, decide_True.
  - intros m k k' Hk. by rewrite demo_get_remove, decide_False.
  - intros m k v. rewrite omap_app, demo_get_remove, decide_True by done. cbn. by rewrite bool_decide_true.
  - intros m k k' v Hk. rewrite omap_app, demo_get_remove, decide_False by done. cbn. by rewrite bool_decide_false, app_nil_r.
  - intros s Hs. unfold visible, Str.all_bytes. rewrite (proj2 (forallb_forall _ _)); [done|]. intros c Hc%list_elem_of_In.
    rewrite Forall_forall in Hs. specialize (Hs c Hc). apply andb_true_iff. lia.
Qed.

(** A client that claims an address of its own, and nominates a header. *)
Definition demo_request : Request :=
  mkRequest false true (None, "/a?b")
    [("host", "a.example"); ("x-forwarded-for", "127.0.0.1"); ("connection", "keep-alive, X-Secret"); ("x-secret", "1"); ("accept", "*/*")].
Definition demo_client_ip : Net.IpAddr := Net.IpV4 (Net.v4_new 203 0 113 7).

Lemma backend_request_exact_witness :
  exists out, outgoing (sanitised false) demo_request demo_client_ip "a.example" "https" ("http", "10.0.0.1", 8080) = Some out /\
    get_all (rq_headers out) (from_static "forwarded") = [].
Proof.
  eexists. split; [reflexivity|].
  refine (proj1 (proj2 (proj2 (proj2 (proj2 (proj2 (proj2 (backend_request_exact false demo_request demo_client_ip "a.example" "https"
    ("http", "10.0.0.1", 8080) _ _)))))))). reflexivity.
Defined.

(** The lookup strips a trailing dot and a port, but not both: the port hides
    the dot. *)
Lemma dot_and_port_not_found :
  let t := table_build [mkRoute "a.example" ("http", "10.0.0.1", 8080) None []] "r" in
  bool_decide (is_Some (table_lookup t "a.example.")) = true /\ bool_decide (is_Some (table_lookup t "A.example:443")) = true /\
  bool_decide (is_Some (table_lookup t "a.example.:443")) = false.
Proof. split_and!; by vm_compute. Qed.

End HttpForwardProps.
