(* ===== verification/Companion.v ===== *)
(** * The companion listener ([yggdrasil/src/proxy/http_frontend/redirect.rs])

    The listener on port 80 that serves the routes without a certificate to LAN
    peers and redirects the hosts with one to HTTPS: its tables and the handling
    of one request. *)

From S2P Require Import Prelude RustStd External Instances RuleTypes Error Rule RuleSet LanCidrs NetFmt ProxyProtocol HttpForward.

(** ** The hosts to redirect, with how often each was registered *)

Notation HostSet := (gmap string nat).

Definition host_contains (s : HostSet) (host : string) : bool := bool_decide (is_Some (s !! Str.to_ascii_lowercase host)).
Definition host_add (s : HostSet) (host : string) : HostSet :=
  let key := Str.to_ascii_lowercase host in <[key := S (default 0%nat (s !! key))]> s.
Definition host_remove (s : HostSet) (host : string) : HostSet :=
  let key := Str.to_ascii_lowercase host in
  match s !! key with
  | Some c => if (c - 1 =? 0)%nat then delete key s else <[key := (c - 1)%nat]> s
  | None => s
  end.

Section Companion.
Context `{UrlLib} `{HttpLib}.

Record RedirectListener := mkRedirect { rl_hosts : HostSet; rl_plain : RouteTable; rl_lan : option LanCidrs }.

(** [RedirectListener::spawn], with the socket bound. *)
Definition redirect_new : RedirectListener := mkRedirect ∅ ∅ None.

Definition register_host (l : RedirectListener) (host : string) : RedirectListener :=
  mkRedirect (host_add (rl_hosts l) host) (rl_plain l) (rl_lan l).
Definition unregister_host (l : RedirectListener) (host : string) : RedirectListener :=
  mkRedirect (host_remove (rl_hosts l) host) (rl_plain l) (rl_lan l).
Definition listener_is_empty (l : RedirectListener) : bool := bool_decide (rl_hosts l = ∅) && bool_decide (dom (rl_plain l) = ∅).
Definition register_plaintext_routes (l : RedirectListener) (routes : list HttpRoute) (rule_name : string) : RedirectListener * list string :=
  let '(t, replaced) := table_extend (rl_plain l) routes rule_name in (mkRedirect (rl_hosts l) t (rl_lan l), replaced).
Definition unregister_plaintext_routes (l : RedirectListener) (rule_name : string) : RedirectListener :=
  mkRedirect (rl_hosts l) (remove_by_rule (rl_plain l) rule_name) (rl_lan l).
Definition set_lan_cidrs (l : RedirectListener) (snapshot : option LanCidrs) : RedirectListener :=
  mkRedirect (rl_hosts l) (rl_plain l) snapshot.

(** The loop around [TcpListener::bind]: [binds] are the outcomes of the
    attempts, [None] an address in use and [Some false] another error. *)
Fixpoint bind_with_retry (port : Z) (attempt : nat) (binds : list (option bool)) : bool :=
  match binds with
  | [] => false
  | Some ok :: _ => ok
  | None :: binds => if (attempt <? 3)%nat && negb (port =? 0) then bind_with_retry port (S attempt) binds else false
  end.

Definition lan_allows (l : RedirectListener) (peer : Net.SocketAddr) : bool :=
  match rl_lan l with Some lc => lan_contains lc (Net.ip peer) | None => false end.

(** [None]: the [expect] on a value that is no header value. *)
Definition redirect_response (bare_host path_and_query : string) : option Response :=
  location ← value_from_str ("https://" +:+ bare_host +:+ path_and_query);
  Some (mkResponse 301 (hm_insert hm_empty (from_static "location") location) "").

Section Dispatch.
Variable backend : Request -> option Response.

Definition dispatch (l : RedirectListener) (peer : Net.SocketAddr) (r : Request) : option Response :=
  match extract_host r with
  | None => Some (short_response 400 "")
  | Some host =>
      let bare_host := without_port host in
      match table_lookup (rl_plain l) bare_host with
      | Some e =>
          if lan_allows l peer then
            let single_route := [mkRoute bare_host (re_target e) None []] in
            Some (serve_request backend (mkConn None peer (table_build single_route (re_rule_name e)) false false) r)
          else Some (short_response 404 ("no route" +:+ LF))
      | None =>
          if host_contains (rl_hosts l) bare_host
          then redirect_response bare_host (default "/" (uri_path_and_query (rq_uri r)))
          else Some (short_response 404 ("no route" +:+ LF))
      end
  end.

End Dispatch.

(** ** Lemmas *)

Lemma host_add_lookup s h k : host_add s h !! k = if decide (Str.to_ascii_lowercase h = k) then Some (S (default 0%nat (s !! k))) else s !! k.
Proof. unfold host_add. case_decide as Hk; [by rewrite <- Hk, lookup_insert_eq|by rewrite lookup_insert_ne]. Qed.

Lemma host_remove_lookup s h k : host_remove s h !! k =
  if decide (Str.to_ascii_lowercase h = k)
  then match s !! k with Some c => if (c - 1 =? 0)%nat then None else Some (c - 1)%nat | None => None end
  else s !! k.
Proof.
  unfold host_remove. case_decide as Hk.
  - rewrite Hk. destruct (s !! k) as [c|] eqn:Hs; [|done]. destruct (c - 1 =? 0)%nat; [by rewrite lookup_delete_eq|by rewrite lookup_insert_eq].
  - destruct (s !! Str.to_ascii_lowercase h) as [c|]; [|done]. destruct (c - 1 =? 0)%nat; [by rewrite lookup_delete_ne|by rewrite lookup_insert_ne].
Qed.

(** Plaintext of a route goes to LAN peers only: for anyone else no backend is
    asked. *)
Lemma dispatch_outside_lan backend backend' l peer r : lan_allows l peer = false -> dispatch backend l peer r = dispatch backend' l peer r.
Proof. intros Hlan. unfold dispatch. rewrite Hlan. done. Qed.

End Companion.
