(* ===== verification/Supervisor.v ===== *)
(** * The proxy supervisor ([yggdrasil/src/proxy/supervisor/])

    The table of running proxies, the node-wide HTTPS frontend and its companion
    listeners, and how a new rule set is applied to them ([reconcile.rs]).  What
    the system does during one application, the disk, the clock and the
    outcome of each bind, is a [World]. *)

From S2P Require Import Prelude RustStd External Instances RuleTypes Error Rule RuleSet LanCidrs NetFmt PubKey PeerState ChainTypes.
From S2P Require Import ProxyProtocol Resolver Certs HttpForward Companion.

Definition HTTPS_FRONTEND_NAME : string := "__https__".

Section Supervisor.
Context `{Extern} `{UrlLib} `{TlsLib} `{HttpLib}.

(** ** Data ([handle.rs], [cert_config.rs]) *)

Record CertConfig := mkCertConfig {
  cert_dir : string;
  default_cert : option string;
  default_key : option string;
  redirect_port : option Z;
  https_listen : Net.SocketAddr;
  https_http3 : bool;
  https_alt_svc : bool;
  https_request_body_limit : Z;
  sv_lan_cidrs : LanCidrs
}.

(** [default_cert.zip(default_key)]. *)
Definition server_default (c : CertConfig) : option (string * string) :=
  match default_cert c, default_key c with Some a, Some b => Some (a, b) | _, _ => None end.

(** [HttpFrontend] and [H3Frontend]: the bound address and the routes served. *)
Record Frontend := mkFrontend { fe_addr : Net.SocketAddr; fe_routes : RouteTable }.

Record HttpsHandle := mkHttps {
  hh_frontend : Frontend;
  hh_h3 : option Frontend;
  redirect_hosts : list string;
  redirect_ip : Net.IpAddr;
  hh_listen : Net.SocketAddr;
  hh_name : string
}.

(** [id] tells one run of a proxy from another; [inbound]: it expects a PROXY
    header on what it accepts. *)
Inductive ProxyHandle :=
  | HTcp (id : nat) (rule : Rule) (addr : Net.SocketAddr) (inbound : bool)
  | HUdp (id : nat) (rule : Rule) (addr : Net.SocketAddr) (inbound : bool)
  | HHttps (h : HttpsHandle).

Definition handle_addr (h : ProxyHandle) : Net.SocketAddr :=
  match h with HTcp _ _ a _ | HUdp _ _ a _ => a | HHttps h => hh_listen h end.
Definition handle_name (h : ProxyHandle) : string :=
  match h with HTcp _ r _ _ | HUdp _ r _ _ => name r | HHttps h => hh_name h end.
Definition handle_protocol (h : ProxyHandle) : Protocol :=
  match h with HTcp _ r _ _ | HUdp _ r _ _ => protocol r | HHttps _ => Https end.

Record ActiveProxy := mkActive { ap_handle : ProxyHandle; upstream_description : string; cert_less_route_count : nat }.

Record ProxySnapshot := mkSnapshot {
  sn_name : string;
  sn_protocol : Protocol;
  sn_listen : Net.SocketAddr;
  sn_upstream : string;
  sn_cert_less : nat
}.

Record SupervisorConfig := mkSvConfig {
  resolver_factory : ResolverFactory;
  default_bind : option Net.IpAddr;
  cert_config : CertConfig
}.

(** [stopped]: the rules whose proxy was stopped, latest first. *)
Record Supervisor := mkSv {
  active : gmap string ActiveProxy;
  redirect_listeners : gmap Net.IpAddr RedirectListener;
  https_active : option ActiveProxy;
  prev_routes : list HttpRoute;
  current_set : RuleSet;
  cert_store : CertStore;
  cert_watcher : WatcherState;
  next_id : nat;
  stopped : list string
}.

Definition sv_new : Supervisor := mkSv ∅ ∅ None [] (mkRuleSet [] []) store_new (mkWatcher ∅ ∅) 0 [].

Record World := mkWorld {
  w_disk : Disk;
  w_now : Z;
  w_bind : Rule -> option Net.SocketAddr;      (** the L4 listener of a rule *)
  w_redirect_bind : bool;                      (** the companion listener *)
  w_https_bind : option Net.SocketAddr;
  w_h3_bind : option Net.SocketAddr;
  w_watch : string -> bool
}.

Definition with_active (s : Supervisor) (m : gmap string ActiveProxy) (stops : list string) : Supervisor :=
  mkSv m (redirect_listeners s) (https_active s) (prev_routes s) (current_set s) (cert_store s) (cert_watcher s) (next_id s) (stops ++ stopped s).
Definition with_next (s : Supervisor) : Supervisor :=
  mkSv (active s) (redirect_listeners s) (https_active s) (prev_routes s) (current_set s) (cert_store s) (cert_watcher s) (S (next_id s)) (stopped s).
Definition with_redirects (s : Supervisor) (m : gmap Net.IpAddr RedirectListener) : Supervisor :=
  mkSv (active s) m (https_active s) (prev_routes s) (current_set s) (cert_store s) (cert_watcher s) (next_id s) (stopped s).
Definition with_https (s : Supervisor) (h : option ActiveProxy) (routes : list HttpRoute) : Supervisor :=
  mkSv (active s) (redirect_listeners s) h routes (current_set s) (cert_store s) (cert_watcher s) (next_id s) (stopped s).
Definition with_certs (s : Supervisor) (c : CertStore) (w : WatcherState) : Supervisor :=
  mkSv (active s) (redirect_listeners s) (https_active s) (prev_routes s) (current_set s) c w (next_id s) (stopped s).
Definition with_current (s : Supervisor) (set : RuleSet) : Supervisor :=
  mkSv (active s) (redirect_listeners s) (https_active s) (prev_routes s) set (cert_store s) (cert_watcher s) (next_id s) (stopped s).

(** ** L4 proxies ([reconcile.rs]) *)

Definition collect_claimed_addrs (m : gmap string ActiveProxy) : list (Net.SocketAddr * Protocol) :=
  (fun '(_, ap) => (handle_addr (ap_handle ap), handle_protocol (ap_handle ap))) <$> map_to_list m.

Inductive SpawnError :=
  | AddrClaimed (rule : string) (addr : Net.SocketAddr) (p : Protocol)
  | ResolverFailed (rule : string) (e : ResolverBuildError)
  | BindFailed (rule : string)
  | HttpsRule (rule : string).

(** A mid-chain relay whose predecessor prepends a header. *)
Definition expect_inbound_proxy (cfg : SupervisorConfig) (r : Rule) : bool :=
  bool_decide (rf_mode (resolver_factory cfg) = Relay) && bool_decide (proxy_protocol r = Some ProxyV2).

Definition spawn_proxy_for_rule (cfg : SupervisorConfig) (w : World) (r : Rule) (s : Supervisor) : Supervisor * result SpawnError ActiveProxy :=
  let r := with_bind_override r (default_bind cfg) in
  if bool_decide ((listen r, protocol r) ∈ collect_claimed_addrs (active s)) then (s, Err (AddrClaimed (name r) (listen r) (protocol r)))
  else
    let l4 handle :=
      match resolver_build (resolver_factory cfg) r with
      | Err e => (s, Err (ResolverFailed (name r) e))
      | Ok resolver =>
          match w_bind w r with
          | None => (s, Err (BindFailed (name r)))
          | Some addr => (with_next s, Ok (mkActive (handle (next_id s) r addr (expect_inbound_proxy cfg r)) (describe resolver) 0))
          end
      end in
    match protocol r with
    | Tcp => l4 HTcp
    | Udp => l4 HUdp
    | Https => (s, Err (HttpsRule (name r)))
    end.

(** [active.remove(name)], and the stop of what was there. *)
Definition stop_rule (s : Supervisor) (n : string) : Supervisor :=
  match active s !! n with
  | Some ap => with_active s (delete n (active s)) [n]
  | None => s
  end.

Definition start_rule (cfg : SupervisorConfig) (w : World) (s : Supervisor) (r : Rule) : Supervisor :=
  match spawn_proxy_for_rule cfg w r s with
  | (s, Ok ap) => with_active s (<[name r := ap]> (active s)) []
  | (s, Err _) => s
  end.

Definition swap_rule (cfg : SupervisorConfig) (w : World) (s : Supervisor) (c : RuleChange) : Supervisor :=
  start_rule cfg w (stop_rule s (name (change_old c))) (change_new c).

Definition apply_update (cfg : SupervisorConfig) (w : World) (s : Supervisor) (d : RuleDiff) : Supervisor :=
  let s := foldl (fun s r => stop_rule s (name r)) s (removed d) in
  let s := foldl (swap_rule cfg w) s (RuleSet.changed d) in
  foldl (start_rule cfg w) s (added d).

(** ** The HTTPS frontend *)

Definition certed (store : CertStore) (routes : list HttpRoute) : list HttpRoute := filter (fun r => store_contains store (hostname r) = true) routes.

(** [HttpFrontend::spawn] and [H3Frontend::spawn]: no route has a certificate,
    or the bind fails. *)
Definition frontend_spawn (store : CertStore) (routes : list HttpRoute) (bind : option Net.SocketAddr) : option Frontend :=
  match certed store routes with
  | [] => None
  | rs => addr ← bind; Some (mkFrontend addr (table_build rs HTTPS_FRONTEND_NAME))
  end.

Definition update_routes (f : Frontend) (store : CertStore) (routes : list HttpRoute) : Frontend :=
  mkFrontend (fe_addr f) (table_build (certed store routes) HTTPS_FRONTEND_NAME).

Definition in_hosts (hosts : list string) (r : HttpRoute) : bool := existsb (fun c => eq_ignore_ascii_case c (hostname r)) hosts.

(** [register] of the watcher for the hosts that are not cert-less. *)
Definition register_loaded (w : World) (store : CertStore) (routes : list HttpRoute) (cert_less : list string) (cw : WatcherState) :
    WatcherState * list string :=
  foldl (fun '(cw, loaded) r =>
           if in_hosts cert_less r then (cw, loaded)
           else (watcher_register (w_watch w) cw (lc_hostname r) (watched_paths_for store (lc_hostname r)), loaded ++ [lc_hostname r]))
        (cw, []) routes.

(** The plaintext table is cleared and set anew. *)
Definition reset_plaintext (l : RedirectListener) (routes : list HttpRoute) (cert_less : list string) : RedirectListener :=
  let l := unregister_plaintext_routes l HTTPS_FRONTEND_NAME in
  match cert_less with
  | [] => l
  | _ => fst (register_plaintext_routes l (filter (fun r => in_hosts cert_less r = true) routes) HTTPS_FRONTEND_NAME)
  end.

Definition routes_description (routes : list HttpRoute) : string := "https:" +:+ Str.show_uint (zlen routes) +:+ " routes".

(** [None]: an error, after which the caller has no frontend. *)
Definition spawn_https_frontend (cfg : SupervisorConfig) (w : World) (s : Supervisor) (routes : list HttpRoute) : Supervisor * option ActiveProxy :=
  let cc := cert_config cfg in
  let '(store, loaded) := load_routes_into_store (w_disk w) HTTPS_FRONTEND_NAME routes (cert_store s) (cert_dir cc) (server_default cc) (w_now w) in
  match loaded with
  | Err _ => (with_certs s store (cert_watcher s), None)
  | Ok cert_less =>
      let '(cw, loaded_hosts) := register_loaded w store routes cert_less (cert_watcher s) in
      let s := with_certs s store cw in
      let ip := Net.ip (https_listen cc) in
      match (match redirect_listeners s !! ip with
             | Some l => Some l
             | None => if w_redirect_bind w then Some (set_lan_cidrs redirect_new (Some (sv_lan_cidrs cc))) else None
             end) with
      | None => (s, None)
      | Some l =>
          let l := reset_plaintext (foldl register_host l loaded_hosts) routes cert_less in
          match frontend_spawn store routes (w_https_bind w) with
          | None =>
              let cw := foldl watcher_unregister cw loaded_hosts in
              let store := foldl store_remove store loaded_hosts in
              (with_certs (with_redirects s (<[ip := foldl unregister_host l loaded_hosts]> (redirect_listeners s))) store cw, None)
          | Some frontend =>
              let h3 := if https_http3 cc then frontend_spawn store routes (w_h3_bind w) else None in
              let handle := mkHttps frontend h3 loaded_hosts ip (fe_addr frontend) (HTTPS_FRONTEND_NAME +:+ "@" +:+ show_socket_addr (fe_addr frontend)) in
              (with_redirects s (<[ip := l]> (redirect_listeners s)),
               Some (mkActive (HHttps handle) (routes_description routes) (length cert_less)))
          end
      end
  end.

(** The end of a frontend: its hosts leave the companion, its certificates the
    store and the watcher. *)
Definition teardown_https (s : Supervisor) : Supervisor :=
  match https_active s with
  | None => s
  | Some old =>
      let rls := match ap_handle old with
                 | HHttps h =>
                     match redirect_listeners s !! redirect_ip h with
                     | Some l => <[redirect_ip h := unregister_plaintext_routes (foldl unregister_host l (redirect_hosts h)) HTTPS_FRONTEND_NAME]>
                                   (redirect_listeners s)
                     | None => redirect_listeners s
                     end
                 | _ => redirect_listeners s
                 end in
      let hosts := lc_hostname <$> prev_routes s in
      with_https (with_certs (with_redirects s rls) (foldl store_remove (cert_store s) hosts) (foldl watcher_unregister (cert_watcher s) hosts))
        None (prev_routes s)
  end.

Definition hosts_of (routes : list HttpRoute) : gset string := list_to_set (lc_hostname <$> routes).

(** The hosts of [routes] without a certificate, after the added ones were
    loaded. *)
Definition cert_less_of (store : CertStore) (routes : list HttpRoute) : list string :=
  hostname <$> filter (fun r => store_contains store (hostname r) = false) routes.

(** The companion after a swap of the hosts it redirects. *)
Definition swap_hosts (l : RedirectListener) (old new : list string) : RedirectListener :=
  let l := set_fold (fun h l => unregister_host l h) l (list_to_set old ∖ list_to_set new : gset string) in
  set_fold (fun h l => register_host l h) l (list_to_set new ∖ list_to_set old : gset string).

(** [false]: an error, after which the caller tears down. *)
Definition try_hot_swap_routes (cfg : SupervisorConfig) (w : World) (s : Supervisor) (ap : ActiveProxy) (desired : list HttpRoute) :
    Supervisor * bool :=
  match ap_handle ap with
  | HHttps h =>
      let cc := cert_config cfg in
      let removed := hosts_of (prev_routes s) ∖ hosts_of desired in
      let added := hosts_of desired ∖ hosts_of (prev_routes s) in
      let added_routes := filter (fun r => lc_hostname r ∈ added) desired in
      let '(store, loaded) :=
        match added_routes with
        | [] => (cert_store s, Ok [])
        | _ => load_routes_into_store (w_disk w) HTTPS_FRONTEND_NAME added_routes (cert_store s) (cert_dir cc) (server_default cc) (w_now w)
        end in
      match loaded with
      | Err _ => (with_certs s store (cert_watcher s), false)
      | Ok _ =>
          let cert_less := cert_less_of store desired in
          let cw := set_fold (fun h cw => watcher_unregister cw h) (cert_watcher s) removed in
          let '(cw, new_loaded) := register_loaded w store desired cert_less cw in
          let store := set_fold (fun h st => store_remove st h) store removed in
          match redirect_listeners s !! redirect_ip h with
          | None => (with_certs s store cw, false)
          | Some l =>
              let l := reset_plaintext (swap_hosts l (redirect_hosts h) new_loaded) desired cert_less in
              let handle := mkHttps (update_routes (hh_frontend h) store desired) ((fun f => update_routes f store desired) <$> hh_h3 h)
                              new_loaded (redirect_ip h) (hh_listen h) (hh_name h) in
              (with_https (with_certs (with_redirects s (<[redirect_ip h := l]> (redirect_listeners s))) store cw)
                 (Some (mkActive (HHttps handle) (routes_description desired) (length cert_less))) desired, true)
          end
      end
  | _ => (s, false)
  end.

Definition reconcile_https (cfg : SupervisorConfig) (w : World) (s : Supervisor) (desired : list HttpRoute) : Supervisor :=
  let routes_match := bool_decide (desired = prev_routes s) in
  match desired with
  | [] => with_https (teardown_https s) None []
  | _ =>
      if bool_decide (is_Some (https_active s)) && routes_match then s
      else
        let '(s, swapped) := match https_active s with Some ap => try_hot_swap_routes cfg w s ap desired | None => (s, false) end in
        if swapped then s
        else
          let '(s, spawned) := spawn_https_frontend cfg w (teardown_https s) desired in
          match spawned with
          | Some ap => with_https s (Some ap) desired
          | None => with_https s None []
          end
  end.

(** ** A new rule set *)

Definition apply_set (cfg : SupervisorConfig) (w : World) (s : Supervisor) (new_set : RuleSet) : Supervisor :=
  let s := apply_update cfg w s (diff (current_set s) new_set) in
  let s := reconcile_https cfg w s (routes new_set) in
  let s := with_redirects s (filter (fun kl => listener_is_empty (snd kl) = false) (redirect_listeners s)) in
  with_current s new_set.

(** The turns of [supervisor_loop], and the reloads of certificates between
    them. *)
Inductive SupervisorEvent :=
  | SvApply (w : World) (new_set : RuleSet)
  | SvReload (d : Disk) (host : string) (now : Z).

Definition supervisor_step (cfg : SupervisorConfig) (s : Supervisor) (ev : SupervisorEvent) : Supervisor :=
  match ev with
  | SvApply w new_set => apply_set cfg w s new_set
  | SvReload d host now => with_certs s (reload_host d (cert_store s) host now) (cert_watcher s)
  end.

Definition supervisor_loop (cfg : SupervisorConfig) : list SupervisorEvent -> Supervisor := foldl (supervisor_step cfg) sv_new.

(** The end of the loop. *)
Definition supervisor_shutdown (s : Supervisor) : Supervisor :=
  mkSv ∅ ∅ None (prev_routes s) (current_set s) (cert_store s) (cert_watcher s) (next_id s) ((map_to_list (active s)).*1 ++ stopped s).

Definition snapshot_of (ap : ActiveProxy) : ProxySnapshot :=
  mkSnapshot (handle_name (ap_handle ap)) (handle_protocol (ap_handle ap)) (handle_addr (ap_handle ap)) (upstream_description ap) (cert_less_route_count ap).

Definition snapshot_le (a b : ProxySnapshot) : Prop := Str.le (sn_name a) (sn_name b).
#[local] Instance snapshot_le_dec : RelDecision snapshot_le.
Proof. intros a b. unfold snapshot_le, Str.le. apply _. Defined.

Definition publish_snapshot (s : Supervisor) : list ProxySnapshot :=
  merge_sort snapshot_le (snapshot_of <$> ((map_to_list (active s)).*2 ++ option_list (https_active s))).

End Supervisor.
