(* ===== verification/Reload.v ===== *)
(** * Rule reloads

    What applying a rule set does to the proxies of the L4 rules
    ([apply_set] and [apply_update] of [supervisor/reconcile.rs]). *)

From S2P Require Import Prelude RustStd External Instances RuleTypes Error Rule RuleSet LanCidrs NetFmt PubKey PeerState ChainTypes.
From S2P Require Import ProxyProtocol Resolver Certs HttpForward Companion Supervisor.

Section Reload.
Context `{Extern} `{UrlLib} `{TlsLib} `{HttpLib}.
Implicit Types (s : Supervisor) (r : Rule) (w : World).

(** ** Frames *)

(** The HTTPS side leaves the L4 side alone. *)
Definition l4 s := (active s, stopped s, current_set s).

Lemma teardown_l4 s : l4 (teardown_https s) = l4 s.
Proof. unfold teardown_https. by destruct (https_active s). Qed.

Lemma hot_swap_l4 cfg w s ap desired : l4 (fst (try_hot_swap_routes cfg w s ap desired)) = l4 s.
Proof. unfold try_hot_swap_routes. repeat case_match; done. Qed.

Lemma spawn_https_l4 cfg w s routes : l4 (fst (spawn_https_frontend cfg w s routes)) = l4 s.
Proof. unfold spawn_https_frontend. repeat case_match; done. Qed.

Lemma reconcile_l4 cfg w s desired : l4 (reconcile_https cfg w s desired) = l4 s.
Proof.
  unfold reconcile_https. destruct desired as [|d desired]; [apply (teardown_l4 s)|]. case_match; [done|].
  assert (forall s', l4 (let '(s0, spawned) := spawn_https_frontend cfg w (teardown_https s') (d :: desired) in
            match spawned with Some ap => with_https s0 (Some ap) (d :: desired) | None => with_https s0 None [] end) = l4 s') as Hspawn.
  { intros s'. pose proof (spawn_https_l4 cfg w (teardown_https s') (d :: desired)) as Hl. rewrite teardown_l4 in Hl.
    destruct (spawn_https_frontend cfg w _ _) as [s0 [ap|]]; exact Hl. }
  destruct (https_active s) as [ap|]; [|apply Hspawn].
  pose proof (hot_swap_l4 cfg w s ap (d :: desired)) as Hl. destruct (try_hot_swap_routes cfg w s ap (d :: desired)) as [s1 []]; cbn in Hl.
  - exact Hl.
  - by rewrite Hspawn.
Qed.

Lemma apply_set_l4 cfg w s new_set :
  let s' := apply_update cfg w s (diff (current_set s) new_set) in
  active (apply_set cfg w s new_set) = active s' /\ stopped (apply_set cfg w s new_set) = stopped s'.
Proof.
  intros s'. unfold apply_set. fold s'. pose proof (reconcile_l4 cfg w s' (routes new_set)) as Hl.
  unfold l4 in Hl. injection Hl as Ha Hs _. cbn. by rewrite Ha, Hs.
Qed.

(** ** One rule *)

Lemma override_name r b : name (with_bind_override r b) = name r.
Proof. unfold with_bind_override. by repeat case_match. Qed.

Lemma override_protocol r b : protocol (with_bind_override r b) = protocol r.
Proof. unfold with_bind_override. by repeat case_match. Qed.

Lemma stop_active s n k : active (stop_rule s n) !! k = if decide (n = k) then None else active s !! k.
Proof.
  unfold stop_rule. destruct (active s !! n) as [ap|] eqn:Hn; case_decide as Hk; cbn; subst.
  - by rewrite lookup_delete_eq.
  - by rewrite lookup_delete_ne.
  - done.
  - done.
Qed.

Lemma stop_stopped s n : exists l, stopped (stop_rule s n) = l ++ stopped s /\ forall k, k ∈ l -> k = n.
Proof. unfold stop_rule. destruct (active s !! n); [exists [n]; split; [done|set_solver]|exists []; split; [done|set_solver]]. Qed.

Lemma spawn_l4 cfg w r s : active (fst (spawn_proxy_for_rule cfg w r s)) = active s /\ stopped (fst (spawn_proxy_for_rule cfg w r s)) = stopped s.
Proof. unfold spawn_proxy_for_rule. by repeat case_match. Qed.

Lemma start_active_ne cfg w s r k : k <> name r -> active (start_rule cfg w s r) !! k = active s !! k.
Proof.
  intros Hk. unfold start_rule. destruct (spawn_l4 cfg w r s) as [Ha _]. destruct (spawn_proxy_for_rule cfg w r s) as [s' [ap|]]; cbn in *.
  - by rewrite lookup_insert_ne, Ha.
  - by rewrite Ha.
Qed.

Lemma swap_active_ne cfg w s c k : k <> name (change_old c) -> k <> name (change_new c) -> active (swap_rule cfg w s c) !! k = active s !! k.
Proof. intros Ho Hn. unfold swap_rule. rewrite start_active_ne by done. rewrite stop_active. by rewrite decide_False. Qed.

Lemma start_stopped cfg w s r : stopped (start_rule cfg w s r) = stopped s.
Proof.
  unfold start_rule. destruct (spawn_l4 cfg w r s) as [_ Hs]. destruct (spawn_proxy_for_rule cfg w r s) as [s' [ap|]]; done.
Qed.

(** ** Rules that did not change *)

(** What a loop over other names leaves alone. *)
Definition leaves (k : string) s s' : Prop := active s' !! k = active s !! k /\ exists l, stopped s' = l ++ stopped s /\ k ∉ l.

Lemma leaves_refl k s : leaves k s s.
Proof. split; [done|]. exists []. set_solver. Qed.

Lemma leaves_trans k s1 s2 s3 : leaves k s1 s2 -> leaves k s2 s3 -> leaves k s1 s3.
Proof.
  intros [Ha (l & Hl & Hk)] [Ha' (l' & Hl' & Hk')]. split; [by rewrite Ha'|]. exists (l' ++ l). rewrite Hl', Hl, app_assoc. split; [done|].
  rewrite elem_of_app. naive_solver.
Qed.

Lemma leaves_fold {A} k (f : Supervisor -> A -> Supervisor) (l : list A) s : (forall s x, x ∈ l -> leaves k s (f s x)) -> leaves k s (foldl f s l).
Proof.
  revert s. induction l as [|x l IH]; intros s Hf; [apply leaves_refl|]. cbn. eapply leaves_trans; [apply Hf, list_elem_of_here|].
  apply IH. intros s' y Hy. apply Hf. by apply list_elem_of_further.
Qed.

Lemma stop_leaves k s n : k <> n -> leaves k s (stop_rule s n).
Proof.
  intros Hk. split; [rewrite stop_active; by rewrite decide_False|]. destruct (stop_stopped s n) as (l & Hl & Hn). exists l. split; [done|].
  intros Hin%Hn. done.
Qed.

Lemma start_leaves k cfg w s r : k <> name r -> leaves k s (start_rule cfg w s r).
Proof. intros Hk. split; [by apply start_active_ne|]. exists []. rewrite start_stopped. set_solver. Qed.

Lemma unchanged_left cfg w s new_set r : NoDup (name <$> rules (current_set s)) -> NoDup (name <$> rules new_set) ->
  r ∈ rules (current_set s) -> r ∈ rules new_set -> leaves (name r) s (apply_update cfg w s (diff (current_set s) new_set)).
Proof.
  intros Hold Hnew Hr Hr'. unfold apply_update. set (s1 := foldl _ s (removed _)). set (s2 := foldl _ s1 _).
  apply (leaves_trans _ s s1); [|apply (leaves_trans _ s1 s2)].
  - apply leaves_fold. intros s' x Hx. apply diff_removed in Hx as [_ Hx]; [|done..]. apply stop_leaves. intros Heq. apply Hx. rewrite <- Heq.
    by apply list_elem_of_fmap_2.
  - apply leaves_fold. intros s' [o n] Hc. apply diff_changed in Hc as (Ho & Hn & Hname & Hne); [|done..].
    assert (name r <> name n) as Hrn.
    { intros Heq. apply Hne. transitivity r; [|by apply (NoDup_fmap_elem name (rules new_set))]. apply (NoDup_fmap_elem name (rules (current_set s))); congruence. }
    unfold swap_rule. cbn. eapply leaves_trans; [apply stop_leaves|apply start_leaves]; congruence.
  - apply leaves_fold. intros s' x Hx. apply diff_added in Hx as [_ Hx]; [|done..]. apply start_leaves. intros Heq. apply Hx. rewrite <- Heq.
    by apply list_elem_of_fmap_2.
Qed.

(** ** Convergence *)

Lemma fold_keeps {A B} (f : Supervisor -> A -> Supervisor) (xs : list A) (g : Supervisor -> B) :
  (forall s x, x ∈ xs -> g (f s x) = g s) -> forall s, g (foldl f s xs) = g s.
Proof.
  induction xs as [|x xs IH]; intros Hf s; [done|]. cbn. rewrite IH; [apply Hf, list_elem_of_here|].
  intros s' y Hy. apply Hf. by apply list_elem_of_further.
Qed.

Lemma stop_fold_active (rs : list Rule) s k :
  active (foldl (fun s r => stop_rule s (name r)) s rs) !! k = if decide (k ∈ name <$> rs) then None else active s !! k.
Proof.
  revert s. induction rs as [|r rs IH]; intros s.
  - destruct (decide _) as [Hk|]; [by apply not_elem_of_nil in Hk|done].
  - cbn [foldl]. rewrite IH, stop_active. destruct (decide (name r = k)) as [<-|Hne].
    + rewrite (decide_True (P := name r ∈ name <$> r :: rs)) by apply list_elem_of_here. by case_decide.
    + apply decide_ext. rewrite fmap_cons, elem_of_cons. naive_solver.
Qed.

Lemma NoDup_omap_names {A} (f : Rule -> option A) (g : A -> string) (l : list Rule) : (forall r a, f r = Some a -> g a = name r) ->
  NoDup (name <$> l) -> NoDup (g <$> omap f l).
Proof.
  intros Hg. induction l as [|r l IH]; [intros _; constructor|]. cbn. intros [Hr Hl]%NoDup_cons. destruct (f r) as [a|] eqn:Hf; [|by apply IH].
  cbn. apply NoDup_cons. split; [|by apply IH]. rewrite (Hg _ _ Hf). intros (b & Hb & (r' & Hr' & Hf')%list_elem_of_omap)%list_elem_of_fmap.
  apply Hr. rewrite Hb, (Hg _ _ Hf'). by apply list_elem_of_fmap_2.
Qed.

Lemma diff_names old new : NoDup (name <$> rules new) ->
  NoDup ((name ∘ change_new) <$> RuleSet.changed (diff old new)) /\ NoDup ((name ∘ id) <$> added (diff old new)).
Proof.
  intros Hn. rewrite diff_unfold by done. split; apply NoDup_omap_names; try done.
  - intros r a. unfold changed_of. repeat case_match; try done. by intros [= <-].
  - intros r a. unfold added_of. case_match; [done|]. by intros [= <-].
Qed.

Section Converge.
Variables (cfg : SupervisorConfig) (w : World).

Definition bound (r : Rule) : Rule := with_bind_override r (default_bind cfg).
Definition claim (r : Rule) : Net.SocketAddr * Protocol := (listen (bound r), protocol (bound r)).

(** A proxy of the rule, on the address the rule names. *)
Definition serves r (ap : ActiveProxy) : Prop :=
  handle_addr (ap_handle ap) = listen (bound r) /\
  exists id handle, (protocol r = Tcp /\ handle = HTcp \/ protocol r = Udp /\ handle = HUdp) /\
    ap_handle ap = handle id (bound r) (listen (bound r)) (expect_inbound_proxy cfg (bound r)).

(** The proxies are those of the rules. *)
Definition in_step s : Prop :=
  (forall r, r ∈ rules (current_set s) -> exists ap, active s !! name r = Some ap /\ serves r ap) /\
  (forall n, is_Some (active s !! n) -> n ∈ name <$> rules (current_set s)).

(** The rule can be started: its resolver builds and its address is free. *)
Definition startable r : Prop :=
  protocol r <> Https /\ is_ok (resolver_build (resolver_factory cfg) (bound r)) = true /\ w_bind w (bound r) = Some (listen (bound r)).

(** No rule that starts wants the address of another one, be it of the new set
    or of the old one and not yet swapped. *)
Definition no_conflict (old new : list Rule) : Prop :=
  forall r o, r ∈ new -> r ∉ old -> (o ∈ new \/ (o ∈ old /\ name o ∈ name <$> new)) -> name o <> name r -> claim o <> claim r.

Lemma serves_claim r ap : serves r ap -> (handle_addr (ap_handle ap), handle_protocol (ap_handle ap)) = claim r.
Proof. intros [_ (id & handle & [[_ ->]|[_ ->]] & ->)]; done. Qed.

(** Every proxy belongs to a rule of [l]. *)
Definition from_rules_of (l : list Rule) s : Prop :=
  forall n ap, active s !! n = Some ap -> exists r, r ∈ l /\ name r = n /\ serves r ap.

Lemma start_ok (l : list Rule) s r : from_rules_of l s -> active s !! name r = None -> startable r ->
  (forall o, o ∈ l -> name o <> name r -> claim o <> claim r) ->
  exists ap, active (start_rule cfg w s r) !! name r = Some ap /\ serves r ap.
Proof.
  intros Hl Hnone (Hp & Hres & Hbind) Hc. unfold start_rule, spawn_proxy_for_rule. fold (bound r).
  rewrite bool_decide_false.
  - rewrite Hbind. destruct (resolver_build _ _) as [res|]; [|done]. unfold bound at 1. rewrite override_protocol.
    destruct (protocol r) eqn:Hpr; [..|done]; cbn; rewrite lookup_insert_eq; eexists; (split; [done|]); (split; [done|]); (eexists _, _; split; [|done]); [by left|by right].
  - intros Hin. unfold collect_claimed_addrs in Hin. apply list_elem_of_fmap in Hin as ([n ap] & Heq & Hin%elem_of_map_to_list).
    destruct (Hl n ap Hin) as (o & Ho & Hn & Hs). apply serves_claim in Hs. apply (Hc o Ho); [|by rewrite <- Hs].
    intros Heq'. congruence.
Qed.

Lemma from_rules_mono l l' s : l ⊆ l' -> from_rules_of l s -> from_rules_of l' s.
Proof. intros Hsub Hl n ap Hn. destruct (Hl n ap Hn) as (r & Hr & ?). exists r. split; [by apply Hsub|done]. Qed.

Lemma stop_from l s n : from_rules_of l s -> from_rules_of l (stop_rule s n).
Proof. intros Hl k ap. rewrite stop_active. case_decide; [done|]. apply Hl. Qed.

Lemma start_from l s r : from_rules_of l s -> r ∈ l -> (exists ap, active (start_rule cfg w s r) !! name r = Some ap /\ serves r ap) ->
  from_rules_of l (start_rule cfg w s r).
Proof.
  intros Hl Hr (ap & Hap & Hs) k ap' Hk. destruct (decide (k = name r)) as [->|Hne].
  - exists r. split; [done|]. split; [done|]. congruence.
  - rewrite start_active_ne in Hk by done. by apply Hl.
Qed.

Definition up r s : Prop := exists ap, active s !! name r = Some ap /\ serves r ap.

(** A loop that starts a rule at each turn, and disturbs no other. *)
Lemma fold_starts {A} (f : Supervisor -> A -> Supervisor) (rule : A -> Rule) (l : list Rule) (xs : list A) (ready : Supervisor -> A -> Prop) :
  (forall s x, x ∈ xs -> from_rules_of l s -> ready s x -> from_rules_of l (f s x) /\ up (rule x) (f s x)) ->
  (forall s x k, x ∈ xs -> k <> name (rule x) -> active (f s x) !! k = active s !! k) ->
  (forall s x y, x ∈ xs -> name (rule y) <> name (rule x) -> ready s y -> ready (f s x) y) ->
  NoDup ((name ∘ rule) <$> xs) -> forall s, from_rules_of l s -> (forall x, x ∈ xs -> ready s x) ->
  from_rules_of l (foldl f s xs) /\ forall x, x ∈ xs -> up (rule x) (foldl f s xs).
Proof.
  induction xs as [|x xs IH]; intros Hstep Hframe Hready Hnd s Hl Hr; [split; [done|]; by intros x ?%not_elem_of_nil|].
  cbn in Hnd. apply NoDup_cons in Hnd as [Hx Hnd]. cbn [foldl]. pose proof (list_elem_of_here x xs) as Hhere.
  assert (forall y, y ∈ xs -> y ∈ x :: xs) as Hfar by (intros y Hy; by apply list_elem_of_further).
  destruct (Hstep s x Hhere Hl (Hr x Hhere)) as [Hl' (ap & Hup & Hs)].
  destruct (IH (fun s y Hy => Hstep s y (Hfar y Hy)) (fun s y k Hy => Hframe s y k (Hfar y Hy)) (fun s y z Hy => Hready s y z (Hfar y Hy)) Hnd (f s x) Hl')
    as [Hfin Hall].
  { intros y Hy. apply Hready; [done| |by apply Hr, Hfar]. intros Heq. apply Hx. apply list_elem_of_fmap. by exists y. }
  split; [done|]. intros y [->|Hy]%elem_of_cons; [|by apply Hall]. exists ap. split; [|done].
  rewrite <- Hup. apply (fold_keeps _ _ (fun s => active s !! name (rule x))). intros s' y Hy. apply Hframe; [by apply Hfar|].
  intros Heq. apply Hx. apply list_elem_of_fmap. by exists y.
Qed.

Section Stages.
Variables (old new : RuleSet).
Hypotheses (Hold : NoDup (name <$> rules old)) (Hnew : NoDup (name <$> rules new)).
Hypotheses (Hst : forall r, r ∈ rules new -> r ∉ rules old -> startable r) (Hnc : no_conflict (rules old) (rules new)).

(** The rules a proxy may belong to while the set is applied. *)
Definition meantime : list Rule := rules new ++ filter (fun o => name o ∈ name <$> rules new) (rules old).

Lemma meantime_new r : r ∈ rules new -> r ∈ meantime.
Proof. intros Hr. apply elem_of_app. by left. Qed.

Lemma meantime_free r : r ∈ rules new -> r ∉ rules old -> forall o, o ∈ meantime -> name o <> name r -> claim o <> claim r.
Proof. intros Hr Hr' o Ho. apply Hnc; [done|done|]. unfold meantime in Ho. rewrite elem_of_app, list_elem_of_filter in Ho. naive_solver. Qed.

Lemma started s r : r ∈ rules new -> r ∉ rules old -> from_rules_of meantime s -> active s !! name r = None ->
  from_rules_of meantime (start_rule cfg w s r) /\ up r (start_rule cfg w s r).
Proof.
  intros Hr Hr' Hl Hnone. assert (up r (start_rule cfg w s r)) as Hup.
  { apply (start_ok meantime); [done|done|by apply Hst|by apply meantime_free]. }
  split; [|done]. apply start_from; [done|by apply meantime_new|done].
Qed.

Lemma stage_removed s : current_set s = old -> in_step s ->
  from_rules_of meantime (foldl (fun s r => stop_rule s (name r)) s (removed (diff old new))).
Proof.
  intros Hcur [Hin Hdom]. rewrite Hcur in *. intros n ap. rewrite stop_fold_active. case_decide as Hn; [done|]. intros Ha.
  destruct (proj1 (list_elem_of_fmap _ _ _) (Hdom n (mk_is_Some _ _ Ha))) as (r & -> & Hr).
  exists r. destruct (Hin r Hr) as (ap' & Ha' & Hs). split; [|split; [done|congruence]].
  apply elem_of_app. right. apply list_elem_of_filter. split; [|done]. apply dec_stable. intros Hnot. apply Hn.
  apply list_elem_of_fmap_2. by apply diff_removed.
Qed.

Lemma stage_changed s : from_rules_of meantime s ->
  let s' := foldl (swap_rule cfg w) s (RuleSet.changed (diff old new)) in
  from_rules_of meantime s' /\ (forall o n, mkChange o n ∈ RuleSet.changed (diff old new) -> up n s').
Proof.
  intros Hl. destruct (fold_starts (swap_rule cfg w) change_new meantime (RuleSet.changed (diff old new)) (fun _ _ => True)) with (s := s) as [Hfin Hup]; try done.
  - intros s' [o n] (Ho & Hn & Hname & Hne)%diff_changed Hl' _; [|done..]. cbn. apply started; [done| |by apply stop_from|].
    + intros Hn'. apply Hne. by apply (NoDup_fmap_elem name (rules old)).
    + rewrite stop_active. by rewrite decide_True.
  - intros s' [o n] k (Ho & Hn & Hname & Hne)%diff_changed Hk; [|done..]. apply swap_active_ne; cbn in *; congruence.
  - by apply diff_names.
  - split; [done|]. intros o n Hc. by apply (Hup (mkChange o n)).
Qed.

Lemma stage_added s : from_rules_of meantime s -> (forall r, r ∈ added (diff old new) -> active s !! name r = None) ->
  let s' := foldl (start_rule cfg w) s (added (diff old new)) in
  from_rules_of meantime s' /\ (forall r, r ∈ added (diff old new) -> up r s').
Proof.
  intros Hl Hnone. apply (fold_starts (start_rule cfg w) id meantime _ (fun s r => active s !! name r = None)); try done.
  - intros s' r [Hr Hr']%diff_added Hl' Hn; [|done..]. apply started; [done| |done|done].
    intros Hin. apply Hr'. by apply list_elem_of_fmap_2.
  - intros s' r k _ Hk. by apply start_active_ne.
  - intros s' r r' _ Hne Hn. by rewrite start_active_ne.
  - by apply diff_names.
Qed.
End Stages.

Lemma converges s new_set : NoDup (name <$> rules (current_set s)) -> NoDup (name <$> rules new_set) -> in_step s ->
  (forall r, r ∈ rules new_set -> r ∉ rules (current_set s) -> startable r) -> no_conflict (rules (current_set s)) (rules new_set) ->
  in_step (apply_set cfg w s new_set).
Proof.
  intros Hold Hnew Hs Hst Hnc. pose proof (fun r => unchanged_left cfg w s new_set r Hold Hnew) as Hleft.
  destruct (apply_set_l4 cfg w s new_set) as [Ha _]. unfold in_step. rewrite Ha. change (current_set (apply_set cfg w s new_set)) with new_set.
  revert Hleft. unfold apply_update. set (d := diff (current_set s) new_set).
  set (s1 := foldl _ s (removed d)). set (s2 := foldl _ s1 (RuleSet.changed d)). set (s3 := foldl _ s2 (added d)). intros Hleft.
  pose proof (stage_removed (current_set s) new_set Hold Hnew s eq_refl Hs) as Hm1.
  destruct (stage_changed (current_set s) new_set Hold Hnew Hst Hnc s1 Hm1) as [Hm2 Hc].
  assert (forall r, r ∈ added d -> active s2 !! name r = None) as Hnone.
  { intros r Hr. pose proof Hr as [_ Hno]%diff_added; [|done..]. unfold s2. rewrite (fold_keeps _ _ (fun s => active s !! name r)).
    - unfold s1. rewrite stop_fold_active. case_decide; [done|]. apply eq_None_not_Some. intros Hsome. by apply Hno, Hs.
    - intros s' [o n] (Ho & Hn & Hname & _)%diff_changed; [|done..]. apply (list_elem_of_fmap_2 name) in Ho.
      apply swap_active_ne; cbn; congruence. }
  destruct (stage_added (current_set s) new_set Hold Hnew Hst Hnc s2 Hm2 Hnone) as [Hm3 Hadd]. fold d s3 in Hm3, Hadd, Hc. split.
  - intros r Hr. destruct (decide (name r ∈ name <$> rules (current_set s))) as [Hn|Hn].
    + apply list_elem_of_fmap in Hn as (o & Hname & Ho). destruct (decide (o = r)) as [->|Hne].
      * destruct (Hleft r Ho Hr) as [Heq _]. rewrite Heq. by apply (proj1 Hs).
      * destruct (Hc o r) as (ap & Hap & Hserve); [by apply diff_changed|]. exists ap. split; [|done]. rewrite <- Hap.
        apply (fold_keeps _ _ (fun s => active s !! name r)). intros s' x [_ Hx]%diff_added; [|done..]. apply start_active_ne.
        intros Heq. apply Hx. rewrite <- Heq, Hname. by apply list_elem_of_fmap_2.
    + by apply Hadd, diff_added.
  - intros n [ap Hn]. destruct (Hm3 n ap Hn) as (r & Hr & <- & _). apply elem_of_app in Hr as [Hr|[Hr _]%list_elem_of_filter]; [|done].
    by apply list_elem_of_fmap_2.
Qed.

End Converge.

(** ** Runs *)

(** The rule stays in every set that is applied. *)
Definition carries r (ev : SupervisorEvent) : Prop :=
  match ev with SvApply _ set => NoDup (name <$> rules set) /\ r ∈ rules set | SvReload _ _ _ => True end.

Lemma step_leaves cfg s ev r : NoDup (name <$> rules (current_set s)) -> r ∈ rules (current_set s) -> carries r ev ->
  let s' := supervisor_step cfg s ev in leaves (name r) s s' /\ NoDup (name <$> rules (current_set s')) /\ r ∈ rules (current_set s').
Proof.
  intros Hnd Hr Hev. destruct ev as [w set|d host now]; cbn.
  - destruct Hev as [Hnd' Hr']. split; [|done]. destruct (unchanged_left cfg w s set r Hnd Hnd' Hr Hr') as [Ha Hs].
    destruct (apply_set_l4 cfg w s set) as [Ha' Hs']. split; [by rewrite Ha'|by rewrite Hs'].
  - split; [|done]. split; [done|]. exists []. set_solver.
Qed.

Lemma run_leaves cfg evs s r : NoDup (name <$> rules (current_set s)) -> r ∈ rules (current_set s) -> Forall (carries r) evs ->
  leaves (name r) s (foldl (supervisor_step cfg) s evs).
Proof.
  revert s. induction evs as [|ev evs IH]; intros s Hnd Hr Hevs; [apply leaves_refl|]. apply Forall_cons in Hevs as [Hev Hevs]. cbn [foldl].
  destruct (step_leaves cfg s ev r Hnd Hr Hev) as (Hl & Hnd' & Hr'). eapply leaves_trans; [exact Hl|]. by apply IH.
Qed.

End Reload.

Module ReloadProps.
Import CertProps HttpForwardProps.

(** C19: A rule that is in every rule set of a run keeps the very proxy it had:
    nothing the run does, be it to other rules, to routes or to certificates,
    stops it or starts another in its place. *)
Theorem reload_keeps_unchanged `{Extern} `{UrlLib} `{TlsLib} `{HttpLib} cfg s evs r :
  NoDup (name <$> rules (current_set s)) -> r ∈ rules (current_set s) -> Forall (carries r) evs ->
  let s' := foldl (supervisor_step cfg) s evs in
  active s' !! name r = active s !! name r /\ exists stops, stopped s' = stops ++ stopped s /\ name r ∉ stops.
Proof. intros. by apply run_leaves. Qed.

(** C20: A reload converges: when the proxies are those of the old rules, each
    rule that is new or changed can be started, and none of these wants the
    address and protocol of a rule of another name that is in the new set or
    not yet swapped, the proxies afterwards are those of the new rules, each on
    the address of its rule. *)
Theorem reload_converges `{Extern} `{UrlLib} `{TlsLib} `{HttpLib} cfg w s new_set :
  NoDup (name <$> rules (current_set s)) -> NoDup (name <$> rules new_set) -> in_step cfg s ->
  (forall r, r ∈ rules new_set -> r ∉ rules (current_set s) -> startable cfg w r) ->
  no_conflict cfg (rules (current_set s)) (rules new_set) -> in_step cfg (apply_set cfg w s new_set).
Proof. intros. by apply converges. Qed.

Definition demo_sv_lan : LanCidrs := mkLanCidrs [] SourceOverride.
Definition demo_cert_config : CertConfig :=
  mkCertConfig "/certs" None None None (Net.V4 (Net.mkSockV4 Net.V4_UNSPECIFIED 443)) false false 1000 demo_sv_lan.
Definition demo_sv_config : SupervisorConfig := mkSvConfig new_relay None demo_cert_config.
Definition demo_world : World := mkWorld CertProps.demo_disk 7 (fun r => Some (listen r)) true (Some (Net.V4 (Net.mkSockV4 Net.V4_UNSPECIFIED 443))) None (fun _ => true).

Definition demo_set (l : list (string * Z)) : RuleSet := mkRuleSet ((fun '(n, p) => RuleSetProps.demo_rule n p) <$> l) [].
Definition demo_before : RuleSet := demo_set [("a", 1); ("b", 2); ("c", 3)].
Definition demo_after : RuleSet := demo_set [("d", 2); ("a", 1); ("c", 4)].
Definition demo_running : Supervisor := supervisor_loop demo_sv_config [SvApply demo_world demo_before].

Lemma demo_set_nodup l : bool_decide (NoDup (name <$> rules (demo_set l))) = true -> NoDup (name <$> rules (demo_set l)).
Proof. apply bool_decide_eq_true. Qed.

Lemma demo_startable r : protocol r = Tcp -> target r = None -> is_Some (target_port r) -> startable demo_sv_config demo_world r.
Proof. intros Hp Ht [p Hport]. split_and!; [congruence| |done]. unfold bound, resolver_build. cbn. by rewrite Ht, Hport. Qed.

(** Rules with pairwise distinct ports are startable and do not conflict. *)
Lemma demo_starts l r : r ∈ rules (demo_set l) -> startable demo_sv_config demo_world r.
Proof. intros ([n p] & -> & _)%list_elem_of_fmap. by apply demo_startable. Qed.

Lemma demo_claim n p : claim demo_sv_config (RuleSetProps.demo_rule n p) = (Net.V4 (Net.mkSockV4 Net.V4_UNSPECIFIED p), Tcp).
Proof. done. Qed.

Lemma demo_no_conflict old new :
  bool_decide (Forall (fun '(n, p) => Forall (fun '(n', p') => n' = n \/ p' <> p \/ (n, p) ∈ old)
    (new ++ filter (fun o => o.1 ∈ new.*1) old)) new) = true ->
  no_conflict demo_sv_config (rules (demo_set old)) (rules (demo_set new)).
Proof.
  intros Hok%bool_decide_eq_true r o ([n p] & -> & Hr)%list_elem_of_fmap Hr' Ho Hne. rewrite Forall_forall in Hok. specialize (Hok (n, p) Hr). cbn in Hok.
  assert ((n, p) ∉ old) as Hold by (intros Hin; apply Hr'; apply list_elem_of_fmap; by exists (n, p)).
  assert (exists n' p', o = RuleSetProps.demo_rule n' p' /\ (n', p') ∈ new ++ filter (fun o => o.1 ∈ new.*1) old) as (n' & p' & -> & Hin).
  { destruct Ho as [([n' p'] & -> & Ho)%list_elem_of_fmap|[([n' p'] & -> & Ho)%list_elem_of_fmap Hn]]; exists n', p'; (split; [done|]); apply elem_of_app.
    - by left.
    - right. apply list_elem_of_filter. split; [|done]. apply list_elem_of_fmap in Hn as (? & Hname & ([n'' p''] & -> & Hin)%list_elem_of_fmap).
      cbn in *. subst. apply list_elem_of_fmap. by exists (n'', p''). }
  rewrite Forall_forall in Hok. destruct (Hok _ Hin) as [->|[Hp|Hin']]; [done| |done]. rewrite !demo_claim. congruence.
Qed.

Lemma demo_fresh : in_step demo_sv_config sv_new.
Proof. split; [by intros r ?%not_elem_of_nil|]. intros n [ap Hn]. change ((∅ : gmap string ActiveProxy) !! n = Some ap) in Hn. by rewrite lookup_empty in Hn. Qed.

Lemma demo_running_in_step : in_step demo_sv_config demo_running.
Proof.
  apply (converges demo_sv_config demo_world sv_new demo_before); [constructor|by apply demo_set_nodup|apply demo_fresh| |].
  - intros r Hr _. by eapply demo_starts.
  - apply (demo_no_conflict []). by vm_compute.
Qed.

Lemma reload_keeps_unchanged_witness :
  active (foldl (supervisor_step demo_sv_config) demo_running [SvApply demo_world demo_after]) !! "a" = active demo_running !! "a".
Proof.
  apply (reload_keeps_unchanged demo_sv_config demo_running [SvApply demo_world demo_after] (RuleSetProps.demo_rule "a" 1)).
  - by apply demo_set_nodup.
  - apply list_elem_of_here.
  - constructor; [|constructor]. split; [by apply demo_set_nodup|]. apply list_elem_of_further, list_elem_of_here.
Defined.

(** [b] gives its port to the new [d], [c] moves, [a] stays. *)
Lemma reload_converges_witness : in_step demo_sv_config (apply_set demo_sv_config demo_world demo_running demo_after).
Proof.
  apply (reload_converges demo_sv_config demo_world demo_running demo_after); [by apply demo_set_nodup..|apply demo_running_in_step| |].
  - intros r Hr _. by eapply demo_starts.
  - apply demo_no_conflict. by vm_compute.
Defined.

(** Two rules that trade addresses: the first is stopped, cannot start while
    the second still holds its new address, and stays down although the same
    set is applied again. *)
Lemma traded_addresses_strand :
  let s := supervisor_loop demo_sv_config
             [SvApply demo_world (demo_set [("a", 1); ("b", 2)]); SvApply demo_world (demo_set [("a", 2); ("b", 1)]);
              SvApply demo_world (demo_set [("a", 2); ("b", 1)])] in
  bool_decide (is_Some (active s !! "a")) = false /\ bool_decide (is_Some (active s !! "b")) = true.
Proof. split; by vm_compute. Qed.

End ReloadProps.
