(* ===== verification/HttpsReload.v ===== *)
(** * Route reloads

    What applying a rule set does to the routes ([reconcile_https],
    [try_hot_swap_routes] and [spawn_https_frontend] of
    [supervisor/reconcile.rs]): the TLS frontends and the companion listener on
    port 80 share out the routes between them. *)

From S2P Require Import Prelude RustStd External Instances RuleTypes Error Rule RuleSet LanCidrs NetFmt PubKey PeerState ChainTypes.
From S2P Require Import ProxyProtocol Resolver Certs HttpForward Companion Supervisor Reload.

Lemma foldr_rev {A B} (f : A -> B -> B) (b : B) (l : list A) : foldr f b l = foldl (fun b a => f a b) b (reverse l).
Proof. induction l as [|x l IH]; [done|]. rewrite reverse_cons, foldl_app, <- IH. done. Qed.

(** ** The hosts of the companion *)

(** Each of [hs] is registered once, and nothing else is. *)
Definition exactly (m : HostSet) (hs : list string) : Prop := forall k, m !! k = if decide (k ∈ hs) then Some 1%nat else None.
Definition lower (k : string) : Prop := Str.to_ascii_lowercase k = k.

Lemma ascii_lower_idem c : Str.ascii_lower (Str.ascii_lower c) = Str.ascii_lower c.
Proof. destruct c as [[] [] [] [] [] [] [] []]; by vm_compute. Qed.

Lemma lowercase_lower s : lower (Str.to_ascii_lowercase s).
Proof.
  unfold lower, Str.to_ascii_lowercase. rewrite Str.to_of_list, <- list_fmap_compose. f_equal. apply list_fmap_ext. intros i c _. apply ascii_lower_idem.
Qed.

Lemma exactly_ext m hs hs' : (forall k, k ∈ hs <-> k ∈ hs') -> exactly m hs -> exactly m hs'.
Proof. intros Heq Hm k. rewrite Hm. by apply decide_ext. Qed.

Lemma exactly_nil m : exactly m [] <-> m = ∅.
Proof. split; [|intros ->; intros k; by rewrite lookup_empty]. intros Hm. apply map_eq. intros k. rewrite Hm, lookup_empty. by rewrite decide_False by apply not_elem_of_nil. Qed.

Lemma add_exactly m hs h : lower h -> h ∉ hs -> exactly m hs -> exactly (host_add m h) (h :: hs).
Proof.
  intros Hl Hh Hm k. rewrite host_add_lookup, Hl, Hm. destruct (decide (h = k)) as [->|Hk].
  - rewrite (decide_False (P := k ∈ hs)), decide_True; [done|apply list_elem_of_here|done].
  - apply decide_ext. rewrite elem_of_cons. naive_solver.
Qed.

Lemma remove_exactly m hs h : lower h -> exactly m hs -> exactly (host_remove m h) (filter (fun k => k <> h) hs).
Proof.
  intros Hl Hm k. rewrite host_remove_lookup, Hl, Hm. destruct (decide (h = k)) as [->|Hk].
  - rewrite (decide_False (P := k ∈ filter _ _)); [by case_decide|]. rewrite list_elem_of_filter. naive_solver.
  - apply decide_ext. rewrite list_elem_of_filter. naive_solver.
Qed.

Lemma add_all_exactly m hs0 hs : Forall lower hs -> NoDup hs -> (forall k, k ∈ hs -> k ∉ hs0) -> exactly m hs0 ->
  exactly (foldl host_add m hs) (hs0 ++ hs).
Proof.
  revert m hs0. induction hs as [|h hs IH]; intros m hs0 Hl Hnd Hdis Hm; [by rewrite app_nil_r|].
  apply Forall_cons in Hl as [Hh Hl]. apply NoDup_cons in Hnd as [Hn Hnd]. cbn.
  apply (exactly_ext _ ((h :: hs0) ++ hs)); [intros k; set_solver|]. apply IH; [done|done|set_solver|].
  apply add_exactly; [done|set_solver|done].
Qed.

Lemma remove_all_exactly m hs0 hs : Forall lower hs -> exactly m hs0 -> exactly (foldl host_remove m hs) (filter (fun k => k ∉ hs) hs0).
Proof.
  revert m hs0. induction hs as [|h hs IH]; intros m hs0 Hl Hm.
  - cbn. revert Hm. apply exactly_ext. intros k. rewrite list_elem_of_filter. set_solver.
  - apply Forall_cons in Hl as [Hh Hl]. cbn. eapply exactly_ext; [|apply IH; [done|by apply remove_exactly]].
    intros k. rewrite !list_elem_of_filter. set_solver.
Qed.

Section HttpsReload.
Context `{Extern} `{UrlLib} `{TlsLib} `{HttpLib}.
Implicit Types (s : Supervisor) (r : HttpRoute) (w : World) (l : RedirectListener).

Lemma register_hosts l hs :
  foldl register_host l hs = mkRedirect (foldl host_add (rl_hosts l) hs) (rl_plain l) (rl_lan l).
Proof. revert l. induction hs as [|h hs IH]; intros l; [by destruct l|]. cbn. by rewrite IH. Qed.

Lemma unregister_hosts l hs :
  foldl unregister_host l hs = mkRedirect (foldl host_remove (rl_hosts l) hs) (rl_plain l) (rl_lan l).
Proof. revert l. induction hs as [|h hs IH]; intros l; [by destruct l|]. cbn. by rewrite IH. Qed.

Lemma swap_hosts_exactly l old new : Forall lower old -> Forall lower new -> exactly (rl_hosts l) old ->
  exists m, swap_hosts l old new = mkRedirect m (rl_plain l) (rl_lan l) /\ exactly m new.
Proof.
  intros Hold Hnew Hm. unfold swap_hosts, set_fold. cbn. rewrite !foldr_rev.
  set (gone := reverse (elements (list_to_set old ∖ list_to_set new : gset string))).
  set (come := reverse (elements (list_to_set new ∖ list_to_set old : gset string))).
  assert (forall k, k ∈ gone <-> k ∈ old /\ k ∉ new) as Hgone.
  { intros k. unfold gone. rewrite elem_of_reverse, elem_of_elements. set_solver. }
  assert (forall k, k ∈ come <-> k ∈ new /\ k ∉ old) as Hcome.
  { intros k. unfold come. rewrite elem_of_reverse, elem_of_elements. set_solver. }
  assert (NoDup come) as Hnd by (unfold come; rewrite reverse_Permutation; apply NoDup_elements).
  change (fun b a => unregister_host b a) with unregister_host. change (fun b a => register_host b a) with register_host.
  rewrite register_hosts, unregister_hosts. cbn. eexists. split; [done|].
  eapply exactly_ext; [|apply add_all_exactly; [| done| |apply remove_all_exactly; [|exact Hm]]].
  - intros k. rewrite elem_of_app, list_elem_of_filter, Hgone, Hcome. destruct (decide (k ∈ old)), (decide (k ∈ new)); naive_solver.
  - rewrite Forall_forall in *. intros k Hk%Hcome. apply Hnew, Hk.
  - intros k Hk%Hcome. rewrite list_elem_of_filter. naive_solver.
  - rewrite Forall_forall in *. intros k Hk%Hgone. apply Hold, Hk.
Qed.

(** ** Tables *)

Definition entry_of (n : string) (r : HttpRoute) : RouteEntry := mkRouteEntry (route_target r) (hsts r) (headers r) n.

Lemma extend_cons t r routes n : fst (table_extend t (r :: routes) n) = fst (table_extend (<[lc_hostname r := entry_of n r]> t) routes n).
Proof. cbn. by destruct (table_extend _ routes n). Qed.

Lemma extend_out t routes n k : k ∉ lc_hostname <$> routes -> fst (table_extend t routes n) !! k = t !! k.
Proof.
  revert t. induction routes as [|r routes IH]; intros t Hk; [done|]. cbn in Hk. apply not_elem_of_cons in Hk as [Hne Hk].
  rewrite extend_cons, IH by done. unfold RouteTable in *. by rewrite lookup_insert_ne.
Qed.

Lemma extend_in t routes n r : NoDup (lc_hostname <$> routes) -> r ∈ routes -> fst (table_extend t routes n) !! lc_hostname r = Some (entry_of n r).
Proof.
  revert t. induction routes as [|r' routes IH]; intros t Hnd Hr; [by apply not_elem_of_nil in Hr|].
  cbn in Hnd. apply NoDup_cons in Hnd as [Hn Hnd]. rewrite extend_cons. apply elem_of_cons in Hr as [->|Hr]; [|by apply IH].
  rewrite extend_out by done. unfold RouteTable in *. apply lookup_insert_eq.
Qed.

Lemma extend_named t routes n : (forall k e, t !! k = Some e -> re_rule_name e = n) ->
  forall k e, fst (table_extend t routes n) !! k = Some e -> re_rule_name e = n.
Proof.
  revert t. induction routes as [|r routes IH]; intros t Ht; [done|]. rewrite extend_cons. apply IH.
  unfold RouteTable in *. intros k e [[_ <-]|[_ Hk]]%lookup_insert_Some; [done|by eapply Ht].
Qed.

Lemma remove_named (t : RouteTable) n : (forall k e, t !! k = Some e -> re_rule_name e = n) -> remove_by_rule t n = ∅.
Proof. intros Ht. unfold remove_by_rule, RouteTable in *. apply map_empty. intros k. apply map_lookup_filter_None. right. intros e He Hne. by apply Hne, (Ht k). Qed.

(** Every route of the companion is the supervisor's. *)
Definition named l : Prop := forall k e, rl_plain l !! k = Some e -> re_rule_name e = HTTPS_FRONTEND_NAME.

Lemma reset_plain l routes less : named l ->
  reset_plaintext l routes less =
    mkRedirect (rl_hosts l) (table_build (filter (fun r => in_hosts less r = true) routes) HTTPS_FRONTEND_NAME) (rl_lan l).
Proof.
  intros Hl. unfold reset_plaintext, unregister_plaintext_routes. rewrite (remove_named _ _ Hl). destruct less as [|h less].
  - cbn. replace (filter _ routes) with (@nil HttpRoute); [done|]. by induction routes.
  - unfold register_plaintext_routes, table_build. cbn. by destruct (table_extend ∅ _ _).
Qed.

Lemma built_named routes k e : table_build routes HTTPS_FRONTEND_NAME !! k = Some e -> re_rule_name e = HTTPS_FRONTEND_NAME.
Proof. apply extend_named. intros k' e'. unfold RouteTable. by rewrite lookup_empty. Qed.

Lemma NoDup_filter_hosts (P : HttpRoute -> Prop) `{!forall r, Decision (P r)} routes :
  NoDup (lc_hostname <$> routes) -> NoDup (lc_hostname <$> filter P routes).
Proof. intros Hnd. eapply sublist_NoDup; [exact Hnd|]. apply fmap_sublist, sublist_filter. Qed.

Lemma built_in (P : HttpRoute -> Prop) `{!forall r, Decision (P r)} routes n r : NoDup (lc_hostname <$> routes) -> r ∈ routes -> P r ->
  table_build (filter P routes) n !! lc_hostname r = Some (entry_of n r).
Proof. intros Hnd Hr HP. apply extend_in; [by apply NoDup_filter_hosts|]. by apply list_elem_of_filter. Qed.

Lemma built_out (P : HttpRoute -> Prop) `{!forall r, Decision (P r)} routes n r : NoDup (lc_hostname <$> routes) -> r ∈ routes -> ~ P r ->
  table_build (filter P routes) n !! lc_hostname r = None.
Proof.
  intros Hnd Hr HP. unfold table_build. rewrite extend_out; [unfold RouteTable; by rewrite lookup_empty|]. intros (r' & Heq & [HP' Hr']%list_elem_of_filter)%list_elem_of_fmap.
  apply HP. by rewrite (NoDup_fmap_elem lc_hostname routes r r').
Qed.

(** ** Certificates *)

Lemma in_hosts_spec less r : in_hosts less r = true <-> exists h, h ∈ less /\ Str.to_ascii_lowercase h = lc_hostname r.
Proof.
  unfold in_hosts, eq_ignore_ascii_case. rewrite existsb_exists. setoid_rewrite <- list_elem_of_In. setoid_rewrite bool_decide_eq_true. done.
Qed.

Lemma register_loaded_hosts w store routes less cw :
  snd (register_loaded w store routes less cw) = lc_hostname <$> filter (fun r => in_hosts less r = false) routes.
Proof.
  enough (forall cw hs, snd (foldl (fun '(cw, loaded) r => if in_hosts less r then (cw, loaded) else
    (watcher_register (w_watch w) cw (lc_hostname r) (watched_paths_for store (lc_hostname r)), loaded ++ [lc_hostname r])) (cw, hs) routes) =
    hs ++ (lc_hostname <$> filter (fun r => in_hosts less r = false) routes)) as Hall by (exact (Hall cw [])). clear cw.
  induction routes as [|r routes IH]; intros cw hs; [cbn; by rewrite app_nil_r|]. cbn [foldl]. rewrite filter_cons. destruct (in_hosts less r) eqn:Hr.
  - rewrite decide_False by done. apply IH.
  - rewrite decide_True by done. rewrite IH. by rewrite fmap_cons, <- app_assoc.
Qed.

Lemma insert_contains store h e h' : store_contains store h' = true -> store_contains (store_insert store h e) h' = true.
Proof.
  unfold store_contains, store_insert. cbn. rewrite !bool_decide_eq_true. intros [e' He']. 
  destruct (decide (Str.to_ascii_lowercase h = Str.to_ascii_lowercase h')) as [->|]; [rewrite lookup_insert_eq|rewrite lookup_insert_ne by done]; by eexists.
Qed.

(** What was loaded stays, and each route is loaded or reported. *)
Lemma load_each_covers d ctx routes now : forall store less store' less', load_each d ctx routes now store less = (store', Ok less') ->
  (forall h, store_contains store h = true -> store_contains store' h = true) /\ less ⊆ less' /\
  forall r, r ∈ routes -> store_contains store' (hostname r) = true \/ hostname r ∈ less'.
Proof.
  induction routes as [|r routes IH]; intros store less store' less'; cbn.
  - intros [= -> ->]. split_and!; [done|done|]. by intros r ?%not_elem_of_nil.
  - destruct (load_route_cert d ctx r now) as [[e|]|]; [| |done]; intros Hl; destruct (IH _ _ _ _ Hl) as (Hkeep & Hsub & Hall).
    + split_and!; [|done|].
      * intros h Hh. apply Hkeep. apply insert_contains. exact Hh.
      * intros r' [->|Hr']%elem_of_cons; [|by apply Hall]. left. apply Hkeep. unfold store_contains, store_insert. cbn. by rewrite lookup_insert_eq.
    + split_and!; [done|set_solver|]. intros r' [->|Hr']%elem_of_cons; [|by apply Hall]. right. set_solver.
Qed.

Lemma load_routes_covers d n routes store dir def now store' less :
  load_routes_into_store d n routes store dir def now = (store', Ok less) ->
  forall r, r ∈ routes -> in_hosts less r = false -> store_contains store' (hostname r) = true.
Proof.
  unfold load_routes_into_store. destruct (default_sans d def) as [sans|]; [|done]. intros Hl r Hr Hless.
  destruct (load_each_covers _ _ _ _ _ _ _ _ Hl) as (_ & _ & Hall). destruct (Hall r Hr) as [Hc|Hin]; [done|]. exfalso.
  apply not_true_iff_false in Hless. apply Hless, in_hosts_spec. by exists (hostname r).
Qed.

(** ** The routes are shared out *)

Definition companion_ip (cfg : SupervisorConfig) : Net.IpAddr := Net.ip (https_listen (cert_config cfg)).

(** A frontend of the handle, over TCP or QUIC. *)
Definition frontend_of (h : HttpsHandle) (f : Frontend) : Prop := f = hh_frontend h \/ hh_h3 h = Some f.

(** With [less] the hosts without a certificate: the others are redirected, and
    each of them has its route in every TLS frontend; [less] is served in
    plaintext. *)
Definition shares (routes : list HttpRoute) (h : HttpsHandle) l (less : list string) : Prop :=
  redirect_hosts h = lc_hostname <$> filter (fun r => in_hosts less r = false) routes /\
  exactly (rl_hosts l) (redirect_hosts h) /\
  rl_plain l = table_build (filter (fun r => in_hosts less r = true) routes) HTTPS_FRONTEND_NAME /\
  forall f r, frontend_of h f -> r ∈ routes -> in_hosts less r = false -> fe_routes f !! lc_hostname r = Some (entry_of HTTPS_FRONTEND_NAME r).

(** The redirected routes have their certificates in the store the TLS listeners
    read, but for hosts in [lost]. *)
Definition backed (lost : string -> Prop) (store : CertStore) (routes : list HttpRoute) (less : list string) : Prop :=
  forall r, r ∈ routes -> in_hosts less r = false -> store_contains store (hostname r) = true \/ lost (lc_hostname r).

Record https_inv (cfg : SupervisorConfig) (lost : string -> Prop) s : Prop := {
  hi_nodup : NoDup (lc_hostname <$> prev_routes s);
  hi_listener l : redirect_listeners s !! companion_ip cfg = Some l -> named l /\ rl_lan l = Some (sv_lan_cidrs (cert_config cfg));
  hi_off l : https_active s = None -> redirect_listeners s !! companion_ip cfg = Some l -> exactly (rl_hosts l) [];
  hi_on ap : https_active s = Some ap -> prev_routes s <> [] /\
    exists h l less, ap_handle ap = HHttps h /\ redirect_ip h = companion_ip cfg /\ redirect_listeners s !! companion_ip cfg = Some l /\
      shares (prev_routes s) h l less /\ backed lost (cert_store s) (prev_routes s) less
}.

Lemma lc_lower (routes : list HttpRoute) : Forall lower (lc_hostname <$> routes).
Proof. apply Forall_fmap, Forall_forall. intros r _. apply lowercase_lower. Qed.

(** Only the certificates that go matter. *)
Lemma certs_inv cfg lost lost' s store cw : https_inv cfg lost s -> (forall k, lost k -> lost' k) ->
  (forall h, store_contains (cert_store s) h = true -> store_contains store h = true \/ lost' (Str.to_ascii_lowercase h)) ->
  https_inv cfg lost' (with_certs s store cw).
Proof.
  intros [Hnd Hl Hoff Hon] Hlost Hkeep. split; [done..|]. intros ap Ha. destruct (Hon ap Ha) as (Hne & h & l & less & Hh & Hip & Hlk & Hs & Hb).
  split; [done|]. exists h, l, less. split_and!; [done..|]. intros r Hr Hless. destruct (Hb r Hr Hless) as [Hc|Hc]; [by apply Hkeep|right; by apply Hlost].
Qed.

Lemma off_inv cfg lost lost' s : https_active s = None -> https_inv cfg lost s -> https_inv cfg lost' s.
Proof. intros Ha [Hnd Hl Hoff Hon]. split; [done..|]. intros ap. by rewrite Ha. Qed.

Lemma teardown_inv cfg lost lost' s : https_inv cfg lost s -> https_inv cfg lost' (teardown_https s) /\ https_active (teardown_https s) = None.
Proof.
  intros Hinv. pose proof Hinv as [Hnd Hl Hoff Hon]. unfold teardown_https. destruct (https_active s) as [ap|] eqn:Ha; [|by split; [eapply off_inv|]]. split; [|done].
  destruct (Hon ap eq_refl) as (_ & h & l & less & -> & Hip & Hlk & (Hsh & Hex & _) & _). rewrite Hip, Hlk.
  destruct (Hl l Hlk) as [Hnamed Hlan].
  assert (forall l', (<[companion_ip cfg := unregister_plaintext_routes (foldl unregister_host l (redirect_hosts h)) HTTPS_FRONTEND_NAME]>
    (redirect_listeners s)) !! companion_ip cfg = Some l' -> exactly (rl_hosts l') [] /\ rl_plain l' = ∅ /\ rl_lan l' = rl_lan l) as Hafter.
  { intros l' Hl'. rewrite lookup_insert_eq in Hl'. apply (inj Some) in Hl' as <-. rewrite unregister_hosts. cbn. split_and!; [|by apply remove_named|done].
    eapply exactly_ext; [|apply remove_all_exactly; [rewrite Hsh; apply lc_lower|exact Hex]]. intros k. rewrite list_elem_of_filter. set_solver. }
  split; cbn; [done| | |done].
  - intros l' Hl'. destruct (Hafter l' Hl') as (_ & Hp & ->). split; [|done]. intros k e. rewrite Hp. unfold RouteTable. by rewrite lookup_empty.
  - intros l' _ Hl'. by apply Hafter.
Qed.

Lemma frontend_spawn_routes store routes bind f : frontend_spawn store routes bind = Some f -> fe_routes f = table_build (certed store routes) HTTPS_FRONTEND_NAME.
Proof. unfold frontend_spawn. destruct (certed store routes); [done|]. by intros (addr & _ & [= <-])%bind_Some. Qed.

Lemma certed_in store routes r : NoDup (lc_hostname <$> routes) -> r ∈ routes -> store_contains store (hostname r) = true ->
  table_build (certed store routes) HTTPS_FRONTEND_NAME !! lc_hostname r = Some (entry_of HTTPS_FRONTEND_NAME r).
Proof. intros Hnd Hr Hc. by apply built_in. Qed.

(** The companion that [spawn_https_frontend] finds or makes. *)
Definition companion_for (cfg : SupervisorConfig) w s : option RedirectListener :=
  match redirect_listeners s !! companion_ip cfg with
  | Some l => Some l
  | None => if w_redirect_bind w then Some (set_lan_cidrs redirect_new (Some (sv_lan_cidrs (cert_config cfg)))) else None
  end.

Lemma companion_fresh cfg lost w s l : https_inv cfg lost s -> https_active s = None -> companion_for cfg w s = Some l ->
  named l /\ rl_lan l = Some (sv_lan_cidrs (cert_config cfg)) /\ exactly (rl_hosts l) [].
Proof.
  intros [_ Hl Hoff _] Ha. unfold companion_for. destruct (redirect_listeners s !! companion_ip cfg) as [l'|] eqn:Hlk.
  - intros [= <-]. destruct (Hl l' eq_refl). split_and!; [done|done|]. by apply Hoff.
  - destruct (w_redirect_bind w); [|done]. intros [= <-]. split_and!; [|done|by apply exactly_nil]. intros k e. cbn. unfold RouteTable. by rewrite lookup_empty.
Qed.

Lemma spawn_https_inv cfg lost w s routes : https_inv cfg lost s -> https_active s = None -> NoDup (lc_hostname <$> routes) -> routes <> [] ->
  let '(s', spawned) := spawn_https_frontend cfg w s routes in
  match spawned with Some ap => https_inv cfg lost (with_https s' (Some ap) routes) | None => https_inv cfg lost (with_https s' None []) end.
Proof.
  intros Hinv Ha Hnd Hne. pose proof (fun l => companion_fresh cfg lost w s l Hinv Ha) as Hfresh. destruct Hinv as [Hndp Hl Hoff Hon].
  assert (forall store cw, https_inv cfg lost (with_https (with_certs s store cw) None [])) as Hnone.
  { intros store cw. split; cbn; [constructor|done| |done]. intros l _. by apply Hoff. }
  unfold spawn_https_frontend. destruct (load_routes_into_store _ _ _ _ _ _ _) as [store [less|]] eqn:Hload; [|apply Hnone].
  pose proof (load_routes_covers _ _ _ _ _ _ _ _ _ Hload) as Hcov.
  pose proof (register_loaded_hosts w store routes less (cert_watcher s)) as Hhosts.
  destruct (register_loaded w store routes less (cert_watcher s)) as [cw hosts]. cbn in Hhosts. cbn [redirect_listeners with_certs].
  fold (companion_ip cfg). fold (companion_for cfg w s). destruct (companion_for cfg w s) as [l|] eqn:Hcomp; [|apply Hnone].
  destruct (Hfresh l eq_refl) as (Hnamed & Hlan & Hex). rewrite register_hosts, reset_plain by exact Hnamed. cbn [rl_hosts rl_lan].
  assert (Forall lower hosts) as Hlow by (rewrite Hhosts; apply lc_lower).
  assert (exactly (foldl host_add (rl_hosts l) hosts) hosts) as Hadd.
  { apply (add_all_exactly _ []); [done| |set_solver|done]. rewrite Hhosts. by apply NoDup_filter_hosts. }
  destruct (frontend_spawn store routes (w_https_bind w)) as [f|] eqn:Hf.
  - split; cbn; [done| |done|].
    + intros l'. rewrite lookup_insert_eq. intros Hl'. apply (inj Some) in Hl' as <-. split; [|done]. intros k e. apply built_named.
    + intros ap Hap. apply (inj Some) in Hap as <-. split; [done|]. eexists _, _, less. split; [done|]. split; [done|].
      rewrite lookup_insert_eq. split; [done|]. split; [|intros r Hr Hless; left; auto]. split; [exact Hhosts|]. split; [exact Hadd|]. split; [done|].
      intros f' r Hf' Hr Hless. enough (fe_routes f' = table_build (certed store routes) HTTPS_FRONTEND_NAME) as -> by (apply certed_in; auto).
      destruct Hf' as [->|Hh3]; [by eapply frontend_spawn_routes|]. cbn in Hh3. destruct (https_http3 _); [|done]. by eapply frontend_spawn_routes.
  - rewrite unregister_hosts. split; cbn; [constructor| | |done].
    + intros l'. rewrite lookup_insert_eq. intros Hl'. apply (inj Some) in Hl' as <-. split; [|done]. intros k e. apply built_named.
    + intros l' _. rewrite lookup_insert_eq. intros Hl'. apply (inj Some) in Hl' as <-. cbn.
      eapply exactly_ext; [|apply remove_all_exactly; [done|exact Hadd]]. intros k. rewrite list_elem_of_filter. set_solver.
Qed.

Lemma cert_less_spec store routes r : NoDup (lc_hostname <$> routes) -> r ∈ routes ->
  in_hosts (cert_less_of store routes) r = negb (store_contains store (hostname r)).
Proof.
  intros Hnd Hr. apply eq_bool_prop_intro. rewrite !Is_true_true, in_hosts_spec, negb_true_iff. unfold cert_less_of. split.
  - intros (h & (r' & -> & [Hc Hr']%list_elem_of_filter)%list_elem_of_fmap & Heq). by rewrite (NoDup_fmap_elem lc_hostname routes r r').
  - intros Hc. exists (hostname r). split; [|done]. apply list_elem_of_fmap. exists r. split; [done|]. by apply list_elem_of_filter.
Qed.

(** Removing other hosts leaves a certificate in place. *)
Lemma set_fold_remove store (hs : gset string) h : (forall h', h' ∈ hs -> Str.to_ascii_lowercase h' <> Str.to_ascii_lowercase h) ->
  store_contains (set_fold (fun h st => store_remove st h) store hs) h = store_contains store h.
Proof.
  intros Hne. unfold set_fold. cbn. assert (forall h', h' ∈ elements hs -> Str.to_ascii_lowercase h' <> Str.to_ascii_lowercase h) as Hne'.
  { intros h' Hh'%elem_of_elements. by apply Hne. }
  clear Hne. revert Hne'. induction (elements hs) as [|h' hs' IH]; intros Hne; [done|]. cbn. rewrite <- IH by (intros; apply Hne; by apply list_elem_of_further).
  unfold store_contains at 1, store_remove at 1. cbn. rewrite lookup_delete_ne; [done|]. apply Hne, list_elem_of_here.
Qed.

Lemma hot_swap_inv cfg lost w s ap desired : https_inv cfg lost s -> https_active s = Some ap -> NoDup (lc_hostname <$> desired) -> desired <> [] ->
  let '(s', swapped) := try_hot_swap_routes cfg w s ap desired in
  https_inv cfg (fun k => if swapped then lost k else True) s' /\ (swapped = true -> prev_routes s' = desired).
Proof.
  intros Hinv Ha Hnd Hne. pose proof Hinv as [Hndp Hl Hoff Hon].
  destruct (Hon ap Ha) as (_ & h & l & less & Hh & Hip & Hlk & (Hsh & Hex & Hplain & Hfe) & _). unfold try_hot_swap_routes. rewrite Hh.
  set (gone := hosts_of (prev_routes s) ∖ hosts_of desired). match goal with |- context [let '(store, loaded) := ?x in _] => destruct x as [store [q|]] end;
    [|split; [eapply certs_inv; [exact Hinv|done|by right]|done]].
  set (less' := cert_less_of store desired). set (cw := set_fold _ (cert_watcher s) gone).
  pose proof (register_loaded_hosts w store desired less' cw) as Hhosts. destruct (register_loaded w store desired less' cw) as [cw' hosts]. cbn in Hhosts.
  rewrite Hip, Hlk. destruct (Hl l Hlk) as [Hnamed Hlan].
  assert (Forall lower (redirect_hosts h)) as Hlow by (rewrite Hsh; apply lc_lower).
  assert (Forall lower hosts) as Hlow' by (rewrite Hhosts; apply lc_lower).
  destruct (swap_hosts_exactly l (redirect_hosts h) hosts Hlow Hlow' Hex) as (m & -> & Hm). rewrite reset_plain by exact Hnamed.
  split; [|done]. split; cbn; [done| |done|].
  - intros l'. rewrite lookup_insert_eq. intros Hl'. apply (inj Some) in Hl' as <-. split; [|done]. intros k e. apply built_named.
  - set (store' := set_fold _ store gone).
    assert (forall r, r ∈ desired -> in_hosts less' r = false -> store_contains store' (hostname r) = true) as Hkept.
    { intros r Hr Hless. unfold store'. rewrite set_fold_remove.
      - unfold less' in Hless. rewrite cert_less_spec in Hless by done. by apply negb_false_iff.
      - intros h' Hh' Heq. apply elem_of_difference in Hh' as [Hh' Hnot]. apply Hnot. unfold hosts_of in *.
        apply elem_of_list_to_set in Hh'. apply elem_of_list_to_set, list_elem_of_fmap.
        apply list_elem_of_fmap in Hh' as (r' & -> & _). exists r. split; [|done]. unfold lc_hostname in Heq at 1. by rewrite lowercase_lower in Heq. }
    intros ap' Hap. apply (inj Some) in Hap as <-. split; [done|]. eexists _, _, less'. split; [done|]. split; [done|].
    rewrite lookup_insert_eq. split; [done|]. split; [|intros r Hr Hless; left; by apply Hkept]. split; [exact Hhosts|]. split; [exact Hm|]. split; [done|].
    intros f r Hf Hr Hless. enough (fe_routes f = table_build (certed store' desired) HTTPS_FRONTEND_NAME) as ->
      by (apply certed_in; [done|done|by apply Hkept]).
    destruct Hf as [->|Hf]; [done|]. cbn in Hf. by apply fmap_Some in Hf as (f0 & _ & ->).
Qed.

Lemma respawn_inv cfg lost0 lost w s desired : https_inv cfg lost0 s -> NoDup (lc_hostname <$> desired) -> desired <> [] ->
  let s' := let '(s, spawned) := spawn_https_frontend cfg w (teardown_https s) desired in
            match spawned with Some ap => with_https s (Some ap) desired | None => with_https s None [] end in
  https_inv cfg lost s' /\ (is_Some (https_active s') -> prev_routes s' = desired).
Proof.
  intros Hinv Hnd Hne. destruct (teardown_inv cfg lost0 lost s Hinv) as [Hinv' Ha]. pose proof (spawn_https_inv cfg lost w _ desired Hinv' Ha Hnd Hne) as Hs.
  destruct (spawn_https_frontend cfg w (teardown_https s) desired) as [s0 [ap|]]; (split; [exact Hs|]); [done|]. by intros [? ?].
Qed.

Lemma reconcile_https_inv cfg lost w s desired : https_inv cfg lost s -> NoDup (lc_hostname <$> desired) ->
  let s' := reconcile_https cfg w s desired in https_inv cfg lost s' /\ (is_Some (https_active s') -> prev_routes s' = desired).
Proof.
  intros Hinv Hnd. unfold reconcile_https. destruct desired as [|d desired].
  - destruct (teardown_inv cfg lost lost s Hinv) as [[Hnd' Hl Hoff Hon] Ha]. split; [|by intros [? ?]]. split; cbn; [constructor|done| |done].
    intros l _. by apply Hoff.
  - case_match eqn:Hm. { apply andb_true_iff in Hm as [_ Hm%bool_decide_eq_true]. by split. }
    destruct (https_active s) as [ap|] eqn:Ha; [|by eapply respawn_inv].
    pose proof (hot_swap_inv cfg lost w s ap (d :: desired) Hinv Ha Hnd) as Hswap. destruct (try_hot_swap_routes cfg w s ap (d :: desired)) as [s1 []].
    + destruct Hswap as [Hs1 Hp]; [done|]. split; [done|]. intros _. by apply Hp.
    + eapply respawn_inv; [by apply Hswap|done|done].
Qed.

(** The L4 side leaves the routes alone. *)
Definition l7 s := (redirect_listeners s, https_active s, prev_routes s, cert_store s).

Lemma update_l7 cfg w s d : l7 (apply_update cfg w s d) = l7 s.
Proof.
  assert (forall s n, l7 (stop_rule s n) = l7 s) as Hstop by (intros s' n; unfold stop_rule; by destruct (active s' !! n)).
  assert (forall s ru, l7 (start_rule cfg w s ru) = l7 s) as Hstart.
  { intros s' r. unfold start_rule. assert (l7 (fst (spawn_proxy_for_rule cfg w r s')) = l7 s') as Hsp by (unfold spawn_proxy_for_rule; by repeat case_match).
    destruct (spawn_proxy_for_rule cfg w r s') as [s0 []]; exact Hsp. }
  unfold apply_update. rewrite (fold_keeps _ _ l7), (fold_keeps _ _ l7), (fold_keeps _ _ l7); [done|..]; intros s' x _; unfold swap_rule; by rewrite ?Hstart, ?Hstop.
Qed.

Lemma l7_inv cfg lost s s' : l7 s' = l7 s -> https_inv cfg lost s -> https_inv cfg lost s'.
Proof. intros [= Hr Ha Hp Hc] [Hnd Hl Hoff Hon]. split; rewrite ?Hr, ?Ha, ?Hp, ?Hc; done. Qed.

(** A companion with routes to share is not empty. *)
Lemma shares_not_empty routes h l less : NoDup (lc_hostname <$> routes) -> routes <> [] -> shares routes h l less -> listener_is_empty l = false.
Proof.
  intros Hnd Hne (Hh & Hex & Hp & _). destruct routes as [|r routes]; [done|]. pose proof (list_elem_of_here r routes) as Hr.
  apply not_true_iff_false. unfold listener_is_empty. rewrite andb_true_iff, !bool_decide_eq_true. intros [Hhosts Hdom].
  destruct (in_hosts less r) eqn:Hless.
  - pose proof (built_in (fun r => in_hosts less r = true) (r :: routes) HTTPS_FRONTEND_NAME r Hnd Hr Hless) as Hin. rewrite <- Hp in Hin.
    apply (elem_of_dom_2 (M := gmap string)) in Hin. set_solver.
  - specialize (Hex (lc_hostname r)). rewrite Hhosts, lookup_empty, decide_True in Hex; [done|]. rewrite Hh. apply list_elem_of_fmap_2.
    by apply list_elem_of_filter.
Qed.

Lemma apply_set_inv cfg lost w s new_set : https_inv cfg lost s -> NoDup (lc_hostname <$> routes new_set) ->
  let s' := apply_set cfg w s new_set in https_inv cfg lost s' /\ (is_Some (https_active s') -> prev_routes s' = routes (current_set s')).
Proof.
  intros Hinv Hnd. cbv zeta. unfold apply_set. set (s1 := apply_update _ _ _ _).
  assert (https_inv cfg lost s1) as Hinv1 by (eapply l7_inv; [apply update_l7|done]).
  destruct (reconcile_https_inv cfg lost w s1 (routes new_set) Hinv1 Hnd) as [[Hndp Hl Hoff Hon] Hp]. set (s2 := reconcile_https _ _ _ _) in *. clearbody s2.
  split; [|exact Hp]. split; cbn; [done|..].
  - intros l [Hlk _]%map_lookup_filter_Some. by apply Hl.
  - intros l Ha [Hlk _]%map_lookup_filter_Some. by apply Hoff.
  - intros ap Ha. destruct (Hon ap Ha) as (Hne & h & l & less & Hh & Hip & Hlk & Hs & Hb). split; [done|]. exists h, l, less. split_and!; [done|done| |done..].
    apply map_lookup_filter_Some. split; [done|]. cbn. by eapply shares_not_empty.
Qed.

(** The hosts of each set that is applied are distinct, as [RuleSet] checks. *)
Definition distinct_hosts (ev : SupervisorEvent) : Prop :=
  match ev with SvApply _ set => NoDup (lc_hostname <$> routes set) | SvReload _ _ _ => True end.

(** A certificate reload of the run found no certificate for host [k] any
    more. *)
Definition withdrawn (cfg : SupervisorConfig) (evs : list SupervisorEvent) (k : string) : Prop :=
  exists pre d host now post, evs = pre ++ SvReload d host now :: post /\ Str.to_ascii_lowercase host = k /\
    reload_resolve d (cert_store (supervisor_loop cfg pre)) host now = Some (Ok None).

Lemma withdrawn_snoc cfg evs ev k : withdrawn cfg evs k -> withdrawn cfg (evs ++ [ev]) k.
Proof. intros (pre & d & host & now & post & -> & Hk). exists pre, d, host, now, (post ++ [ev]). split; [by rewrite <- app_assoc|done]. Qed.

Lemma reload_keeps d store host now h : store_contains store h = true ->
  store_contains (reload_host d store host now) h = true \/
  Str.to_ascii_lowercase host = Str.to_ascii_lowercase h /\ reload_resolve d store host now = Some (Ok None).
Proof.
  unfold reload_host, reload_commit, store_contains. rewrite !bool_decide_eq_true. intros [e He].
  destruct (reload_resolve d store host now) as [[[e'|]|]|] eqn:Hr; cbn; try (left; by exists e).
  - left. destruct (decide (Str.to_ascii_lowercase host = Str.to_ascii_lowercase h)) as [->|]; [rewrite lookup_insert_eq|rewrite lookup_insert_ne by done]; by eexists.
  - destruct (decide (Str.to_ascii_lowercase host = Str.to_ascii_lowercase h)) as [|]; [by right|left]. rewrite lookup_delete_ne by done. by exists e.
Qed.

Lemma loop_inv cfg evs : Forall distinct_hosts evs ->
  let s := supervisor_loop cfg evs in https_inv cfg (withdrawn cfg evs) s /\ (is_Some (https_active s) -> prev_routes s = routes (current_set s)).
Proof.
  induction evs as [|ev evs IH] using rev_ind.
  { intros _. split; [|done]. split; cbn; [constructor|by intros l|by intros l|done]. }
  intros [Hevs Hev]%Forall_app. apply Forall_cons in Hev as [Hev _]. destruct (IH Hevs) as [Hinv Hp]. cbv zeta.
  assert (supervisor_loop cfg (evs ++ [ev]) = supervisor_step cfg (supervisor_loop cfg evs) ev) as -> by (unfold supervisor_loop; by rewrite foldl_app).
  set (s := supervisor_loop cfg evs) in *. destruct ev as [w set|d host now]; cbn [supervisor_step].
  - apply apply_set_inv; [|done]. replace s with (with_certs s (cert_store s) (cert_watcher s)) by (by destruct s).
    eapply certs_inv; [exact Hinv|intros k; apply withdrawn_snoc|by left].
  - split; [|done]. eapply certs_inv; [exact Hinv|intros k; apply withdrawn_snoc|].
    intros h Hh. destruct (reload_keeps d (cert_store s) host now h Hh) as [?|[Heq Hr]]; [by left|right]. by exists evs, d, host, now, [].
Qed.

(** ** What a client sees *)

(** A host that names the route's, without port or trailing dot. *)
Definition names_host (host : string) r : Prop :=
  Str.to_ascii_lowercase host = lc_hostname r /\ without_port host = host /\ trim_end_dots host = host.

Lemma dispatch_redirects backend l peer rq host r : extract_host rq = Some host -> names_host (without_port host) r ->
  rl_plain l !! lc_hostname r = None -> rl_hosts l !! lc_hostname r = Some 1%nat ->
  dispatch backend l peer rq = redirect_response (without_port host) (default "/" (uri_path_and_query (rq_uri rq))).
Proof.
  intros Hx (Hn & Hp & Hd) Hplain Hhost. unfold dispatch, table_lookup, host_contains. rewrite Hx, Hd, Hp, Hn, Hplain, Hhost. done.
Qed.

Lemma dispatch_plain backend l peer rq host r e : extract_host rq = Some host -> names_host (without_port host) r ->
  rl_plain l !! lc_hostname r = Some e ->
  dispatch backend l peer rq =
    if lan_allows l peer
    then Some (serve_request backend (mkConn None peer (table_build [mkRoute (without_port host) (re_target e) None []] (re_rule_name e)) false false) rq)
    else Some (short_response 404 ("no route" +:+ LF)).
Proof. intros Hx (Hn & Hp & Hd) Hplain. unfold dispatch, table_lookup. rewrite Hx, Hd, Hp, Hn, Hplain. done. Qed.

(** The table of one route is found under any spelling of its host. *)
Lemma one_route_table host r n : names_host host r -> headers r = [] -> hsts r = None ->
  table_build [mkRoute host (route_target r) None []] n = table_build [r] n.
Proof.
  intros (Hn & _) Hh Hs. unfold table_build. cbn [table_extend].
  replace (lc_hostname (mkRoute host (route_target r) None [])) with (lc_hostname r) by (symmetry; exact Hn).
  cbn [fst route_target hsts headers]. by rewrite Hh, Hs.
Qed.

(** In plaintext a route's own response headers make no difference. *)
Lemma plaintext_drops_headers backend l peer rq hs t n :
  let with_headers x := mkRedirect (rl_hosts l) (<[lc_hostname t := mkRouteEntry (route_target t) (hsts t) x n]> (rl_plain l)) (rl_lan l) in
  dispatch backend (with_headers hs) peer rq = dispatch backend (with_headers []) peer rq.
Proof.
  cbn. unfold dispatch. cbn [rl_plain rl_hosts rl_lan]. destruct (extract_host rq) as [host|]; [|done].
  unfold table_lookup, RouteTable in *. set (k := Str.to_ascii_lowercase _). destruct (decide (lc_hostname t = k)) as [<-|Hne].
  - by rewrite !lookup_insert_eq.
  - by rewrite !lookup_insert_ne.
Qed.

End HttpsReload.

Module HttpsReloadProps.
Import CertProps HttpForwardProps ReloadProps.


(** Only [a.example] has a certificate; [c.test] comes with a hot swap. *)
Definition demo_routes (hosts : list string) : RuleSet := mkRuleSet [] (demo_http_route <$> hosts).
Definition demo_run : list SupervisorEvent :=
  [SvApply demo_world (demo_routes ["a.example"; "b.test"]); SvReload demo_disk "a.example" 8; SvApply demo_world (demo_routes ["a.example"; "c.test"])].
Definition demo_https : option ActiveProxy := https_active (supervisor_loop demo_sv_config demo_run).
Definition demo_ap : ActiveProxy := default (mkActive (HTcp 0 (RuleSetProps.demo_rule "" 0) (https_listen demo_cert_config) false) "" 0) demo_https.

Lemma demo_https_up : demo_https = Some demo_ap.
Proof.
  assert (bool_decide (is_Some demo_https) = true) as Hup by by vm_compute. apply bool_decide_eq_true in Hup as [ap Hap].
  unfold demo_ap. by rewrite Hap.
Qed.

Lemma demo_distinct : Forall distinct_hosts demo_run.
Proof.
  assert (forall hosts, bool_decide (NoDup (lc_hostname <$> routes (demo_routes hosts))) = true -> NoDup (lc_hostname <$> routes (demo_routes hosts))) as Hnd.
  { intros hosts. apply bool_decide_eq_true. }
  constructor; [by apply Hnd|]. constructor; [done|]. constructor; [by apply Hnd|constructor].
Qed.

Definition demo_wan_peer : Net.SocketAddr := Net.SocketAddr_new demo_client_ip 54321.


(** With no certificate at all the frontend does not start, but the companion
    keeps the routes, and keeps serving them when they are gone. *)
Lemma certless_routes_outlive_the_set :
  let s := supervisor_loop demo_sv_config [SvApply demo_world (demo_routes ["b.test"]); SvApply demo_world (demo_routes [])] in
  routes (current_set s) = [] /\ bool_decide (is_Some (https_active s)) = false /\
  match redirect_listeners s !! companion_ip demo_sv_config with Some l => bool_decide (is_Some (table_lookup (rl_plain l) "b.test")) | None => false end = true.
Proof. split_and!; by vm_compute. Qed.

End HttpsReloadProps.
