(* ===== verification/TlsFrontend.v ===== *)
(** * The HTTPS connection ([yggdrasil/src/proxy/http_frontend/acceptor.rs])

    From an accepted TCP connection to the handler of its requests: the PROXY
    header is taken off, what was read too far is put back in front of the TLS
    handshake, and the handler knows the client the header announced. *)

From S2P Require Import Prelude RustStd External Instances RuleTypes Error Rule RuleSet NetFmt ProxyProtocol HttpForward.

(** ** Bytes put back *)

Record PrefixedStream := mkPrefixed { ps_prefix : list byte; ps_pos : nat; ps_inner : list byte }.

Definition prefixed_new (prefix inner : list byte) : PrefixedStream := mkPrefixed prefix 0 inner.

(** Up to [cap] bytes; [ready]: how many the socket has, if it is asked. *)
Definition poll_read (cap ready : nat) (s : PrefixedStream) : list byte * PrefixedStream :=
  if (ps_pos s <? length (ps_prefix s))%nat then
    let remaining := skipn (ps_pos s) (ps_prefix s) in
    let to_copy := Nat.min (length remaining) cap in
    (firstn to_copy remaining, mkPrefixed (ps_prefix s) (ps_pos s + to_copy) (ps_inner s))
  else
    let n := Nat.min ready cap in
    (firstn n (ps_inner s), mkPrefixed (ps_prefix s) (ps_pos s) (skipn n (ps_inner s))).

(** The bytes of a run of reads. *)
Fixpoint read_all (reads : list (nat * nat)) (s : PrefixedStream) : list byte * PrefixedStream :=
  match reads with
  | [] => ([], s)
  | (cap, ready) :: reads => let '(out, s) := poll_read cap ready s in let '(outs, s) := read_all reads s in (out ++ outs, s)
  end.

(** What is still to be read. *)
Definition pending_bytes (s : PrefixedStream) : list byte := skipn (ps_pos s) (ps_prefix s) ++ ps_inner s.

Lemma poll_read_pending cap ready s : let '(out, s') := poll_read cap ready s in pending_bytes s = out ++ pending_bytes s'.
Proof.
  unfold poll_read, pending_bytes. destruct (Nat.ltb_spec (ps_pos s) (length (ps_prefix s))); cbn.
  - set (n := Nat.min _ cap). rewrite <- drop_drop, app_assoc. by rewrite take_drop.
  - set (n := Nat.min ready cap). rewrite !drop_ge by lia. cbn. by rewrite take_drop.
Qed.

Lemma read_all_pending reads s : let '(out, s') := read_all reads s in pending_bytes s = out ++ pending_bytes s'.
Proof.
  revert s. induction reads as [|[cap ready] reads IH]; intros s; [done|]. cbn [read_all]. pose proof (poll_read_pending cap ready s) as Hp.
  destruct (poll_read cap ready s) as [out s1]. specialize (IH s1). destruct (read_all reads s1) as [outs s2]. by rewrite Hp, IH, app_assoc.
Qed.

(** A read with room and data makes progress. *)
Lemma poll_read_progress cap ready s : (0 < cap)%nat -> (0 < ready)%nat -> pending_bytes s <> [] -> fst (poll_read cap ready s) <> [].
Proof.
  intros Hc Hr Hp. unfold poll_read, pending_bytes in *. destruct (Nat.ltb_spec (ps_pos s) (length (ps_prefix s))); cbn.
  - intros Heq%(f_equal length). rewrite length_take, length_drop in Heq. cbn in Heq. lia.
  - intros Heq%(f_equal length). rewrite length_take in Heq. cbn in Heq. apply Hp. rewrite drop_ge by lia. apply nil_length_inv. cbn. lia.
Qed.

(** ** The connection *)

Section TlsFrontend.
Context `{UrlLib} `{HttpLib}.

Definition classify_tls_error (text : string) : string :=
  if str_contains text "UnrecognizedName" || str_contains text "unrecognized_name" then "unknown_sni" else "alert".

Inductive TlsOutcome :=
  | TlsFailed (label : string)
  | TlsServed (ctx : ConnContext) (h2 : bool).

(** [handshake]: rustls on the stream, with the protocol it negotiated or the
    text of its error. *)
Definition handle_tcp_connection (rule : Rule) (routes : RouteTable) (emit_alt_svc : bool) (peer_addr : Net.SocketAddr)
    (handshake : PrefixedStream -> result string (option string)) (input : list byte) : result IoError TlsOutcome :=
  '(decode, rest) ← read_optional_header input;
  let client_addr := match endpoints decode with Some e => ep_client e | None => peer_addr end in
  match handshake (prefixed_new (leftover decode) rest) with
  | Err text => Ok (TlsFailed (classify_tls_error text))
  | Ok alpn => Ok (TlsServed (mkConn (Some rule) client_addr routes true emit_alt_svc) (bool_decide (alpn = Some "h2")))
  end.

End TlsFrontend.
