(* ===== verification/TcpChain.v ===== *)
(** * The client's address and bytes along a chain of TCP proxies

    A gateway, any number of relays and the HTTPS frontend of the terminal,
    composed: each hop is what the supervisor starts for a rule in its mode, and
    what a hop writes to its upstream is what the next one reads. *)

From S2P Require Import Prelude RustStd External Instances RuleTypes Error Rule RuleSet LanCidrs NetFmt PubKey PeerState ChainTypes.
From S2P Require Import ProxyProtocol Resolver TcpProxy Certs HttpForward Companion Supervisor Reload TlsFrontend.

Section TcpChain.
Context `{Extern} `{UrlLib} `{TlsLib} `{HttpLib}.

(** A hop: the node's supervisor, the rule, the address it listens on, the
    address its upstream socket has for the next hop, and its network. *)
Record TcpHop := mkTcpHop {
  th_node : SupervisorConfig;
  th_rule : Rule;
  th_listen : Net.SocketAddr;
  th_source : Net.SocketAddr;
  th_net : Network
}.

Definition through (h : TcpHop) (from : Net.SocketAddr) (input : list byte) : result ConnError (list byte) :=
  handle_connection (th_rule h) from (th_listen h) (expect_inbound_proxy (th_node h) (th_rule h)) (th_net h) input.

(** What arrives behind [hops], and from where. *)
Fixpoint tcp_pass (hops : list TcpHop) (from : Net.SocketAddr) (input : list byte) : result ConnError (Net.SocketAddr * list byte) :=
  match hops with
  | [] => Ok (from, input)
  | h :: hops => out ← through h from input; tcp_pass hops (th_source h) out
  end.

(** The network lets the whole stream through. *)
Definition healthy (n : Network) (input : list byte) : Prop := net_connect n = true /\ net_header n = true /\ (length input <= net_pumped n)%nat.

(** A hop that announces the client: its rule asks for version 2, and it listens
    on the client's family. *)
Definition announcing (client : Net.SocketAddr) (input : list byte) (h : TcpHop) : Prop :=
  proxy_protocol (th_rule h) = Some ProxyV2 /\ healthy (th_net h) input /\
  same_family (Net.ip client) (Net.ip (th_listen h)) = true /\ fits 16 (Net.port (th_listen h)).

(** A gateway does not look at the bytes. *)
Lemma gateway_through h client input : announcing client input h -> rf_mode (resolver_factory (th_node h)) <> Relay ->
  through h client input = Ok (encode_header ProxyV2 client (th_listen h) ++ input).
Proof.
  intros (Hv & (Hc & Hh & Hp) & _) Hm. unfold through, handle_connection, expect_inbound_proxy. rewrite Hc, Hv, Hh.
  rewrite (bool_decide_false _ Hm). cbn. by rewrite firstn_all2.
Qed.

(** A relay replaces the header it is given by one of its own for the same
    client. *)
Lemma relay_through h from client server input : announcing client input h -> rf_mode (resolver_factory (th_node h)) = Relay ->
  fits 16 (Net.port client) -> fits 16 (Net.port server) -> same_family (Net.ip client) (Net.ip server) = true ->
  through h from (encode_header ProxyV2 client server ++ input) = Ok (encode_header ProxyV2 (plain client) (th_listen h) ++ input).
Proof.
  intros (Hv & (Hc & Hh & Hp) & _) Hm Hpc Hps Hf. unfold through, handle_connection, expect_inbound_proxy. rewrite Hc, Hv, Hh.
  rewrite (bool_decide_true _ Hm). rewrite bool_decide_true by done. cbn [negb andb].
  change (encode_header ProxyV2 client server) with (encode_v2 client server).
  rewrite (proj1 (ProxyProtocolProps.v2_roundtrip client server input Hpc Hps)).
  destruct (carried_client client server Hf) as (e & He & Hcl). rewrite He. cbn. rewrite Hcl, firstn_all2 by done. done.
Qed.

Lemma announcing_plain client input h : announcing client input h -> announcing (plain client) input h.
Proof. unfold announcing. by destruct client. Qed.

Lemma relays_through client input relays : fits 16 (Net.port client) -> Forall (announcing client input) relays ->
  Forall (fun h => rf_mode (resolver_factory (th_node h)) = Relay) relays ->
  forall from server, fits 16 (Net.port server) -> same_family (Net.ip client) (Net.ip server) = true ->
  exists src client' server', tcp_pass relays from (encode_header ProxyV2 client server ++ input) = Ok (src, encode_header ProxyV2 client' server' ++ input) /\
    plain client' = plain client /\ fits 16 (Net.port server') /\ same_family (Net.ip client') (Net.ip server') = true.
Proof.
  revert client. induction relays as [|h relays IH]; intros client Hpc Ha Hm from server Hps Hf; [by exists from, client, server|].
  apply Forall_cons in Ha as [Hh Ha]. apply Forall_cons in Hm as [Hmode Hm]. cbn [tcp_pass].
  rewrite (relay_through h from client server input Hh Hmode Hpc Hps Hf). cbn [mbind result_bind].
  destruct (IH (plain client)) with (from := th_source h) (server := th_listen h) as (src & c' & s' & Hpass & Hb & Hrest).
  - by destruct client.
  - eapply Forall_impl; [exact Ha|]. intros h'. apply announcing_plain.
  - done.
  - apply Hh.
  - destruct Hh as (_ & _ & Hfam & _). by destruct client.
  - exists src, c', s'. rewrite Hpass. rewrite plain_plain in Hb. done.
Qed.

End TcpChain.

Module TcpChainProps.
Import CertProps HttpForwardProps ReloadProps.

(** C9: Behind a gateway and any number of relays the terminal serves the
    requests of a client under the client's own address and port, not those of
    the hop before it, and its TLS handshake reads exactly the bytes the client
    sent, whatever these are and however they are chunked: no header is left in
    front of them and none of them is taken for one.  This holds when every hop
    has a rule that asks for version 2 headers, as derived HTTPS rules do, when
    every hop listens on an address of the client's family, and when every
    connection is made and carries the whole stream; a hop of the other family
    loses the client (mixed_family_tcp_loses_client). *)
Theorem tcp_chain_client `{Extern} `{UrlLib} `{TlsLib} `{HttpLib} gateway relays client input rule routes emit :
  let hops := gateway :: relays in
  rf_mode (resolver_factory (th_node gateway)) = Gateway -> Forall (fun h => rf_mode (resolver_factory (th_node h)) = Relay) relays ->
  Forall (fun h => proxy_protocol (th_rule h) = Some ProxyV2) hops ->
  Forall (fun h => same_family (Net.ip client) (Net.ip (th_listen h)) = true) hops ->
  Forall (fun h => healthy (th_net h) input) hops ->
  fits 16 (Net.port client) -> Forall (fun h => fits 16 (Net.port (th_listen h))) hops ->
  exists src stream, tcp_pass hops client input = Ok (src, stream) /\
    forall handshake, exists tls, (forall reads, exists rest, input = fst (read_all reads tls) ++ rest) /\ pending_bytes tls = input /\
      handle_tcp_connection rule routes emit src handshake stream =
        Ok (match handshake tls with
            | Err text => TlsFailed (classify_tls_error text)
            | Ok alpn => TlsServed (mkConn (Some rule) (plain client) routes true emit) (bool_decide (alpn = Some "h2"))
            end).
Proof.
  intros hops Hmg Hmr Hv2 Hfams Hnets Hpc Hports.
  assert (Forall (announcing client input) hops) as [Hg Hr]%Forall_cons.
  { rewrite Forall_forall in *. intros h Hh. split_and!; auto. }
  unfold hops.
  cbn [tcp_pass]. rewrite (gateway_through gateway client input Hg) by congruence. cbn [mbind result_bind].
  destruct Hg as (_ & _ & Hf & Hps).
  destruct (relays_through client input relays Hpc Hr Hmr (th_source gateway) (th_listen gateway) Hps Hf) as (src & c & s & Hp & Hb & Hs & Hfam).
  exists src, (encode_header ProxyV2 c s ++ input). split; [done|]. intros handshake. exists (prefixed_new [] input).
  split; [|split; [done|]].
  { intros reads. pose proof (read_all_pending reads (prefixed_new [] input)) as Hread. destruct (read_all reads _) as [out s']. by eexists. }
  unfold handle_tcp_connection. assert (fits 16 (Net.port c)) as Hc.
  { assert (Net.port (plain c) = Net.port (plain client)) as Hport by by rewrite Hb. unfold plain in Hport. destruct c, client; cbn in *; congruence. }
  change (encode_header ProxyV2 c s) with (encode_v2 c s). rewrite (proj1 (ProxyProtocolProps.v2_roundtrip c s input Hc Hs)).
  destruct (carried_client c s Hfam) as (e & He & Hcl). rewrite He. cbn. rewrite Hcl, Hb. by destruct (handshake _).
Qed.

Definition demo_v4 (a b c d p : Z) : Net.SocketAddr := Net.SocketAddr_new (Net.IpV4 (Net.v4_new a b c d)) p.
Definition demo_tcp_hop (f : ResolverFactory) (listen source : Net.SocketAddr) : TcpHop :=
  mkTcpHop (mkSvConfig f None demo_cert_config) (mkRule "web-tcp" listen Tcp (Some 443) None None (Some ProxyV2)) listen source (mkNetwork true true true 4096).
Definition demo_tcp_gateway : TcpHop := demo_tcp_hop new_gateway (demo_v4 198 51 100 1 443) (demo_v4 10 0 0 1 40001).
Definition demo_tcp_relay : TcpHop := demo_tcp_hop new_relay (demo_v4 10 0 0 2 443) (demo_v4 10 0 0 2 40002).

(** A client whose first bytes look like a header. *)
Definition demo_tcp_client : Net.SocketAddr := demo_v4 203 0 113 7 54321.
Definition demo_tcp_input : list byte := Str.to_bytes "PROXY TCP4 127.0.0.1".

Lemma tcp_chain_client_witness :
  exists src stream, tcp_pass [demo_tcp_gateway; demo_tcp_relay] demo_tcp_client demo_tcp_input = Ok (src, stream) /\
    handle_tcp_connection (th_rule demo_tcp_relay) ∅ true src (fun _ => Ok (Some "h2")) stream =
      Ok (TlsServed (mkConn (Some (th_rule demo_tcp_relay)) demo_tcp_client ∅ true true) true).
Proof.
  destruct (tcp_chain_client demo_tcp_gateway [demo_tcp_relay] demo_tcp_client demo_tcp_input (th_rule demo_tcp_relay) ∅ true)
    as (src & stream & Hp & Hs).
  - done.
  - by constructor.
  - by repeat constructor.
  - by repeat constructor.
  - repeat constructor; vm_compute; lia.
  - by split; vm_compute.
  - constructor; [by split; vm_compute|constructor; [by split; vm_compute|constructor]].
  - exists src, stream. split; [exact Hp|]. destruct (Hs (fun _ => Ok (Some "h2"))) as (tls & _ & _ & ->). reflexivity.
Defined.

(** With version 1 headers a relay does not expect one: it puts its own in front
    of the gateway's, which then reaches the TLS handshake of the terminal, under
    the relay's address. *)
Definition with_v1 (h : TcpHop) : TcpHop :=
  mkTcpHop (th_node h) (mkRule "web-tcp" (th_listen h) Tcp (Some 443) None None (Some ProxyV1)) (th_listen h) (th_source h) (th_net h).

Definition terminal_client (r : result ConnError (Net.SocketAddr * list byte)) : option (Net.SocketAddr * string) :=
  match r with
  | Ok (_, stream) =>
      match read_optional_header stream with
      | Ok (d, rest) => e ← endpoints d; Some (ep_client e, Str.of_bytes (take 10 rest))
      | Err _ => None
      end
  | Err _ => None
  end.

(** A relay that listens on IPv6 behind a gateway on IPv4 has no header for the
    client the gateway announced: it writes one without endpoints, and the
    terminal serves the client under the relay's address. *)
Definition v6_listener (h : TcpHop) : TcpHop :=
  let any6 := Net.SocketAddr_new (Net.IpV6 (Net.mkIpv6 (Net.v4_new 0 0 0 0) (Net.v4_new 0 0 0 0) (Net.v4_new 0 0 0 0) (Net.v4_new 0 0 0 0))) 443 in
  mkTcpHop (th_node h) (th_rule h) any6 (th_source h) (th_net h).

Definition served_client (r : result ConnError (Net.SocketAddr * list byte)) : option Net.SocketAddr :=
  match r with
  | Ok (src, stream) =>
      match read_optional_header stream with Ok (d, _) => Some (match endpoints d with Some e => ep_client e | None => src end) | Err _ => None end
  | Err _ => None
  end.

Lemma mixed_family_tcp_loses_client :
  served_client (tcp_pass [demo_tcp_gateway; demo_tcp_relay] demo_tcp_client demo_tcp_input) = Some demo_tcp_client /\
  served_client (tcp_pass [demo_tcp_gateway; v6_listener demo_tcp_relay] demo_tcp_client demo_tcp_input) = Some (th_source demo_tcp_relay).
Proof. split; by vm_compute. Qed.

Lemma v1_chain_stacks_headers :
  terminal_client (tcp_pass [with_v1 demo_tcp_gateway; with_v1 demo_tcp_relay] demo_tcp_client (Str.to_bytes "hello")) =
    Some (demo_v4 10 0 0 1 40001, "PROXY TCP4").
Proof. by vm_compute. Qed.

End TcpChainProps.
