(* ===== verification/Config.v ===== *)
(** * The server's configuration ([yggdrasil/src/config.rs])

    The sections as they are after TOML was parsed, their validation, and what
    the daemon makes of them ([lib.rs], [supervisor/cert_config.rs]). *)

From S2P Require Import Prelude RustStd External Instances RuleTypes Error PubKey Rule RuleSet LanCidrs NetFmt PeerState NatMapper ChainTypes.
From S2P Require Import ProxyProtocol Resolver Certs HttpForward Companion Supervisor.

(** ** Sections *)

Record ServerSection := mkServer {
  server_name : option string;
  rules_dir : string;
  sc_default_bind : option Net.IpAddr;
  sc_workers : option Z;
  identity_file : string;
  sc_cert_dir : string;
  sc_default_cert : option string;
  sc_default_key : option string;
  http_redirect_port : option Z;
  sc_https_listen : Net.SocketAddr;
  sc_https_http3 : bool;
  sc_https_alt_svc : bool;
  sc_https_request_body_limit : Z;
  graceful_drain_timeout : option Z;
  nat_traversal : NatTraversalMode;
  sc_lan_cidrs : option (list string)
}.

Record DialSection := mkDial { dial_pubkey : PubKey; dial_endpoint : string; dial_heartbeat_interval : Z; dial_rekey_interval : Z }.
Record AcceptSection := mkAccept { accept_pubkey : PubKey; accept_listen : Net.SocketAddr; accept_rekey_interval : Z }.
Record AcmeDnsProviderConfig := mkDns { api_token : option string; api_token_env : option string }.

(** [dns]: the [BTreeMap], in the order of its keys. *)
Record AcmeSection := mkAcme {
  directory_url : string;
  contact_email : string;
  acme_domain : string;
  account_key_path : string;
  storage_dir : option string;
  terms_of_service_agreed : bool;
  renew_before : Z;
  renew_jitter : Z;
  acme_dns : list (string * AcmeDnsProviderConfig)
}.

Record ServerConfig := mkServerConfig {
  cfg_server : ServerSection;
  control_socket : string;
  cfg_dial : option DialSection;
  cfg_accept : option AcceptSection;
  cfg_acme : option AcmeSection
}.

Definition DEFAULT_CONTROL_SOCKET : string := "/run/yggdrasil/control.sock".
Definition default_https_request_body_limit : Z := 16 * 1024 * 1024.
Definition default_rekey_interval : Z := Time.from_secs 3600.
Definition default_heartbeat_interval : Z := Time.from_secs 5.
Definition default_acme_renew_before : Z := Time.from_secs (30 * 86400).
Definition default_acme_renew_jitter : Z := Time.from_secs (12 * 3600).

(** What [ConfigError::Invalid] says, one constructor per message. *)
Inductive ConfigError :=
  | NoChainSection
  | WorkersZero
  | NameTooLong (len : nat) | NameControl | NameWhitespace
  | EndpointEmpty | EndpointNoPort (endpoint : string) | HeartbeatZero | DialRekeyZero | AcceptRekeyZero
  | CertWithoutKey | KeyWithoutCert
  | BadLanCidr (e : CidrParseError)
  | AltSvcWithoutHttp3 | HttpsPortZero
  | TosNotAgreed | BadContact (email : string) | DomainEmpty | DirectoryEmpty | RenewBeforeZero
  | NoDnsProvider | ManyDnsProviders (names : list string)
  | TokenTwice (provider : string) | TokenMissing (provider : string).

(** ** The node's name *)

Definition SERVER_NAME_MAX_BYTES : nat := 32.

Definition reject {E} (bad : bool) (e : E) : result E unit := if bad then Err e else Ok ().

Definition validate_server_name (name : string) : result ConfigError unit :=
  if Str.is_empty name then Ok ()
  else
    _ ← reject (SERVER_NAME_MAX_BYTES <? Str.len name)%nat (NameTooLong (Str.len name));
    _ ← reject (existsb Str.is_control (Str.chars name)) NameControl;
    reject (existsb Str.is_whitespace (Str.chars name)) NameWhitespace.

Fixpoint take_while {A} (f : A -> bool) (l : list A) : list A :=
  match l with x :: l' => if f x then x :: take_while f l' else [] | [] => [] end.

(** Where each [char] starts. *)
Fixpoint char_indices (pos : nat) (slices : list (list ascii)) : list nat :=
  match slices with [] => [] | sl :: slices => pos :: char_indices (pos + length sl) slices end.

Definition printable (sl : list ascii) : bool := negb (Str.is_control (Str.scalar sl)) && negb (Str.is_whitespace (Str.scalar sl)).

(** [hostname]: the buffer [gethostname] filled, or its failure. *)
Definition read_hostname_or_unknown (hostname : option (list byte)) : string :=
  match hostname with
  | None => "unknown"
  | Some buf =>
      let name := default "unknown" (Utf8.from_utf8 (take_while (fun b => negb (byte_to_Z b =? 0)) buf)) in
      let slices := List.filter printable (Str.char_slices name) in
      let sanitised := concat slices in
      match sanitised with
      | [] => "unknown"
      | _ =>
          if (SERVER_NAME_MAX_BYTES <? length sanitised)%nat then
            Str.of_list (firstn (default SERVER_NAME_MAX_BYTES
              (last (take_while (fun i => (i <=? SERVER_NAME_MAX_BYTES)%nat) (char_indices 0 slices)))) sanitised)
          else Str.of_list sanitised
      end
  end.

Definition resolve_server_name (configured : option string) (hostname : option (list byte)) : string :=
  match configured with
  | Some s => if Str.is_empty s then read_hostname_or_unknown hostname else s
  | None => read_hostname_or_unknown hostname
  end.

(** ** Validation *)

Definition derived_mode (c : ServerConfig) : result ConfigError Mode :=
  match cfg_dial c, cfg_accept c with
  | None, Some _ => Ok ChainTypes.Gateway
  | Some _, Some _ => Ok Relay
  | Some _, None => Ok Terminal
  | None, None => Err NoChainSection
  end.

Definition has_char (c : ascii) (s : string) : bool := bool_decide (c ∈ Str.to_list s).
Definition blank (s : string) : bool := Str.is_empty (Str.trim s).

Definition validate_dial (up : DialSection) : result ConfigError unit :=
  _ ← reject (blank (dial_endpoint up)) EndpointEmpty;
  _ ← reject (negb (has_char ":" (dial_endpoint up))) (EndpointNoPort (dial_endpoint up));
  _ ← reject (dial_heartbeat_interval up =? 0) HeartbeatZero;
  reject (dial_rekey_interval up =? 0) DialRekeyZero.

Definition validate_accept (acc : AcceptSection) : result ConfigError unit := reject (accept_rekey_interval acc =? 0) AcceptRekeyZero.

Definition validate_server (s : ServerSection) : result ConfigError unit :=
  _ ← match sc_default_cert s, sc_default_key s with
      | Some _, None => Err CertWithoutKey
      | None, Some _ => Err KeyWithoutCert
      | _, _ => Ok ()
      end;
  _ ← match sc_lan_cidrs s with
      | Some l => try_each (fun c => _ ← map_err BadLanCidr (cidr_parse c); Ok ()) l
      | None => Ok ()
      end;
  _ ← reject (sc_https_alt_svc s && negb (sc_https_http3 s)) AltSvcWithoutHttp3;
  reject (Net.port (sc_https_listen s) =? 0) HttpsPortZero.

Definition validate_provider (p : string * AcmeDnsProviderConfig) : result ConfigError unit :=
  match api_token (snd p), api_token_env (snd p) with
  | Some _, Some _ => Err (TokenTwice (fst p))
  | None, None => Err (TokenMissing (fst p))
  | _, _ => Ok ()
  end.

Definition validate_acme (a : AcmeSection) : result ConfigError unit :=
  _ ← reject (negb (terms_of_service_agreed a)) TosNotAgreed;
  _ ← reject (blank (contact_email a) || negb (has_char "@" (contact_email a))) (BadContact (contact_email a));
  _ ← reject (blank (acme_domain a)) DomainEmpty;
  _ ← reject (blank (directory_url a)) DirectoryEmpty;
  _ ← reject (renew_before a =? 0) RenewBeforeZero;
  _ ← match acme_dns a with [] => Err NoDnsProvider | [_] => Ok () | ps => Err (ManyDnsProviders (fst <$> ps)) end;
  try_each validate_provider (acme_dns a).

Definition on_section {A} (f : A -> result ConfigError unit) (s : option A) : result ConfigError unit :=
  match s with Some a => f a | None => Ok () end.

Definition validate (c : ServerConfig) : result ConfigError unit :=
  _ ← derived_mode c;
  _ ← reject (bool_decide (sc_workers (cfg_server c) = Some 0)) WorkersZero;
  _ ← on_section validate_server_name (server_name (cfg_server c));
  _ ← on_section validate_dial (cfg_dial c);
  _ ← on_section validate_accept (cfg_accept c);
  _ ← validate_server (cfg_server c);
  on_section validate_acme (cfg_acme c).

Definition acme_sans (c : ServerConfig) : option (list string) :=
  (fun a => [acme_domain a; "*." +:+ acme_domain a]) <$> cfg_acme c.

(** ** What the daemon makes of it *)

(** [lib.rs] [resolve_lan_cidrs]; [None] is the [expect]. *)
Definition resolve_lan_cidrs (c : ServerConfig) : option LanCidrs :=
  match resolve_lan (sc_lan_cidrs (cfg_server c)) with Some (Ok l) => Some l | _ => None end.

Definition from_server_section (s : ServerSection) (lan : LanCidrs) : CertConfig :=
  mkCertConfig (sc_cert_dir s) (sc_default_cert s) (sc_default_key s) (http_redirect_port s) (sc_https_listen s) (sc_https_http3 s)
    (sc_https_alt_svc s) (sc_https_request_body_limit s) lan.

(** The overrides of the command line, and what [run] then dispatches to. *)
Record RunArgs := mkRunArgs { arg_rules_dir : option string; arg_bind : option Net.IpAddr; require_mode : option Mode }.

Definition with_overrides (c : ServerConfig) (a : RunArgs) : ServerConfig :=
  let s := cfg_server c in
  mkServerConfig
    (mkServer (server_name s) (default (rules_dir s) (arg_rules_dir a))
       (match arg_bind a with Some ip => Some ip | None => sc_default_bind s end) (sc_workers s) (identity_file s) (sc_cert_dir s)
       (sc_default_cert s) (sc_default_key s) (http_redirect_port s) (sc_https_listen s) (sc_https_http3 s) (sc_https_alt_svc s)
       (sc_https_request_body_limit s) (graceful_drain_timeout s) (nat_traversal s) (sc_lan_cidrs s))
    (control_socket c) (cfg_dial c) (cfg_accept c) (cfg_acme c).

Inductive RunError := LoadFailed (e : ConfigError) | RequireMode (required actual : Mode).

(** [run] up to the dispatch on the mode: the configuration was parsed. *)
Definition run_config (c : ServerConfig) (a : RunArgs) : result RunError (Mode * ServerConfig) :=
  _ ← map_err LoadFailed (validate c);
  let c := with_overrides c a in
  _ ← map_err LoadFailed (validate c);
  mode ← map_err LoadFailed (derived_mode c);
  _ ← match require_mode a with
      | Some required => reject (negb (bool_decide (mode = required))) (RequireMode required mode)
      | None => Ok ()
      end;
  Ok (mode, c).

(** ** What the validation accepts *)

(** A configuration the daemon can run, stated without the code's control
    flow. *)
Record config_valid (c : ServerConfig) : Prop := {
  cv_chain : is_Some (cfg_dial c) \/ is_Some (cfg_accept c);
  cv_workers : sc_workers (cfg_server c) <> Some 0;
  cv_name n : server_name (cfg_server c) = Some n ->
    (Str.len n <= SERVER_NAME_MAX_BYTES)%nat /\ Forall (fun ch => Str.is_control ch = false /\ Str.is_whitespace ch = false) (Str.chars n);
  cv_dial up : cfg_dial c = Some up -> blank (dial_endpoint up) = false /\ ":"%char ∈ Str.to_list (dial_endpoint up) /\
    dial_heartbeat_interval up <> 0 /\ dial_rekey_interval up <> 0;
  cv_accept acc : cfg_accept c = Some acc -> accept_rekey_interval acc <> 0;
  cv_cert : is_Some (sc_default_cert (cfg_server c)) <-> is_Some (sc_default_key (cfg_server c));
  cv_lan l : sc_lan_cidrs (cfg_server c) = Some l -> Forall (fun s => is_ok (cidr_parse s) = true) l;
  cv_alt_svc : sc_https_alt_svc (cfg_server c) = true -> sc_https_http3 (cfg_server c) = true;
  cv_port : Net.port (sc_https_listen (cfg_server c)) <> 0;
  cv_acme a : cfg_acme c = Some a -> terms_of_service_agreed a = true /\ blank (contact_email a) = false /\ "@"%char ∈ Str.to_list (contact_email a) /\
    blank (acme_domain a) = false /\ blank (directory_url a) = false /\ renew_before a <> 0 /\
    exists n p, acme_dns a = [(n, p)] /\ (is_Some (api_token p) <-> api_token_env p = None)
}.

Lemma reject_ok {E} b (e : E) : reject b e = Ok () <-> b = false.
Proof. by destruct b. Qed.

Lemma bind_ok {E A} (x : result E A) (f : A -> result E unit) : (a ← x; f a) = Ok () <-> exists a, x = Ok a /\ f a = Ok ().
Proof. destruct x as [a|]; cbn; naive_solver. Qed.

Lemma seq_ok {E} (x y : result E unit) : (_ ← x; y) = Ok () <-> x = Ok () /\ y = Ok ().
Proof. rewrite bind_ok. split; [intros ([] & ? & ?)|intros [? ?]; exists ()]; done. Qed.

Lemma on_section_ok {A} (f : A -> result ConfigError unit) s : on_section f s = Ok () <-> forall a, s = Some a -> f a = Ok ().
Proof. destruct s; cbn; naive_solver. Qed.

Lemma existsb_false_chars f l : existsb f l = false <-> Forall (fun ch : Z => f ch = false) l.
Proof.
  induction l as [|x l IH]; cbn; [split; [constructor|done]|]. rewrite orb_false_iff, Forall_cons, IH. done.
Qed.

Lemma name_ok n : validate_server_name n = Ok () <->
  (Str.len n <= SERVER_NAME_MAX_BYTES)%nat /\ Forall (fun ch => Str.is_control ch = false /\ Str.is_whitespace ch = false) (Str.chars n).
Proof.
  unfold validate_server_name. destruct (Str.is_empty n) eqn:He.
  - apply Str.is_empty_true in He as ->. split; [|done]. intros _. split; [cbn; lia|constructor].
  - rewrite !seq_ok, !reject_ok, Nat.ltb_ge, !existsb_false_chars, Forall_and. done.
Qed.

Lemma dial_ok up : validate_dial up = Ok () <-> blank (dial_endpoint up) = false /\ ":"%char ∈ Str.to_list (dial_endpoint up) /\
  dial_heartbeat_interval up <> 0 /\ dial_rekey_interval up <> 0.
Proof.
  unfold validate_dial, has_char. rewrite !seq_ok, !reject_ok, negb_false_iff, bool_decide_eq_true, !Z.eqb_neq. done.
Qed.

Lemma provider_ok n p : validate_provider (n, p) = Ok () <-> (is_Some (api_token p) <-> api_token_env p = None).
Proof.
  unfold validate_provider. cbn. destruct (api_token p), (api_token_env p); split; intros Hp; try done.
  - discriminate (proj1 Hp (mk_is_Some _ _ eq_refl)).
  - by destruct (proj2 Hp eq_refl).
Qed.

Lemma acme_ok a : validate_acme a = Ok () <-> terms_of_service_agreed a = true /\ blank (contact_email a) = false /\ "@"%char ∈ Str.to_list (contact_email a) /\
  blank (acme_domain a) = false /\ blank (directory_url a) = false /\ renew_before a <> 0 /\
  exists n p, acme_dns a = [(n, p)] /\ (is_Some (api_token p) <-> api_token_env p = None).
Proof.
  unfold validate_acme, has_char. rewrite !seq_ok, !reject_ok, orb_false_iff, !negb_false_iff, bool_decide_eq_true, Z.eqb_neq.
  assert ((match acme_dns a with [] => Err NoDnsProvider | [_] => Ok () | ps => Err (ManyDnsProviders (fst <$> ps)) end = Ok () /\
           try_each validate_provider (acme_dns a) = Ok ()) <->
          exists n p, acme_dns a = [(n, p)] /\ (is_Some (api_token p) <-> api_token_env p = None)) as Hdns; [|tauto].
  setoid_rewrite <- provider_ok. destruct (acme_dns a) as [|[n p] [|q l]]; cbn.
  - split; [by intros []|]. by intros (? & ? & ? & _).
  - rewrite seq_ok. split; [intros (_ & Hp & _); by exists n, p|]. by intros (n' & p' & [= <- <-] & Hp).
  - split; [by intros []|]. by intros (? & ? & ? & _).
Qed.

Lemma server_ok s : validate_server s = Ok () <->
  (is_Some (sc_default_cert s) <-> is_Some (sc_default_key s)) /\ (forall l, sc_lan_cidrs s = Some l -> Forall (fun c => is_ok (cidr_parse c) = true) l) /\
  (sc_https_alt_svc s = true -> sc_https_http3 s = true) /\ Net.port (sc_https_listen s) <> 0.
Proof.
  unfold validate_server. rewrite !seq_ok, !reject_ok, Z.eqb_neq, andb_false_iff, negb_false_iff.
  assert (match sc_default_cert s, sc_default_key s with Some _, None => Err CertWithoutKey | None, Some _ => Err KeyWithoutCert | _, _ => Ok () end = Ok () <->
          (is_Some (sc_default_cert s) <-> is_Some (sc_default_key s))) as ->.
  { destruct (sc_default_cert s), (sc_default_key s); split; intros Hp; try done.
    - by destruct (proj1 Hp (mk_is_Some _ _ eq_refl)).
    - by destruct (proj2 Hp (mk_is_Some _ _ eq_refl)). }
  assert (match sc_lan_cidrs s with Some l => try_each (fun c => _ ← map_err BadLanCidr (cidr_parse c); Ok ()) l | None => Ok () end = Ok () <->
          forall l, sc_lan_cidrs s = Some l -> Forall (fun c => is_ok (cidr_parse c) = true) l) as ->.
  { destruct (sc_lan_cidrs s) as [l|]; [|done]. rewrite try_each_ok. split; [intros Hl l' [= <-]|intros Hl; specialize (Hl l eq_refl)];
      (eapply Forall_impl; [exact Hl|]); intros c; cbn; by destruct (cidr_parse c). }
  destruct (sc_https_alt_svc s), (sc_https_http3 s); naive_solver.
Qed.

Lemma mode_ok c : (exists m, derived_mode c = Ok m) <-> is_Some (cfg_dial c) \/ is_Some (cfg_accept c).
Proof. unfold derived_mode. destruct (cfg_dial c), (cfg_accept c); split; eauto; intros Hm; [by destruct Hm|by destruct Hm as [[? ?]|[? ?]]]. Qed.

Lemma validate_spec c : validate c = Ok () <-> config_valid c.
Proof.
  assert (validate c = Ok () <-> (exists m, derived_mode c = Ok m) /\
    (_ ← reject (bool_decide (sc_workers (cfg_server c) = Some 0)) WorkersZero; _ ← on_section validate_server_name (server_name (cfg_server c));
     _ ← on_section validate_dial (cfg_dial c); _ ← on_section validate_accept (cfg_accept c); _ ← validate_server (cfg_server c);
     on_section validate_acme (cfg_acme c)) = Ok ()) as ->.
  { unfold validate. rewrite bind_ok. naive_solver. }
  rewrite mode_ok, !seq_ok, reject_ok, bool_decide_eq_false, !on_section_ok, server_ok.
  setoid_rewrite name_ok. setoid_rewrite dial_ok. setoid_rewrite acme_ok. unfold validate_accept. setoid_rewrite reject_ok. setoid_rewrite Z.eqb_neq.
  split; [|intros [? ? ? ? ? ? ? ? ? ?]; tauto]. intros (? & ? & ? & ? & ? & (? & ? & ? & ?) & ?). by split.
Qed.

(** ** The name *)

Lemma slices_concat sls : Forall (fun sl => Str.complete sl = true) sls ->
  Str.char_slices_aux (length (concat sls)) (concat sls) = sls.
Proof.
  induction 1 as [|sl sls Hsl _ IH]; [done|]. cbn [concat]. assert (Str.char_slices_aux (length sl) sl = [sl]) as Hone.
  { destruct sl as [|c sl]; [done|]. cbn [Str.complete] in Hsl. apply Nat.eqb_eq in Hsl. cbn [length Str.char_slices_aux].
    rewrite <- Hsl, firstn_all, skipn_all. cbn in Hsl. by destruct (length sl). }
  rewrite Str.char_slices_app; rewrite Hone; [by rewrite IH|]. cbn. by rewrite Hsl.
Qed.

Lemma char_indices_cut bound sls : forall pos, (pos <= bound)%nat -> sls <> [] ->
  exists k, last (take_while (fun i => (i <=? bound)%nat) (char_indices pos sls)) = Some (pos + length (concat (firstn k sls)))%nat /\
    (pos + length (concat (firstn k sls)) <= bound)%nat /\ (k = 0%nat -> forall sl rest, sls = sl :: rest -> rest = [] \/ (bound < pos + length sl)%nat).
Proof.
  induction sls as [|sl sls IH]; intros pos Hpos Hne; [done|]. cbn [char_indices take_while]. rewrite (proj2 (Nat.leb_le _ _)) by done.
  destruct sls as [|sl' sls'].
  - exists 0%nat. cbn. split_and!; [f_equal; lia|lia|]. intros _ ? ? [= <- <-]. by left.
  - destruct (decide (pos + length sl <= bound)%nat) as [Hle|Hgt].
    + destruct (IH (pos + length sl)%nat Hle ltac:(done)) as (k & Hk & Hb & _). exists (S k). cbn [firstn concat]. rewrite length_app.
      split_and!; [|lia|done]. cbn [char_indices take_while] in Hk |- *. rewrite (proj2 (Nat.leb_le _ _)) in Hk |- * by done.
      rewrite last_cons_cons, Hk. f_equal. lia.
    + exists 0%nat. cbn [char_indices take_while]. rewrite (proj2 (Nat.leb_gt _ _)) by lia. cbn. split_and!; [f_equal; lia|lia|].
      intros _ ? ? [= <- <-]. right. lia.
Qed.

Lemma code_of_byte b : Str.code (ascii_of_byte b) = byte_to_Z b.
Proof. by destruct b. Qed.

(** A lead byte of width [w] and [w - 1] more bytes, and then the rest. *)
Lemma slices_lead w b hd rest : Str.utf8_width (byte_to_Z b) = S w -> length hd = w ->
  Str.char_slices_aux (length (b :: hd ++ rest)) (ascii_of_byte <$> (b :: hd ++ rest)) =
    (ascii_of_byte <$> b :: hd) :: Str.char_slices_aux (length rest) (ascii_of_byte <$> rest).
Proof.
  intros Hw Hl. cbn [length Str.char_slices_aux fmap list_fmap]. rewrite code_of_byte, Hw. cbn [firstn skipn]. rewrite fmap_app.
  assert (length (ascii_of_byte <$> hd) = w) as Hl' by by rewrite length_fmap.
  rewrite take_app_length', drop_app_length' by done. f_equal. rewrite Str.char_slices_fuel; [by rewrite length_fmap|].
  rewrite length_fmap, length_app. lia.
Qed.

Lemma width_range z : (224 <= z < 240 -> Str.utf8_width z = 3%nat) /\ (240 <= z -> Str.utf8_width z = 4%nat).
Proof.
  unfold Str.utf8_width. destruct (Z.ltb_spec z 128), (Z.ltb_spec z 224), (Z.ltb_spec z 240); split; intros; lia || done.
Qed.

Lemma valid_complete l : Utf8.valid l = true -> Forall (fun sl => Str.complete sl = true) (Str.char_slices_aux (length l) (ascii_of_byte <$> l)).
Proof.
  remember (length l) as n eqn:Hn. revert l Hn. induction n as [n IH] using lt_wf_ind; intros [|b r] -> Hv; [constructor|].
  assert (forall w hd rest, Str.utf8_width (byte_to_Z b) = S w -> length hd = w -> r = hd ++ rest -> Utf8.valid rest = true ->
    Forall (fun sl => Str.complete sl = true) (Str.char_slices_aux (length (b :: r)) (ascii_of_byte <$> b :: r))) as Hcut.
  { intros w hd rest Hw Hl -> Hrest. rewrite (slices_lead w) by done. constructor.
    - cbn. rewrite code_of_byte, Hw, length_fmap, Hl. apply Nat.eqb_refl.
    - apply (IH (length rest)); [cbn; rewrite length_app; lia|done|done]. }
  pose proof (byte_to_Z_range b) as Hb. cbn [Utf8.valid] in Hv. unfold Utf8.between at 1 in Hv. revert Hv.
  destruct ((0 <=? byte_to_Z b) && (byte_to_Z b <=? 127)) eqn:H1; intros Hv.
  { apply (Hcut 0%nat [] r); try done. unfold Str.utf8_width. by rewrite (proj2 (Z.ltb_lt _ _)) by lia. }
  assert (128 <= byte_to_Z b) as Hge by lia. destruct r as [|c r2]; [done|].
  destruct (Utf8.between 0xC2 0xDF b) eqn:H2.
  { apply andb_true_iff in Hv as [_ Hv]. unfold Utf8.between in H2. apply (Hcut 1%nat [c] r2); try done.
    unfold Str.utf8_width. rewrite (proj2 (Z.ltb_ge _ 128)), (proj2 (Z.ltb_lt _ 224)) by lia. done. }
  destruct r2 as [|d r3]; [done|].
  assert (Str.utf8_width (byte_to_Z b) = 3%nat -> Utf8.valid r3 = true ->
    Forall (fun sl => Str.complete sl = true) (Str.char_slices_aux (length (b :: c :: d :: r3)) (ascii_of_byte <$> b :: c :: d :: r3))) as H3.
  { intros Hw Hr. by apply (Hcut 2%nat [c; d] r3). }
  destruct (Utf8.between 0xE0 0xE0 b) eqn:HE0; [|destruct (Utf8.between 0xE1 0xEC b || Utf8.between 0xEE 0xEF b) eqn:HE1; [|destruct (Utf8.between 0xED 0xED b) eqn:HED]].
  1-3: apply andb_true_iff in Hv as [_ Hv]; apply H3; [|exact Hv]; apply width_range; unfold Utf8.between in *; lia.
  destruct r3 as [|e r4]; [done|].
  assert (Utf8.valid r4 = true /\ 240 <= byte_to_Z b) as [Hr4 Hb4].
  { unfold Utf8.between in *. repeat case_match; try done; apply andb_true_iff in Hv as [_ Hv]; (split; [exact Hv|lia]). }
  apply (Hcut 3%nat [c; d; e] r4); [by apply width_range|done..].
Qed.

Definition good_slice (sl : list ascii) : Prop := Str.complete sl = true /\ printable sl = true.

Lemma good_slice_length sl : good_slice sl -> (1 <= length sl <= 4)%nat.
Proof.
  intros [Hc _]. destruct sl as [|c sl]; [done|]. apply Nat.eqb_eq in Hc. rewrite Hc. apply Str.utf8_width_pos.
Qed.

Definition name_shape (n : string) : Prop :=
  n <> "" /\ (Str.len n <= SERVER_NAME_MAX_BYTES)%nat /\ Forall (fun ch => Str.is_control ch = false /\ Str.is_whitespace ch = false) (Str.chars n).

Lemma unknown_shape : name_shape "unknown".
Proof. split_and!; [done|unfold SERVER_NAME_MAX_BYTES; cbn; lia|]. repeat constructor. Qed.

(** A few good slices make a name. *)
Lemma slices_shape sls : Forall good_slice sls -> sls <> [] -> (length (concat sls) <= SERVER_NAME_MAX_BYTES)%nat -> name_shape (Str.of_list (concat sls)).
Proof.
  intros Hg Hne Hlen. assert (Str.chars (Str.of_list (concat sls)) = Str.scalar <$> sls) as Hchars.
  { unfold Str.chars, Str.char_slices. rewrite <- Str.length_to_list, Str.to_of_list, slices_concat; [done|].
    eapply Forall_impl; [exact Hg|]. by intros sl []. }
  split_and!.
  - intros Heq%(f_equal Str.to_list). rewrite Str.to_of_list in Heq. destruct sls as [|sl sls]; [done|]. apply Forall_cons in Hg as [Hsl _].
    apply good_slice_length in Hsl. cbn in Heq. apply (f_equal length) in Heq. rewrite length_app in Heq. cbn in Heq. lia.
  - unfold Str.len. by rewrite <- Str.length_to_list, Str.to_of_list.
  - rewrite Hchars. apply Forall_fmap. eapply Forall_impl; [exact Hg|]. intros sl [_ Hp]. unfold printable in Hp.
    by apply andb_true_iff in Hp as [Hc%negb_true_iff Hw%negb_true_iff].
Qed.

Lemma firstn_concat {A} k (sls : list (list A)) : firstn (length (concat (firstn k sls))) (concat sls) = concat (firstn k sls).
Proof. rewrite <- (firstn_skipn k sls) at 2. rewrite concat_app. by rewrite take_app_length. Qed.

Lemma truncated_shape sls : Forall good_slice sls -> (SERVER_NAME_MAX_BYTES < length (concat sls))%nat ->
  name_shape (Str.of_list (firstn (default SERVER_NAME_MAX_BYTES
    (last (take_while (fun i => (i <=? SERVER_NAME_MAX_BYTES)%nat) (char_indices 0 sls)))) (concat sls))).
Proof.
  intros Hg Hlen. destruct sls as [|sl rest] eqn:Hsls; [cbn in Hlen; unfold SERVER_NAME_MAX_BYTES in Hlen; lia|]. rewrite <- Hsls in *.
  destruct (char_indices_cut SERVER_NAME_MAX_BYTES sls 0) as (k & -> & Hb & Hk); [lia|congruence|]. cbn [from_option id]. rewrite Nat.add_0_l in *.
  rewrite firstn_concat. apply slices_shape; [by apply Forall_take| |done]. intros Hnil. destruct k as [|k]; [|by rewrite Hsls in Hnil].
  assert (good_slice sl) as Hsl%good_slice_length by (rewrite Hsls in Hg; by apply Forall_cons in Hg as [? _]).
  destruct (Hk eq_refl sl rest Hsls) as [->|Hgt]; unfold SERVER_NAME_MAX_BYTES in *; [|lia]. rewrite Hsls in Hlen. cbn in Hlen. rewrite app_nil_r in Hlen. lia.
Qed.

Lemma hostname_shape h : name_shape (read_hostname_or_unknown h).
Proof.
  destruct h as [buf|]; [|apply unknown_shape]. cbn [read_hostname_or_unknown]. set (name := default "unknown" _).
  assert (Forall (fun sl => Str.complete sl = true) (Str.char_slices name)) as Hc.
  { unfold name, Utf8.from_utf8. destruct (Utf8.valid _) eqn:Hv; [|by repeat constructor]. cbn [from_option id].
    set (bytes := take_while _ buf) in *. clearbody bytes.
    assert (Str.to_list (Str.of_bytes bytes) = ascii_of_byte <$> bytes) as Hl by (apply (Str.to_of_list (map ascii_of_byte bytes))).
    unfold Str.char_slices. rewrite <- Str.length_to_list, Hl, length_fmap. by apply valid_complete. }
  set (sls := List.filter printable (Str.char_slices name)). assert (Forall good_slice sls) as Hg.
  { unfold sls. rewrite Forall_forall in *. intros sl [Hin Hp]%list_elem_of_In%filter_In. split; [|done]. by apply Hc, list_elem_of_In. }
  clearbody sls. destruct (concat sls) as [|a l] eqn:Hcat; [apply unknown_shape|]. rewrite <- Hcat.
  destruct (Nat.ltb_spec SERVER_NAME_MAX_BYTES (length (concat sls))); [by apply truncated_shape|].
  apply slices_shape; [done| |done]. by intros ->.
Qed.

Lemma resolved_shape c h : config_valid c -> name_shape (resolve_server_name (server_name (cfg_server c)) h).
Proof.
  intros Hv. unfold resolve_server_name. destruct (server_name (cfg_server c)) as [n|] eqn:Hn; [|apply hostname_shape].
  destruct (Str.is_empty n) eqn:He; [apply hostname_shape|]. apply Str.is_empty_false in He. destruct (cv_name c Hv n Hn). by split_and!.
Qed.

(** ** Accepted configurations *)

Lemma overrides_valid c a : config_valid (with_overrides c a) <-> config_valid c.
Proof. split; intros [? ? ? ? ? ? ? ? ? ?]; by split. Qed.

Definition mode_of (c : ServerConfig) (m : Mode) : Prop :=
  match m with
  | ChainTypes.Gateway => cfg_dial c = None /\ is_Some (cfg_accept c)
  | Relay => is_Some (cfg_dial c) /\ is_Some (cfg_accept c)
  | Terminal => is_Some (cfg_dial c) /\ cfg_accept c = None
  end.

Lemma derived_mode_spec c m : derived_mode c = Ok m <-> mode_of c m.
Proof.
  unfold derived_mode, mode_of, is_Some. destruct (cfg_dial c), (cfg_accept c), m; split; try done; intros; destruct_and?; naive_solver.
Qed.

Lemma lan_resolves c : config_valid c -> is_Some (resolve_lan_cidrs c).
Proof.
  intros Hv. unfold resolve_lan_cidrs. destruct (sc_lan_cidrs (cfg_server c)) as [l|] eqn:Hl.
  - pose proof (cv_lan c Hv l Hl) as Hok. cbn. assert (exists cs, try_collect cidr_parse l = Ok cs) as [cs ->]; [|by eexists].
    clear Hl. induction Hok as [|s l Hs _ [cs IH]]; [by exists []|]. cbn. destruct (cidr_parse s) as [x|]; [|done]. cbn. rewrite IH. by eexists.
  - vm_compute. by eexists.
Qed.

(** What [run] hands on, without the order of the checks. *)
Lemma run_config_spec c a mode c' :
  run_config c a = Ok (mode, c') <->
  c' = with_overrides c a /\ config_valid c /\ mode_of c mode /\ (forall required, require_mode a = Some required -> mode = required).
Proof.
  unfold run_config. rewrite <- validate_spec, <- derived_mode_spec. pose proof (overrides_valid c a) as Ho. rewrite <- !validate_spec in Ho.
  destruct (validate c) as [[]|e]; cbn; [|naive_solver]. rewrite (proj2 Ho eq_refl). cbn.
  change (derived_mode (with_overrides c a)) with (derived_mode c). destruct (derived_mode c) as [m|]; cbn; [|naive_solver].
  destruct (require_mode a) as [q|]; cbn; [|naive_solver]. unfold reject. case_bool_decide as Hq; cbn; naive_solver.
Qed.

(** The default certificate and key come together, and HTTP/3 is advertised
    only when it is enabled. *)
Lemma cert_config_sound c lan : config_valid c ->
  let cc := from_server_section (cfg_server c) lan in
  (server_default cc = None -> default_cert cc = None /\ default_key cc = None) /\ (https_alt_svc cc = true -> https_http3 cc = true).
Proof.
  intros Hv cc. split; [|exact (cv_alt_svc _ Hv)]. pose proof (cv_cert _ Hv) as Hc. unfold server_default. cbn.
  destruct (sc_default_cert _), (sc_default_key _); try done; intros _; exfalso.
  - by destruct (proj1 Hc (mk_is_Some _ _ eq_refl)).
  - by destruct (proj2 Hc (mk_is_Some _ _ eq_refl)).
Qed.
