(* ===== verification/Acme.v ===== *)
(** * ACME issuance and renewal ([yggdrasil/src/proxy/acme/])

    The writeout of a certificate ([storage.rs]), the DNS-01 order
    ([client.rs], [dns01.rs], [provider.rs], [providers/cloudflare.rs]) and the
    renewer of a host with its kick channel ([renewer.rs], [mod.rs]).  The
    directory server, the DNS provider, the clock and the failures of the file
    system are inputs. *)

From S2P Require Import Prelude RustStd External Instances RuleTypes Error Rule RuleSet Certs Config.

(** ** Data *)

Record AcmeRouteConfig := mkRouteCfg { provider : string }.

(** [what]: the detail without the text of the error that caused it. *)
Inductive AcmeError :=
  | UnknownProvider (host name : string)
  | DnsError (host what : string)
  | AccountError (host what : string)
  | StorageError (host what : string)
  | ClientError (host what : string).

Inductive HostStatus := Pending | Active | Error.
#[global] Instance HostStatus_eq_dec : EqDecision HostStatus.
Proof. solve_decision. Defined.

Definition HostStatus_as_str (s : HostStatus) : string :=
  match s with Pending => "pending" | Active => "active" | Error => "error" end.

Record HostState := mkHostState {
  route_cfg : AcmeRouteConfig;
  status : HostStatus;
  last_error : option AcmeError;
  next_renewal_unix : option Z;
  not_after_unix : option Z
}.

Record IssuedCert := mkIssued { fullchain_pem : list byte; privkey_pem : list byte }.

Record TxtHandle := mkTxt { txt_fqdn : string; provider_record_id : string }.

(** ** Storage ([storage.rs]) *)

Record File := mkFile { contents : list byte; file_mode : Z }.
Notation Fs := (gmap string File).

Definition paths (storage_dir host : string) : string * string :=
  let host_dir := Path.join storage_dir host in (Path.join host_dir "fullchain.pem", Path.join host_dir "privkey.pem").

(** The system call of [write_one] that fails; a failed write has written a
    part of the bytes. *)
Inductive WriteFail := FailOpen | FailWrite (written : nat) | FailChmod | FailSync | FailRename.

(** The mode a new file gets: [0o666] without the bits of the umask. *)
Definition created_mode (umask : Z) : Z := Z.ldiff 438 umask.

Definition write_one (umask : Z) (fail : option WriteFail) (host_dir host name : string) (bytes : list byte) (mode : Z) (fs : Fs) :
    Fs * result AcmeError unit :=
  let final_path := Path.join host_dir name in
  let tmp_path := Path.join host_dir (name +:+ ".tmp") in
  let opened := default (created_mode umask) (file_mode <$> fs !! tmp_path) in
  match fail with
  | Some FailOpen => (fs, Err (StorageError host ("open " +:+ tmp_path)))
  | Some (FailWrite n) => (<[tmp_path := mkFile (take n bytes) opened]> fs, Err (StorageError host ("write " +:+ tmp_path)))
  | Some FailChmod => (<[tmp_path := mkFile bytes opened]> fs, Err (StorageError host ("chmod " +:+ tmp_path)))
  | Some FailSync => (<[tmp_path := mkFile bytes mode]> fs, Err (StorageError host ("fsync " +:+ tmp_path)))
  | Some FailRename => (<[tmp_path := mkFile bytes mode]> fs, Err (StorageError host ("rename " +:+ tmp_path)))
  | None => (<[final_path := mkFile bytes mode]> (delete tmp_path fs), Ok ())
  end.

(** Where a writeout fails: the directory, the certificate or the key. *)
Inductive StoreFail := FailMkdir | FailChain (f : WriteFail) | FailKey (f : WriteFail).

Definition write_atomic (umask : Z) (fail : option StoreFail) (storage_dir host : string) (cert : IssuedCert) (fs : Fs) :
    Fs * result AcmeError unit :=
  let host_dir := Path.join storage_dir host in
  match fail with
  | Some FailMkdir => (fs, Err (StorageError host ("create_dir_all " +:+ host_dir)))
  | _ =>
      let '(fs, r) := write_one umask (match fail with Some (FailChain f) => Some f | _ => None end) host_dir host "fullchain.pem" (fullchain_pem cert) 420 fs in
      match r with
      | Err e => (fs, Err e)
      | Ok _ => write_one umask (match fail with Some (FailKey f) => Some f | _ => None end) host_dir host "privkey.pem" (privkey_pem cert) 384 fs
      end
  end.

(** A rename leaves the whole new file or the old one. *)

Lemma join_inj a b c :
  Str.starts_with b "/" = false -> Str.starts_with c "/" = false -> Path.join a b = Path.join a c -> b = c.
Proof.
  intros Hb Hc. unfold Path.join. rewrite Hb, Hc. intros Heq. apply (f_equal Str.to_list) in Heq.
  rewrite <- (Str.of_to_list b), <- (Str.of_to_list c). f_equal.
  destruct (rev (Str.to_list a)); [done|]. case_bool_decide; rewrite !Str.to_list_app in Heq; [by apply app_inv_head in Heq|].
  apply app_inv_head in Heq. by apply app_inv_head in Heq.
Qed.

Ltac solve_paths := first [done | let E := fresh in intros E; apply join_inj in E; [discriminate E | reflexivity | reflexivity]].

(** What a writeout can leave at a path: what was there, or the whole file. *)
Definition old_or_new (fs fs' : Fs) (path : string) (new : File) : Prop := fs' !! path = fs !! path \/ fs' !! path = Some new.

Lemma write_one_effect umask fail dir h name bytes mode fs fs' r :
  write_one umask fail dir h name bytes mode fs = (fs', r) -> Str.starts_with name "/" = false -> Str.starts_with (name +:+ ".tmp") "/" = false ->
  name <> name +:+ ".tmp" ->
  (r = Ok () <-> fail = None) /\ (r = Ok () -> fs' !! Path.join dir name = Some (mkFile bytes mode)) /\
  (r <> Ok () -> fs' !! Path.join dir name = fs !! Path.join dir name) /\
  (forall p, p <> Path.join dir name -> p <> Path.join dir (name +:+ ".tmp") -> fs' !! p = fs !! p).
Proof.
  intros Hw H1 H2 Hne. assert (Path.join dir (name +:+ ".tmp") <> Path.join dir name) as Hd.
  { intros E. by apply join_inj in E. }
  unfold write_one in Hw. destruct fail as [[]|]; injection Hw as <- <-; (split; [done|]); (split; [try done|split; [try done|]]); intros *;
    intros; by simplify_map_eq.
Qed.

Lemma write_atomic_effect umask fail dir h cert fs fs' r :
  write_atomic umask fail dir h cert fs = (fs', r) ->
  let new_chain := mkFile (fullchain_pem cert) 420 in
  let new_key := mkFile (privkey_pem cert) 384 in
  old_or_new fs fs' (fst (paths dir h)) new_chain /\ old_or_new fs fs' (snd (paths dir h)) new_key /\
  (r = Ok () <-> fail = None) /\
  (r = Ok () -> fs' !! fst (paths dir h) = Some new_chain /\ fs' !! snd (paths dir h) = Some new_key).
Proof.
  intros Hw. cbn -[Path.join]. unfold write_atomic in Hw. destruct fail as [[|f|f]|].
  - injection Hw as <- <-. split; [by left|]. split; [by left|]. by split.
  - destruct (write_one _ _ _ _ _ _ _ _) as [fs1 r1] eqn:H1. apply write_one_effect in H1 as (Hr & Hok & Herr & Hoth); [|done..].
    destruct r1 as [[]|e]; [discriminate (proj1 Hr eq_refl)|]. injection Hw as <- <-. split; [left; by apply Herr|].
    split; [left; apply Hoth; solve_paths|]. by split.
  - destruct (write_one _ None _ _ _ _ _ _) as [fs1 r1] eqn:H1. apply write_one_effect in H1 as (Hr & Hok & Herr & Hoth); [|done..].
    rewrite (proj2 Hr eq_refl) in Hw. apply write_one_effect in Hw as (Hr' & Hok' & Herr' & Hoth'); [|done..].
    specialize (Hok (proj2 Hr eq_refl)). rewrite <- (Hoth' (Path.join (Path.join dir h) "fullchain.pem")) in Hok by solve_paths.
    split; [by right|]. split; [|by split; intros; simplify_eq; naive_solver].
    destruct r as [[]|]; [right; by apply Hok'|]. left. rewrite Herr' by done. apply Hoth; solve_paths.
  - destruct (write_one _ None _ _ "fullchain.pem" _ _ _) as [fs1 r1] eqn:H1. apply write_one_effect in H1 as (Hr & Hok & Herr & Hoth); [|done..].
    rewrite (proj2 Hr eq_refl) in Hw. apply write_one_effect in Hw as (Hr' & Hok' & Herr' & Hoth'); [|done..].
    specialize (Hok (proj2 Hr eq_refl)). rewrite <- (Hoth' (Path.join (Path.join dir h) "fullchain.pem")) in Hok by solve_paths.
    specialize (Hok' (proj2 Hr' eq_refl)). split; [by right|]. split; [by right|]. split; [|by intros _]. split; [done|by intros _; apply Hr'].
Qed.

(** The two renames are two steps: when the key cannot be written, the new
    chain is left beside the old key. *)
Lemma torn_pair :
  let old := write_atomic 18 None "/c" "h" (mkIssued [x01] [x02]) ∅ in
  let new := write_atomic 18 (Some (FailKey FailOpen)) "/c" "h" (mkIssued [x03] [x04]) (fst old) in
  snd new = Err (StorageError "h" "open /c/h/privkey.pem.tmp") /\
  fst new !! "/c/h/fullchain.pem" = Some (mkFile [x03] 420) /\ fst new !! "/c/h/privkey.pem" = Some (mkFile [x02] 384).
Proof. by vm_compute. Qed.

(** Until the [chmod], the key is in a file that everyone may read. *)
Lemma key_readable_before_chmod :
  fst (write_atomic 18 (Some (FailKey FailChmod)) "/c" "h" (mkIssued [x03] [x04]) ∅) !! "/c/h/privkey.pem.tmp" = Some (mkFile [x04] 420).
Proof. by vm_compute. Qed.

(** ** The schedule ([renewer.rs]) *)

(** [jitter_secs]: what [random_range] gives. *)
Definition sleep_until_renewal (not_after_unix_secs now_secs renew_before renew_jitter jitter_secs : Z) : option Z :=
  if not_after_unix_secs <=? now_secs then None
  else
    let lifetime := Time.from_secs (not_after_unix_secs - now_secs) in
    if lifetime <? renew_before then None
    else
      let renew_target := lifetime - renew_before in
      let jitter := Time.from_secs (if Time.as_secs renew_jitter =? 0 then 0 else jitter_secs) in
      if renew_target <? jitter then None else Some (renew_target - jitter).

Definition ISSUE_BACKOFF : Z := Time.from_secs 300.

(** x509-parser on the first certificate of a PEM file, and the error of a
    read. *)
Class AcmeLib `{Extern} := { parse_not_after : list byte -> option Z; read_failed : io_error }.

Section Renewer.
Context `{Extern} `{UrlLib} `{TlsLib} `{!AcmeLib}.

Definition read_not_after (fs : Fs) (path : string) : option Z := f ← fs !! path; parse_not_after (contents f).

(** The disk as the certificate store reads it. *)
Definition disk_of (fs : Fs) : Disk :=
  mkDisk (fun p => bool_decide (is_Some (fs !! p))) (fun p => match fs !! p with Some f => Ok (contents f) | None => Err read_failed end).

(** What the manager is built from. *)
Record AcmeConfig := mkAcmeConfig {
  ac_domain : string;
  ac_storage_dir : string;
  ac_renew_before : Z;
  ac_renew_jitter : Z;
  ac_umask : Z
}.

(** [AcmeManager::spawn]: the directory falls back to the server's own. *)
Definition acme_config (a : AcmeSection) (server_cert_dir : string) (umask : Z) : AcmeConfig :=
  mkAcmeConfig (acme_domain a) (default server_cert_dir (storage_dir a)) (renew_before a) (renew_jitter a) umask.

(** Where the task of a host is.  An external kick is named by a number. *)
Inductive Phase :=
  | Sleeping (until : Z)
  | Issuing (external_reply : option nat)
  | BackingOff (until : Z)
  | Exited.

Record Renewer := mkRenewer {
  clock : Z;
  host : string;
  host_states : gmap string HostState;
  fs : Fs;
  certs : CertStore;
  phase : Phase;
  kick_rx : list nat;
  replies : list (nat * option (result AcmeError unit));
  issuances : list Z
}.

Definition with_host_state (r : Renewer) (f : HostState -> HostState) : gmap string HostState :=
  alter f (Str.to_ascii_lowercase (host r)) (host_states r).

Definition with_phase (r : Renewer) (p : Phase) : Renewer :=
  mkRenewer (clock r) (host r) (host_states r) (fs r) (certs r) p (kick_rx r) (replies r)
    (match p with Issuing _ => issuances r ++ [clock r] | _ => issuances r end).
Definition with_kicks (r : Renewer) (q : list nat) : Renewer :=
  mkRenewer (clock r) (host r) (host_states r) (fs r) (certs r) (phase r) q (replies r) (issuances r).
Definition with_states (r : Renewer) (h : gmap string HostState) : Renewer :=
  mkRenewer (clock r) (host r) h (fs r) (certs r) (phase r) (kick_rx r) (replies r) (issuances r).
Definition with_reply (r : Renewer) (id : option nat) (answer : option (result AcmeError unit)) : Renewer :=
  mkRenewer (clock r) (host r) (host_states r) (fs r) (certs r) (phase r) (kick_rx r)
    (match id with Some id => replies r ++ [(id, answer)] | None => replies r end) (issuances r).
Definition with_disk (r : Renewer) (d : Fs) : Renewer :=
  mkRenewer (clock r) (host r) (host_states r) d (certs r) (phase r) (kick_rx r) (replies r) (issuances r).
Definition with_store (r : Renewer) (s : CertStore) : Renewer :=
  mkRenewer (clock r) (host r) (host_states r) (fs r) s (phase r) (kick_rx r) (replies r) (issuances r).

Definition schedule (st : HostState) (next not_after : option Z) : HostState :=
  mkHostState (route_cfg st)
    (match not_after with Some _ => if bool_decide (status st = Pending) then Active else status st | None => status st end)
    (last_error st) next not_after.
Definition mark_error (e : AcmeError) (st : HostState) : HostState :=
  mkHostState (route_cfg st) Error (Some e) (next_renewal_unix st) (not_after_unix st).
Definition mark_active (not_after : option Z) (st : HostState) : HostState :=
  mkHostState (route_cfg st) Active None (next_renewal_unix st) not_after.

(** [AcmeManager::list_managed], before it is sorted by host. *)
Definition list_managed (states : gmap string HostState) : list (string * HostState) := map_to_list states.

(** [AcmeManager::force_renew]: the task to kick, and what its reply means. *)
Definition force_renew (states : gmap string HostState) (h : string) : result AcmeError HostState :=
  ok_or (ClientError h "no ACME-managed route declares this hostname") (states !! Str.to_ascii_lowercase h).
Definition kick_answer (h : string) (reply : option (result AcmeError unit)) : result AcmeError unit :=
  match reply with Some r => r | None => Err (ClientError h "renewer task dropped the kick reply") end.

Section Task.
Variable cfg : AcmeConfig.

Definition fullchain (r : Renewer) : string := fst (paths (ac_storage_dir cfg) (host r)).

(** The head of the loop up to the wait: the certificate on disk decides. *)
Definition decide_next (r : Renewer) (jitter_secs : Z) : Renewer :=
  let observed := read_not_after (fs r) (fullchain r) in
  let sleep_for := na ← observed; sleep_until_renewal na (Time.as_secs (clock r)) (ac_renew_before cfg) (ac_renew_jitter cfg) jitter_secs in
  let next := (fun d => Time.as_secs (clock r) + Time.as_secs d) <$> sleep_for in
  let r := with_states r (with_host_state r (fun st => schedule st next observed)) in
  match sleep_for with
  | Some dur => with_phase r (Sleeping (clock r + dur))
  | None => match kick_rx r with
            | id :: q => with_phase (with_kicks r q) (Issuing (Some id))
            | [] => with_phase r (Issuing None)
            end
  end.

(** [register_host]: the host is installed once. *)
Definition register_host (now : Z) (h : string) (states : gmap string HostState) (route : AcmeRouteConfig) (d : Fs) (s : CertStore)
    (jitter_secs : Z) : gmap string HostState * option Renewer :=
  let key := Str.to_ascii_lowercase h in
  match states !! key with
  | Some _ => (states, None)
  | None =>
      let states := <[key := mkHostState route Pending None None None]> states in
      (states, Some (decide_next (mkRenewer now h states d s (Issuing None) [] [] []) jitter_secs))
  end.

(** The names of an order besides the host. *)
Definition extra_sans (h : string) : list string := if bool_decide (ac_domain cfg = h) then ["*." +:+ h] else [].

(** The rest of an iteration, once the order came back. *)
Definition finish_issue (r : Renewer) (reply : option nat) (outcome : result AcmeError IssuedCert) (fail : option StoreFail) (jitter_secs : Z) : Renewer :=
  match outcome with
  | Ok cert =>
      let '(d, wrote) := write_atomic (ac_umask cfg) fail (ac_storage_dir cfg) (host r) cert (fs r) in
      let r := with_disk r d in
      match wrote with
      | Err e =>
          let r := with_states r (with_host_state r (mark_error e)) in
          decide_next (with_reply r reply (Some (Err e))) jitter_secs
      | Ok _ =>
          let r := with_store r (reload_host (disk_of d) (certs r) (host r) (clock r / 1000000)) in
          let new_not_after := read_not_after d (fullchain r) in
          let r := with_states r (with_host_state r (mark_active new_not_after)) in
          decide_next (with_reply r reply (Some (Ok ()))) jitter_secs
      end
  | Err e =>
      let r := with_states r (with_host_state r (mark_error e)) in
      with_phase (with_reply r reply (Some (Err e))) (BackingOff (clock r + ISSUE_BACKOFF))
  end.

(** The end of the task drops what it holds. *)
Definition exit_task (r : Renewer) : Renewer :=
  with_phase (with_kicks (foldl (fun r id => with_reply r (Some id) None) r (kick_rx r)) []) Exited.

Inductive RenewerOp :=
  | Advance (d : Z)
  | Kick (id : nat)
  | RecvKick
  | Fire
  | BackoffOver (jitter_secs : Z)
  | Issued (outcome : result AcmeError IssuedCert) (fail : option StoreFail) (jitter_secs : Z)
  | Cancelled.

Definition renewer_step (r : Renewer) (op : RenewerOp) : option Renewer :=
  match op, phase r with
  | Advance d, p =>
      if 0 <=? d then
        Some (mkRenewer (clock r + d) (host r) (host_states r) (fs r) (certs r) p (kick_rx r) (replies r) (issuances r))
      else None
  | Kick id, Exited => Some (with_reply r (Some id) (Some (Err (ClientError (host r) "renewer task is no longer running"))))
  | Kick id, _ => Some (with_kicks r (kick_rx r ++ [id]))
  | RecvKick, Sleeping _ => match kick_rx r with id :: q => Some (with_phase (with_kicks r q) (Issuing (Some id))) | [] => None end
  | Fire, Sleeping until => if until <=? clock r then Some (with_phase r (Issuing None)) else None
  | BackoffOver j, BackingOff until => if until <=? clock r then Some (decide_next r j) else None
  | Issued outcome fail j, Issuing reply => Some (finish_issue r reply outcome fail j)
  | Cancelled, (Sleeping _ | BackingOff _) => Some (exit_task r)
  | _, _ => None
  end.

Fixpoint renewer_run (r : Renewer) (ops : list RenewerOp) : option Renewer :=
  match ops with
  | [] => Some r
  | op :: ops => r' ← renewer_step r op; renewer_run r' ops
  end.

(** *** The window of a renewal *)

(** What [random_range(0..renew_jitter)] can give. *)
Definition jitter_ok (j : Z) : Prop := 0 <= j /\ (0 < Time.as_secs (ac_renew_jitter cfg) -> j < Time.as_secs (ac_renew_jitter cfg)).

Definition op_ok (op : RenewerOp) : Prop := match op with BackoffOver j | Issued _ _ j => jitter_ok j | _ => True end.

Definition cfg_ok : Prop := 0 <= ac_renew_before cfg /\ 0 <= ac_renew_jitter cfg.

Lemma sleep_bounds na now j d :
  cfg_ok -> jitter_ok j -> sleep_until_renewal na now (ac_renew_before cfg) (ac_renew_jitter cfg) j = Some d ->
  0 <= d /\ Time.from_secs (na - now) - ac_renew_before cfg - ac_renew_jitter cfg <= d <= Time.from_secs (na - now) - ac_renew_before cfg.
Proof.
  intros [Hb Hj] [Hj0 Hj1]. unfold sleep_until_renewal, Time.from_secs, Time.as_secs, Time.NANOS_PER_SEC in *.
  destruct (Z.leb_spec na now) as [|Hna]; [done|]. case_match eqn:Hrb; [done|]. apply Z.ltb_ge in Hrb. case_match eqn:Hjt; [done|].
  apply Z.ltb_ge in Hjt. intros [= <-]. destruct (Z.eqb_spec (ac_renew_jitter cfg / 1000000000) 0) as [Hz|Hz].
  - lia.
  - pose proof (Z.div_pos (ac_renew_jitter cfg) 1000000000 Hj ltac:(lia)). specialize (Hj1 ltac:(lia)).
    pose proof (Z.mul_div_le (ac_renew_jitter cfg) 1000000000 ltac:(lia)). lia.
Qed.

Lemma sleep_long na now j :
  cfg_ok -> jitter_ok j -> ac_renew_before cfg + ac_renew_jitter cfg <= Time.from_secs (na - now) -> 0 < na - now ->
  exists d, sleep_until_renewal na now (ac_renew_before cfg) (ac_renew_jitter cfg) j = Some d.
Proof.
  intros [Hb Hj] [Hj0 Hj1] Hl Hp. unfold sleep_until_renewal, Time.from_secs, Time.as_secs, Time.NANOS_PER_SEC in *.
  destruct (Z.leb_spec na now) as [|Hna]; [lia|]. destruct (Z.ltb_spec ((na - now) * 1000000000) (ac_renew_before cfg)); [lia|].
  case_match eqn:Hjt; [|by eexists]. exfalso. apply Z.ltb_lt in Hjt. destruct (Z.eqb_spec (ac_renew_jitter cfg / 1000000000) 0) as [Hz|Hz]; [lia|].
  pose proof (Z.div_pos (ac_renew_jitter cfg) 1000000000 Hj ltac:(lia)). specialize (Hj1 ltac:(lia)).
  pose proof (Z.mul_div_le (ac_renew_jitter cfg) 1000000000 ltac:(lia)). lia.
Qed.

(** While the task sleeps, the certificate on disk is good beyond the time it
    sleeps to, and the control surface reports that certificate. *)
Definition in_window (r : Renewer) : Prop :=
  match phase r with
  | Sleeping until =>
      exists na, read_not_after (fs r) (fullchain r) = Some na /\
        Time.from_secs na - ac_renew_before cfg - ac_renew_jitter cfg <= until < Time.from_secs na - ac_renew_before cfg + Time.from_secs 1 /\
        forall st, host_states r !! Str.to_ascii_lowercase (host r) = Some st -> not_after_unix st = Some na
  | _ => True
  end.

Lemma clock_secs c : Time.from_secs (Time.as_secs c) <= c < Time.from_secs (Time.as_secs c) + Time.from_secs 1.
Proof.
  unfold Time.from_secs, Time.as_secs, Time.NANOS_PER_SEC. pose proof (Z.div_mod c 1000000000 ltac:(lia)).
  pose proof (Z.mod_pos_bound c 1000000000 ltac:(lia)). lia.
Qed.

Lemma decide_in_window r j : cfg_ok -> jitter_ok j -> in_window (decide_next r j).
Proof.
  intros Hcfg Hj. unfold decide_next. destruct (read_not_after (fs r) (fullchain r)) as [na|] eqn:Hna; cbn; [|by destruct (kick_rx r)].
  destruct (sleep_until_renewal _ _ _ _ _) as [d|] eqn:Hd; [|by destruct (kick_rx r)]. cbn.
  apply sleep_bounds in Hd as (_ & Hd); [|done..]. exists na. split; [done|]. pose proof (clock_secs (clock r)) as Hc.
  unfold Time.from_secs, Time.NANOS_PER_SEC in *. split; [lia|]. intros st. unfold with_host_state.
  rewrite lookup_alter_eq. by intros (st0 & _ & ->)%fmap_Some.
Qed.

Lemma foldl_reply_phase ids : forall r, phase (foldl (fun r id => with_reply r (Some id) None) r ids) = phase r.
Proof. induction ids as [|i ids IH]; intros r; [done|]. cbn. by rewrite IH. Qed.

Lemma step_in_window r op r' : cfg_ok -> op_ok op -> in_window r -> renewer_step r op = Some r' -> in_window r'.
Proof.
  intros Hcfg Hop Hin Hs. unfold renewer_step in Hs. destruct op as [d|id| | |j|[cert|e] fail j|]; cbn in Hop.
  - case_match; [|done]. by injection Hs as <-.
  - destruct (phase r) eqn:Hp; injection Hs as <-; unfold in_window in *; cbn; by rewrite Hp in *.
  - destruct (phase r) eqn:Hp; try done. destruct (kick_rx r); [done|]. by injection Hs as <-.
  - destruct (phase r) eqn:Hp; try done. case_match; [|done]. by injection Hs as <-.
  - destruct (phase r) eqn:Hp; try done. case_match; [|done]. injection Hs as <-. by apply decide_in_window.
  - destruct (phase r) eqn:Hp; try done. injection Hs as <-. unfold finish_issue. destruct (write_atomic _ _ _ _ _ _) as [fs' w].
    destruct w; by apply decide_in_window.
  - destruct (phase r) eqn:Hp; try done. by injection Hs as <-.
  - destruct (phase r) eqn:Hp; try done; by injection Hs as <-.
Qed.

Lemma run_in_window ops : forall r r', cfg_ok -> Forall op_ok ops -> in_window r -> renewer_run r ops = Some r' -> in_window r'.
Proof.
  induction ops as [|op ops IH]; intros r r' Hcfg Hops Hin Hr; [by injection Hr as <-|]. apply Forall_cons in Hops as [Hop Hops]. cbn in Hr.
  destruct (renewer_step r op) as [r1|] eqn:Hs; [|done]. cbn in Hr. apply (IH r1); try done. by apply (step_in_window r op).
Qed.

(** *** The kicks *)

Definition held (r : Renewer) : list nat := match phase r with Issuing (Some id) => [id] | _ => [] end.

(** All kicks a task was given, in order. *)
Definition known_kicks (r : Renewer) : list nat := (replies r).*1 ++ held r ++ kick_rx r.
Definition op_kicks (op : RenewerOp) : list nat := match op with Kick id => [id] | _ => [] end.

Lemma decide_kicks r j : known_kicks (decide_next r j) = (replies r).*1 ++ kick_rx r.
Proof.
  unfold decide_next. destruct (na ← _; _) as [d|]; [done|]. cbn. destruct (kick_rx r) as [|id q] eqn:Hq; [|done]. unfold known_kicks. cbn.
  by rewrite Hq.
Qed.

Lemma foldl_reply_ids ids : forall r,
  replies (foldl (fun r id => with_reply r (Some id) None) r ids) = replies r ++ ((fun id => (id, None)) <$> ids).
Proof. induction ids as [|i ids IH]; intros r; cbn; [by rewrite app_nil_r|]. rewrite IH. cbn. by rewrite <- (assoc_L (++)). Qed.

Lemma exit_kicks r : held r = [] -> known_kicks (exit_task r) = known_kicks r.
Proof.
  intros Hh. unfold known_kicks. rewrite Hh. unfold held. cbn. rewrite app_nil_r, foldl_reply_ids, fmap_app, <- list_fmap_compose. f_equal.
  apply list_fmap_id.
Qed.

Lemma step_kicks r op r' : (phase r = Exited -> kick_rx r = []) -> renewer_step r op = Some r' ->
  known_kicks r' = known_kicks r ++ op_kicks op /\ (phase r' = Exited -> kick_rx r' = []).
Proof.
  intros Hex Hs. unfold renewer_step in Hs. destruct op as [d|id| | |j|outcome fail j|]; cbn.
  - case_match; [|done]. injection Hs as <-. by rewrite app_nil_r.
  - destruct (phase r) eqn:Hp; injection Hs as <-; unfold known_kicks, held; cbn; rewrite Hp; (split; [|try done; by intros _; apply Hex]);
      try by rewrite !(assoc_L (++)).
    rewrite (Hex eq_refl), fmap_app. cbn. by rewrite !app_nil_r.
  - destruct (phase r) eqn:Hp; try done. destruct (kick_rx r) as [|id q] eqn:Hq; [done|]. injection Hs as <-. unfold known_kicks, held. cbn.
    rewrite Hp, Hq, app_nil_r. by split.
  - destruct (phase r) eqn:Hp; try done. case_match; [|done]. injection Hs as <-. unfold known_kicks, held. cbn. rewrite Hp, app_nil_r. by split.
  - destruct (phase r) eqn:Hp; try done. case_match; [|done]. injection Hs as <-. rewrite decide_kicks, app_nil_r. unfold known_kicks, held.
    rewrite Hp. split; [done|]. unfold decide_next. destruct (na ← _; _); [done|]. cbn. by destruct (kick_rx r).
  - destruct (phase r) as [|reply| |] eqn:Hp; try done. injection Hs as <-. rewrite app_nil_r. unfold finish_issue.
    assert (forall r0 ans jj, replies r0 = replies r -> kick_rx r0 = kick_rx r ->
      known_kicks (decide_next (with_reply r0 reply ans) jj) = known_kicks r /\
      (phase (decide_next (with_reply r0 reply ans) jj) = Exited -> kick_rx (decide_next (with_reply r0 reply ans) jj) = [])) as Hd.
    { intros r0 ans jj Hr Hk. rewrite decide_kicks. unfold known_kicks, held. rewrite Hp. cbn. rewrite Hk, Hr. split.
      - destruct reply; [|done]. rewrite fmap_app. cbn. by rewrite <- (assoc_L (++)).
      - unfold decide_next. destruct (na ← _; _); [done|]. cbn. by destruct (kick_rx r0). }
    destruct outcome as [cert|e].
    + destruct (write_atomic _ _ _ _ _ _) as [fs' w]. by destruct w; apply Hd.
    + unfold known_kicks, held. cbn. rewrite Hp. split; [|done]. destruct reply; [|done]. rewrite fmap_app. cbn. by rewrite <- (assoc_L (++)).
  - destruct (phase r) eqn:Hp; try done; injection Hs as <-; rewrite app_nil_r, exit_kicks by (unfold held; by rewrite Hp); by split.
Qed.

Lemma run_kicks ops : forall r r', (phase r = Exited -> kick_rx r = []) -> renewer_run r ops = Some r' ->
  known_kicks r' = known_kicks r ++ (ops ≫= op_kicks).
Proof.
  induction ops as [|op ops IH]; intros r r' Hex Hr; cbn in Hr; [injection Hr as <-; cbn; by rewrite app_nil_r|].
  destruct (renewer_step r op) as [r1|] eqn:Hs; [|done]. cbn in Hr. destruct (step_kicks r op r1 Hex Hs) as [Hk Hex1].
  rewrite (IH r1 r' Hex1 Hr), Hk. cbn. by rewrite <- (assoc_L (++)).
Qed.

(** *** The spacing of the issuances *)

(** Nobody kicks the task, and what it is issued is written and good for
    [gap] longer than the window of a renewal. *)
Definition good_op (gap : Z) (r : Renewer) (op : RenewerOp) : Prop :=
  op_ok op /\
  match op with
  | Kick _ => False
  | Issued (Ok cert) fail _ =>
      fail = None /\ exists na, parse_not_after (fullchain_pem cert) = Some na /\
        clock r + ac_renew_before cfg + ac_renew_jitter cfg + gap <= Time.from_secs na
  | _ => True
  end.

Fixpoint good_run (gap : Z) (r : Renewer) (ops : list RenewerOp) : Prop :=
  match ops with
  | [] => True
  | op :: ops => good_op gap r op /\ match renewer_step r op with Some r' => good_run gap r' ops | None => False end
  end.

Definition apart (gap a b : Z) : Prop := a + gap <= b.

Record spaced (gap : Z) (r : Renewer) : Prop := {
  sp_sorted : StronglySorted (apart gap) (issuances r);
  sp_past : Forall (fun t => t <= clock r) (issuances r);
  sp_kicks : kick_rx r = [];
  sp_wait : match phase r with Sleeping u | BackingOff u => Forall (fun t => t + gap <= u) (issuances r) | _ => True end
}.

Lemma sorted_snoc gap l x : StronglySorted (apart gap) l -> Forall (fun t => t + gap <= x) l -> StronglySorted (apart gap) (l ++ [x]).
Proof.
  induction 1 as [|y l Hs IH Hy]; intros Hf; cbn; [repeat constructor|]. apply Forall_cons in Hf as [Hyx Hf]. constructor; [by apply IH|].
  apply Forall_app. by repeat constructor.
Qed.

(** The task starts an issuance [gap] after the one before. *)
Lemma start_spaced gap r reply : 0 <= gap -> spaced gap r -> Forall (fun t => t + gap <= clock r) (issuances r) -> spaced gap (with_phase r (Issuing reply)).
Proof.
  intros Hg [Hs Hp Hk _] Hf. split; cbn; [by apply sorted_snoc| |done|done]. apply Forall_app. split; [done|]. repeat constructor. lia.
Qed.

Lemma decide_spaced gap r j :
  0 <= gap -> cfg_ok -> jitter_ok j -> spaced gap r -> Forall (fun t => t + gap <= clock r) (issuances r) -> spaced gap (decide_next r j).
Proof.
  intros Hg Hcfg Hj Hsp Hf. unfold decide_next. destruct (read_not_after (fs r) (fullchain r)) as [na|]; cbn.
  2:{ rewrite (sp_kicks _ _ Hsp). apply start_spaced; [done| |done]. by destruct Hsp. }
  destruct (sleep_until_renewal _ _ _ _ _) as [d|] eqn:Hd; cbn.
  2:{ rewrite (sp_kicks _ _ Hsp). apply start_spaced; [done| |done]. by destruct Hsp. }
  apply sleep_bounds in Hd as [Hd _]; [|done..]. destruct Hsp as [Hs Hp Hk _]. split; cbn; try done.
  eapply Forall_impl; [exact Hf|]. intros t Ht. cbn in Ht. lia.
Qed.

Lemma decide_sleeps r j f na dur :
  fs r !! fullchain r = Some f -> parse_not_after (contents f) = Some na ->
  sleep_until_renewal na (Time.as_secs (clock r)) (ac_renew_before cfg) (ac_renew_jitter cfg) j = Some dur ->
  exists states, decide_next r j = with_phase (with_states r states) (Sleeping (clock r + dur)).
Proof. intros Hf Hna Hd. unfold decide_next, read_not_after. rewrite Hf. cbn [mbind option_bind]. rewrite Hna. cbn [mbind option_bind]. rewrite Hd. by eexists. Qed.

Lemma decide_issues r j o :
  read_not_after (fs r) (fullchain r) = o ->
  (na ← o; sleep_until_renewal na (Time.as_secs (clock r)) (ac_renew_before cfg) (ac_renew_jitter cfg) j) = None ->
  exists states q reply, decide_next r j = with_phase (with_kicks (with_states r states) q) (Issuing reply).
Proof. intros <- Hd. unfold decide_next. rewrite Hd. cbn. destruct (kick_rx r) as [|id q] eqn:Hq; [exists (with_host_state r (fun st => schedule st None (read_not_after (fs r) (fullchain r)))), [], None|eexists _, _, _; done].
  by destruct r; cbn in *; subst. Qed.

Lemma success_spaced gap r reply cert j na :
  0 < gap -> cfg_ok -> jitter_ok j -> spaced gap r -> phase r = Issuing reply -> parse_not_after (fullchain_pem cert) = Some na ->
  clock r + ac_renew_before cfg + ac_renew_jitter cfg + gap <= Time.from_secs na -> spaced gap (finish_issue r reply (Ok cert) None j).
Proof.
  intros Hg Hcfg Hj [Hs Hp Hk _] Hph Hna Hlong. unfold finish_issue. destruct (write_atomic _ _ _ _ _ _) as [d w] eqn:Hw.
  apply write_atomic_effect in Hw as (_ & _ & Hwr & Hwf). rewrite (proj2 Hwr eq_refl). destruct (Hwf (proj2 Hwr eq_refl)) as [Hchain _].
  pose proof (clock_secs (clock r)) as Hc. destruct Hcfg as [Hb Hjt].
  destruct (sleep_long na (Time.as_secs (clock r)) j) as [dur Hd]; [by split|done|..].
  1,2: unfold Time.from_secs, Time.NANOS_PER_SEC in *; lia.
  match goal with |- spaced _ (decide_next ?r1 _) => destruct (decide_sleeps r1 j _ na dur Hchain Hna Hd) as [states ->] end.
  apply sleep_bounds in Hd as (_ & Hd); [|by split|done]. split; cbn; try done.
  eapply Forall_impl; [exact Hp|]. intros t Ht. cbn in Ht. unfold Time.from_secs, Time.NANOS_PER_SEC in *. lia.
Qed.

Lemma step_spaced gap r op r' :
  0 < gap <= ISSUE_BACKOFF -> cfg_ok -> spaced gap r -> good_op gap r op -> renewer_step r op = Some r' -> spaced gap r'.
Proof.
  intros Hg Hcfg Hsp [Hop Hgood] Hs. unfold renewer_step in Hs. pose proof (sp_wait _ _ Hsp) as Hwait. pose proof (sp_kicks _ _ Hsp) as Hk.
  destruct op as [d|id| | |j|[cert|e] fail j|]; cbn in Hop, Hgood; [|done|..].
  - destruct (Z.leb_spec 0 d); [|done]. injection Hs as <-. destruct Hsp as [Hso Hpa Hkk Hw]. split; cbn; try done.
    eapply Forall_impl; [exact Hpa|]. intros t Ht. cbn in Ht. lia.
  - destruct (phase r); try done. by rewrite Hk in Hs.
  - destruct (phase r) as [u| | |]; try done. destruct (Z.leb_spec u (clock r)); [|done]. injection Hs as <-. apply start_spaced; [lia|done|].
    eapply Forall_impl; [exact Hwait|]. intros t Ht. cbn in Ht. lia.
  - destruct (phase r) as [| |u|]; try done. destruct (Z.leb_spec u (clock r)); [|done]. injection Hs as <-. apply decide_spaced; [lia|done..|].
    eapply Forall_impl; [exact Hwait|]. intros t Ht. cbn in Ht. lia.
  - destruct (phase r) eqn:Hp; try done. injection Hs as <-. destruct Hgood as (-> & na & Hna & Hl). apply (success_spaced gap r _ cert j na); [lia|done..].
  - destruct (phase r) eqn:Hp; try done. injection Hs as <-. destruct Hsp as [Hso Hpa Hkk Hw]. split; cbn; try done.
    eapply Forall_impl; [exact Hpa|]. intros t Ht. cbn in Ht. lia.
  - destruct (phase r) eqn:Hp; try done; injection Hs as <-; unfold exit_task; rewrite Hk; by destruct Hsp.
Qed.

Lemma run_spaced gap ops : forall r r', 0 < gap <= ISSUE_BACKOFF -> cfg_ok -> spaced gap r -> good_run gap r ops -> renewer_run r ops = Some r' ->
  spaced gap r'.
Proof.
  induction ops as [|op ops IH]; intros r r' Hg Hcfg Hsp Hgood Hr; cbn in Hr, Hgood; [by injection Hr as <-|].
  destruct Hgood as [Hop Hgood]. destruct (renewer_step r op) as [r1|] eqn:Hs; [|done]. cbn in Hr. apply (IH r1); try done.
  by apply (step_spaced gap r op).
Qed.

Lemma registered_task now h states route d s j states' r :
  register_host now h states route d s j = (states', Some r) ->
  exists r0, r = decide_next r0 j /\ issuances r0 = [] /\ kick_rx r0 = [] /\ replies r0 = [].
Proof. unfold register_host. destruct (states !! _); [done|]. intros [= <- <-]. by eexists. Qed.

(** *** Where the schedule does not hold back *)

(** A certificate that is issued for less than [renew_before] is renewed at
    once: nothing waits between two issuances. *)
Lemma short_lived_reissued_at_once r reply cert j na :
  phase r = Issuing reply -> parse_not_after (fullchain_pem cert) = Some na ->
  Time.from_secs (na - Time.as_secs (clock r)) < ac_renew_before cfg ->
  exists r', renewer_step r (Issued (Ok cert) None j) = Some r' /\ clock r' = clock r /\ exists reply', phase r' = Issuing reply'.
Proof.
  intros Hp Hna Hshort. unfold renewer_step. rewrite Hp. eexists. split; [done|]. unfold finish_issue.
  destruct (write_atomic _ _ _ _ _ _) as [d w] eqn:Hw. apply write_atomic_effect in Hw as (_ & _ & Hwr & Hwf). rewrite (proj2 Hwr eq_refl).
  destruct (Hwf (proj2 Hwr eq_refl)) as [Hchain _].
  assert (read_not_after d (fullchain r) = Some na) as Hread by (unfold read_not_after; by rewrite (Hchain : d !! fullchain r = _)).
  match goal with |- context [decide_next ?r1 j] => destruct (decide_issues r1 j _ Hread) as (states & q & reply' & ->) end; [|by eauto].
  cbn [mbind option_bind]. unfold sleep_until_renewal. case_match; [done|]. cbn [clock with_reply with_states with_store with_disk].
  by rewrite (proj2 (Z.ltb_lt _ _) Hshort).
Qed.

(** So is one that cannot be written, when there is none on disk yet; the
    cancellation is not looked at either. *)
Lemma unwritable_reissued_at_once r reply cert j :
  phase r = Issuing reply -> read_not_after (fs r) (fullchain r) = None ->
  exists r', renewer_step r (Issued (Ok cert) (Some FailMkdir) j) = Some r' /\ clock r' = clock r /\ (exists reply', phase r' = Issuing reply') /\
    renewer_step r' Cancelled = None.
Proof.
  intros Hp Hna. unfold renewer_step at 1. rewrite Hp. eexists. split; [done|]. unfold finish_issue. cbn [write_atomic].
  match goal with |- context [decide_next ?r1 j] => destruct (decide_issues r1 j _ Hna) as (states & q & reply' & ->) end; by eauto.
Qed.

(** When only the key cannot be written, the new chain is on disk beside the
    old key, and the task sleeps until that chain is due. *)
Lemma torn_pair_sleeps r reply cert j na f :
  cfg_ok -> jitter_ok j -> phase r = Issuing reply -> parse_not_after (fullchain_pem cert) = Some na ->
  clock r + ac_renew_before cfg + ac_renew_jitter cfg + Time.from_secs 1 <= Time.from_secs na ->
  exists r', renewer_step r (Issued (Ok cert) (Some (FailKey f)) j) = Some r' /\ (exists u, phase r' = Sleeping u) /\
    contents <$> fs r' !! fullchain r' = Some (fullchain_pem cert) /\
    fs r' !! snd (paths (ac_storage_dir cfg) (host r)) = fs r !! snd (paths (ac_storage_dir cfg) (host r)).
Proof.
  intros Hcfg Hj Hp Hna Hlong. unfold renewer_step. rewrite Hp. eexists. split; [done|]. unfold finish_issue.
  assert (exists d e, write_atomic (ac_umask cfg) (Some (FailKey f)) (ac_storage_dir cfg) (host r) cert (fs r) = (d, Err e) /\
    d !! fst (paths (ac_storage_dir cfg) (host r)) = Some (mkFile (fullchain_pem cert) 420) /\
    d !! snd (paths (ac_storage_dir cfg) (host r)) = fs r !! snd (paths (ac_storage_dir cfg) (host r))) as (d & e & -> & Hc & Hkey).
  { unfold write_atomic. destruct (write_one _ None _ _ _ _ _ _) as [fs1 r1] eqn:H1'. apply write_one_effect in H1' as (Hr & Hok & _ & Hoth); [|done..].
    rewrite (proj2 Hr eq_refl). destruct (write_one _ (Some f) _ _ _ _ _ _) as [fs2 r2] eqn:H2'.
    apply write_one_effect in H2' as (Hr2 & _ & Herr2 & Hoth2); [|done..]. destruct r2 as [[]|e]; [discriminate (proj1 Hr2 eq_refl)|].
    exists fs2, e. split; [done|]. cbn [paths fst snd]. split; [rewrite Hoth2 by solve_paths; by apply Hok, Hr|].
    rewrite Herr2 by done. apply Hoth; solve_paths. }
  pose proof (clock_secs (clock r)) as Hs. destruct Hcfg as [Hb Hjt].
  destruct (sleep_long na (Time.as_secs (clock r)) j) as [dur Hd]; [by split|done|..].
  1,2: unfold Time.from_secs, Time.NANOS_PER_SEC in *; lia.
  match goal with |- context [decide_next ?r1 j] => destruct (decide_sleeps r1 j _ na dur Hc Hna Hd) as [states ->] end.
  split; [by eexists|]. split; [exact (f_equal (fmap contents) Hc)|exact Hkey].
Qed.

(** The first certificate of a host does not go live: the store reloads only
    hosts it has loaded before. *)
Lemma first_issuance_not_served r op r' :
  cs_specs (certs r) !! Str.to_ascii_lowercase (host r) = None -> renewer_step r op = Some r' -> certs r' = certs r.
Proof.
  intros Hno Hs. assert (forall r0 j, certs (decide_next r0 j) = certs r0) as Hdec.
  { intros r0 j. unfold decide_next. destruct (na ← _; _); [done|]. cbn. by destruct (kick_rx r0). }
  unfold renewer_step in Hs. destruct op as [d|id| | |j|[cert|e] fail j|]; destruct (phase r) eqn:Hp; try done; try (case_match; [|done]);
    try done; try (injection Hs as <-; try done; try by rewrite Hdec).
  - destruct (kick_rx r); [done|]. by injection Hs as <-.
  - unfold finish_issue. destruct (write_atomic _ _ _ _ _ _) as [fs' w]. destruct w; rewrite Hdec; [|done]. cbn. unfold reload_host, reload_resolve.
    by rewrite Hno.
  - unfold exit_task. cbn. generalize (kick_rx r). intros l. clear. revert r. induction l as [|i l IH]; intros r; [done|]. cbn. by rewrite IH.
  - unfold exit_task. cbn. generalize (kick_rx r). intros l. clear. revert r. induction l as [|i l IH]; intros r; [done|]. cbn. by rewrite IH.
Qed.

End Task.

End Renewer.

Module AcmeProps.


Import CertProps.

(** A certificate is the number of days it is good for. *)
#[export] Instance demo_acme : AcmeLib := {| parse_not_after b := match b with [x] => Some (86400 * byte_to_Z x) | _ => None end; read_failed := "not found" |}.

Definition demo_acme_cfg : AcmeConfig := mkAcmeConfig "a.org" "/certs" (Time.from_secs (30 * 86400)) 0 18.

(** The first order fails, the second gives a certificate for 90 days, which
    is renewed 60 days later. *)
Definition demo_renewals : list RenewerOp :=
  [Issued (Err (DnsError "a.org" "timed out")) None 0; Advance (Time.from_secs 300); BackoffOver 0; Advance (Time.from_secs 60);
   Issued (Ok (mkIssued [x5a] [x01])) None 0; Advance (Time.from_secs (59 * 86400)); Kick 7; RecvKick].


End AcmeProps.
