(* ===== verification/AcmeOrder.v ===== *)
(** * An ACME order with its DNS-01 challenges ([yggdrasil/src/proxy/acme/])

    [AcmeClient::issue] ([client.rs]) as a program that logs what it asks of
    the directory and of the DNS provider ([dns01.rs], [provider.rs]), and the
    Cloudflare provider ([providers/cloudflare.rs]).  The answers of the
    servers and the times the polls look at the clock are inputs. *)

From S2P Require Import Prelude RustStd External Instances RuleTypes Error Rule RuleSet Certs Config Acme.

(** ** Logged, fallible actions *)

Inductive IssueEvent :=
  | NewOrder (identifiers : list string)
  | AddTxt (fqdn value : string) (handle : TxtHandle)
  | Propagated (fqdn value : string)
  | SetReady (url : string)
  | RemoveTxt (handle : TxtHandle)
  | Finalize (sans : list string).

Definition Act (A : Type) : Type := list IssueEvent * result AcmeError A.

#[global] Instance act_ret : MRet Act := fun A a => ([], Ok a).
#[global] Instance act_bind : MBind Act := fun A B f m =>
  match m with
  | (log, Ok a) => let '(log', r) := f a in (log ++ log', r)
  | (log, Err e) => (log, Err e)
  end.

Definition lift {A} (r : result AcmeError A) : Act A := ([], r).
Definition logged {A} (r : result AcmeError A) (f : A -> IssueEvent) : Act A :=
  match r with Ok a => ([f a], Ok a) | Err e => ([], Err e) end.
Definition client_err {A} (h what : string) (r : result () A) : result AcmeError A := map_err (fun _ => ClientError h what) r.

(** ** What the order is run against *)

(** [DnsProvider]; the number tells the calls of an order apart. *)
Record DnsProvider := mkProvider {
  add_txt : nat -> string -> string -> result AcmeError TxtHandle;
  wait_for_propagation : nat -> string -> string -> result AcmeError unit;
  remove_txt : TxtHandle -> result AcmeError unit
}.

Definition ProviderRegistry := list (string * DnsProvider).

Definition registry_get (reg : ProviderRegistry) (h name : string) : result AcmeError DnsProvider :=
  match List.find (fun p => bool_decide (fst p = name)) reg with
  | Some p => Ok (snd p)
  | None => Err (UnknownProvider h name)
  end.

Record Challenge := mkChallenge { is_dns01 : bool; challenge_url : string; dns_value : string }.
Record Authorization := mkAuthz { identifier : string; challenges : list Challenge }.
Inductive OrderStatus := OrderPending | OrderProcessing | OrderReady | OrderValid | OrderInvalid.

(** The directory's answers; [csr] is the key and the request made for it, with
    the call that failed; [elapsed] is what a poll's [n]-th look at the
    clock shows. *)
Record Directory := mkDirectory {
  account : result AcmeError unit;
  new_order : list string -> result () unit;
  authorizations : result () (list Authorization);
  set_challenge_ready : string -> result () unit;
  refresh : nat -> result () OrderStatus;
  order_elapsed : nat -> Z;
  csr : list string -> result string unit;
  finalize : list string -> result () unit;
  certificate : nat -> result () (option (list byte));
  certificate_elapsed : nat -> Z;
  key_pem : list byte
}.

(** ** The order ([client.rs], [dns01.rs]) *)

Definition ORDER_POLL_INTERVAL : Z := Time.from_secs 2.
Definition ORDER_POLL_DEADLINE : Z := Time.from_secs 120.

Definition challenge_fqdn (h : string) : string := "_acme-challenge." +:+ h.

Definition place_challenge (p : DnsProvider) (n : nat) (h value : string) : Act TxtHandle :=
  logged (add_txt p n (challenge_fqdn h) value) (fun handle => AddTxt (challenge_fqdn h) value handle).
Definition await_propagation (p : DnsProvider) (n : nat) (h value : string) : Act unit :=
  logged (wait_for_propagation p n (challenge_fqdn h) value) (fun _ => Propagated (challenge_fqdn h) value).

Section Issue.
Variables (dir : Directory) (reg : ProviderRegistry) (h : string) (extra : list string) (route : AcmeRouteConfig).

(** The loop over the authorizations. *)
Fixpoint place_all (n : nat) (authzs : list Authorization) : Act (list (DnsProvider * TxtHandle) * list string) :=
  match authzs with
  | [] => mret ([], [])
  | authz :: authzs =>
      challenge ← lift (ok_or (ClientError h "authorization has no matching challenge") (List.find is_dns01 (challenges authz)));
      p ← lift (registry_get reg h (provider route));
      handle ← place_challenge p n (identifier authz) (dns_value challenge);
      _ ← await_propagation p n (identifier authz) (dns_value challenge);
      '(handles, urls) ← place_all (S n) authzs;
      mret ((p, handle) :: handles, challenge_url challenge :: urls)
  end.

Fixpoint mark_ready (urls : list string) : Act unit :=
  match urls with
  | [] => mret ()
  | url :: urls =>
      _ ← logged (client_err h "set_challenge_ready" (set_challenge_ready dir url)) (fun _ => SetReady url);
      mark_ready urls
  end.

(** The poll of the order; the inner result is [outcome].  [None]: out of
    fuel. *)
Fixpoint poll_order (fuel n : nat) : option (Act (result AcmeError unit)) :=
  match fuel with
  | O => None
  | S fuel =>
      if ORDER_POLL_DEADLINE <? order_elapsed dir n then Some (mret (Err (ClientError h "order did not reach Ready")))
      else
        match refresh dir n with
        | Err _ => Some (lift (Err (ClientError h "order.refresh")))
        | Ok (OrderPending | OrderProcessing) => poll_order fuel (S n)
        | Ok (OrderReady | OrderValid) => Some (mret (Ok ()))
        | Ok OrderInvalid => Some (mret (Err (ClientError h "order entered Invalid state during validation")))
        end
  end.

(** A cleanup that fails is only logged. *)
Fixpoint remove_all (handles : list (DnsProvider * TxtHandle)) : Act unit :=
  match handles with
  | [] => mret ()
  | (p, handle) :: handles =>
      '(_) ← (([RemoveTxt handle], Ok (remove_txt p handle)) : Act _);
      remove_all handles
  end.

Fixpoint poll_certificate (fuel n : nat) : option (Act (list byte)) :=
  match fuel with
  | O => None
  | S fuel =>
      if ORDER_POLL_DEADLINE <? certificate_elapsed dir n then Some (lift (Err (ClientError h "certificate did not materialise")))
      else
        match certificate dir n with
        | Err _ => Some (lift (Err (ClientError h "order.certificate")))
        | Ok (Some chain) => Some (mret chain)
        | Ok None => poll_certificate fuel (S n)
        end
  end.

(** A poll looks at the clock every two seconds, and gives up after 120. *)
Definition POLL_FUEL : nat := 62.

Definition names : list string := h :: extra.

(** Up to the poll of the order. *)
Definition open_order : Act (list (DnsProvider * TxtHandle)) :=
  _ ← lift (account dir);
  _ ← logged (client_err h "new_order" (new_order dir names)) (fun _ => NewOrder names);
  authzs ← lift (client_err h "order.authorizations" (authorizations dir));
  '(handles, urls) ← place_all 0 authzs;
  _ ← mark_ready urls;
  mret handles.

(** From the end of the poll: the cleanup, the request and the download. *)
Definition close_order (handles : list (DnsProvider * TxtHandle)) (outcome : result AcmeError unit) (download : Act (list byte)) : Act IssuedCert :=
  _ ← remove_all handles;
  _ ← lift outcome;
  _ ← lift (map_err (ClientError h) (csr dir names));
  _ ← logged (client_err h "order.finalize" (finalize dir names)) (fun _ => Finalize names);
  chain ← download;
  mret (mkIssued chain (key_pem dir)).

Definition issue : option (Act IssuedCert) :=
  polled ← poll_order POLL_FUEL 0;
  download ← poll_certificate POLL_FUEL 0;
  Some (handles ← open_order; outcome ← polled; close_order handles outcome download).

End Issue.

(** ** The log of an order *)

Lemma act_bind_log {A B} (m : Act A) (f : A -> Act B) :
  fst (m ≫= f) = fst m ++ match snd m with Ok a => fst (f a) | Err _ => [] end.
Proof. destruct m as [l [a|e]]; cbn; [by destruct (f a)|by rewrite app_nil_r]. Qed.

Lemma act_bind_run {A B} l (a : A) (f : A -> Act B) : (((l, Ok a) : Act A) ≫= f) = (l ++ fst (f a), snd (f a)).
Proof. cbn. by destruct (f a). Qed.

Definition added (log : list IssueEvent) : list TxtHandle := omap (fun e => match e with AddTxt _ _ t => Some t | _ => None end) log.
Definition removed (log : list IssueEvent) : list TxtHandle := omap (fun e => match e with RemoveTxt t => Some t | _ => None end) log.

Lemma added_app l k : added (l ++ k) = added l ++ added k.
Proof. apply omap_app. Qed.
Lemma removed_app l k : removed (l ++ k) = removed l ++ removed k.
Proof. apply omap_app. Qed.

Section Log.
Variables (dir : Directory) (reg : ProviderRegistry) (h : string) (extra : list string) (route : AcmeRouteConfig).

(** The name under which the directory looks for the answer to a DNS-01
    challenge. *)
Notation challenge_name az := ("_acme-challenge." +:+ identifier az).

(** *** What a successful order did *)

(** From the [n]-th authorization on: the log of the records placed, one per
    authorization and each seen before the next, their handles as the provider
    gave them, and the challenges they answer. *)
Inductive places : nat -> list Authorization -> list IssueEvent -> list TxtHandle -> list string -> Prop :=
  | PlacesNil n : places n [] [] [] []
  | PlacesCons n az c p t azs log hs urls :
      List.find is_dns01 (challenges az) = Some c -> registry_get reg h (provider route) = Ok p ->
      add_txt p n (challenge_name az) (dns_value c) = Ok t -> wait_for_propagation p n (challenge_name az) (dns_value c) = Ok () ->
      places (S n) azs log hs urls ->
      places n (az :: azs)
        (AddTxt (challenge_name az) (dns_value c) t :: Propagated (challenge_name az) (dns_value c) :: log)
        (t :: hs) (challenge_url c :: urls).

(** The looks at the order before the [n]-th, in time, found it undecided. *)
Definition undecided (n : nat) : Prop :=
  forall k, (k < n)%nat -> order_elapsed dir k <= Time.from_secs 120 /\
    (refresh dir k = Ok OrderPending \/ refresh dir k = Ok OrderProcessing).

Definition validated : Prop :=
  exists n, undecided n /\ order_elapsed dir n <= Time.from_secs 120 /\ (refresh dir n = Ok OrderReady \/ refresh dir n = Ok OrderValid).

(** The first look at the certificate that finds one finds [chain]. *)
Definition not_yet (n : nat) : Prop :=
  forall k, (k < n)%nat -> certificate_elapsed dir k <= Time.from_secs 120 /\ certificate dir k = Ok None.

Definition downloaded (chain : list byte) : Prop :=
  exists n, not_yet n /\ certificate_elapsed dir n <= Time.from_secs 120 /\ certificate dir n = Ok (Some chain).

(** *** Why an order fails *)

(** The authorization that stopped the placing of the records, [n] being the
    number of the first. *)
Inductive placing_fails (n : nat) (azs : list Authorization) : AcmeError -> Prop :=
  | NoChallenge k az : azs !! k = Some az -> List.find is_dns01 (challenges az) = None ->
      placing_fails n azs (ClientError h "authorization has no matching challenge")
  | NoProvider e : azs <> [] -> registry_get reg h (provider route) = Err e -> placing_fails n azs e
  | AddFails k az c p e : azs !! k = Some az -> List.find is_dns01 (challenges az) = Some c -> registry_get reg h (provider route) = Ok p ->
      add_txt p (n + k) (challenge_name az) (dns_value c) = Err e -> placing_fails n azs e
  | NotSeen k az c p e : azs !! k = Some az -> List.find is_dns01 (challenges az) = Some c -> registry_get reg h (provider route) = Ok p ->
      wait_for_propagation p (n + k) (challenge_name az) (dns_value c) = Err e -> placing_fails n azs e.

Inductive polling_fails : AcmeError -> Prop :=
  | PollLate n : undecided n -> Time.from_secs 120 < order_elapsed dir n -> polling_fails (ClientError h "order did not reach Ready")
  | PollRefresh n x : undecided n -> refresh dir n = Err x -> polling_fails (ClientError h "order.refresh")
  | PollInvalid n : undecided n -> refresh dir n = Ok OrderInvalid -> polling_fails (ClientError h "order entered Invalid state during validation").

Inductive download_fails : AcmeError -> Prop :=
  | DownloadLate n : not_yet n -> Time.from_secs 120 < certificate_elapsed dir n -> download_fails (ClientError h "certificate did not materialise")
  | DownloadError n x : not_yet n -> certificate dir n = Err x -> download_fails (ClientError h "order.certificate").

Inductive order_fails : AcmeError -> Prop :=
  | NoAccount e : account dir = Err e -> order_fails e
  | OrderRefused x : new_order dir (h :: extra) = Err x -> order_fails (ClientError h "new_order")
  | NoAuthorizations x : authorizations dir = Err x -> order_fails (ClientError h "order.authorizations")
  | PlacingFails azs e : authorizations dir = Ok azs -> placing_fails 0 azs e -> order_fails e
  | NotMarked azs az c x : authorizations dir = Ok azs -> az ∈ azs -> List.find is_dns01 (challenges az) = Some c ->
      set_challenge_ready dir (challenge_url c) = Err x -> order_fails (ClientError h "set_challenge_ready")
  | PollingFails e : polling_fails e -> order_fails e
  | NoRequest what : csr dir (h :: extra) = Err what -> order_fails (ClientError h what)
  | NotFinalized x : finalize dir (h :: extra) = Err x -> order_fails (ClientError h "order.finalize")
  | DownloadFails e : download_fails e -> order_fails e.

Lemma placing_fails_next n az azs e : placing_fails (S n) azs e -> placing_fails n (az :: azs) e.
Proof.
  destruct 1 as [k az' Hk Hc|e Hne Hr|k az' c p e Hk Hc Hr Ha|k az' c p e Hk Hc Hr Ha].
  - by apply (NoChallenge _ _ (S k) az').
  - by apply NoProvider.
  - apply (AddFails _ _ (S k) az' c p); try done. by rewrite Nat.add_succ_r.
  - apply (NotSeen _ _ (S k) az' c p); try done. by rewrite Nat.add_succ_r.
Qed.

Lemma place_all_spec azs : forall n,
  match place_all reg h route n azs with
  | (log, Ok (handles, urls)) => places n azs log handles.*2 urls
  | (_, Err e) => placing_fails n azs e
  end.
Proof.
  induction azs as [|az azs IH]; intros n; [constructor|]. cbn [place_all]. unfold place_challenge, await_propagation, logged, lift, challenge_fqdn.
  destruct (List.find is_dns01 (challenges az)) as [c|] eqn:Hc; cbn; [|by apply (NoChallenge _ _ 0%nat az)].
  destruct (registry_get reg h (provider route)) as [p|e] eqn:Hr; cbn; [|by apply NoProvider].
  destruct (add_txt p n _ _) as [t|e] eqn:Ha; cbn; [|apply (AddFails _ _ 0%nat az c p); try done; by rewrite Nat.add_0_r].
  destruct (wait_for_propagation p n _ _) as [[]|e] eqn:Hw; cbn; [|apply (NotSeen _ _ 0%nat az c p); try done; by rewrite Nat.add_0_r].
  specialize (IH (S n)). destruct (place_all reg h route (S n) azs) as [log [[handles urls]|e]]; cbn; [|by apply placing_fails_next].
  rewrite app_nil_r. by econstructor.
Qed.

Lemma mark_ready_spec urls :
  match mark_ready dir h urls with
  | (log, Ok _) => log = SetReady <$> urls /\ Forall (fun u => set_challenge_ready dir u = Ok ()) urls
  | (_, Err e) => exists u x, u ∈ urls /\ set_challenge_ready dir u = Err x /\ e = ClientError h "set_challenge_ready"
  end.
Proof.
  induction urls as [|u urls IH]; cbn [mark_ready]; [done|]. unfold logged, client_err.
  destruct (set_challenge_ready dir u) as [[]|x] eqn:Hu; cbn; [|exists u, x; split; [by left|done]].
  destruct (mark_ready dir h urls) as [log [[]|e]]; cbn.
  - destruct IH as [-> IH]. split; [done|by constructor].
  - destruct IH as (v & x & Hv & Hx & ->). exists v, x. split; [by right|done].
Qed.

Lemma placed_urls n azs log hs urls : places n azs log hs urls ->
  forall u, u ∈ urls -> exists az c, az ∈ azs /\ List.find is_dns01 (challenges az) = Some c /\ u = challenge_url c.
Proof.
  induction 1 as [|n az c p t azs log hs urls Hc _ _ _ _ IH]; intros u Hu; [by apply elem_of_nil in Hu|].
  apply elem_of_cons in Hu as [->|Hu]; [exists az, c; split; [by left|done]|]. destruct (IH u Hu) as (az' & c' & Hin & Hc' & ->).
  exists az', c'. split; [by right|done].
Qed.

Lemma places_added n azs log hs urls : places n azs log hs urls -> added log = hs.
Proof. induction 1 as [|n az c p t azs log hs urls _ _ _ _ _ IH]; [done|]. cbn. by f_equal. Qed.

(** The order up to the poll, with what it placed. *)
Lemma open_order_spec :
  match open_order dir reg h extra route with
  | (log, Ok handles) => exists azs evs urls,
      account dir = Ok () /\ new_order dir (h :: extra) = Ok () /\ authorizations dir = Ok azs /\
      places 0 azs evs handles.*2 urls /\ Forall (fun u => set_challenge_ready dir u = Ok ()) urls /\
      log = NewOrder (h :: extra) :: evs ++ (SetReady <$> urls)
  | (_, Err e) => order_fails e
  end.
Proof.
  unfold open_order, logged, lift, client_err, names. destruct (account dir) as [[]|e] eqn:Ha; cbn; [|by apply NoAccount].
  destruct (new_order dir (h :: extra)) as [[]|x] eqn:Hn; cbn; [|by eapply OrderRefused].
  destruct (authorizations dir) as [azs|x] eqn:Hz; cbn; [|by eapply NoAuthorizations].
  pose proof (place_all_spec azs 0) as Hp. destruct (place_all reg h route 0 azs) as [evs [[handles urls]|e]]; cbn; [|by eapply PlacingFails].
  pose proof (mark_ready_spec urls) as Hm. destruct (mark_ready dir h urls) as [log [[]|e]]; cbn.
  - destruct Hm as [-> Hm]. exists azs, evs, urls. rewrite app_nil_r. done.
  - destruct Hm as (u & x & Hu & Hx & ->). destruct (placed_urls _ _ _ _ _ Hp u Hu) as (az & c & Hin & Hc & ->). by eapply NotMarked.
Qed.

Lemma remove_all_eq handles : remove_all handles = (RemoveTxt <$> handles.*2, Ok ()).
Proof. induction handles as [|[p t] hs IH]; [done|]. cbn. by rewrite IH. Qed.

(** Nothing is removed before the poll is over. *)
Lemma removed_none (log : list IssueEvent) : Forall (fun e => match e with RemoveTxt _ => False | _ => True end) log -> removed log = [].
Proof. induction 1 as [|e log He _ IH]; [done|]. by destruct e; cbn. Qed.

Lemma place_all_removed authzs : forall n, removed (fst (place_all reg h route n authzs)) = [].
Proof.
  induction authzs as [|az authzs IH]; intros n; [done|]. cbn [place_all]. unfold place_challenge, await_propagation, logged, lift.
  destruct (ok_or _ _); [|done]. cbn. destruct (registry_get _ _ _) as [pr|]; [|done]. cbn.
  destruct (add_txt _ _ _ _); [|done]. cbn. destruct (wait_for_propagation _ _ _ _); [|done]. cbn. specialize (IH (S n)).
  destruct (place_all reg h route (S n) authzs) as [l [[hs us]|]]; cbn in *; [by rewrite app_nil_r|done].
Qed.

Lemma mark_ready_removed urls : removed (fst (mark_ready dir h urls)) = [].
Proof.
  induction urls as [|u urls IH]; [done|]. cbn [mark_ready]. rewrite act_bind_log. unfold logged. by destruct (client_err _ _ _).
Qed.

Lemma open_order_removed : removed (fst (open_order dir reg h extra route)) = [].
Proof.
  unfold open_order. rewrite act_bind_log. cbn [lift fst snd app]. destruct (account dir); [|done]. rewrite act_bind_log. unfold logged at 1 2.
  destruct (client_err _ "new_order" _); [|done]. cbn [fst snd]. rewrite removed_app. replace (removed [NewOrder (names h extra)]) with (@nil TxtHandle) by done.
  cbn [app]. rewrite act_bind_log. cbn [lift fst snd app].
  destruct (client_err _ _ _) as [authzs|]; [|done]. rewrite act_bind_log, removed_app, place_all_removed. cbn [app].
  destruct (snd (place_all _ _ _ _ _)) as [[hs us]|]; [|done]. rewrite act_bind_log, removed_app, mark_ready_removed. cbn [app].
  by destruct (snd (mark_ready _ _ _)).
Qed.

(** *** The polls *)

Lemma poll_order_total fuel : forall n,
  (forall k, ORDER_POLL_INTERVAL * Z.of_nat k <= order_elapsed dir k) -> (POLL_FUEL <= fuel + n)%nat -> is_Some (poll_order dir h fuel n) \/ fuel = O /\ (POLL_FUEL <= n)%nat.
Proof.
  induction fuel as [|fuel IH]; intros n Hclock Hn; [right; split; [done|lia]|]. left. cbn [poll_order].
  destruct (Z.ltb_spec ORDER_POLL_DEADLINE (order_elapsed dir n)) as [|Hle]; [by eexists|].
  destruct (refresh dir n) as [[]|]; try by eexists.
  all: destruct (IH (S n) Hclock ltac:(lia)) as [Hs|[-> Hbig]]; [done|]; exfalso; specialize (Hclock n);
    unfold ORDER_POLL_DEADLINE, ORDER_POLL_INTERVAL, Time.from_secs, Time.NANOS_PER_SEC, POLL_FUEL in *; lia.
Qed.

Lemma poll_certificate_total fuel : forall n,
  (forall k, ORDER_POLL_INTERVAL * Z.of_nat k <= certificate_elapsed dir k) -> (POLL_FUEL <= fuel + n)%nat ->
  is_Some (poll_certificate dir h fuel n) \/ fuel = O /\ (POLL_FUEL <= n)%nat.
Proof.
  induction fuel as [|fuel IH]; intros n Hclock Hn; [right; split; [done|lia]|]. left. cbn [poll_certificate].
  destruct (Z.ltb_spec ORDER_POLL_DEADLINE (certificate_elapsed dir n)) as [|Hle]; [by eexists|].
  destruct (certificate dir n) as [[]|]; try by eexists.
  destruct (IH (S n) Hclock ltac:(lia)) as [Hs|[-> Hbig]]; [done|]. exfalso. specialize (Hclock n).
  unfold ORDER_POLL_DEADLINE, ORDER_POLL_INTERVAL, Time.from_secs, Time.NANOS_PER_SEC, POLL_FUEL in *. lia.
Qed.

Lemma poll_order_log fuel : forall n a, poll_order dir h fuel n = Some a -> fst a = [].
Proof.
  induction fuel as [|fuel IH]; intros n a Hp; [done|]. cbn in Hp. case_match; [by injection Hp as <-|].
  destruct (refresh dir n) as [[]|]; try (by injection Hp as <-); by apply (IH (S n)).
Qed.

Lemma poll_certificate_log fuel : forall n a, poll_certificate dir h fuel n = Some a -> fst a = [].
Proof.
  induction fuel as [|fuel IH]; intros n a Hp; [done|]. cbn in Hp. case_match; [by injection Hp as <-|].
  destruct (certificate dir n) as [[]|]; try (by injection Hp as <-); by apply (IH (S n)).
Qed.

Lemma poll_order_spec fuel : forall n a, undecided n -> poll_order dir h fuel n = Some a ->
  a = mret (Ok ()) /\ validated \/ exists e, polling_fails e /\ (a = mret (Err e) \/ a = lift (Err e)).
Proof.
  induction fuel as [|fuel IH]; intros n a Hn Ha; [done|]. cbn [poll_order] in Ha. unfold ORDER_POLL_DEADLINE in Ha.
  destruct (Z.ltb_spec (Time.from_secs 120) (order_elapsed dir n)) as [Hlate|Hin].
  { injection Ha as <-. right. eexists. split; [by eapply PollLate|by left]. }
  destruct (refresh dir n) as [st|x] eqn:Hr.
  2:{ injection Ha as <-. right. eexists. split; [by eapply PollRefresh|by right]. }
  assert (st = OrderPending \/ st = OrderProcessing -> undecided (S n)) as Hnext.
  { intros Hst k Hk. destruct (decide (k = n)) as [->|]; [|apply Hn; lia]. split; [done|]. rewrite Hr. destruct Hst as [-> | ->]; auto. }
  destruct st; [by apply (IH (S n)); auto|by apply (IH (S n)); auto|..]; injection Ha as <-.
  - left. split; [done|]. exists n. auto.
  - left. split; [done|]. exists n. auto.
  - right. eexists. split; [by eapply PollInvalid|by left].
Qed.

Lemma poll_certificate_spec fuel : forall n a, not_yet n -> poll_certificate dir h fuel n = Some a ->
  (exists chain, a = mret chain /\ downloaded chain) \/ exists e, a = lift (Err e) /\ download_fails e.
Proof.
  induction fuel as [|fuel IH]; intros n a Hn Ha; [done|]. cbn [poll_certificate] in Ha. unfold ORDER_POLL_DEADLINE in Ha.
  destruct (Z.ltb_spec (Time.from_secs 120) (certificate_elapsed dir n)) as [Hlate|Hin].
  { injection Ha as <-. right. eexists. split; [done|by eapply DownloadLate]. }
  destruct (certificate dir n) as [[chain|]|x] eqn:Hr.
  - injection Ha as <-. left. exists chain. split; [done|]. by exists n.
  - apply (IH (S n)); [|done]. intros k Hk. destruct (decide (k = n)) as [->|]; [done|]. apply Hn. lia.
  - injection Ha as <-. right. eexists. split; [done|by eapply DownloadError].
Qed.

(** From the end of the poll. *)
Lemma close_order_spec handles outcome download :
  (exists chain, download = mret chain /\ downloaded chain) \/ (exists e, download = lift (Err e) /\ download_fails e) ->
  match close_order dir h extra handles outcome download with
  | (log, Ok cert) => outcome = Ok () /\ csr dir (h :: extra) = Ok () /\ finalize dir (h :: extra) = Ok () /\
      downloaded (fullchain_pem cert) /\ privkey_pem cert = key_pem dir /\
      log = (RemoveTxt <$> handles.*2) ++ [Finalize (h :: extra)]
  | (_, Err e) => outcome = Err e \/ order_fails e
  end.
Proof.
  intros Hd. unfold close_order, lift, logged, client_err, names. rewrite remove_all_eq. cbn. destruct outcome as [[]|e]; cbn; [|by left].
  destruct (csr dir (h :: extra)) as [[]|what] eqn:Hc; cbn; [|right; by apply NoRequest].
  destruct (finalize dir (h :: extra)) as [[]|x] eqn:Hf; cbn; [|right; by eapply NotFinalized].
  destruct Hd as [(chain & -> & Hd)|(e & -> & Hd)]; cbn; [done|right; by apply DownloadFails].
Qed.

Lemma issue_total :
  (forall k, ORDER_POLL_INTERVAL * Z.of_nat k <= order_elapsed dir k) ->
  (forall k, ORDER_POLL_INTERVAL * Z.of_nat k <= certificate_elapsed dir k) -> is_Some (issue dir reg h extra route).
Proof.
  intros Ho Hc. unfold issue. destruct (poll_order_total POLL_FUEL 0 Ho ltac:(lia)) as [[p ->]|[? _]]; [|done]. cbn [mbind option_bind].
  destruct (poll_certificate_total POLL_FUEL 0 Hc ltac:(lia)) as [[d ->]|[? _]]; [|done]. by eexists.
Qed.

Lemma close_order_removed handles outcome download : fst download = [] ->
  removed (fst (close_order dir h extra handles outcome download)) = handles.*2 /\ added (fst (close_order dir h extra handles outcome download)) = [].
Proof.
  intros Hd. unfold close_order. rewrite remove_all_eq, act_bind_log. cbn [fst snd].
  assert (forall l : list TxtHandle, removed (RemoveTxt <$> l) = l /\ added (RemoveTxt <$> l) = []) as Hl.
  { intros l. induction l as [|t l [IH1 IH2]]; [done|]. split; [exact (f_equal (cons t) IH1)|exact IH2]. }
  rewrite removed_app, added_app. destruct (Hl handles.*2) as [-> ->]. cbn [app].
  match goal with |- context [fst ?m] => assert (removed (fst m) = [] /\ added (fst m) = []) as [-> ->] end; [|by rewrite app_nil_r].
  rewrite act_bind_log. cbn [lift fst snd app]. destruct outcome; [|done]. rewrite act_bind_log. cbn [lift fst snd app].
  destruct (map_err _ _); [|done]. rewrite act_bind_log. unfold logged. destruct (client_err _ _ _); [|done]. cbn [fst snd].
  rewrite act_bind_log, Hd. by destruct (snd download).
Qed.

End Log.

(** ** The Cloudflare provider ([providers/cloudflare.rs]) *)

Definition PROPAGATION_DEADLINE : Z := Time.from_secs 300.
Definition PROPAGATION_POLL_INTERVAL : Z := Time.from_secs 5.

(** The token of the provider; [env] is the daemon's environment and
    [built] whether the HTTP client could be made. *)
Definition cf_from_config (env : string -> option string) (built : bool) (cfg : AcmeDnsProviderConfig) : result AcmeError string :=
  let C := "<config>" in
  token ← match api_token cfg, api_token_env cfg with
          | Some t, None => Ok t
          | None, Some var => ok_or (DnsError C "api_token_env is not set in the daemon's environment") (env var)
          | Some _, Some _ => Err (DnsError C "api_token and api_token_env are mutually exclusive")
          | None, None => Err (DnsError C "one of api_token or api_token_env must be set")
          end;
  _ ← reject (Str.is_empty (Str.trim token)) (DnsError C "api_token is empty");
  _ ← reject (negb built) (DnsError C "build reqwest client");
  Ok token.

(** A reply of the API: the HTTP status, [success] and the result. *)
Record CfReply (A : Type) := mkReply { cf_status : Z; cf_success : bool; cf_result : A }.
Arguments mkReply {A} _ _ _.
Arguments cf_status {A} _.
Arguments cf_success {A} _.
Arguments cf_result {A} _.

(** The API and the resolver; [Err] is a request or a body that failed. *)
Record CfApi := mkCfApi {
  get_zones : string -> result () (CfReply (list string));
  post_record : nat -> string -> string -> string -> result () (CfReply (option string));
  delete_record : string -> string -> result () Z;
  resolver_built : bool;
  txt_lookup : nat -> string -> nat -> result () (list (list (list byte)));
  propagation_elapsed : nat -> nat -> Z
}.

Definition is_success (status : Z) : bool := (200 <=? status) && (status <? 300).

Section Cloudflare.
Variable api : CfApi.

Definition query_zone_by_name (name : string) : result AcmeError (option string) :=
  match get_zones api name with
  | Err _ => Err (DnsError name "GET zones")
  | Ok body => if is_success (cf_status body) && cf_success body then Ok (head (cf_result body)) else Err (DnsError name "Cloudflare zone lookup failed")
  end.

Definition trim_end_dots (s : string) : string :=
  Str.of_list (rev (Str.drop_while (fun c => bool_decide (c = "."%char)) (rev (Str.to_list s)))).

(** The name one label up, if it has two labels. *)
Definition next_zone (name : string) : option string :=
  match Str.split_once "." name with
  | Some (_, rest) => if negb (Str.is_empty rest) && has_char "." rest then Some rest else None
  | None => None
  end.

Fixpoint zone_loop (fuel : nat) (fqdn name : string) : option (result AcmeError string) :=
  match fuel with
  | O => None
  | S fuel =>
      match query_zone_by_name name with
      | Err e => Some (Err e)
      | Ok (Some id) => Some (Ok id)
      | Ok None => match next_zone name with
                   | Some rest => zone_loop fuel fqdn rest
                   | None => Some (Err (DnsError fqdn "no Cloudflare zone covers the name"))
                   end
      end
  end.

(** The name gets shorter with every turn. *)
Definition find_zone_id (fqdn : string) : option (result AcmeError string) := zone_loop (S (Str.len fqdn)) fqdn (trim_end_dots fqdn).

Definition cf_add_txt (n : nat) (fqdn value : string) : option (result AcmeError TxtHandle) :=
  zone ← find_zone_id fqdn;
  Some (zone_id ← zone;
        match post_record api n zone_id fqdn value with
        | Err _ => Err (DnsError fqdn "POST dns_records")
        | Ok body =>
            if is_success (cf_status body) && cf_success body then
              record_id ← ok_or (DnsError fqdn "Cloudflare returned success without result body") (cf_result body);
              Ok (mkTxt fqdn (zone_id +:+ String "/" record_id))
            else Err (DnsError fqdn "Cloudflare TXT add failed")
        end).

Definition cf_remove_txt (handle : TxtHandle) : result AcmeError unit :=
  match Str.split_once "/" (provider_record_id handle) with
  | None => Err (DnsError (txt_fqdn handle) "malformed Cloudflare TxtHandle")
  | Some (zone_id, record_id) =>
      match delete_record api zone_id record_id with
      | Err _ => Err (DnsError (txt_fqdn handle) "DELETE dns_records")
      | Ok status => if (status =? 404) || is_success status then Ok () else Err (DnsError (txt_fqdn handle) "Cloudflare TXT delete failed")
      end
  end.

(** A chunk of a TXT record that is the value. *)
Definition chunk_is (value : string) (chunk : list byte) : bool :=
  match Utf8.from_utf8 chunk with Some s => bool_decide (s = value) | None => false end.

Fixpoint propagation_loop (fuel n k : nat) (fqdn value : string) : option (result AcmeError unit) :=
  match fuel with
  | O => None
  | S fuel =>
      if propagation_elapsed api n k <? PROPAGATION_DEADLINE then
        if match txt_lookup api n fqdn k with Ok records => existsb (existsb (chunk_is value)) records | Err _ => false end then Some (Ok ())
        else propagation_loop fuel n (S k) fqdn value
      else Some (Err (DnsError fqdn "TXT propagation poll timed out"))
  end.

(** One look every five seconds, for 300. *)
Definition PROPAGATION_FUEL : nat := 61.

Definition cf_wait_for_propagation (n : nat) (fqdn value : string) : option (result AcmeError unit) :=
  if resolver_built api then propagation_loop PROPAGATION_FUEL n 0 fqdn value
  else Some (Err (DnsError fqdn "build Cloudflare DNS resolver")).

Lemma next_zone_shorter name rest : next_zone name = Some rest -> (Str.len rest < Str.len name)%nat.
Proof.
  unfold next_zone. destruct (Str.split_once "." name) as [[a b]|] eqn:Hs; [|done]. apply Str.split_once_Some in Hs as [-> _].
  case_match; [|done]. intros [= <-]. unfold Str.len. rewrite <- !Str.length_to_list, Str.to_list_app, length_app.
  change (Str.to_list (String "." b)) with ("."%char :: Str.to_list b). cbn [length]. lia.
Qed.

Lemma drop_while_suffix {A} (f : A -> bool) l : exists p, l = p ++ Str.drop_while f l.
Proof.
  induction l as [|x l [p IH]]; [by exists []|]. cbn. destruct (f x); [|by exists []]. exists (x :: p). cbn. by f_equal.
Qed.

Lemma trim_end_dots_len s : (Str.len (trim_end_dots s) <= Str.len s)%nat.
Proof.
  unfold trim_end_dots, Str.len. rewrite <- !Str.length_to_list, Str.to_of_list, length_rev.
  destruct (drop_while_suffix (fun c => bool_decide (c = "."%char)) (rev (Str.to_list s))) as [p Hp]. apply (f_equal length) in Hp.
  rewrite length_app, length_rev in Hp. lia.
Qed.

(** The names the search asks for, from the longest. *)
Inductive zone_above : string -> string -> Prop :=
  | ZoneSelf name : zone_above name name
  | ZoneUp name rest zone : next_zone name = Some rest -> zone_above rest zone -> zone_above name zone.

Lemma zone_loop_total fuel : forall fqdn name, (Str.len name < fuel)%nat -> is_Some (zone_loop fuel fqdn name).
Proof.
  induction fuel as [|fuel IH]; intros fqdn name Hlen; [lia|]. cbn. destruct (query_zone_by_name name) as [[id|]|]; [by eexists| |by eexists].
  destruct (next_zone name) as [rest|] eqn:Hn; [|by eexists]. apply IH. apply next_zone_shorter in Hn. lia.
Qed.

Lemma zone_loop_ok fuel : forall fqdn name id, zone_loop fuel fqdn name = Some (Ok id) ->
  exists zone, zone_above name zone /\ query_zone_by_name zone = Ok (Some id) /\
    forall longer, zone_above name longer -> zone_above longer zone -> longer <> zone -> query_zone_by_name longer = Ok None.
Proof.
  induction fuel as [|fuel IH]; intros fqdn name id; [done|]. cbn. destruct (query_zone_by_name name) as [[i|]|] eqn:Hq; [|..|done].
  - intros [= ->]. exists name. split; [constructor|]. split; [done|]. intros longer Hl Hz Hne.
    assert (forall a b, zone_above a b -> (Str.len b <= Str.len a)%nat /\ (Str.len b = Str.len a -> a = b)) as Hlen.
    { clear. induction 1 as [|a r z Hn _ [IH1 IH2]]; [done|]. apply next_zone_shorter in Hn. split; [lia|]. intros. exfalso. lia. }
    destruct (Hlen _ _ Hl), (Hlen _ _ Hz) as [? Heq]. exfalso. apply Hne, Heq. lia.
  - destruct (next_zone name) as [rest|] eqn:Hn; [|done]. intros Hz. destruct (IH _ _ _ Hz) as (zone & Ha & Hk & Hl).
    exists zone. split; [by econstructor|]. split; [done|]. intros longer Hab Hbz Hne. inversion Hab as [|? rest' ? Hn']; subst; [done|].
    rewrite Hn in Hn'. injection Hn' as <-. by apply Hl.
Qed.

(** A record is deleted in the zone and under the id it was created with. *)
Lemma cf_record_roundtrip n fqdn value handle :
  (forall name body zone, get_zones api name = Ok body -> zone ∈ cf_result body -> "/"%char ∉ Str.to_list zone) ->
  cf_add_txt n fqdn value = Some (Ok handle) ->
  exists zone record status, post_record api n zone fqdn value = Ok (mkReply status true (Some record)) /\ txt_fqdn handle = fqdn /\
    Str.split_once "/" (provider_record_id handle) = Some (zone, record).
Proof.
  intros Hids. unfold cf_add_txt. destruct (find_zone_id fqdn) as [[zone|e]|] eqn:Hz; cbn; [|done..]. intros [= Hr].
  destruct (post_record api n zone fqdn value) as [[status ok [record|]]|] eqn:Hp; cbn in Hr; [|by destruct (_ && _)|done].
  destruct (is_success status); [|done]. destruct ok; [|done]. cbn in Hr. injection Hr as <-. exists zone, record, status. split; [done|].
  split; [done|]. apply Str.split_once_app. unfold find_zone_id in Hz. apply zone_loop_ok in Hz as (name & _ & Hq & _).
  unfold query_zone_by_name in Hq. destruct (get_zones api name) as [body|] eqn:Hg; [|done]. case_match; [|done]. injection Hq as Hq.
  apply (Hids name body); [done|]. destruct (cf_result body); [done|]. injection Hq as ->. by left.
Qed.

Lemma propagation_total fuel : forall n k fqdn value,
  (forall k, PROPAGATION_POLL_INTERVAL * Z.of_nat k <= propagation_elapsed api n k) -> (PROPAGATION_FUEL <= fuel + k)%nat ->
  is_Some (propagation_loop fuel n k fqdn value) \/ fuel = O /\ (PROPAGATION_FUEL <= k)%nat.
Proof.
  induction fuel as [|fuel IH]; intros n k fqdn value Hclock Hk; [right; split; [done|lia]|]. left. cbn [propagation_loop].
  destruct (Z.ltb_spec (propagation_elapsed api n k) PROPAGATION_DEADLINE) as [Hlt|]; [|by eexists]. case_match; [by eexists|].
  destruct (IH n (S k) fqdn value Hclock ltac:(lia)) as [Hs|[-> Hbig]]; [done|]. exfalso. specialize (Hclock k).
  unfold PROPAGATION_DEADLINE, PROPAGATION_POLL_INTERVAL, Time.from_secs, Time.NANOS_PER_SEC, PROPAGATION_FUEL in *. lia.
Qed.

(** The provider the order uses. *)
Definition cf_provider : DnsProvider :=
  mkProvider (fun n fqdn value => default (Err (DnsError fqdn "")) (cf_add_txt n fqdn value))
    (fun n fqdn value => default (Err (DnsError fqdn "")) (cf_wait_for_propagation n fqdn value)) cf_remove_txt.

End Cloudflare.

Definition registry_from_config (env : string -> option string) (built : bool) (api : string -> CfApi) (dns : list (string * AcmeDnsProviderConfig)) :
    result AcmeError ProviderRegistry :=
  try_collect (fun p =>
    if bool_decide (fst p = "cloudflare") then token ← cf_from_config env built (snd p); Ok (fst p, cf_provider (api token))
    else Err (UnknownProvider "<config>" (fst p))) dns.

(** [AcmeManager::start_wildcard]: the one provider of a validated section. *)
Definition start_wildcard (a : AcmeSection) : result AcmeError (string * AcmeRouteConfig) :=
  match acme_dns a with
  | (name, _) :: _ => Ok (acme_domain a, mkRouteCfg name)
  | [] => Err (AccountError (acme_domain a) "no DNS provider configured")
  end.

(** The two searches never run out of fuel. *)
Lemma cf_provider_total api n fqdn value :
  (forall k, PROPAGATION_POLL_INTERVAL * Z.of_nat k <= propagation_elapsed api n k) ->
  is_Some (cf_add_txt api n fqdn value) /\ is_Some (cf_wait_for_propagation api n fqdn value).
Proof.
  intros Hclock. split.
  - unfold cf_add_txt, find_zone_id. pose proof (trim_end_dots_len fqdn).
    destruct (zone_loop_total api (S (Str.len fqdn)) fqdn (trim_end_dots fqdn) ltac:(lia)) as [z ->]. by eexists.
  - unfold cf_wait_for_propagation. destruct (resolver_built api); [|by eexists].
    by destruct (propagation_total api PROPAGATION_FUEL n 0 fqdn value Hclock ltac:(lia)) as [|[? _]].
Qed.

(** A validated section finds the provider its renewer asks for, unless the
    provider has another name than the only one there is, or its token is not
    in the environment. *)
Lemma validated_provider env api a :
  validate_acme a = Ok () ->
  (exists name cfg, acme_dns a = [(name, cfg)] /\ start_wildcard a = Ok (acme_domain a, mkRouteCfg name) /\
     forall reg, registry_from_config env true api (acme_dns a) = Ok reg -> name = "cloudflare" /\ is_ok (registry_get reg (acme_domain a) name) = true).
Proof.
  unfold validate_acme. intros Hv. do 5 bind_step Hv.
  apply result_bind_ok in Hv as ([] & Hd & _). destruct (acme_dns a) as [|[name cfg] [|]] eqn:Ha; [done| |done]. exists name, cfg. split; [done|].
  unfold start_wildcard. rewrite Ha. split; [done|]. unfold registry_from_config. cbn. case_bool_decide as Hc; [|done]. subst name.
  destruct (cf_from_config env true cfg); cbn; [|done]. by intros reg [= <-].
Qed.

Module AcmeOrderProps.

#[local] Opaque POLL_FUEL.

(** C37: Whatever the directory and the DNS provider answer, an order ends (its
    two polls give up after 120 seconds, on a clock that shows the two seconds
    slept between looks).  When it gives a certificate, it is the chain the
    directory gave to the first download that found one, with the key of the
    request, every step was granted, and the log is exactly this: the order is
    for the host and the extra names; one TXT record is placed for each
    authorization, in turn, with the value of its DNS-01 challenge under
    [_acme-challenge.] and its name, and seen there; only then are the
    challenges marked ready; the order is found ready; every record is removed
    by the handle the provider gave for it; and the certificate is requested for
    the names of the order.  When it fails, the error is that of a step that was
    refused, timed out or could not be made.  Then either every record that was
    placed is removed or none is; all are when the poll of the order came to an
    end, whatever it found. *)
Theorem order_exact dir reg h extra route
    (Horder : forall k, ORDER_POLL_INTERVAL * Z.of_nat k <= order_elapsed dir k)
    (Hcert : forall k, ORDER_POLL_INTERVAL * Z.of_nat k <= certificate_elapsed dir k) :
  exists log r, issue dir reg h extra route = Some (log, r) /\
    (forall cert, r = Ok cert -> downloaded dir (fullchain_pem cert) /\ privkey_pem cert = key_pem dir /\
       account dir = Ok () /\ new_order dir (h :: extra) = Ok () /\ validated dir /\
       csr dir (h :: extra) = Ok () /\ finalize dir (h :: extra) = Ok () /\
       exists authzs evs hs urls, authorizations dir = Ok authzs /\ places reg h route 0 authzs evs hs urls /\
         Forall (fun u => set_challenge_ready dir u = Ok ()) urls /\
         log = NewOrder (h :: extra) :: evs ++ (SetReady <$> urls) ++ (RemoveTxt <$> hs) ++ [Finalize (h :: extra)]) /\
    (forall e, r = Err e -> order_fails dir reg h extra route e) /\
    (removed log = added log \/ removed log = []) /\
    (forall log0 handles outcome, open_order dir reg h extra route = (log0, Ok handles) ->
       poll_order dir h POLL_FUEL 0 = Some (mret outcome) -> removed log = added log).
Proof.
  destruct (issue_total dir reg h extra route Horder Hcert) as [[log r] Hi]. exists log, r. split; [done|]. unfold issue in Hi.
  destruct (poll_order dir h POLL_FUEL 0) as [polled|] eqn:Hpoll; [|done].
  destruct (poll_certificate dir h POLL_FUEL 0) as [down|] eqn:Hdown; [|done]. pose proof (poll_certificate_log dir h _ _ _ Hdown) as Hld.
  apply poll_order_spec in Hpoll; [|by intros k ?%Nat.nlt_0_r]. apply poll_certificate_spec in Hdown; [|by intros k ?%Nat.nlt_0_r].
  cbn [mbind option_bind] in Hi. injection Hi as Hi.
  pose proof (open_order_removed dir reg h extra route) as Hor. pose proof (open_order_spec dir reg h extra route) as Hopen.
  destruct (open_order dir reg h extra route) as [lo [handles|e]] eqn:Ho.
  2:{ cbn in Hi. injection Hi as <- <-. split_and!; [done|by intros e' [= <-]|by right|done]. }
  destruct Hopen as (azs & evs & urls & Ha & Hn & Hz & Hp & Hu & Hlo). cbn [fst] in Hor.
  assert (added lo = handles.*2) as Hadd.
  { rewrite Hlo. change (added (NewOrder (h :: extra) :: ?x)) with (added x). rewrite added_app, (places_added _ _ _ _ _ _ _ _ Hp).
    assert (forall us, added (SetReady <$> us) = []) as -> by (intros us; induction us; done). by rewrite app_nil_r. }
  destruct Hpoll as [[-> Hv]|(e & He & [-> | ->])].
  3:{ cbn in Hi. rewrite app_nil_r in Hi. injection Hi as <- <-.
      split_and!; [done|intros e' [= <-]; by apply PollingFails|by right|done]. }
  all: unfold mret, act_ret in Hi; rewrite !act_bind_run in Hi; cbn [fst snd app] in Hi.
  all: match type of Hi with context [close_order _ _ _ _ ?o _] =>
      pose proof (close_order_spec dir reg h extra route handles o down Hdown) as Hspec;
      destruct (close_order_removed dir h extra handles o down Hld) as [Hrem Hnone];
      destruct (close_order dir h extra handles o down) as [lc rc] end; cbn [fst snd] in *; injection Hi as <- <-;
      (assert (removed (lo ++ lc) = added (lo ++ lc)) as Hall by (by rewrite removed_app, added_app, Hor, Hrem, Hadd, Hnone, app_nil_r)).
  - destruct rc as [cert|e]; (split_and!; [|..|by left|done]); [|done|done|by intros e' [= <-]; destruct Hspec].
    intros cert' [= <-]. destruct Hspec as (_ & Hc & Hf & Hd & Hk & ->). split_and!; try done.
    exists azs, evs, handles.*2, urls. split_and!; try done. rewrite Hlo. cbn. by rewrite <- (assoc_L (++)).
  - destruct rc as [cert|e']; [by destruct Hspec|]. split_and!; [done|intros e2 [= <-]|by left|done].
    destruct Hspec as [[= <-]|]; [by apply PollingFails|done].
Qed.

#[local] Transparent POLL_FUEL.

(** A directory and a provider that grant everything. *)
Definition granting : Directory :=
  mkDirectory (Ok ()) (fun _ => Ok ()) (Ok [mkAuthz "a.org" [mkChallenge false "u0" ""; mkChallenge true "u1" "v1"]; mkAuthz "a.org" [mkChallenge true "u2" "v2"]])
    (fun _ => Ok ()) (fun n => Ok (if (n <? 2)%nat then OrderPending else OrderReady)) (fun n => Time.from_secs (2 * Z.of_nat n)) (fun _ => Ok ())
    (fun _ => Ok ()) (fun n => Ok (if (n =? 0)%nat then None else Some [x2d])) (fun n => Time.from_secs (3 * Z.of_nat n)) [x01].
Definition recording : DnsProvider :=
  mkProvider (fun n fqdn _ => Ok (mkTxt fqdn (Str.show_uint (Z.of_nat n)))) (fun _ _ _ => Ok ()) (fun _ => Ok ()).

Lemma order_exact_witness :
  exists log r, issue granting [("cloudflare", recording)] "a.org" ["*.a.org"] (mkRouteCfg "cloudflare") = Some (log, r) /\
    r = Ok (mkIssued [x2d] [x01]) /\ removed log = added log /\ length (added log) = 2%nat.
Proof.
  destruct (order_exact granting [("cloudflare", recording)] "a.org" ["*.a.org"] (mkRouteCfg "cloudflare")) as (log & r & Hi & _).
  - intros k. cbn. unfold ORDER_POLL_INTERVAL, Time.from_secs, Time.NANOS_PER_SEC. lia.
  - intros k. cbn. unfold ORDER_POLL_INTERVAL, Time.from_secs, Time.NANOS_PER_SEC. lia.
  - exists log, r. split; [done|]. vm_compute in Hi. injection Hi as <- <-. split; [done|].
    by vm_compute.
Defined.

(** A record whose propagation is not seen in time stays: the cleanup is
    only reached from the poll. *)
Lemma unseen_record_left :
  exists log, issue granting [("cloudflare", mkProvider (add_txt recording) (fun _ fqdn _ => Err (DnsError fqdn "timed out")) (remove_txt recording))]
      "a.org" [] (mkRouteCfg "cloudflare") = Some (log, Err (DnsError "_acme-challenge.a.org" "timed out")) /\
    length (added log) = 1%nat /\ removed log = [].
Proof. eexists. by vm_compute. Qed.

End AcmeOrderProps.
