(* ===== verification/Startup.v ===== *)
(** * The start of the daemon ([yggdrasil/src/lib.rs])

    [run], and [run_relay] and [run_terminal] up to [health::mark_ready]: the
    steps that can fail, in their order, and what they make of the
    configuration.  What the components they build do is modelled in the files
    of these components; the file system, the sockets and the environment are
    inputs. *)

From S2P Require Import Prelude RustStd External Instances RuleTypes Error PubKey Rule RuleSet LanCidrs NetFmt PeerState NatMapper ChainTypes.
From S2P Require Import ProxyProtocol Resolver Certs HttpForward Companion Supervisor Config Acme AcmeOrder.

(** What the host answers: [identity_ok], the identity is loaded or generated
    and written; [supervisor_ok], the rules directory is read and the listeners
    of its rules are set up; [listener_ok] and [control_ok], the chain listener
    and the control socket are bound. *)
Record Host := mkHost {
  env_var : string -> option string;
  umask : Z;
  cf_api : string -> CfApi;
  identity_ok : bool;
  recorder_ok : bool;
  http_client_ok : bool;
  supervisor_ok : bool;
  listener_ok : bool;
  control_ok : bool
}.

Inductive StartError :=
  | ConfigFailed (e : RunError)
  | IdentityFailed
  | RecorderFailed
  | AcmeFailed (e : AcmeError)
  | LanPanic
  | SupervisorFailed
  | ListenerFailed
  | ControlFailed.

(** A daemon that is ready; [sd_dial]: the upstream its chain client dials. *)
Record Started := mkStarted {
  sd_mode : Mode;
  sd_config : ServerConfig;
  sd_certs : CertConfig;
  sd_dial : option DialSection;
  sd_acme : option (AcmeConfig * ProviderRegistry)
}.

(** [AcmeManager::spawn]. *)
Definition acme_spawn (host : Host) (a : AcmeSection) (server_cert_dir : string) : result AcmeError (AcmeConfig * ProviderRegistry) :=
  providers ← registry_from_config (env_var host) (http_client_ok host) (cf_api host) (acme_dns a);
  Ok (acme_config a server_cert_dir (umask host), providers).

Definition run_relay (host : Host) (c : ServerConfig) (mode : Mode) : result StartError Started :=
  _ ← reject (negb (identity_ok host)) IdentityFailed;
  _ ← reject (negb (recorder_ok host)) RecorderFailed;
  lan ← ok_or LanPanic (resolve_lan_cidrs c);
  _ ← reject (negb (supervisor_ok host)) SupervisorFailed;
  _ ← match cfg_accept c with Some _ => reject (negb (listener_ok host)) ListenerFailed | None => Ok () end;
  _ ← reject (negb (control_ok host)) ControlFailed;
  Ok (mkStarted mode c (from_server_section (cfg_server c) lan) (cfg_dial c) None).

(** [start_wildcard] only logs its failure. *)
Definition run_terminal (host : Host) (c : ServerConfig) (mode : Mode) : result StartError Started :=
  _ ← reject (negb (identity_ok host)) IdentityFailed;
  _ ← reject (negb (recorder_ok host)) RecorderFailed;
  acme ← match cfg_acme c with
         | Some a => manager ← map_err AcmeFailed (acme_spawn host a (sc_cert_dir (cfg_server c))); Ok (Some manager)
         | None => Ok None
         end;
  lan ← ok_or LanPanic (resolve_lan_cidrs c);
  _ ← reject (negb (supervisor_ok host)) SupervisorFailed;
  _ ← reject (negb (control_ok host)) ControlFailed;
  Ok (mkStarted mode c (from_server_section (cfg_server c) lan) (cfg_dial c) acme).

Definition run (host : Host) (c : ServerConfig) (a : RunArgs) : result StartError Started :=
  '(mode, c) ← map_err ConfigFailed (run_config c a);
  match mode with
  | ChainTypes.Gateway | Relay => run_relay host c mode
  | Terminal => run_terminal host c mode
  end.

(** ** What a start needs *)

(** The only DNS provider there is, with a token that is not blank. *)
Definition provider_usable (host : Host) (a : AcmeSection) : Prop :=
  http_client_ok host = true /\ exists p token, acme_dns a = [("cloudflare", p)] /\ blank token = false /\
    (api_token p = Some token \/ exists var, api_token_env p = Some var /\ env_var host var = Some token).

(** What a mode needs of the host. *)
Definition host_ready (host : Host) (c : ServerConfig) (mode : Mode) : Prop :=
  identity_ok host = true /\ recorder_ok host = true /\ supervisor_ok host = true /\ control_ok host = true /\
  match mode with
  | Terminal => forall a, cfg_acme c = Some a -> provider_usable host a
  | _ => listener_ok host = true
  end.

Lemma cf_token_ok env built p t :
  (is_Some (api_token p) <-> api_token_env p = None) ->
  cf_from_config env built p = Ok t <->
  built = true /\ blank t = false /\ (api_token p = Some t \/ exists var, api_token_env p = Some var /\ env var = Some t).
Proof.
  intros Hone. unfold cf_from_config, blank. set (has := ok_or _).
  assert (forall tok, (_ ← reject (Str.is_empty (Str.trim tok)) (DnsError "<config>" "api_token is empty");
      _ ← reject (negb built) (DnsError "<config>" "build reqwest client"); Ok tok) = Ok t <->
    built = true /\ Str.is_empty (Str.trim t) = false /\ tok = t) as Htok.
  { intros tok. unfold reject. destruct (Str.is_empty (Str.trim tok)) eqn:Hb, built; cbn; split; try done; try (by intros (? & ? & ->); congruence).
    by intros [= ->]. }
  destruct (api_token p) as [tok|], (api_token_env p) as [var|].
  - by discriminate (proj1 Hone (mk_is_Some _ _ eq_refl)).
  - cbn [mbind result_bind]. rewrite Htok. naive_solver.
  - unfold has, ok_or. destruct (env var) as [tok|] eqn:Hv; cbn [mbind result_bind]; [rewrite Htok|]; naive_solver.
  - by destruct (proj2 Hone eq_refl) as [? ?].
Qed.

Lemma acme_spawn_ok host a dir : 
  (exists n p, acme_dns a = [(n, p)] /\ (is_Some (api_token p) <-> api_token_env p = None)) ->
  is_ok (acme_spawn host a dir) = true <-> provider_usable host a.
Proof.
  intros (n & p & Hd & Hone). unfold acme_spawn, registry_from_config, provider_usable. rewrite Hd. cbn. case_bool_decide as Hn; cbn.
  - subst n. pose proof (fun t => cf_token_ok (env_var host) (http_client_ok host) p t Hone) as Hok.
    destruct (cf_from_config (env_var host) (http_client_ok host) p) as [t|e]; cbn.
    + split; [intros _|done]. destruct (proj1 (Hok t) eq_refl) as (Hb & Hbl & Ht). split; [done|]. by exists p, t.
    + split; [done|]. intros (Hb & p' & t & [= <-] & Hbl & Ht). discriminate (proj2 (Hok t) (conj Hb (conj Hbl Ht))).
  - split; [done|]. intros (_ & p' & t & [= Hn' _] & _). by destruct Hn.
Qed.

(** The provider a started terminal issues its certificate with. *)
Lemma acme_spawn_provider host a dir manager :
  acme_spawn host a dir = Ok manager -> provider_usable host a ->
  fst manager = acme_config a dir (umask host) /\
  exists route, start_wildcard a = Ok (acme_domain a, route) /\ is_ok (registry_get (snd manager) (acme_domain a) (provider route)) = true.
Proof.
  unfold acme_spawn, registry_from_config. intros Hs (_ & p & t & Hd & _). rewrite Hd in Hs. cbn in Hs.
  destruct (cf_from_config _ _ p) as [tok|]; cbn in Hs; [|done]. injection Hs as <-. split; [done|].
  exists (mkRouteCfg "cloudflare"). unfold start_wildcard. by rewrite Hd.
Qed.

Lemma rejected_ok {E A} (b : bool) (e : E) (x : result E A) : is_ok (_ ← reject (negb b) e; x) = true <-> b = true /\ is_ok x = true.
Proof. destruct b; cbn; naive_solver. Qed.

Section Starts.
Context (host : Host) (c : ServerConfig) (Hvalid : config_valid c).

Lemma relay_starts mode : is_Some (cfg_accept c) -> mode <> Terminal ->
  is_ok (run_relay host c mode) = true <-> host_ready host c mode.
Proof using Hvalid.
  intros [acc Hacc] Hmode. unfold run_relay, host_ready. destruct (lan_resolves _ Hvalid) as [lan ->]. rewrite Hacc. cbn [ok_or].
  rewrite !rejected_ok. cbn [mbind result_bind]. rewrite !rejected_ok. cbn. destruct mode; naive_solver.
Qed.

Lemma terminal_starts : is_ok (run_terminal host c Terminal) = true <-> host_ready host c Terminal.
Proof using Hvalid.
  unfold run_terminal, host_ready. destruct (lan_resolves _ Hvalid) as [lan ->]. rewrite !rejected_ok. destruct (cfg_acme c) as [a|] eqn:Ha.
  - pose proof (acme_spawn_ok host a (sc_cert_dir (cfg_server c))) as Hok.
    destruct (cv_acme _ Hvalid a Ha) as (_ & _ & _ & _ & _ & _ & Hone). specialize (Hok Hone).
    destruct (acme_spawn host a (sc_cert_dir (cfg_server c))) as [m|e]; cbn [map_err mbind result_bind ok_or].
    + rewrite !rejected_ok. cbn. destruct Hok as [Hok _]. specialize (Hok eq_refl). naive_solver.
    + split; [by intros (_ & _ & ?)|]. intros (_ & _ & _ & _ & Hu). discriminate (proj2 Hok (Hu a eq_refl)).
  - cbn [mbind result_bind ok_or]. rewrite !rejected_ok. cbn. naive_solver.
Qed.

Lemma relay_started mode st : run_relay host c mode = Ok st ->
  exists lan, resolve_lan_cidrs c = Some lan /\ st = mkStarted mode c (from_server_section (cfg_server c) lan) (cfg_dial c) None.
Proof.
  unfold run_relay. intros Hs. do 2 bind_step Hs. destruct (resolve_lan_cidrs c) as [lan|]; [|done]. cbn [ok_or mbind result_bind] in Hs.
  do 3 bind_step Hs. injection Hs as <-. by exists lan.
Qed.

Lemma terminal_started mode st : run_terminal host c mode = Ok st ->
  exists lan acme, resolve_lan_cidrs c = Some lan /\ st = mkStarted mode c (from_server_section (cfg_server c) lan) (cfg_dial c) acme /\
    match cfg_acme c with
    | Some a => exists manager, acme = Some manager /\ acme_spawn host a (sc_cert_dir (cfg_server c)) = Ok manager
    | None => acme = None
    end.
Proof.
  unfold run_terminal. intros Hs. do 2 bind_step Hs. apply result_bind_ok in Hs as (acme & Hacme & Hs).
  destruct (resolve_lan_cidrs c) as [lan|]; [|done]. cbn [ok_or mbind result_bind] in Hs. do 2 bind_step Hs. injection Hs as <-.
  exists lan, acme. split; [done|]. split; [done|]. destruct (cfg_acme c) as [sec|]; [|by injection Hacme as <-].
  destruct (acme_spawn host sec _) as [m|]; [|done]. injection Hacme as <-. by exists m.
Qed.

End Starts.

(** [run] is the start of the mode it derives. *)
Definition start_of (host : Host) (c : ServerConfig) (mode : Mode) : result StartError Started :=
  match mode with Terminal => run_terminal host c mode | _ => run_relay host c mode end.

Lemma run_started host c a st : run host c a = Ok st <->
  exists mode, config_valid c /\ mode_of c mode /\ (forall required, require_mode a = Some required -> mode = required) /\
    start_of host (with_overrides c a) mode = Ok st.
Proof.
  unfold run, start_of. pose proof (run_config_spec c a) as Hspec. destruct (run_config c a) as [[m c']|e]; cbn.
  - destruct (proj1 (Hspec m c') eq_refl) as (-> & Hv & Hm & Hr). split.
    + intros Hs. exists m. by destruct m.
    + intros (m' & _ & Hm' & Hr' & Hs). pose proof (proj2 (Hspec m' _) (conj eq_refl (conj Hv (conj Hm' Hr')))) as [= ->]. by destruct m'.
  - split; [done|]. intros (m' & Hv & Hm' & Hr' & _). discriminate (proj2 (Hspec m' _) (conj eq_refl (conj Hv (conj Hm' Hr')))).
Qed.

Lemma start_of_ok host c mode : config_valid c -> mode_of c mode -> is_ok (start_of host c mode) = true <-> host_ready host c mode.
Proof.
  intros Hv Hm. destruct mode; cbn in Hm; [apply relay_starts|apply relay_starts|apply terminal_starts]; try done; by destruct Hm.
Qed.

(** The daemon that a start gives. *)
Lemma started_state host c mode st : config_valid c -> start_of host c mode = Ok st ->
  exists lan, resolve_lan_cidrs c = Some lan /\ sd_certs st = from_server_section (cfg_server c) lan /\
    sd_mode st = mode /\ sd_config st = c /\ sd_dial st = cfg_dial c /\
    match sd_acme st with
    | None => mode = Terminal -> cfg_acme c = None
    | Some (ac, providers) => mode = Terminal /\ exists acme route, cfg_acme c = Some acme /\
        ac = acme_config acme (sc_cert_dir (cfg_server c)) (umask host) /\
        start_wildcard acme = Ok (acme_domain acme, route) /\ is_ok (registry_get providers (acme_domain acme) (provider route)) = true
    end.
Proof.
  intros Hv Hs. destruct (decide (mode = Terminal)) as [->|Hmode].
  - apply terminal_started in Hs as (lan & acme & Hlan & -> & Ha). exists lan. split_and!; try done. cbn [sd_acme].
    destruct (cfg_acme c) as [a|] eqn:Hacme; [|by subst]. destruct Ha as ([ac providers] & -> & Hs). split; [done|].
    destruct (cv_acme _ Hv a Hacme) as (_ & _ & _ & _ & _ & _ & Hone).
    assert (provider_usable host a) as Hu by (apply (acme_spawn_ok host a (sc_cert_dir (cfg_server c)) Hone); by rewrite Hs).
    destruct (acme_spawn_provider _ _ _ _ Hs Hu) as (Hac & route & Hw & Hr). by exists a, route.
  - assert (run_relay host c mode = Ok st) as Hr by (by destruct mode). apply relay_started in Hr as (lan & Hlan & ->).
    exists lan. split_and!; try done. by intros ?%Hmode.
Qed.

Module StartupProps.

(** C36: The daemon gets ready with a parsed configuration and the overrides of
    the command line exactly when the configuration is valid, a condition stated
    without the order of the checks, the mode its sections give is the one
    required, if any, and the host grants what that mode needs: its identity,
    the metrics recorder, the rules and the control socket; for a gateway or a
    relay the chain listener; and for a terminal with an [acme] section, that
    its DNS provider is [cloudflare] with a token that is not blank, given or
    found in the environment.  What a daemon that is ready relies on holds: the
    LAN ranges resolve, so that the [expect] on them cannot fail; the default
    certificate and key are both there or neither is; HTTP/3 is advertised only
    when it is enabled; the node's name, configured or taken from the host, is a
    non-empty string of at most 32 bytes without spaces or control characters;
    it dials exactly when [dial] is there; and it manages certificates exactly
    when it is a terminal with an [acme] section, with a provider for them. *)
Theorem daemon_starts host c a :
  (is_ok (run host c a) = true <->
   config_valid c /\ exists mode, mode_of c mode /\ (forall required, require_mode a = Some required -> mode = required) /\ host_ready host c mode) /\
  (forall st, run host c a = Ok st ->
   sd_config st = with_overrides c a /\ mode_of c (sd_mode st) /\ sd_dial st = cfg_dial c /\
   (exists lan, resolve_lan_cidrs c = Some lan /\ sd_certs st = from_server_section (cfg_server c) lan) /\
   (server_default (sd_certs st) = None -> default_cert (sd_certs st) = None /\ default_key (sd_certs st) = None) /\
   (https_alt_svc (sd_certs st) = true -> https_http3 (sd_certs st) = true) /\
   (forall hostname, name_shape (resolve_server_name (server_name (cfg_server c)) hostname)) /\
   match sd_acme st with
   | None => sd_mode st = Terminal -> cfg_acme c = None
   | Some (ac, providers) => sd_mode st = Terminal /\ exists acme route, cfg_acme c = Some acme /\
       ac = acme_config acme (sc_cert_dir (cfg_server c)) (umask host) /\
       start_wildcard acme = Ok (acme_domain acme, route) /\ is_ok (registry_get providers (acme_domain acme) (provider route)) = true
   end).
Proof.
  assert (forall mode, mode_of c mode -> mode_of (with_overrides c a) mode) as Hover by done.
  split.
  - split.
    + intros Hok. destruct (run host c a) as [st|] eqn:Hrun; [|done]. apply run_started in Hrun as (mode & Hv & Hm & Hr & Hs).
      split; [done|]. exists mode. split_and!; [done|done|]. apply (start_of_ok host (with_overrides c a)); [by apply overrides_valid|by apply Hover|by rewrite Hs].
    + intros (Hv & mode & Hm & Hr & Hh). apply (start_of_ok host (with_overrides c a)) in Hh; [|by apply overrides_valid|by apply Hover].
      destruct (start_of host (with_overrides c a) mode) as [st|] eqn:Hs; [|done].
      by rewrite (proj2 (run_started host c a st) (ex_intro _ mode (conj Hv (conj Hm (conj Hr Hs))))).
  - intros st (mode & Hv & Hm & Hr & Hs)%run_started.
    destruct (started_state host (with_overrides c a) mode st (proj2 (overrides_valid c a) Hv) Hs) as (lan & Hlan & Hcc & -> & Hcfg & Hd & Hacme).
    destruct (cert_config_sound c lan Hv) as [Hc1 Hc2]. rewrite Hcc.
    split_and!; try done; [by exists lan|intros hostname; by apply resolved_shape].
Qed.

(** A terminal with a provider for its certificates, and with one that the
    validation accepts and the start does not know. *)
Definition demo_terminal (dns_provider : string) : ServerConfig :=
  mkServerConfig
    (mkServer None "/etc/rules" None None "/etc/identity" "/etc/certs" None None None
       (Net.V4 (Net.mkSockV4 Net.V4_UNSPECIFIED 443)) false false default_https_request_body_limit None NatOff None)
    DEFAULT_CONTROL_SOCKET (Some (mkDial (X25519 (replicate 32 x01)) "gw.example.org:7000" default_heartbeat_interval default_rekey_interval)) None
    (Some (mkAcme "https://acme.example.org/dir" "ops@example.org" "example.org" "/etc/account" None true
       default_acme_renew_before default_acme_renew_jitter [(dns_provider, mkDns None (Some "CF_TOKEN"))])).
Definition demo_host (var : option string) : Host :=
  mkHost (fun _ => var) 18 (fun _ => mkCfApi (fun _ => Err ()) (fun _ _ _ _ => Err ()) (fun _ _ => Err ()) false (fun _ _ _ => Err ()) (fun _ _ => 0))
    true true true true true true.
Definition no_args : RunArgs := mkRunArgs None None None.

Lemma provider_decides_start :
  is_ok (run (demo_host (Some "token")) (demo_terminal "cloudflare") no_args) = true /\
  validate (demo_terminal "route53") = Ok () /\
  run (demo_host (Some "token")) (demo_terminal "route53") no_args = Err (AcmeFailed (UnknownProvider "<config>" "route53")) /\
  run (demo_host None) (demo_terminal "cloudflare") no_args =
    Err (AcmeFailed (DnsError "<config>" "api_token_env is not set in the daemon's environment")).
Proof. by vm_compute. Qed.

End StartupProps.
