(* ===== verification/CanaryProbe.v ===== *)
(** * [chain canary] ([yggdrasil/src/control/handlers/canary.rs])

    The lookup of the rule, the arm phase, the TCP and UDP probes and the
    verdict.  A probe is a run over the events of its loop; the random token,
    the clocks, the answers of the chain and of the sockets are inputs.
    hdrhistogram is a pair of functions of the recorded samples. *)

From S2P Require Import Prelude RustStd Float External Instances RuleTypes Error ControlFrame PubKey Rule RuleSet Predicate Derive Reliability PeerState.
From S2P Require Import FloatProps Canary ChainTypes HeartbeatServer Acceptor NetFmt ProxyProtocol Resolver TcpProxy.

Definition ARM_GRACE : Z := Time.from_secs 5.
Definition DEGRADED_P99_MICROS : Z := 50000.
Definition TCP_DEFAULT_RATE_BPS : Z := 1024 * 1024.
Definition UDP_DEFAULT_RATE_PPS : Z := 100.
Definition UDP_DEFAULT_PAYLOAD_BYTES : Z := 1200.
Definition CHUNK_SIZE : nat := Z.to_nat 8192.

Inductive CanaryStatus := CanaryOk | CanaryDegraded | CanaryNoSuchRule | CanaryChainDead.
#[global] Instance CanaryStatus_eq_dec : EqDecision CanaryStatus.
Proof. solve_decision. Defined.

Record DirectionStats := mkDirection { ds_sent : Z; ds_received : Z; throughput_bps : Z }.
Record ProbeResults := mkProbeResults {
  c_to_s : DirectionStats;
  s_to_c : DirectionStats;
  round_trip_p50_micros : Z;
  round_trip_p99_micros : Z;
  duration_micros : Z;
  connection_rtt_micros : option Z
}.
Record CloseMatch := mkCloseMatch { cm_listen : Net.SocketAddr; cm_protocol : Protocol; cm_rule_name : string }.
Record ChainCanaryResponse := mkCanaryResponse {
  cc_status : CanaryStatus;
  cc_chain : list CanaryHop;
  probe_results : option ProbeResults;
  cc_partial : bool;
  close_matches : list CloseMatch;
  cc_rule_name : option string
}.

(** ** The rule *)

Section Lookup.
Context `{UrlLib}.

Definition is_rule (l : Net.SocketAddr) (p : Protocol) (r : Rule) : bool := bool_decide (listen r = l) && bool_decide (protocol r = p).

Definition find_rule_name (set : RuleSet) (l : Net.SocketAddr) (p : Protocol) : option string := name <$> List.find (is_rule l p) (rules set).

Definition close_rank (l : Net.SocketAddr) (p : Protocol) (r : Rule) : nat :=
  if (Net.port (listen r) =? Net.port l) && negb (bool_decide (protocol r = p)) then 0
  else if bool_decide (protocol r = p) && negb (Net.port (listen r) =? Net.port l) then 1
  else 2.

(** [sort_by_key] on the rank is stable: the ranks one after the other. *)
Definition compute_close_matches (set : RuleSet) (l : Net.SocketAddr) (p : Protocol) : list CloseMatch :=
  let others := List.filter (fun r => negb (is_rule l p r)) (rules set) in
  let of_rank n := List.filter (fun r => (close_rank l p r =? n)%nat) others in
  (fun r => mkCloseMatch (listen r) (protocol r) (name r)) <$> firstn 3 (of_rank 0 ++ of_rank 1 ++ of_rank 2)%nat.

End Lookup.

(** ** The probes *)

(** [p_samples]: what was recorded in the histogram. *)
Record Probe := mkProbe { p_samples : list Z; p_sent : Z; p_received : Z; p_next_seq : Z }.
Definition probe_start : Probe := mkProbe [] 0 0 0.

(** What wakes the loop: the ticker, with what the send gives, or a read. *)
Inductive ProbeEvent :=
  | ProbeTick (now_micros : Z) (sent : bool)
  | ProbeRead (r : result () (list byte)) (now_micros : Z).

(** The timestamp at [off] in what was read. *)
Definition sample_at (off : nat) (buf : list byte) (now_micros : Z) : Z := saturating_sub now_micros (from_be (firstn 8 (skipn off buf))).

Definition count (p : Probe) (samples : list Z) (n : Z) : Probe :=
  mkProbe (p_samples p ++ samples) (p_sent p) (saturating_add 64 (p_received p) n) (p_next_seq p).

(** What a TCP probe sends at a tick. *)
Definition tcp_chunk (seq now_micros : Z) : list byte := to_be 8 seq ++ to_be 8 now_micros ++ replicate (CHUNK_SIZE - 16) x00.

Definition tcp_read (p : Probe) (buf : list byte) (now_micros : Z) : Probe :=
  count p (if 16 <=? zlen buf then [sample_at 8 buf now_micros] else []) (zlen buf).

(** [false]: the loop ends. *)
Definition tcp_probe_event (p : Probe) (ev : ProbeEvent) : Probe * bool :=
  match ev with
  | ProbeTick _ true => (mkProbe (p_samples p) (saturating_add 64 (p_sent p) (Z.of_nat CHUNK_SIZE)) (p_received p) (wrap 64 (p_next_seq p + 1)), true)
  | ProbeTick _ false => (p, false)
  | ProbeRead (Ok []) _ | ProbeRead (Err _) _ => (p, false)
  | ProbeRead (Ok buf) now => (tcp_read p buf now, true)
  end.

(** A UDP probe goes on after an error, and counts only whole probes. *)
Definition UDP_STAMP : nat := (Z.to_nat CANARY_TOKEN_LEN + 8)%nat.

Definition udp_read (p : Probe) (buf : list byte) (now_micros : Z) : option Probe :=
  if CANARY_TOKEN_LEN + 16 <=? zlen buf then Some (count p [sample_at UDP_STAMP buf now_micros] 1) else None.

Definition udp_probe_event (p : Probe) (ev : ProbeEvent) : Probe * bool :=
  match ev with
  | ProbeTick _ sent => (mkProbe (p_samples p) (if sent then saturating_add 64 (p_sent p) 1 else p_sent p) (p_received p) (wrap 64 (p_next_seq p + 1)), true)
  | ProbeRead (Ok buf) now => (default p (udp_read p buf now), true)
  | ProbeRead (Err _) _ => (p, true)
  end.

(** The loop up to its deadline: [evs] are the events before it. *)
Fixpoint probe_loop (step : Probe -> ProbeEvent -> Probe * bool) (p : Probe) (evs : list ProbeEvent) : Probe :=
  match evs with
  | [] => p
  | ev :: evs => let '(p, go) := step p ev in if go then probe_loop step p evs else p
  end.

(** The drain: reads until one times out, fails or is empty; for UDP, also
    until one is too short. *)
Fixpoint tcp_drain (p : Probe) (reads : list (result () (list byte) * Z)) : Probe :=
  match reads with
  | (Ok (b :: buf), now) :: reads => tcp_drain (tcp_read p (b :: buf) now) reads
  | _ => p
  end.
Fixpoint udp_drain (p : Probe) (reads : list (result () (list byte) * Z)) : Probe :=
  match reads with
  | (Ok buf, now) :: reads => match udp_read p buf now with Some p => udp_drain p reads | None => p end
  | _ => p
  end.

Section Probes.
(** [value_at_quantile] at 0.5 and 0.99 of the histogram with these samples. *)
Variables (p50 p99 : list Z -> Z).

(** What a probe meets: the connect (or the bind) with its round trip, the
    events of the loop, the drain and the elapsed time. *)
Record ProbeRun := mkProbeRun {
  connected : option Z;
  events : list ProbeEvent;
  drained : list (result () (list byte) * Z);
  probe_duration : Z
}.

Definition secs_of (d : Z) := F64.max (F64.as_secs d) F64.MILLI.
Definition bps (n : Z) (d : Z) : Z := F64.to_u64 (F64.div (F64.mul (F64.of_Z n) (F64.of_Z 8)) (secs_of d)).
Definition packet_bps (n payload d : Z) : Z := F64.to_u64 (F64.div (F64.mul (F64.mul (F64.of_Z n) (F64.of_Z payload)) (F64.of_Z 8)) (secs_of d)).

(** [None]: the connect or the write of the token failed. *)
Definition run_tcp_probe (x : ProbeRun) : option ProbeResults :=
  connect_rtt ← connected x;
  let p := tcp_drain (probe_loop tcp_probe_event probe_start (events x)) (drained x) in
  let d := probe_duration x in
  Some (mkProbeResults (mkDirection (p_sent p) (Z.min (p_received p) (p_sent p)) (bps (p_sent p) d))
          (mkDirection (p_received p) (p_received p) (bps (p_received p) d)) (p50 (p_samples p)) (p99 (p_samples p)) (d / 1000) (Some connect_rtt)).

Definition udp_payload (payload_bytes : Z) : Z :=
  if payload_bytes =? 0 then UDP_DEFAULT_PAYLOAD_BYTES else Z.max payload_bytes (CANARY_TOKEN_LEN + 16).

Definition run_udp_probe (payload_bytes : Z) (x : ProbeRun) : option ProbeResults :=
  _ ← connected x;
  let p := udp_drain (probe_loop udp_probe_event probe_start (events x)) (drained x) in
  let d := probe_duration x in
  let payload := udp_payload payload_bytes in
  Some (mkProbeResults (mkDirection (p_sent p) (p_received p) (packet_bps (p_sent p) payload d))
          (mkDirection (p_received p) (p_received p) (packet_bps (p_received p) payload d)) (p50 (p_samples p)) (p99 (p_samples p)) (d / 1000) None).

(** ** The verdict *)

Definition loss (sent received : Z) := F64.sub (F64.of_Z 1) (F64.min (F64.div (F64.of_Z received) (F64.of_Z (Z.max sent 1))) (F64.of_Z 1)).

Definition classify (p : ProbeResults) (proto : Protocol) : CanaryStatus :=
  if bool_decide (proto = Udp) && F64.lt F64.FIVE_MILLI (loss (ds_sent (c_to_s p)) (ds_received (c_to_s p))) then CanaryDegraded
  else if DEGRADED_P99_MICROS <? round_trip_p99_micros p then CanaryDegraded
  else if (ds_sent (c_to_s p) =? 0) && (ds_received (s_to_c p) =? 0) then CanaryDegraded
  else CanaryOk.

(** ** The handler *)

Context `{UrlLib}.
Context `{Extern}.

(** What the handler reads of the daemon's state. *)
Record CanaryDaemon := mkCanaryDaemon {
  cd_mode : Mode;
  cd_node_name : string;
  cd_introspection : option IntrospectionState;
  cd_supervisor : SupervisorHandle;
  cd_client : bool
}.

(** [cw_i1], [cw_i2]: the instants [arm] reads; [cw_ask]: what the chain
    answers to an arm within a deadline, and in what time. *)
Record CanaryWorld := mkCanaryWorld {
  cw_token : Token;
  cw_now_ms : Z;
  cw_i1 : Z;
  cw_i2 : Z;
  cw_ask : CanaryArm -> Z -> result QueryError CanaryReply * Z;
  cw_run : ProbeRun
}.

Definition arm_ttl (duration_ms : Z) : Z := Time.from_millis (Z.max duration_ms 1) + ARM_GRACE.

(** The table while the probe runs. *)
Definition probe_arms (d : CanaryDaemon) (arms : CanaryArmTable) (l : Net.SocketAddr) (p : Protocol) (duration_ms : Z) (w : CanaryWorld) : CanaryArmTable :=
  if bool_decide (cd_mode d = Terminal) then arm arms (l, p) (cw_token w) (arm_ttl duration_ms) (cw_i1 w) (cw_i2 w) else arms.

Definition local_canary_hop (d : CanaryDaemon) : CanaryHop :=
  mkCanaryHop 0 (default (X25519 (replicate 32 x00)) (ix_local_pubkey <$> cd_introspection d)) (Some (cd_node_name d)) (cd_mode d) true
    (bool_decide (cd_mode d = Terminal)) None.

(** The arm phase: the hops, and whether the chain is only partly armed. *)
Definition arm_chain (d : CanaryDaemon) (l : Net.SocketAddr) (p : Protocol) (duration_ms : Z) (timeout_ms : option Z) (w : CanaryWorld) : list CanaryHop * bool :=
  let arm_timeout_ms := default CANARY_ARM_DEFAULT_DEADLINE_MS timeout_ms in
  let expires := saturating_add 64 (cw_now_ms w) (Time.as_millis (arm_ttl duration_ms)) in
  if cd_client d then
    match cw_ask w (mkCanaryArm 0 CANARY_ARM_DEFAULT_DEPTH_BUDGET arm_timeout_ms l p (cw_token w) expires) (Z.max arm_timeout_ms 1) with
    | (Ok reply, rtt) => (extend_canary_hops rtt 0 [local_canary_hop d] (cr_hops reply), cr_partial reply)
    | (Err _, _) => ([local_canary_hop d], true)
    end
  else ([local_canary_hop d], false).

Definition dispatch_chain_canary (d : CanaryDaemon) (arms : CanaryArmTable) (l : Net.SocketAddr) (p : Protocol)
    (duration_ms rate payload_bytes : Z) (timeout_ms : option Z) (w : CanaryWorld) : CanaryArmTable * ChainCanaryResponse :=
  let set := Acceptor.current_set (cd_supervisor d) in
  match find_rule_name set l p with
  | None => (arms, mkCanaryResponse CanaryNoSuchRule [] None false (compute_close_matches set l p) None)
  | Some rule_name =>
      let armed := probe_arms d arms l p duration_ms w in
      let disarmed := if bool_decide (cd_mode d = Terminal) then disarm armed (l, p) (cw_token w) else armed in
      let '(hops, chain_partial) := arm_chain d l p duration_ms timeout_ms w in
      if chain_partial then (disarmed, mkCanaryResponse CanaryChainDead hops None true [] (Some rule_name))
      else
        let results :=
          match p with
          | Tcp => run_tcp_probe (cw_run w)
          | Udp => run_udp_probe payload_bytes (cw_run w)
          | Https => None
          end in
        match results with
        | None => (disarmed, mkCanaryResponse CanaryDegraded hops None false [] (Some rule_name))
        | Some r => (disarmed, mkCanaryResponse (classify r p) hops (Some r) false [] (Some rule_name))
        end
  end.

End Probes.

(** ** The arm table after a canary *)

Lemma arm_then_disarm T k tok ttl n1 n2 k' c t :
  table_ok T -> n2 <= t ->
  match_token (disarm (arm T k tok ttl n1 n2) k tok) k' c t = true <-> (k', c) <> (k, tok) /\ match_token T k' c t = true.
Proof.
  intros Hok Ht. assert (table_ok (arm T k tok ttl n1 n2)) as Hok1.
  { intros k1. unfold arm. fold (entries_at T k). rewrite entries_insert. destruct (decide (k = k1)); [|apply Hok]. apply refresh_ok, filter_ok, Hok. }
  assert (table_ok (disarm (arm T k tok ttl n1 n2) k tok)) as Hok2.
  { intros k1. rewrite entries_disarm. destruct (decide (k = k1)); [apply filter_ok|]; apply Hok1. }
  rewrite !match_token_deadline by done. rewrite entries_disarm. destruct (decide (k = k')) as [<-|Hk].
  - rewrite filter_other_deadline. destruct (decide (tok = c)) as [<-|Hc]; [naive_solver|].
    unfold arm. fold (entries_at T k). rewrite entries_insert, decide_True by done. rewrite refresh_deadline, decide_False by done.
    pose proof (filter_live_agree n2 c (entries_at T k) (Hok k)) as Hag. split.
    + intros (d & Hd & Hlt). split; [congruence|]. exists d. split; [|done]. apply Hag; [lia|done].
    + intros (_ & d & Hd & Hlt). exists d. split; [|done]. apply Hag; [lia|done].
  - unfold arm. fold (entries_at T k). rewrite entries_insert, decide_False by done. split; [|naive_solver].
    intros Hd. split; [congruence|done].
Qed.

Lemma find_rule_none `{UrlLib} set l p : find_rule_name set l p = None <-> forall r, r ∈ rules set -> (listen r, protocol r) <> (l, p).
Proof.
  unfold find_rule_name. rewrite fmap_None, find_None_Forall, Forall_forall. split; intros Hr r Hin; specialize (Hr r Hin).
  - unfold is_rule in Hr. intros [= Hl Hp]. by rewrite !bool_decide_true in Hr.
  - unfold is_rule. apply andb_false_iff. rewrite !bool_decide_eq_false. destruct (decide (listen r = l)); [right|by left]. congruence.
Qed.

(** A suggestion is a rule of the set, and not the one asked for. *)
Lemma close_matches_rules `{UrlLib} set l p m :
  m ∈ compute_close_matches set l p -> exists r, r ∈ rules set /\ is_rule l p r = false /\ m = mkCloseMatch (listen r) (protocol r) (name r).
Proof.
  unfold compute_close_matches. intros (r & -> & Hin)%list_elem_of_fmap. exists r.
  assert (r ∈ List.filter (fun r => negb (is_rule l p r)) (rules set)) as Ho.
  { apply (fun H => elem_of_sublist _ _ _ H (sublist_take _ _)) in Hin. rewrite !elem_of_app in Hin.
    destruct Hin as [Hin|[Hin|Hin]]; apply list_elem_of_In, filter_In in Hin as [Hin _]; by apply list_elem_of_In. }
  apply list_elem_of_In, filter_In in Ho as [Ho Hn]. split; [by apply list_elem_of_In|]. split; [by apply negb_true_iff|done].
Qed.

(** *** What the samples are *)

Lemma firstn_skipn_app {A} (a b c : list A) : firstn (length b) (skipn (length a) (a ++ b ++ c)) = b.
Proof. by rewrite drop_app_length, take_app_length. Qed.

(** A read that is one whole chunk gives its round trip. *)
Lemma aligned_sample p seq sent now :
  fits 64 sent -> tcp_read p (tcp_chunk seq sent) now = count p [saturating_sub now sent] (Z.of_nat CHUNK_SIZE).
Proof.
  intros Hs. unfold tcp_read. assert (zlen (tcp_chunk seq sent) = Z.of_nat CHUNK_SIZE) as Hlen.
  { unfold zlen, tcp_chunk. rewrite !length_app, !length_to_be, length_replicate. unfold CHUNK_SIZE. lia. }
  rewrite Hlen. replace (16 <=? Z.of_nat CHUNK_SIZE) with true by done. f_equal. f_equal. unfold sample_at, tcp_chunk. f_equal.
  pose proof (firstn_skipn_app (to_be 8 seq) (to_be 8 sent) (replicate (CHUNK_SIZE - 16) x00)) as Hf. rewrite !length_to_be in Hf. rewrite Hf.
  by rewrite from_to_be.
Qed.

(** A read that starts inside a chunk takes the padding for a timestamp, and
    records the time since 1970. *)
Lemma misaligned_sample p seq sent now k :
  (16 <= k)%nat -> (k + 16 <= CHUNK_SIZE)%nat -> 0 <= now ->
  tcp_read p (skipn k (tcp_chunk seq sent)) now = count p [now] (Z.of_nat (CHUNK_SIZE - k)).
Proof.
  intros Hk Hk' Hnow. assert (skipn k (tcp_chunk seq sent) = replicate (CHUNK_SIZE - k) x00) as ->.
  { unfold tcp_chunk. rewrite (assoc_L (++)), drop_app_ge; rewrite length_app, !length_to_be; [|done]. rewrite drop_replicate. f_equal. lia. }
  unfold tcp_read, zlen. rewrite length_replicate. destruct (Z.leb_spec 16 (Z.of_nat (CHUNK_SIZE - k))); [|lia]. f_equal. f_equal.
  unfold sample_at. rewrite drop_replicate, take_replicate, Nat.min_l by lia. unfold saturating_sub. cbn. lia.
Qed.

(** *** Where the token is looked for *)

(** Only a terminal arms its own listener: the probe of another node is passed
    on to the backend as any other connection. *)
Lemma relay_probe_forwarded `{UrlLib} `{Extern} d arms l duration_ms w ps res now now' :
  cd_mode d <> Terminal -> match_token arms (l, Tcp) (cw_token w) now' = false ->
  accept_one (probe_arms d arms l Tcp duration_ms w) ps res l (Some (cw_token w)) now now' =
    match current_target ps res with Some target => AcForward target | None => AcDropped end.
Proof.
  intros Hm Hno. unfold probe_arms. rewrite bool_decide_false by done. unfold accept_one. destruct (is_armed _ _ _); [|done]. cbn.
  destruct (zlen _ <? _); [done|]. by rewrite Hno.
Qed.

(** The listener of a rule whose address [default_bind] replaced is not the one
    that is armed. *)
Lemma override_not_armed `{UrlLib} `{Extern} d arms l p duration_ms w addr now :
  addr <> l -> is_armed (probe_arms d arms l p duration_ms w) (addr, p) now = is_armed arms (addr, p) now.
Proof.
  intros Hne. unfold probe_arms. case_bool_decide; [|done]. unfold is_armed, arm. by rewrite lookup_insert_ne by congruence.
Qed.

(** *** The verdict *)

(** A loss of exactly the threshold is above it after rounding. *)
Lemma half_percent_degraded :
  classify (mkProbeResults (mkDirection 200 199 0) (mkDirection 199 199 0) 10 10 3000000 None) Udp = CanaryDegraded /\
  classify (mkProbeResults (mkDirection 300 299 0) (mkDirection 299 299 0) 10 10 3000000 None) Udp = CanaryOk.
Proof. by vm_compute. Qed.

(** At least one datagram in two hundred did not come back. *)
Definition lossy (sent received : Z) : Prop := Z.max sent 1 <= 200 * (Z.max sent 1 - received).

(** What makes a probe a good one. *)
Definition healthy (p : Protocol) (res : ProbeResults) : Prop :=
  (p = Udp -> ~ lossy (ds_sent (c_to_s res)) (ds_received (c_to_s res))) /\
  round_trip_p99_micros res <= 50000 /\
  (ds_sent (c_to_s res) <> 0 \/ ds_received (s_to_c res) <> 0).

Definition countable (res : ProbeResults) : Prop := 0 <= ds_sent (c_to_s res) < 2 ^ 40 /\ 0 <= ds_received (c_to_s res) < 2 ^ 40.

Lemma classify_exact res p : (p = Udp -> countable res) ->
  classify res p = CanaryOk /\ healthy p res \/ classify res p = CanaryDegraded /\ ~ healthy p res.
Proof.
  intros Hc. unfold classify, healthy. set (sent := ds_sent (c_to_s res)). set (rec := ds_received (c_to_s res)).
  assert (p = Udp -> F64.lt F64.FIVE_MILLI (loss sent rec) = true <-> lossy sent rec) as Hl.
  { intros [Hs Hr]%Hc. fold sent rec in Hs, Hr. change (loss sent rec) with (lost_fraction (Z.max sent 1) rec).
    rewrite loss_exact by lia. apply Z.leb_le. }
  destruct (bool_decide (p = Udp) && _) eqn:Hlost.
  { apply andb_true_iff in Hlost as [Hp%bool_decide_eq_true Hlt]. right. apply Hl in Hlt; [|done]. naive_solver. }
  assert (p = Udp -> ~ lossy sent rec) as Hok.
  { intros Hp. rewrite bool_decide_true in Hlost by done. intros Hy%Hl; [|done]. by rewrite Hy in Hlost. }
  unfold DEGRADED_P99_MICROS. destruct (Z.ltb_spec 50000 (round_trip_p99_micros res)); [right; split; [done|lia]|].
  destruct (Z.eqb_spec sent 0), (Z.eqb_spec (ds_received (s_to_c res)) 0); cbn; [right|left|left|left]; split; try done; tauto.
Qed.

(** *** What a UDP probe counts *)

Definition whole (buf : list byte) : bool := 48 <=? zlen buf.
Definition tick_sent (ev : ProbeEvent) : bool := match ev with ProbeTick _ sent => sent | _ => false end.
Definition heard (ev : ProbeEvent) : bool := match ev with ProbeRead (Ok buf) _ => whole buf | _ => false end.

(** The reads of the drain before the first that is not a whole probe. *)
Fixpoint drained_whole (reads : list (result () (list byte) * Z)) : Z :=
  match reads with
  | (Ok buf, _) :: reads => if whole buf then 1 + drained_whole reads else 0
  | _ => 0
  end.

Definition tally (f : ProbeEvent -> bool) (evs : list ProbeEvent) : Z := zlen (List.filter f evs).

Lemma tally_cons f ev evs : tally f (ev :: evs) = (if f ev then 1 else 0) + tally f evs.
Proof. unfold tally. cbn. destruct (f ev); unfold zlen; cbn [length]; lia. Qed.

Lemma tally_bounds f evs : 0 <= tally f evs <= zlen evs.
Proof. induction evs as [|ev evs IH]; [done|]. rewrite tally_cons. unfold zlen in *. cbn [length]. destruct (f ev); lia. Qed.

Lemma drained_bounds reads : 0 <= drained_whole reads <= zlen reads.
Proof.
  induction reads as [|[[buf|] t] reads IH]; cbn [drained_whole]; [done| |]; unfold zlen in *; cbn [length]; [destruct (whole buf)|]; lia.
Qed.

Lemma udp_step_counts p ev : 0 <= p_sent p < 2 ^ 62 -> 0 <= p_received p < 2 ^ 62 ->
  exists q, udp_probe_event p ev = (q, true) /\ p_sent q = (if tick_sent ev then 1 else 0) + p_sent p /\
    p_received q = (if heard ev then 1 else 0) + p_received p.
Proof.
  intros Hs Hr. destruct ev as [now sent|[buf|] now]; eexists; (split; [reflexivity|]); cbn [tick_sent heard p_sent p_received]; [|unfold udp_read, whole|lia].
  - destruct sent; unfold saturating_add; lia.
  - change (CANARY_TOKEN_LEN + 16) with 48. destruct (48 <=? zlen buf); cbn; unfold saturating_add; lia.
Qed.

Lemma udp_loop_counts evs : forall p, 0 <= p_sent p -> 0 <= p_received p ->
  p_sent p + p_received p + 2 * zlen evs < 2 ^ 62 ->
  let q := probe_loop udp_probe_event p evs in
  p_sent q = p_sent p + tally tick_sent evs /\ p_received q = p_received p + tally heard evs.
Proof.
  induction evs as [|ev evs IH]; intros p Hs Hr Hb; [unfold tally, zlen; cbn; lia|].
  rewrite !tally_cons. assert (zlen (ev :: evs) = 1 + zlen evs) as Hz by (unfold zlen; cbn [length]; lia). rewrite Hz in Hb.
  assert (0 <= zlen evs) by (unfold zlen; lia).
  destruct (udp_step_counts p ev ltac:(lia) ltac:(lia)) as (q & Hq & Hqs & Hqr). cbn [probe_loop]. rewrite Hq.
  destruct (IH q) as [-> ->]; destruct (tick_sent ev), (heard ev); lia.
Qed.

Lemma udp_drain_counts reads : forall p, 0 <= p_received p -> p_received p + zlen reads < 2 ^ 62 ->
  p_sent (udp_drain p reads) = p_sent p /\ p_received (udp_drain p reads) = p_received p + drained_whole reads.
Proof.
  induction reads as [|[[buf|] now] reads IH]; intros p Hr Hb; cbn [udp_drain drained_whole]; [lia| |lia].
  assert (zlen ((Ok buf, now) :: reads : list (result () (list byte) * Z)) = 1 + zlen reads) as Hz by (unfold zlen; cbn [length]; lia). rewrite Hz in Hb.
  unfold udp_read, whole. change (CANARY_TOKEN_LEN + 16) with 48. destruct (48 <=? zlen buf); [|lia].
  edestruct IH as [-> ->]; unfold count; cbn [p_sent p_received]; unfold saturating_add, zlen in *; lia.
Qed.

Lemma udp_probe_counts p50 p99 payload x res :
  run_udp_probe p50 p99 payload x = Some res -> zlen (events x) + zlen (drained x) < 2 ^ 40 ->
  ds_sent (c_to_s res) = tally tick_sent (events x) /\
  ds_received (c_to_s res) = tally heard (events x) + drained_whole (drained x) /\ countable res.
Proof.
  unfold run_udp_probe. destruct (connected x); [|done]. cbn [mbind option_bind]. intros [= <-] Hb. cbn [c_to_s ds_sent ds_received].
  assert (0 <= zlen (events x) /\ 0 <= zlen (drained x)) as [He Hd] by (unfold zlen; lia).
  destruct (udp_loop_counts (events x) probe_start ltac:(done) ltac:(done) ltac:(cbn [p_sent p_received probe_start]; lia)) as [Hs Hr].
  cbn [p_sent p_received probe_start] in Hs, Hr. pose proof (tally_bounds tick_sent (events x)). pose proof (tally_bounds heard (events x)).
  destruct (udp_drain_counts (drained x) (probe_loop udp_probe_event probe_start (events x)) ltac:(lia) ltac:(lia)) as [Hs' Hr'].
  pose proof (drained_bounds (drained x)). unfold countable. cbn [c_to_s ds_sent ds_received]. rewrite Hs', Hr', Hs, Hr. lia.
Qed.

(** *** The arm phase *)

Section ArmPhase.
Context `{UrlLib} `{Extern}.

(** The frame that is sent up the chain. *)
Definition arm_frame (l : Net.SocketAddr) (p : Protocol) (duration_ms timeout_ms : Z) (w : CanaryWorld) : CanaryArm :=
  mkCanaryArm 0 CANARY_ARM_DEFAULT_DEPTH_BUDGET timeout_ms l p (cw_token w)
    (saturating_add 64 (cw_now_ms w) (Z.max duration_ms 1 + 5000)).

(** The chain upstream refuses, does not answer or is armed only in part. *)
Definition chain_dead (d : CanaryDaemon) (l : Net.SocketAddr) (p : Protocol) (duration_ms : Z) (timeout_ms : option Z) (w : CanaryWorld) : Prop :=
  let t := default CANARY_ARM_DEFAULT_DEADLINE_MS timeout_ms in
  cd_client d = true /\
  match fst (cw_ask w (arm_frame l p duration_ms t w) (Z.max t 1)) with
  | Ok reply => cr_partial reply = true
  | Err _ => True
  end.

Lemma arm_chain_dead d l p dur timeout w : snd (arm_chain d l p dur timeout w) = true <-> chain_dead d l p dur timeout w.
Proof.
  unfold arm_chain, chain_dead, arm_frame. replace (Time.as_millis (arm_ttl dur)) with (Z.max dur 1 + 5000).
  2:{ unfold Time.as_millis, arm_ttl, Time.from_millis, ARM_GRACE, Time.from_secs, Time.NANOS_PER_SEC.
      replace (Z.max dur 1 * 1000000 + 5 * 1000000000) with ((Z.max dur 1 + 5000) * 1000000) by lia. by rewrite Z.div_mul. }
  destruct (cd_client d); [|by split; [|intros [? _]]].
  destruct (cw_ask w _ _) as [[reply|err] rtt]; cbn; naive_solver.
Qed.

(** The listeners match the same tokens after a canary as before it. *)
Lemma canary_arms d arms l p dur w k c t :
  table_ok arms -> (forall t, match_token arms (l, p) (cw_token w) t = false) -> cw_i2 w <= t ->
  let armed := probe_arms d arms l p dur w in
  match_token (if bool_decide (cd_mode d = Terminal) then disarm armed (l, p) (cw_token w) else armed) k c t = match_token arms k c t.
Proof.
  intros Hok Hfresh Ht. unfold probe_arms. case_bool_decide; [|done]. apply eq_true_iff_eq.
  rewrite arm_then_disarm by done. split; [by intros [_ ?]|]. intros Hmt. split; [|done]. intros [= -> ->]. by rewrite Hfresh in Hmt.
Qed.

End ArmPhase.

(** What the probe of a protocol gives. *)
Definition probe_of (p50 p99 : list Z -> Z) (p : Protocol) (payload : Z) (x : ProbeRun) : option ProbeResults :=
  match p with Tcp => run_tcp_probe p50 p99 x | Udp => run_udp_probe p50 p99 payload x | Https => None end.

Lemma probe_of_none p50 p99 p payload x : probe_of p50 p99 p payload x = None <-> p = Https \/ connected x = None.
Proof. unfold probe_of, run_tcp_probe, run_udp_probe. destruct p, (connected x); cbn; naive_solver. Qed.

Module CanaryProbeProps.


Definition demo_canary_addr : Net.SocketAddr := Net.V4 (Net.mkSockV4 Net.V4_UNSPECIFIED 25565).
Definition demo_canary_daemon : CanaryDaemon :=
  mkCanaryDaemon Terminal "home" None (mkSupervisor true [] (mkRuleSet [mkRule "mc" demo_canary_addr Tcp None None None None] [])) false.
Definition demo_canary_world : CanaryWorld :=
  mkCanaryWorld (replicate 32 x07) 1000 10 10 (fun _ _ => (Err ClientDown, 0))
    (mkProbeRun (Some 40) [ProbeTick 0 true; ProbeRead (Ok (tcp_chunk 0 0)) 120] [] (Time.from_secs 3)).


End CanaryProbeProps.
