(* ===== verification/Control.v ===== *)
(** * The control socket ([yggdrasil/src/control/])

    The requests of [ratatoskr/src/control.rs] and what the daemon answers:
    the mode gate and the routing ([server.rs]), the synchronous verbs
    ([dispatch.rs]) and the handlers of the chain, ACME and reload verbs
    ([handlers/]).  The JSON lines, the clock and what other tasks answer are
    inputs.  The body of [chain canary] is in [CanaryProbe]. *)

From S2P Require Import Prelude RustStd External Instances RuleTypes Error ControlFrame PubKey Rule RuleSet Predicate Derive Reliability PeerState.
From S2P Require Import Canary ChainTypes HeartbeatServer Acceptor Publisher LanCidrs NetFmt ProxyProtocol NatWire NatMapper Resolver.
From S2P Require Import TcpProxy Certs HttpForward Companion Supervisor Acme CanaryProbe.

(** ** Error codes *)

Definition INVALID_REQUEST : string := "invalid_request".
Definition INTERNAL_ERROR : string := "internal_error".
Definition NOT_SUPPORTED_IN_TERMINAL_MODE : string := "not_supported_in_terminal_mode".
Definition METHOD_NOT_AVAILABLE_ON_MODE : string := "method_not_available_on_mode".
Definition RULES_INVALID : string := "rules_invalid".
Definition PREDICATE_SET_OVERSIZE : string := "predicate_set_oversize".
Definition APPLY_FAILED : string := "apply_failed".
Definition ACME_UNKNOWN_HOST : string := "acme_unknown_host".
Definition ACME_RENEW_FAILED : string := "acme_renew_failed".
Definition ACME_NOT_CONFIGURED : string := "acme_not_configured".
Definition NO_CHAIN_UPSTREAM : string := "no_chain_upstream".

Section Control.
Context `{Extern} `{UrlLib} `{TlsLib} `{!Postcard PredicateSet} `{!Hex} `{Blake2}.

(** ** Requests and responses *)

Inductive Request :=
  | RqStatus
  | RqRulesList
  | RqRulesReload
  | RqDownstreamShow
  | RqDownstreamPending
  | RqDownstreamApprove (fp : string)
  | RqMetrics
  | RqHealth
  | RqDerivedRules
  | RqChainSummary (timeout_ms : option Z)
  | RqChainApply (rs : list Rule)
  | RqChainReconnect
  | RqTraceSet (directive : option string)
  | RqAcmeList
  | RqAcmeRenew (h : string)
  | RqChainCanary (rule_listen : Net.SocketAddr) (rule_protocol : Protocol) (duration_ms rate payload_bytes : Z) (timeout_ms : option Z).

Record NatMappingEntry := mkNatEntry {
  ne_origin : string;
  ne_protocol : string;
  ne_internal_port : Z;
  ne_external_port : Z;
  assigned_lifetime_secs : Z;
  renew_in_secs : Z
}.

Record NatStatus := mkNatStatus {
  nt_mode : string;
  nt_state : string;
  nt_gateway : option Net.Ipv4Addr;
  nt_external_ip : option Net.Ipv4Addr;
  nt_protocol : option string;
  active_mapping_count : nat;
  nt_last_error : option MapperError;
  mappings : list NatMappingEntry
}.

Record StatusResponse := mkStatus {
  st_mode : Mode;
  downstream_ip : option Net.IpAddr;
  last_heartbeat_age_ms : option Z;
  rule_count : nat;
  st_uptime_secs : Z;
  downstream_enrolled : bool;
  default_cert_path : option string;
  default_cert_loaded_age_secs : option Z;
  st_nat : option NatStatus;
  st_lan : LanCidrs;
  certless_route_count : nat
}.

Inductive Response :=
  | RsError (code : string)
  | RsStatus (s : StatusResponse)
  | RsRules (infos : list (string * string * Net.SocketAddr * string))
  | RsRulesReloaded (count : nat)
  | RsDownstream (enrolled : bool) (pubkey fp : string)
  | RsDownstreamPending (candidates : list (string * PubKey * Z * Z))
  | RsDownstreamApproved (fp : string)
  | RsMetrics (body : string)
  | RsHealth (ready : bool) (uptime_secs : Z)
  | RsDerivedRules (view : DerivedRulesResponse)
  | RsChainSummary (hops : list ChainHop) (part : bool)
  | RsChainApplied (applied_rule_count predicate_count : nat)
  | RsChainReconnected
  | RsTraceSet (active default : string)
  | RsAcmeList (hosts : list (string * HostState))
  | RsAcmeRenewed (h : string)
  | RsChainCanary (c : ChainCanaryResponse).

(** ** State *)

(** What a connection task sees.  [ctl_reconnect]: the permit of the chain
    client's [Notify]. *)
Record ControlState := mkControl {
  ctl_mode : Mode;
  ctl_node_name : string;
  ctl_peer : option PeerState;
  ctl_pending : option (list CandidateRecord);
  ctl_snapshot : list ProxySnapshot;
  ctl_certs : CertStore;
  ctl_has_upstream : bool;
  ctl_supervisor : SupervisorHandle;
  ctl_introspection : option IntrospectionState;
  ctl_client : bool;
  ctl_reconnect : bool;
  ctl_acme : option (gmap string HostState);
  ctl_nat : option NatSnapshot;
  ctl_arms : CanaryArmTable;
  ctl_lan : LanCidrs
}.

Definition ctl_with_supervisor (s : ControlState) (h : SupervisorHandle) : ControlState :=
  mkControl (ctl_mode s) (ctl_node_name s) (ctl_peer s) (ctl_pending s) (ctl_snapshot s) (ctl_certs s) (ctl_has_upstream s) h
    (ctl_introspection s) (ctl_client s) (ctl_reconnect s) (ctl_acme s) (ctl_nat s) (ctl_arms s) (ctl_lan s).
Definition ctl_with_peer (s : ControlState) (p : PeerState) (store : list CandidateRecord) : ControlState :=
  mkControl (ctl_mode s) (ctl_node_name s) (Some p) (Some store) (ctl_snapshot s) (ctl_certs s) (ctl_has_upstream s) (ctl_supervisor s)
    (ctl_introspection s) (ctl_client s) (ctl_reconnect s) (ctl_acme s) (ctl_nat s) (ctl_arms s) (ctl_lan s).
Definition ctl_with_reconnect (s : ControlState) : ControlState :=
  mkControl (ctl_mode s) (ctl_node_name s) (ctl_peer s) (ctl_pending s) (ctl_snapshot s) (ctl_certs s) (ctl_has_upstream s) (ctl_supervisor s)
    (ctl_introspection s) (ctl_client s) true (ctl_acme s) (ctl_nat s) (ctl_arms s) (ctl_lan s).
Definition ctl_with_snapshot (s : ControlState) (l : list ProxySnapshot) : ControlState :=
  mkControl (ctl_mode s) (ctl_node_name s) (ctl_peer s) (ctl_pending s) l (ctl_certs s) (ctl_has_upstream s) (ctl_supervisor s)
    (ctl_introspection s) (ctl_client s) (ctl_reconnect s) (ctl_acme s) (ctl_nat s) (ctl_arms s) (ctl_lan s).
Definition ctl_with_arms (s : ControlState) (t : CanaryArmTable) : ControlState :=
  mkControl (ctl_mode s) (ctl_node_name s) (ctl_peer s) (ctl_pending s) (ctl_snapshot s) (ctl_certs s) (ctl_has_upstream s) (ctl_supervisor s)
    (ctl_introspection s) (ctl_client s) (ctl_reconnect s) (ctl_acme s) (ctl_nat s) t (ctl_lan s).

(** What the rest of the world gives while a request is served: the clocks,
    the chain client's walk, the snapshot after the wait of a reload, the
    renewer's reply to a kick, the rewrite of the configuration file, the
    recorder, the readiness flag, the tracing filter, and what a canary meets. *)
Record Surroundings := mkSurroundings {
  now_unix_ms : option Z;
  now_instant : Z;
  uptime_secs : Z;
  ask_upstream : Upstream ChainHopReply;
  snapshot_after_reload : list ProxySnapshot;
  renew_reply : option (option (result AcmeError unit));    (** [None]: five minutes passed *)
  config_written : bool;
  prom_body : string;
  is_ready : bool;
  trace_filter : option string -> result string (string * string);
  canary_world : CanaryWorld;
  quantiles : (list Z -> Z) * (list Z -> Z)
}.

(** ** The synchronous verbs ([dispatch.rs]) *)

Definition terminal_mode_unsupported : Response := RsError NOT_SUPPORTED_IN_TERMINAL_MODE.

Definition project_nat_status (snap : NatSnapshot) (now : Z) : NatStatus :=
  let entry m :=
    mkNatEntry (as_token (mt_origin (am_target m))) (map_protocol_as_str (mt_protocol (am_target m))) (mt_internal_port (am_target m))
      (am_external_port m) (Z.min (Time.as_secs (am_assigned_lifetime m)) u32_max)
      (Z.min (Time.as_secs (saturating_sub (am_renew_at m) now)) u32_max) in
  let ms := entry <$> ns_active_mappings snap in
  mkNatStatus (nat_mode_as_str (ns_mode snap)) (nat_state_as_str (ns_state snap)) (ns_gateway snap) (ns_external_ip snap)
    (nat_protocol_as_str <$> ns_protocol snap) (length ms) (ns_last_error snap) ms.

(** [CertStore::list_full]. *)
Definition cert_le (a b : string * CertEntry) : Prop := Str.le (fst a) (fst b).
#[local] Instance cert_le_dec : RelDecision cert_le.
Proof. intros a b. unfold cert_le, Str.le. apply _. Defined.
Definition list_full (s : CertStore) : list (string * CertEntry) := merge_sort cert_le (map_to_list (cs_entries s)).

(** The first entry that came from the default certificate. *)
Definition default_cert_summary (s : CertStore) (now_ms : Z) : option (string * Z) :=
  head (omap (fun '(_, e) => match ce_origin e with
                             | OriginDefault cert _ => Some (cert, saturating_sub now_ms (loaded_at_unix_ms e) / 1000)
                             | OriginConvention _ _ => None
                             end) (list_full s)).

Definition status (s : ControlState) (w : Surroundings) : StatusResponse :=
  let '(ip, age, enrolled) :=
    match ctl_peer s with
    | Some ps => (current_ip ps, (ts ← last_heartbeat_ms ps; (fun now => saturating_sub now ts) <$> now_unix_ms w), is_peer_enrolled ps)
    | None => (None, None, false)
    end in
  let cert := default_cert_summary (ctl_certs s) (default 0 (now_unix_ms w)) in
  mkStatus (ctl_mode s) ip age (length (ctl_snapshot s)) (uptime_secs w) enrolled (fst <$> cert) (snd <$> cert)
    ((fun n => project_nat_status n (now_instant w)) <$> ctl_nat s) (ctl_lan s)
    (sum_list (sn_cert_less <$> ctl_snapshot s)).

(** The verbs that [dispatch] gets by mistake are an internal error. *)
Definition dispatch (rq : Request) (s : ControlState) (w : Surroundings) : ControlState * Response :=
  match rq with
  | RqStatus => (s, RsStatus (status s w))
  | RqRulesList =>
      (s, RsRules ((fun x => (sn_name x, Protocol_as_str (sn_protocol x), sn_listen x, sn_upstream x)) <$> ctl_snapshot s))
  | RqDownstreamShow =>
      match ctl_peer s with
      | None => (s, terminal_mode_unsupported)
      | Some ps =>
          let '(pk, fp) := match peer_static_key ps with Some pk => (to_string pk, fingerprint pk) | None => ("", "") end in
          (s, RsDownstream (is_peer_enrolled ps) pk fp)
      end
  | RqDownstreamPending =>
      match ctl_pending s with
      | None => (s, terminal_mode_unsupported)
      | Some store => (s, RsDownstreamPending (list_candidates store))
      end
  | RqDownstreamApprove fp =>
      match ctl_peer s, ctl_pending s with
      | Some ps, Some store =>
          match approve_downstream ps store fp (config_written w) with
          | (ps', store', DownstreamApproved f) => (ctl_with_peer s ps' store', RsDownstreamApproved f)
          | (ps', store', ApproveError code) => (ctl_with_peer s ps' store', RsError code)
          end
      | _, _ => (s, terminal_mode_unsupported)
      end
  | RqMetrics => (s, RsMetrics (prom_body w))
  | RqHealth => (s, RsHealth (is_ready w) (uptime_secs w))
  | RqDerivedRules =>
      match ctl_introspection s with
      | Some ix => (s, RsDerivedRules (snapshot ix (ctl_supervisor s)))
      | None => (s, RsError INTERNAL_ERROR)
      end
  | RqTraceSet d =>
      match trace_filter w d with
      | Ok (active, def) => (s, RsTraceSet active def)
      | Err _ => (s, RsError (match d with Some _ => INVALID_REQUEST | None => INTERNAL_ERROR end))
      end
  | RqAcmeList => (s, RsAcmeList (match ctl_acme s with Some hosts => list_managed hosts | None => [] end))
  | RqRulesReload | RqChainSummary _ | RqChainApply _ | RqChainReconnect | RqAcmeRenew _ | RqChainCanary _ _ _ _ _ _ =>
      (s, RsError INTERNAL_ERROR)
  end.

(** ** The chain verbs ([handlers/chain.rs]) *)

(** The projection whose size is checked has no origin and the default
    HTTPS metadata. *)
Definition sizing_origin : PubKey := X25519 (replicate 32 x00).

Definition predicate_precheck (s : ControlState) (set : RuleSet) : result string nat :=
  if ctl_has_upstream s then
    let projection := extract set HttpsPredicateMeta_default sizing_origin in
    encoded ← map_err (fun _ => APPLY_FAILED) (to_allocvec projection);
    if PREDICATE_SET_MAX_WIRE_BYTES <? zlen encoded then Err PREDICATE_SET_OVERSIZE else Ok (length (predicates projection))
  else Ok 0%nat.

Definition dispatch_chain_apply (rs : list Rule) (s : ControlState) : ControlState * Response :=
  match from_rules rs with
  | Err _ => (s, RsError RULES_INVALID)
  | Ok set =>
      match predicate_precheck s set with
      | Err code => (s, RsError code)
      | Ok predicate_count =>
          match apply_ruleset (ctl_supervisor s) set with
          | (h, true) => (ctl_with_supervisor s h, RsChainApplied (length rs) predicate_count)
          | (h, false) => (ctl_with_supervisor s h, RsError APPLY_FAILED)
          end
      end
  end.

Definition dispatch_chain_summary (timeout_ms : option Z) (s : ControlState) (w : Surroundings) : Response :=
  match ctl_introspection s with
  | None => RsError INTERNAL_ERROR
  | Some ix =>
      let local := mkHop 0 (ctl_mode s) (uptime_secs w) (Some (ctl_node_name s)) (snapshot ix (ctl_supervisor s)) None in
      if ctl_client s then
        let deadline_ms := match timeout_ms with Some m => if 0 <? m then m else CHAIN_HOP_DEFAULT_DEADLINE_MS | None => CHAIN_HOP_DEFAULT_DEADLINE_MS end in
        match ask_upstream w CHAIN_HOP_DEFAULT_DEPTH_BUDGET deadline_ms with
        | (Ok reply, rtt_ms) => RsChainSummary (extend_hops rtt_ms 0 [local] (hr_hops reply)) (hr_partial reply)
        | (Err _, _) => RsChainSummary [local] true
        end
      else RsChainSummary [local] false
  end.

Definition dispatch_chain_reconnect (s : ControlState) : ControlState * Response :=
  if ctl_client s then (ctl_with_reconnect s, RsChainReconnected) else (s, RsError NO_CHAIN_UPSTREAM).

(** ** Reload and ACME ([handlers/rules_reload.rs], [handlers/acme.rs]) *)

Definition dispatch_rules_reload (s : ControlState) (w : Surroundings) : ControlState * Response :=
  let s := ctl_with_snapshot s (snapshot_after_reload w) in (s, RsRulesReloaded (length (ctl_snapshot s))).

(** The code of a failed renewal is read off the text of the error; only one of
    the texts has the phrase. *)
Definition unmanaged (e : AcmeError) : bool :=
  match e with ClientError _ "no ACME-managed route declares this hostname" => true | _ => false end.

Definition dispatch_acme_renew (h : string) (s : ControlState) (w : Surroundings) : Response :=
  match ctl_acme s with
  | None => RsError ACME_NOT_CONFIGURED
  | Some hosts =>
      match force_renew hosts h with
      | Err e => RsError (if unmanaged e then ACME_UNKNOWN_HOST else ACME_RENEW_FAILED)
      | Ok _ =>
          match renew_reply w with
          | None => RsError ACME_RENEW_FAILED
          | Some reply =>
              match kick_answer h reply with
              | Ok _ => RsAcmeRenewed (Str.to_ascii_lowercase h)
              | Err e => RsError (if unmanaged e then ACME_UNKNOWN_HOST else ACME_RENEW_FAILED)
              end
          end
      end
  end.

(** ** Routing ([server.rs]) *)

Definition terminal_only_method (rq : Request) : option string :=
  match rq with
  | RqChainApply _ => Some "chain apply"
  | RqRulesReload => Some "local rules reload"
  | RqAcmeList => Some "local acme list"
  | RqAcmeRenew _ => Some "local acme renew"
  | _ => None
  end.

Definition canary_request (l : Net.SocketAddr) (p : Protocol) (duration_ms rate payload_bytes : Z) (timeout_ms : option Z) (s : ControlState)
    (w : Surroundings) : ControlState * Response :=
  let d := mkCanaryDaemon (ctl_mode s) (ctl_node_name s) (ctl_introspection s) (ctl_supervisor s) (ctl_client s) in
  let '(arms, c) := dispatch_chain_canary (fst (quantiles w)) (snd (quantiles w)) d (ctl_arms s) l p duration_ms rate payload_bytes timeout_ms (canary_world w) in
  (ctl_with_arms s arms, RsChainCanary c).

Definition dispatch_request (rq : Request) (s : ControlState) (w : Surroundings) : ControlState * Response :=
  match terminal_only_method rq, bool_decide (ctl_mode s = Terminal) with
  | Some _, false => (s, RsError METHOD_NOT_AVAILABLE_ON_MODE)
  | _, _ =>
      match rq with
      | RqChainApply rs => dispatch_chain_apply rs s
      | RqAcmeRenew h => (s, dispatch_acme_renew h s w)
      | RqChainSummary t => (s, dispatch_chain_summary t s w)
      | RqChainReconnect => dispatch_chain_reconnect s
      | RqRulesReload => dispatch_rules_reload s w
      | RqChainCanary l p dur rate payload t => canary_request l p dur rate payload t s w
      | rq => dispatch rq s w
      end
  end.

(** [handle_connection]: a line of the socket; [None] is a line that is not a
    request. *)
Definition serve_line (rq : option Request) (s : ControlState) (w : Surroundings) : ControlState * Response :=
  match rq with
  | Some rq => dispatch_request rq s w
  | None => (s, RsError INVALID_REQUEST)
  end.

Fixpoint serve_lines (lines : list (option Request * Surroundings)) (s : ControlState) : ControlState * list Response :=
  match lines with
  | [] => (s, [])
  | (rq, w) :: lines =>
      let '(s, r) := serve_line rq s w in
      let '(s, rs) := serve_lines lines s in
      (s, r :: rs)
  end.

(** ** Facts *)

(** The requests that change nothing of the daemon. *)
Definition read_only (rq : Request) : bool :=
  match rq with
  | RqDownstreamApprove _ | RqChainApply _ | RqChainReconnect | RqRulesReload | RqChainCanary _ _ _ _ _ _ => false
  | _ => true
  end.

Lemma read_only_unchanged rq s w : read_only rq = true -> fst (dispatch_request rq s w) = s.
Proof.
  intros Hr. unfold dispatch_request. destruct rq; try done; cbn; repeat case_match; simplify_eq; done.
Qed.

(** No request reaches the arms of [dispatch] that report a routing error: an
    internal error is an introspection state that is not there, or a tracing
    filter that does not reset. *)
Lemma internal_error_causes rq s w :
  snd (dispatch_request rq s w) = RsError INTERNAL_ERROR -> ctl_introspection s = None \/ rq = RqTraceSet None.
Proof.
  unfold dispatch_request. destruct rq; cbn; repeat case_match; simplify_eq; cbn; auto; try done.
  all: try by (unfold dispatch_acme_renew; repeat case_match; simplify_eq).
  - match goal with Ha : approve_downstream _ _ _ _ = _ |- _ => unfold approve_downstream in Ha; repeat case_match; simplify_eq end; done.
  - unfold dispatch_chain_summary. destruct (ctl_introspection s); [|auto]. repeat case_match; done.
  - unfold dispatch_chain_apply, predicate_precheck. repeat case_match; simplify_eq; cbn; try done.
    match goal with He : _ = Err _ |- _ => destruct (ctl_has_upstream s); [|done]; destruct (to_allocvec _); cbn in He; [case_match|]; by simplify_eq end.
  - unfold dispatch_chain_reconnect. by case_match.
  - unfold canary_request. by destruct (dispatch_chain_canary _ _ _ _ _ _ _ _ _ _ _).
Qed.

End Control.

(** What [chain apply] queues has no HTTPS routes, so that the supervisor ends
    every HTTPS site of the terminal. *)
Lemma apply_ends_https `{Extern} `{UrlLib} `{TlsLib} cfg w sv rs set :
  from_rules rs = Ok set -> https_active (apply_set cfg w sv set) = None /\ prev_routes (apply_set cfg w sv set) = [].
Proof. intros [-> _]%from_rules_ok. done. Qed.

Lemma projection_size `{UrlLib} rs meta o : length (predicates (extract (mkRuleSet rs []) meta o)) = length rs.
Proof.
  unfold extract. cbn [predicates]. rewrite (Permutation_length (merge_sort_Permutation _ _)). unfold projected. cbn. by rewrite app_nil_r, length_fmap.
Qed.

Module ControlProps.

(** C6: [chain apply] from the socket to the chain.  It is acknowledged exactly
    on a terminal, for rules that make a valid set, while the supervisor takes
    sets, and, on a node that dials a chain, when their projection encodes
    within the wire limit; the counts are those of the rules and of their
    predicates.  Exactly then is the set queued for the supervisor, and
    otherwise nothing changes and the answer is an error.  And what was
    acknowledged can be sent: the size of an encoded set does not depend on the
    key of its origin, so the publisher's own body fits, whatever its key and
    its HTTPS settings. *)
Theorem apply_exact `{Extern} `{UrlLib} `{TlsLib} `{!Postcard PredicateSet} `{!Hex} `{Blake2} s w rs
    (Hsize : forall ps key b, length key = 32%nat -> to_allocvec (mkPredicateSet ps sizing_origin) = Ok b ->
       exists b', to_allocvec (mkPredicateSet ps (X25519 key)) = Ok b' /\ zlen b' = zlen b) :
  let set := mkRuleSet rs [] in
  let '(s', r) := dispatch_request (RqChainApply rs) s w in
  (forall n k, r = RsChainApplied n k <->
     ctl_mode s = Terminal /\ rule_set_wf set /\ apply_open (ctl_supervisor s) = true /\ n = length rs /\
     if ctl_has_upstream s then
       k = length rs /\ exists b, to_allocvec (extract set HttpsPredicateMeta_default sizing_origin) = Ok b /\ zlen b <= PREDICATE_SET_MAX_WIRE_BYTES
     else k = 0%nat) /\
  (forall n k, r = RsChainApplied n k ->
     s' = ctl_with_supervisor s (mkSupervisor true (apply_queue (ctl_supervisor s) ++ [set]) (Acceptor.current_set (ctl_supervisor s))) /\
     (ctl_has_upstream s = true -> forall meta key, length key = 32%nat -> is_Some (push_body set meta (X25519 key)))) /\
  ((forall n k, r <> RsChainApplied n k) -> s' = s /\ exists code, r = RsError code).
Proof.
  intros set. unfold dispatch_request. cbn [terminal_only_method]. destruct (decide (ctl_mode s = Terminal)) as [Hm|Hm].
  2:{ rewrite bool_decide_false by done. split; [intros n k; split; [done|by intros [? _]]|]. split; [done|]. intros _. split; [done|by eexists]. }
  rewrite bool_decide_true by done. unfold dispatch_chain_apply.
  destruct (from_rules rs) as [set'|e] eqn:Hrs.
  2:{ assert (~ rule_set_wf set) as Hnwf by (intros Hwf; by rewrite (proj2 (from_rules_ok rs set) (conj eq_refl Hwf)) in Hrs).
      split; [intros n k; split; [done|naive_solver]|]. split; [done|]. intros _. split; [done|by eexists]. }
  apply from_rules_ok in Hrs as [-> Hwf]. fold set. fold set in Hwf.
  assert (forall h b, apply_ruleset (ctl_supervisor s) set = (h, b) ->
    b = apply_open (ctl_supervisor s) /\
    h = if b then mkSupervisor true (apply_queue (ctl_supervisor s) ++ [set]) (Acceptor.current_set (ctl_supervisor s)) else ctl_supervisor s) as Happ.
  { intros h b. unfold apply_ruleset. by destruct (apply_open (ctl_supervisor s)); intros [= <- <-]. }
  unfold predicate_precheck. destruct (ctl_has_upstream s) eqn:Hup.
  - destruct (to_allocvec (extract set HttpsPredicateMeta_default sizing_origin)) as [b|e] eqn:Henc; cbn [mbind result_bind map_err].
    2:{ split; [intros n k; split; [done|naive_solver]|]. split; [done|]. intros _. split; [done|by eexists]. }
    destruct (Z.ltb_spec PREDICATE_SET_MAX_WIRE_BYTES (zlen b)) as [Hbig|Hfit]; cbn [mbind result_bind].
    { split; [intros n k; split; [done|]; intros (_ & _ & _ & _ & _ & b' & [= <-] & Hb'); lia|]. split; [done|].
      intros _. split; [done|by eexists]. }
    destruct (apply_ruleset (ctl_supervisor s) set) as [h ok]. destruct (Happ h ok eq_refl) as [-> ->].
    rewrite (projection_size rs HttpsPredicateMeta_default sizing_origin : length (predicates (extract set _ _)) = _). destruct (apply_open (ctl_supervisor s)).
    + split; [intros n k; split; [intros [= <- <-]; naive_solver|by intros (_ & _ & _ & -> & -> & _)]|].
      split; [|by intros Hno; destruct (Hno _ _ eq_refl)]. intros n k _. split; [done|]. intros _ meta key Hkey.
      unfold push_body. replace (extract set meta (X25519 key)) with (mkPredicateSet (predicates (extract set HttpsPredicateMeta_default sizing_origin)) (X25519 key)) by done.
      destruct (Hsize (predicates (extract set HttpsPredicateMeta_default sizing_origin)) key b Hkey Henc) as (b' & -> & Hlen).
      destruct (Z.ltb_spec PREDICATE_SET_MAX_WIRE_BYTES (zlen b')); [lia|by eexists].
    + split; [intros n k; split; [done|naive_solver]|]. split; [done|]. intros _. split; [by destruct s|by eexists].
  - destruct (apply_ruleset (ctl_supervisor s) set) as [h ok]. destruct (Happ h ok eq_refl) as [-> ->]. destruct (apply_open (ctl_supervisor s)).
    + split; [intros n k; split; [intros [= <- <-]; naive_solver|by intros (_ & _ & _ & -> & ->)]|].
      split; [|by intros Hno; destruct (Hno _ _ eq_refl)]. by intros n k _.
    + split; [intros n k; split; [done|naive_solver]|]. split; [done|]. intros _. split; [by destruct s|by eexists].
Qed.

Import CertProps RuleSetProps CanaryProbeProps.

(** A serialiser whose output has the size of its input's parts. *)
#[local] Instance sized_postcard : Postcard PredicateSet := {|
  to_allocvec ps := Ok (replicate (33 + 40 * length (predicates ps)) x00);
  from_bytes _ := Err "opaque" |}.

Definition demo_control : ControlState :=
  mkControl Terminal "home" None None [] store_new true (mkSupervisor true [] (mkRuleSet [] [])) None true false None None table_new (mkLanCidrs [] SourceDefault).
Definition demo_surroundings : Surroundings :=
  mkSurroundings None 0 0 (fun _ _ => (Err ClientDown, 0)) [] None true "" true (fun _ => Err "") demo_canary_world (fun _ => 0, fun _ => 0).

Lemma apply_exact_witness :
  let '(s', r) := dispatch_request (RqChainApply [demo_rule "mc" 25565]) demo_control demo_surroundings in
  r = RsChainApplied 1 1 /\ length (apply_queue (ctl_supervisor s')) = 1%nat /\
  is_Some (push_body (mkRuleSet [demo_rule "mc" 25565] []) (mkMeta 8443 true) (X25519 (replicate 32 x07))).
Proof.
  pose proof (apply_exact demo_control demo_surroundings [demo_rule "mc" 25565]) as Hex.
  assert (snd (dispatch_request (RqChainApply [demo_rule "mc" 25565]) demo_control demo_surroundings) = RsChainApplied 1 1) as Hr by (vm_compute; reflexivity).
  destruct (dispatch_request _ _ _) as [s' r]. cbn in Hr. subst r. destruct Hex as (_ & Hq & _).
  - intros ps key b _ [= <-]. eexists. split; [done|]. done.
  - destruct (Hq _ _ eq_refl) as [-> Hpush]. split; [done|]. split; [done|]. by apply Hpush.
Defined.

End ControlProps.
