(* ===== verification/Ctl.v ===== *)
(** * The operator's chain commands ([yggdrasilctl/src/chain.rs])

    What [chain diff], [health], [ping], [canary] and [apply] make of the
    daemon's answers: the labels of the hops, the drift between neighbours, the
    health tiers, the probes of a port and the exit codes.  The socket and the
    rendering are left out. *)

From S2P Require Import Prelude RustStd Float External Instances RuleTypes Error ControlFrame PubKey Rule RuleSet Predicate Derive Reliability PeerState.
From S2P Require Import Canary ChainTypes HeartbeatServer Acceptor Publisher LanCidrs NetFmt ProxyProtocol NatWire NatMapper Resolver.
From S2P Require Import TcpProxy Certs HttpForward Companion Supervisor Acme CanaryProbe Control.

(** ** Labels *)

Section Labels.
Context `{Hex} `{Blake2}.

Definition HOP_LABEL_PUBKEY_PREFIX_HEX : nat := 8.

Definition short_pubkey (pk : PubKey) : string :=
  let full := to_string pk in
  match Str.split_once ":" full with
  | Some (prefix, hex) => prefix +:+ String ":" (Str.of_list (firstn HOP_LABEL_PUBKEY_PREFIX_HEX (Str.to_list hex)))
  | None => full
  end.

(** [name.filter(|s| !s.is_empty())]. *)
Definition given_name (n : option string) : option string := n ≫= fun s => if Str.is_empty s then None else Some s.

Definition name_count (hops : list (option string * PubKey)) (n : string) : nat :=
  length (List.filter (fun h => bool_decide (given_name (fst h) = Some n)) hops).

Definition hop_label (hops : list (option string * PubKey)) (h : option string * PubKey) : string :=
  match given_name (fst h) with
  | Some n => if (1 <? name_count hops n)%nat then n +:+ " (" +:+ short_pubkey (snd h) +:+ ")" else n
  | None => short_pubkey (snd h)
  end.

Definition hop_labels (hops : list (option string * PubKey)) : list string := hop_label hops <$> hops.

End Labels.

(** ** [chain diff] *)

Record PredicateChange := mkPredChange { pc_name : string; pc_local : Predicate; pc_upstream : Predicate }.

Record PredicateDiff := mkPredDiff {
  missing_upstream : list Predicate;
  extra_upstream : list Predicate;
  pd_changed : list PredicateChange;
  local_origin : option PubKey;
  upstream_origin : option PubKey
}.

Definition nil_b {A} (l : list A) : bool := match l with [] => true | _ => false end.

Definition is_in_sync (d : PredicateDiff) : bool :=
  nil_b (missing_upstream d) && nil_b (extra_upstream d) && nil_b (pd_changed d) && bool_decide (local_origin d = upstream_origin d).

(** The [BTreeMap] of a predicate list: the last of a name stays. *)
Definition name_map (l : list Predicate) : gmap string Predicate := list_to_map (reverse ((fun p => (pred_name p, p)) <$> l)).

Definition key_le (a b : string * Predicate) : Prop := Str.le (fst a) (fst b).
#[local] Instance key_le_dec : RelDecision key_le.
Proof. intros a b. unfold key_le, Str.le. apply _. Defined.

Definition in_order (m : gmap string Predicate) : list (string * Predicate) := merge_sort key_le (map_to_list m).

Section Diff.
Context `{UrlLib}.

Definition compute_diff (publisher receiver : DerivedRulesResponse) : option PredicateDiff :=
  if nil_b (drr_predicates publisher) && nil_b (drr_predicates receiver) then None
  else
    let pub_origin := ci_predicate_origin (drr_chain publisher) in
    let recv_origin := ci_predicate_origin (drr_chain receiver) in
    if match pub_origin, recv_origin with Some p, Some r => negb (bool_decide (p = r)) | _, _ => false end then None
    else
      let local := name_map (drr_predicates publisher) in
      let up := name_map (drr_predicates receiver) in
      Some (mkPredDiff
        (omap (fun '(n, p) => match up !! n with None => Some p | Some _ => None end) (in_order local))
        (omap (fun '(n, p) => match local !! n with None => Some p | Some _ => None end) (in_order up))
        (omap (fun '(n, p) => match up !! n with
                              | Some u => if bool_decide (u = p) then None else Some (mkPredChange n p u)
                              | None => None
                              end) (in_order local))
        pub_origin recv_origin).

Record HopReport := mkHopReport {
  hr_index : Z;
  expected_pubkey : PubKey;
  hr_name : option string;
  hr_view : DerivedRulesResponse;
  drift : option PredicateDiff
}.

Fixpoint report_hops (prev : option DerivedRulesResponse) (hops : list ChainHop) : list HopReport :=
  match hops with
  | [] => []
  | h :: hops =>
      mkHopReport (hop_index h) (ci_local (drr_chain (hop_view h))) (hop_name h) (hop_view h)
        (prev ≫= fun p => compute_diff p (hop_view h)) :: report_hops (Some (hop_view h)) hops
  end.

Definition drifts (r : HopReport) : bool := match drift r with Some d => negb (is_in_sync d) | None => false end.

Record DiffReport := mkDiffReport { dr_hops : list HopReport; drift_detected : bool; dr_partial : bool }.

(** [None]: a summary without hops; the exit code is 1 on a drift. *)
Definition diff_report (hops : list ChainHop) (part : bool) : option DiffReport :=
  match hops with
  | [] => None
  | _ => let rs := report_hops None hops in Some (mkDiffReport rs (existsb drifts rs) part)
  end.
Definition diff_exit (r : DiffReport) : Z := if drift_detected r then 1 else 0.

(** ** [chain health] *)

Inductive HealthTier := Healthy | Starting | Degraded | Down.
Definition tier_rank (t : HealthTier) : nat := match t with Healthy => 0 | Starting => 1 | Degraded => 2 | Down => 3 end.
Definition tier_max (a b : HealthTier) : HealthTier := if (tier_rank a <? tier_rank b)%nat then b else a.

Definition STARTING_GRACE_SECS : Z := 30.
Definition PREDICATE_DEGRADED_AGE_SECS : Z := 300.
Definition PREDICATE_DOWN_AGE_SECS : Z := 1800.

(** [i64::saturating_sub]. *)
Definition i64_saturating_sub (a b : Z) : Z := Z.max (- 2 ^ 63) (Z.min (2 ^ 63 - 1) (a - b)).

Definition classify_hop (h : ChainHop) (now_unix : Z) : HealthTier :=
  let tier :=
    match ci_last_apply_unix (drr_chain (hop_view h)) with
    | Some last_apply =>
        let age := i64_saturating_sub now_unix last_apply in
        if PREDICATE_DOWN_AGE_SECS <=? age then Down
        else if PREDICATE_DEGRADED_AGE_SECS <=? age then Degraded
        else Healthy
    | None => Healthy
    end in
  match tier with
  | Healthy => if hop_uptime_secs h <? STARTING_GRACE_SECS then Starting else Healthy
  | t => t
  end.

Definition overall (hops : list ChainHop) (now_unix : Z) : HealthTier := foldr tier_max Healthy ((fun h => classify_hop h now_unix) <$> hops).

Definition health_exit (hops : list ChainHop) (now_unix : Z) : option Z :=
  match hops with
  | [] => None
  | _ => Some (match overall hops now_unix with Healthy | Starting => 0 | Degraded => 1 | Down => 2 end)
  end.

(** ** [chain summary] *)

Record SummaryHop := mkSummaryHop {
  sh_index : Z;
  sh_pubkey : PubKey;
  sh_name : option string;
  sh_mode : Mode;
  sh_uptime_secs : Z;
  rule_count : nat;
  predicate_count : nat
}.

Definition summary_hops (hops : list ChainHop) : option (list SummaryHop) :=
  match hops with
  | [] => None
  | _ => Some ((fun h => mkSummaryHop (hop_index h) (ci_local (drr_chain (hop_view h))) (hop_name h) (hop_mode h) (hop_uptime_secs h)
                 (length (drr_derived_rules (hop_view h))) (length (drr_predicates (hop_view h)))) <$> hops)
  end.

(** ** [chain ping] *)

Record PingHop := mkPingHop { ph_index : Z; ph_pubkey : PubKey; ph_name : option string; ph_rtt_ms : option Z }.

Definition ping_hops (hops : list ChainHop) (only : option PubKey) : option (list PingHop) :=
  match hops with
  | [] => None
  | _ =>
      let all := (fun h => mkPingHop (hop_index h) (ci_local (drr_chain (hop_view h))) (hop_name h) (hop_query_rtt_ms h)) <$> hops in
      match only with
      | None => Some all
      | Some k => match List.filter (fun h => bool_decide (ph_pubkey h = k)) all with [] => None | some => Some some end
      end
  end.

(** ** [chain canary] *)

Definition CANARY_PROBE_DURATION : Z := Time.from_secs 3.

Definition canary_exit (c : CanaryStatus) : Z :=
  match c with CanaryOk => 0 | CanaryDegraded => 1 | CanaryNoSuchRule => 2 | CanaryChainDead => 3 end.

Definition canary_overall (cs : list CanaryStatus) : Z := foldl (fun worst c => Z.max worst (canary_exit c)) 0 cs.

Inductive ProbeError := NoRuleBinds | MultipleTransports.

Definition expand_rule (r : Rule) : list (Net.SocketAddr * Protocol) :=
  match protocol r with
  | Https => [(listen r, Tcp); (listen r, Udp)]
  | p => [(listen r, p)]
  end.

(** [dedup]: of equal neighbours, the first. *)
Fixpoint dedup {A} `{EqDecision A} (l : list A) : list A :=
  match l with
  | x :: (y :: _) as l' => if decide (x = y) then dedup l' else x :: dedup l'
  | l => l
  end.

(** The sort by transport is stable. *)
Definition select_probes_from_matches (matches : list Rule) (proto : option Protocol) : result ProbeError (list (Net.SocketAddr * Protocol)) :=
  let all := matches ≫= expand_rule in
  let on p := List.filter (fun t => bool_decide (snd t = p)) all in
  let tuples := dedup (on Tcp ++ on Udp ++ on Https) in
  let filtered := match proto with Some p => List.filter (fun t => bool_decide (snd t = p)) tuples | None => tuples end in
  if nil_b filtered then Err NoRuleBinds
  else if bool_decide (proto = None) && (1 <? length filtered)%nat && negb (existsb (fun r => bool_decide (protocol r = Https)) matches)
  then Err MultipleTransports
  else Ok filtered.

Definition canary_probes (derived_rules : list Rule) (port : Z) (proto : option Protocol) : result ProbeError (list (Net.SocketAddr * Protocol)) :=
  match List.filter (fun r => Net.port (listen r) =? port) derived_rules with
  | [] => Ok [(Net.V4 (Net.mkSockV4 Net.V4_UNSPECIFIED port), default Tcp proto)]
  | matches => select_probes_from_matches matches proto
  end.

(** ** [chain apply] and [chain reconnect] *)

Inductive ApplyError := NotTerminal (m : Mode) | NoRules | InvalidRules.

Context `{Extern}.

(** What is sent of a parsed file: its rules.  [mode]: the daemon's. *)
Definition apply_request (mode : Mode) (file : RuleFile) : result ApplyError (list Rule) :=
  if bool_decide (mode = Terminal) then
    match file_rule file with
    | [] => Err NoRules
    | rs => match from_rules rs with Ok _ => Ok rs | Err _ => Err InvalidRules end
    end
  else Err (NotTerminal mode).

Definition reconnect_allowed (mode : Mode) : bool := negb (bool_decide (mode = ChainTypes.Gateway)).

End Diff.

(** ** The local commands ([yggdrasilctl/src/local.rs]) *)

Inductive RuleAction := RulesListCmd | RulesReloadCmd.
Inductive AcceptAction := AcceptShow | AcceptPending | AcceptApprove (fp : string).
Inductive AcmeAction := AcmeListCmd | AcmeRenewCmd (h : string).
Inductive LocalCmd :=
  | CmdStatus
  | CmdRules (a : RuleAction)
  | CmdAccept (a : AcceptAction)
  | CmdMetrics
  | CmdHealth
  | CmdDerivedRules
  | CmdTrace (directive : option string)       (** [None] is [--reset] *)
  | CmdAcme (a : AcmeAction).

Definition terminal_only_command (cmd : LocalCmd) : bool := match cmd with CmdRules _ | CmdAcme _ => true | _ => false end.

Definition build_request `{Extern} `{UrlLib} (cmd : LocalCmd) : Request :=
  match cmd with
  | CmdStatus => RqStatus
  | CmdRules RulesListCmd => RqRulesList
  | CmdRules RulesReloadCmd => RqRulesReload
  | CmdAccept AcceptShow => RqDownstreamShow
  | CmdAccept AcceptPending => RqDownstreamPending
  | CmdAccept (AcceptApprove fp) => RqDownstreamApprove fp
  | CmdMetrics => RqMetrics
  | CmdHealth => RqHealth
  | CmdDerivedRules => RqDerivedRules
  | CmdTrace d => RqTraceSet d
  | CmdAcme AcmeListCmd => RqAcmeList
  | CmdAcme (AcmeRenewCmd h) => RqAcmeRenew h
  end.

(** [run]: what the daemon is asked, after its mode for the commands of a
    terminal; [None] is a refusal of the command itself. *)
Definition local_run `{Extern} `{UrlLib} `{TlsLib} `{!Postcard PredicateSet} `{!Hex} `{Blake2} (cmd : LocalCmd) (s : ControlState) (w : Surroundings) :
    ControlState * option Response :=
  let '(s, mode) := dispatch_request RqStatus s w in
  if terminal_only_command cmd && negb match mode with RsStatus st => bool_decide (st_mode st = Terminal) | _ => false end then (s, None)
  else let '(s, r) := dispatch_request (build_request cmd) s w in (s, Some r).

(** ** Facts *)

Section Facts.
Context `{UrlLib}.

(** What [chain diff] takes for two neighbours in order. *)
Definition consistent (a b : DerivedRulesResponse) : Prop :=
  (drr_predicates a = [] /\ drr_predicates b = []) \/
  (exists p r, ci_predicate_origin (drr_chain a) = Some p /\ ci_predicate_origin (drr_chain b) = Some r /\ p <> r) \/
  (name_map (drr_predicates a) = name_map (drr_predicates b) /\ ci_predicate_origin (drr_chain a) = ci_predicate_origin (drr_chain b)).

Lemma nil_b_true {A} (l : list A) : nil_b l = true <-> l = [].
Proof. by destruct l. Qed.

Lemma elem_of_in_order m n p : (n, p) ∈ in_order m <-> m !! n = Some p.
Proof. unfold in_order. by rewrite (merge_sort_Permutation key_le), elem_of_map_to_list. Qed.

Lemma omap_in_order_nil {B} (f : string -> Predicate -> option B) m :
  omap (fun '(n, p) => f n p) (in_order m) = [] <-> forall n p, m !! n = Some p -> f n p = None.
Proof.
  split.
  - intros Hnil n p Hp. destruct (f n p) as [b|] eqn:Hf; [|done]. apply elem_of_in_order in Hp.
    assert (b ∈ omap (fun '(n, p) => f n p) (in_order m)) as Hb by (apply list_elem_of_omap; by exists (n, p)).
    rewrite Hnil in Hb. by apply not_elem_of_nil in Hb.
  - intros Hall. destruct (omap _ _) as [|b l] eqn:Hl; [done|]. assert (b ∈ b :: l) as Hb by left.
    rewrite <- Hl in Hb. apply list_elem_of_omap in Hb as ([n p] & Hin%elem_of_in_order & Hb). by rewrite (Hall _ _ Hin) in Hb.
Qed.

Lemma in_sync_iff a b d :
  compute_diff a b = Some d ->
  is_in_sync d = true <->
    name_map (drr_predicates a) = name_map (drr_predicates b) /\ ci_predicate_origin (drr_chain a) = ci_predicate_origin (drr_chain b).
Proof.
  unfold compute_diff. destruct (_ && _); [done|]. case_match; [done|]. intros [= <-]. unfold is_in_sync. cbn.
  rewrite !andb_true_iff, !nil_b_true, bool_decide_eq_true.
  set (l := name_map (drr_predicates a)). set (u := name_map (drr_predicates b)).
  rewrite (omap_in_order_nil (fun n p => match u !! n with None => Some p | Some _ => None end)),
    (omap_in_order_nil (fun n p => match l !! n with None => Some p | Some _ => None end)),
    (omap_in_order_nil (fun n p => match u !! n with Some q => if bool_decide (q = p) then None else Some (mkPredChange n p q) | None => None end)).
  split; [intros [[[Hm He] Hc] Ho]; split; [|done]|].
  - apply map_eq. intros n. destruct (l !! n) as [p|] eqn:Hl.
    + specialize (Hm n p Hl). specialize (Hc n p Hl). destruct (u !! n) as [q|]; [|done]. case_bool_decide; [by subst|done].
    + destruct (u !! n) as [q|] eqn:Hu; [|done]. specialize (He n q Hu). by rewrite Hl in He.
  - intros [-> Ho]. split_and!; [..|done]; intros n p ->; [done|done|]. by rewrite bool_decide_true.
Qed.

Lemma drift_iff a b :
  (exists d, compute_diff a b = Some d /\ is_in_sync d = false) <-> ~ consistent a b.
Proof.
  unfold consistent. destruct (compute_diff a b) as [d|] eqn:Hd.
  - pose proof (in_sync_iff _ _ _ Hd) as Hs. split.
    + intros (d' & [= <-] & Hno) Hc. unfold compute_diff in Hd. destruct Hc as [[Ha Hb]|[(p & r & Ha & Hb & Hne)|Hc]].
      * by rewrite Ha, Hb in Hd.
      * destruct (_ && _); [done|]. rewrite Ha, Hb, bool_decide_false in Hd; done.
      * by rewrite (proj2 Hs Hc) in Hno.
    + intros Hc. exists d. split; [done|]. destruct (is_in_sync d); [|done]. destruct Hc. right. right. by apply Hs.
  - split; [by intros (? & ? & _)|]. intros Hc. destruct Hc. unfold compute_diff in Hd. destruct (_ && _) eqn:Hn.
    + apply andb_true_iff in Hn as [Ha%nil_b_true Hb%nil_b_true]. by left.
    + right. left. destruct (ci_predicate_origin (drr_chain a)) as [p|], (ci_predicate_origin (drr_chain b)) as [r|]; try done.
      exists p, r. split; [done|]. split; [done|]. by case_bool_decide.
Qed.

(** The neighbours of a walk. *)
Definition neighbours (vs : list DerivedRulesResponse) : list (DerivedRulesResponse * DerivedRulesResponse) := zip vs (tail vs).

Lemma report_hops_views prev hops : hr_view <$> report_hops prev hops = hop_view <$> hops.
Proof. revert prev. induction hops as [|h hops IH]; intros prev; cbn; [done|]. by rewrite IH. Qed.
Lemma report_hops_index prev hops : hr_index <$> report_hops prev hops = hop_index <$> hops.
Proof. revert prev. induction hops as [|h hops IH]; intros prev; cbn; [done|]. by rewrite IH. Qed.

Lemma report_drifts prev hops :
  existsb drifts (report_hops (Some prev) hops) = true <->
  Exists (fun '(a, b) => ~ consistent a b) (neighbours (prev :: (hop_view <$> hops))).
Proof.
  revert prev. induction hops as [|h hops IH]; intros prev.
  { split; [done|]. by intros ?%Exists_nil. }
  cbn [report_hops existsb neighbours tail fmap list_fmap zip zip_with]. rewrite orb_true_iff, IH, Exists_cons.
  f_equiv; [|by destruct hops]. rewrite <- drift_iff. unfold drifts. cbn [drift mbind option_bind].
  destruct (compute_diff prev (hop_view h)) as [d|]; [|naive_solver]. destruct (is_in_sync d) eqn:Hd; cbn; naive_solver congruence.
Qed.

Lemma diff_report_drift hops part r :
  diff_report hops part = Some r ->
  drift_detected r = true <-> Exists (fun '(a, b) => ~ consistent a b) (neighbours (hr_view <$> dr_hops r)).
Proof.
  destruct hops as [|h hops]; [done|]. intros Hr.
  assert (r = mkDiffReport (report_hops None (h :: hops)) (existsb drifts (report_hops None (h :: hops))) part) as -> by (by injection Hr as <-).
  cbn [drift_detected dr_hops]. rewrite (report_hops_views None (h :: hops)). cbn [report_hops existsb drifts drift mbind option_bind fmap list_fmap orb]. apply report_drifts.
Qed.

Lemma diff_report_some h hops part :
  exists r, diff_report (h :: hops) part = Some r /\ dr_partial r = part /\ dr_hops r = report_hops None (h :: hops).
Proof. by eexists. Qed.

(** A chain nobody changes is reported down half an hour after its last apply:
    nothing is published while the rules stay as they are. *)
Lemma tier_max_down t : tier_max Down t = Down /\ tier_max t Down = Down.
Proof. by destruct t. Qed.

Lemma stale_hop_down h now last :
  ci_last_apply_unix (drr_chain (hop_view h)) = Some last ->
  last + PREDICATE_DOWN_AGE_SECS <= now -> now < 2 ^ 63 -> 0 <= last ->
  classify_hop h now = Down.
Proof.
  intros Hl Hage Hnow Hpos. unfold classify_hop. rewrite Hl. unfold i64_saturating_sub. unfold PREDICATE_DOWN_AGE_SECS in *.
  assert ((1800 <=? Z.max (- 2 ^ 63) (Z.min (2 ^ 63 - 1) (now - last))) = true) as -> by (apply Z.leb_le; lia). done.
Qed.

Lemma idle_chain_down hops h now last :
  h ∈ hops -> ci_last_apply_unix (drr_chain (hop_view h)) = Some last ->
  last + PREDICATE_DOWN_AGE_SECS <= now -> now < 2 ^ 63 -> 0 <= last ->
  health_exit hops now = Some 2.
Proof.
  intros Hin Hl Hage Hnow Hpos. assert (overall hops now = Down) as Ho.
  { induction hops as [|h' hops IH]; [by apply not_elem_of_nil in Hin|]. unfold overall. cbn [fmap list_fmap foldr].
    apply elem_of_cons in Hin as [->|Hin].
    - rewrite (stale_hop_down h' now last) by done. apply tier_max_down.
    - fold (overall hops now). rewrite (IH Hin). apply tier_max_down. }
  unfold health_exit. rewrite Ho. by destruct hops; [apply not_elem_of_nil in Hin|].
Qed.

(** The probes of a port are listeners of the rules that bind it, and without
    [--proto] all of them. *)
Lemma elem_of_dedup {A} `{EqDecision A} (l : list A) x : x ∈ dedup l <-> x ∈ l.
Proof.
  induction l as [|y l IH]; [done|]. destruct l as [|z l]; [done|].
  change (dedup (y :: z :: l)) with (if decide (y = z) then dedup (z :: l) else y :: dedup (z :: l)).
  destruct (decide (y = z)) as [->|]; rewrite ?elem_of_cons, IH; rewrite ?elem_of_cons; naive_solver.
Qed.

Lemma probes_exact matches proto ps :
  select_probes_from_matches matches proto = Ok ps ->
  ps <> [] /\ forall t, t ∈ ps <-> (exists r, r ∈ matches /\ t ∈ expand_rule r) /\ match proto with Some p => snd t = p | None => True end.
Proof.
  unfold select_probes_from_matches. set (all := matches ≫= expand_rule).
  set (tuples := dedup _). set (filtered := match proto with Some _ => _ | None => _ end). intros Hok.
  assert (ps = filtered /\ filtered <> []) as [-> Hne].
  { destruct (nil_b filtered) eqn:Hn; [done|]. destruct (_ && _); [done|]. injection Hok as <-. split; [done|]. by intros Hf; rewrite Hf in Hn. }
  split; [done|]. intros t.
  assert (t ∈ tuples <-> exists r, r ∈ matches /\ t ∈ expand_rule r) as Ht.
  { unfold tuples. rewrite elem_of_dedup, !elem_of_app, !list_elem_of_In, !filter_In, !bool_decide_eq_true, <- !list_elem_of_In.
    unfold all. rewrite list_elem_of_bind. destruct t as [l p]; cbn [snd]. split; [intros [[(r & ? & ?) _]|[[(r & ? & ?) _]|[(r & ? & ?) _]]]; by exists r|].
    intros (r & ? & ?). destruct p; [left|right; left|right; right]; (split; [by exists r|done]). }
  unfold filtered. destruct proto as [p|]; [|rewrite Ht; tauto].
  rewrite list_elem_of_In, filter_In, bool_decide_eq_true, <- list_elem_of_In, Ht. done.
Qed.

End Facts.

(** ** The summary of a chain *)

Section Summary.
Context `{Extern} `{UrlLib} `{TlsLib} `{!Postcard PredicateSet} `{!Postcard ChainHopReply} `{!Hex} `{Blake2}.

(** The local hop, and what the walk answered behind it. *)
Lemma summary_walk t s w ix hops part : ctl_introspection s = Some ix -> ctl_client s = true ->
  snd (dispatch_request (RqChainSummary t) s w) = RsChainSummary hops part ->
  exists local deadline_ms reply rtt, hop_view local = snapshot ix (ctl_supervisor s) /\ hop_index local = 0 /\
    ask_upstream w CHAIN_HOP_DEFAULT_DEPTH_BUDGET deadline_ms = (reply, rtt) /\
    hops = local :: match reply with Ok r => stamped rtt 1 0 (hr_hops r) | Err _ => [] end /\
    part = match reply with Ok r => hr_partial r | Err _ => true end.
Proof.
  intros Hix Hcl Hr. cbn [dispatch_request terminal_only_method snd] in Hr. unfold dispatch_chain_summary in Hr.
  rewrite Hix, Hcl in Hr. set (dl := match t with Some _ => _ | None => _ end) in Hr. set (local := mkHop 0 _ _ _ _ _) in Hr.
  exists local, dl. destruct (ask_upstream w CHAIN_HOP_DEFAULT_DEPTH_BUDGET dl) as [[reply|e] rtt]; injection Hr as <- <-.
  - exists (Ok reply), rtt. by rewrite extend_hops_stamped.
  - by exists (Err e), rtt.
Qed.

Lemma stamped_views rtt ups len offset : hop_view <$> stamped rtt len offset ups = hop_view <$> ups.
Proof.
  symmetry. apply list_eq_Forall2, Forall2_fmap. eapply Forall2_impl; [apply stamped_same|]. by intros h h' (_ & _ & _ & <-).
Qed.

Lemma walk_views nodes hs : Forall2 (fun nd h => exists l, node_hop nd = Some l /\ same_hop l h) nodes hs ->
  exists ls, mapM node_hop nodes = Some ls /\ hop_view <$> ls = hop_view <$> hs.
Proof.
  induction 1 as [|nd h nds hs (l & Hl & Hsame) Hn (ls & Hls & Hv)]; [by exists []|].
  exists (l :: ls). split; [cbn; rewrite Hl; cbn; by rewrite Hls|]. cbn. rewrite Hv. f_equal. by destruct Hsame as (_ & _ & _ & <-).
Qed.

End Summary.

Module CtlProps.


(** The hops of a whole chain are numbered 0, 1, 3, 5 and so on. *)
Lemma summary_hop_numbers `{Extern} `{UrlLib} `{TlsLib} `{!Postcard PredicateSet} `{!Postcard ChainHopReply} `{!Hex} `{Blake2} show nodes t s ix w hops :
  ctl_introspection s = Some ix -> ctl_client s = true -> wired nodes -> ask_upstream w = ask_chain show nodes ->
  snd (dispatch_request (RqChainSummary t) s w) = RsChainSummary hops false ->
  hop_index <$> hops = reply_indices (1 + zlen nodes).
Proof.
  intros Hix Hcl Hw Hask Hr. apply (summary_walk t s w ix hops false Hix Hcl) in Hr as (local & dl & reply & rtt & _ & Hl & Ha & -> & Hp).
  rewrite Hask in Ha. destruct reply as [reply|e]; [|done]. destruct (walk_complete _ _ _ _ _ _ Ha Hw (eq_sym Hp)) as (Hn & _).
  unfold reply_indices. rewrite fmap_cons, stamped_index, Hl. change (1 + 0) with 1. f_equal.
  replace (1 + zlen nodes - 1) with (zlen nodes) by lia. unfold zlen. by rewrite <- (Forall2_length _ _ _ Hn).
Qed.

(** A chain whose first hop cannot be reached is not a drift: the command exits
    with 0. *)
Lemma unreachable_exits_zero `{UrlLib} local :
  exists r, diff_report [local] true = Some r /\ drift_detected r = false /\ diff_exit r = 0.
Proof. by eexists. Qed.

Import CertProps RuleSetProps CanaryProbeProps AcceptorProps ControlProps.

(** A terminal below two relays and a gateway that have no set yet. *)
Definition demo_terminal : ControlState :=
  mkControl Terminal "home" None None [] store_new true (mkSupervisor true [] (mkRuleSet [] []))
    (Some (mkIntrospection (X25519 []) None None (Some demo_push_set) 0)) true false None None table_new (mkLanCidrs [] SourceDefault).
#[local] Existing Instances sized_postcard demo_opaque.
Definition demo_above : Surroundings :=
  mkSurroundings None 0 0 (ask_chain (fun _ => "") demo_nodes) [] None true "" true (fun _ => Err "") demo_canary_world (fun _ => 0, fun _ => 0).


End CtlProps.
