(* ===== verification/RulesWatch.v ===== *)
(** * Rule files ([yggdrasil/src/rules/])

    Loading a directory of rule files ([mod.rs]), the task that reloads it
    ([watcher.rs]), and the two together with the supervisor that applies what
    they deliver ([proxy/supervisor/reconcile.rs]).  The directory is a value;
    a run interleaves writes to it, the events of the file system, reload
    requests, the steps of the task and the turns of the supervisor. *)

From S2P Require Import Prelude RustStd External Instances RuleTypes Error Rule RuleSet LanCidrs NetFmt PubKey PeerState ChainTypes.
From S2P Require Import ProxyProtocol Resolver Certs HttpForward Companion Supervisor Reload.

(** The crates toml and serde: the text of a rule file. *)
Class RuleToml `{Extern} `{UrlLib} := { rule_file_from_str : string -> result toml_error RuleFile }.

Section Load.
Context `{Extern} `{UrlLib} `{!RuleToml}.

(** ** The directory *)

Record DirEntry := mkDirEntry { de_name : string; de_is_file : bool; de_contents : result io_error string }.

(** What [read_dir] gives: an error, or entries that may each fail. *)
Definition Directory : Type := result io_error (list (option DirEntry)).

(** [Path::extension] of a file name. *)
Definition extension (nm : string) : option string :=
  let rl := rev (Str.to_list nm) in
  match Str.drop_while (fun c => negb (bool_decide (c = "."%char))) rl with
  | [] | [_] => None
  | rest => Some (Str.of_list (rev (take (length rl - length rest) rl)))
  end.

Definition is_toml (e : DirEntry) : bool :=
  de_is_file e && match extension (de_name e) with Some x => eq_ignore_ascii_case x "toml" | None => false end.

(** The entries have the one parent, so that their paths are in the order of
    their names. *)
Definition entry_le (a b : DirEntry) : Prop := Str.le (de_name a) (de_name b).
#[local] Instance entry_le_dec : RelDecision entry_le.
Proof. intros a b. unfold entry_le, Str.le. apply _. Defined.

Definition read_toml_files (dir : string) (d : Directory) : Result (list (string * string)) :=
  entries ← map_err (ReadFile dir) d;
  try_collect (fun e => let path := Path.join dir (de_name e) in
                        contents ← map_err (ReadFile path) (de_contents e); Ok (path, contents))
    (merge_sort entry_le (List.filter is_toml (omap id entries))).

Definition file_from_toml (path contents : string) : Result RuleFile := map_err (TomlParse path) (rule_file_from_str contents).

Definition load_dir (dir : string) (d : Directory) : Result RuleSet :=
  files ← read_toml_files dir d;
  parsed ← try_collect (fun '(path, contents) => file_from_toml path contents) files;
  from_files parsed.

Record RuleUpdate := mkUpdate { ru_set : RuleSet; ru_diff : RuleDiff }.

(** ** The watcher *)

Inductive Worker := WIdle | WLoading | WSending (initial : bool) (u : RuleUpdate) | WExited.

Record RuleWatcher := mkRuleWatcher {
  rw_dir : string;
  rw_current : RuleSet;
  rw_pending : bool;               (** the channel of reload requests holds one *)
  rw_updates : list RuleUpdate;
  rw_completion : Z;
  rw_worker : Worker;
  rw_bridge : bool                 (** the thread of the file-system events runs *)
}.

Definition UPDATES_CAPACITY : nat := 8.

Definition watcher_spawn (dir : string) (d : Directory) : Result RuleWatcher :=
  initial ← load_dir dir d;
  Ok (mkRuleWatcher dir initial false [] 0 (WSending true (mkUpdate initial (as_initial_diff initial))) true).

Definition rw_with (w : RuleWatcher) (pending : bool) (wk : Worker) : RuleWatcher :=
  mkRuleWatcher (rw_dir w) (rw_current w) pending (rw_updates w) (rw_completion w) wk (rw_bridge w).
Definition rw_with_updates (w : RuleWatcher) (us : list RuleUpdate) : RuleWatcher :=
  mkRuleWatcher (rw_dir w) (rw_current w) (rw_pending w) us (rw_completion w) (rw_worker w) (rw_bridge w).

Definition exited (w : RuleWatcher) : bool := match rw_worker w with WExited => true | _ => false end.

(** [force_reload]: a request that is pending already stands for this one. *)
Definition force_reload (w : RuleWatcher) : RuleWatcher := if exited w then w else rw_with w true (rw_worker w).

(** [bridge_notify_events]: [Ok n] is a batch of [n] events. *)
Definition bridge_batch (w : RuleWatcher) (batch : result unit nat) : RuleWatcher :=
  if rw_bridge w then
    match batch with
    | Ok O => w
    | _ =>
        if exited w then mkRuleWatcher (rw_dir w) (rw_current w) (rw_pending w) (rw_updates w) (rw_completion w) (rw_worker w) false
        else force_reload w
    end
  else w.

Definition completed (w : RuleWatcher) (wk : Worker) : RuleWatcher :=
  mkRuleWatcher (rw_dir w) (rw_current w) (rw_pending w) (rw_updates w) (wrap 64 (rw_completion w + 1)) wk (rw_bridge w).

(** The turns of the task: a request is taken, the directory is read, the
    update is handed over when the channel has room, or the task ends because
    the supervisor is gone. *)
Definition worker_take (w : RuleWatcher) : option RuleWatcher :=
  match rw_worker w with WIdle => if rw_pending w then Some (rw_with w false WLoading) else None | _ => None end.

Definition worker_load (w : RuleWatcher) (d : Directory) : option RuleWatcher :=
  match rw_worker w with
  | WLoading =>
      match load_dir (rw_dir w) d with
      | Ok next =>
          let df := diff (rw_current w) next in
          if is_noop df then Some (completed w WIdle)
          else Some (mkRuleWatcher (rw_dir w) next (rw_pending w) (rw_updates w) (rw_completion w) (WSending false (mkUpdate next df)) (rw_bridge w))
      | Err _ => Some (completed w WIdle)
      end
  | _ => None
  end.

Definition worker_send (w : RuleWatcher) (receiver_open : bool) : option RuleWatcher :=
  match rw_worker w with
  | WSending initial u =>
      if receiver_open then
        if (length (rw_updates w) <? UPDATES_CAPACITY)%nat then
          let w' := rw_with_updates w (rw_updates w ++ [u]) in
          Some (if initial then rw_with w' (rw_pending w) WIdle else completed w' WIdle)
        else None
      else Some (rw_with w false WExited)
  | _ => None
  end.

Definition watcher_recv (w : RuleWatcher) : option (RuleUpdate * RuleWatcher) :=
  match rw_updates w with
  | u :: us => Some (u, rw_with_updates w us)
  | [] => None
  end.

(** [force_reload_and_wait] is over when the counter is not the one it saw. *)
Definition wait_over (seen : Z) (w : RuleWatcher) : bool := negb (rw_completion w =? seen).

End Load.

(** ** With the supervisor *)

Section Machine.
Context `{Extern} `{UrlLib} `{!RuleToml} `{TlsLib} `{HttpLib}.
Variable cfg : SupervisorConfig.

(** [unnoticed]: a write the file system has not reported yet. *)
Record Reloads := mkReloads {
  rl_disk : Directory;
  rl_unnoticed : bool;
  rl_watcher : RuleWatcher;
  rl_supervisor : Supervisor
}.

Inductive ReloadStep :=
  | RsWrite (d : Directory)
  | RsNotify (batch : result unit nat)
  | RsForce
  | RsTake
  | RsLoad
  | RsSend
  | RsApply (w : World)                  (** the supervisor takes an update *)
  | RsExternal (w : World) (set : RuleSet).

Definition with_watcher (s : Reloads) (w : RuleWatcher) : Reloads := mkReloads (rl_disk s) (rl_unnoticed s) w (rl_supervisor s).

Definition reload_step (s : Reloads) (st : ReloadStep) : option Reloads :=
  let w := rl_watcher s in
  match st with
  | RsWrite d => Some (mkReloads d true w (rl_supervisor s))
  | RsNotify batch =>
      Some (mkReloads (rl_disk s) (match batch with Ok O => rl_unnoticed s | _ => false end) (bridge_batch w batch) (rl_supervisor s))
  | RsForce => Some (with_watcher s (force_reload w))
  | RsTake => with_watcher s <$> worker_take w
  | RsLoad => with_watcher s <$> worker_load w (rl_disk s)
  | RsSend => with_watcher s <$> worker_send w true
  | RsApply wd =>
      '(u, w) ← watcher_recv w;
      Some (mkReloads (rl_disk s) (rl_unnoticed s) w (supervisor_step cfg (rl_supervisor s) (SvApply wd (ru_set u))))
  | RsExternal wd set =>
      Some (mkReloads (rl_disk s) (rl_unnoticed s) w (supervisor_step cfg (rl_supervisor s) (SvApply wd set)))
  end.

Fixpoint reload_run (s : Reloads) (sts : list ReloadStep) : option Reloads :=
  match sts with
  | [] => Some s
  | st :: sts => s ← reload_step s st; reload_run s sts
  end.

Definition reloads_start (dir : string) (d : Directory) : Result Reloads :=
  w ← watcher_spawn dir d;
  Ok (mkReloads d false w sv_new).

End Machine.

(** ** Facts *)

Section Facts.
Context `{Extern} `{UrlLib} `{!RuleToml} `{TlsLib} `{HttpLib}.
Variable cfg : SupervisorConfig.

Definition same_set (a b : RuleSet) : Prop := rules a ≡ₚ rules b /\ routes a = routes b.

Lemma load_dir_wf dir d set : load_dir dir d = Ok set -> rule_set_wf set.
Proof.
  unfold load_dir. rewrite result_bind_ok. intros (fs & _ & Hs). rewrite result_bind_ok in Hs.
  destruct Hs as (ps & _ & [_ Hwf]%from_files_ok). done.
Qed.

(** Nothing is on its way from the disk to the supervisor. *)
Definition quiescent (s : Reloads) : Prop :=
  rl_unnoticed s = false /\ rw_pending (rl_watcher s) = false /\ rw_worker (rl_watcher s) = WIdle /\ rw_updates (rl_watcher s) = [].

Definition sending (w : RuleWatcher) : list RuleUpdate := match rw_worker w with WSending _ u => [u] | _ => [] end.

Definition external (st : ReloadStep) : bool := match st with RsExternal _ _ => true | _ => false end.

Record reloads_inv (ext : bool) (s : Reloads) : Prop := {
  ri_wf : rule_set_wf (rw_current (rl_watcher s));
  ri_open : rw_worker (rl_watcher s) <> WExited /\ rw_bridge (rl_watcher s) = true;
  ri_seen : rl_unnoticed s = false -> rw_pending (rl_watcher s) = false -> rw_worker (rl_watcher s) <> WLoading ->
    forall set, load_dir (rw_dir (rl_watcher s)) (rl_disk s) = Ok set -> same_set (rw_current (rl_watcher s)) set;
  ri_last : ext = false ->
    last (current_set (rl_supervisor s) :: (ru_set <$> rw_updates (rl_watcher s) ++ sending (rl_watcher s))) = Some (rw_current (rl_watcher s))
}.

Lemma start_inv dir d s : reloads_start dir d = Ok s -> reloads_inv false s /\ rw_dir (rl_watcher s) = dir.
Proof.
  unfold reloads_start, watcher_spawn. rewrite result_bind_ok. intros (w & Hw & [= <-]). rewrite result_bind_ok in Hw.
  destruct Hw as (set & Hl & [= <-]). split; [|done]. split; cbn.
  - by eapply load_dir_wf.
  - done.
  - intros _ _ _ set' Hset. rewrite Hl in Hset. by injection Hset as <-.
  - done.
Qed.

Lemma last_snoc_keep {A} (x : A) l y : last (x :: l ++ [y]) = Some y.
Proof. change (x :: l ++ [y]) with ((x :: l) ++ [y]). apply last_snoc. Qed.

Lemma reload_step_inv ext s st s' :
  reload_step cfg s st = Some s' -> reloads_inv ext s ->
  reloads_inv (ext || external st) s' /\ rw_dir (rl_watcher s') = rw_dir (rl_watcher s).
Proof.
  intros Hst [Hwf [Hex Hbr] Hseen Hlast]. destruct s as [disk un [dir cur pend us gen wk br] sv]. cbn in *. subst br.
  destruct st as [d|batch| | | | |wd|wd set]; cbn in Hst.
  - injection Hst as <-. rewrite orb_false_r. split; [|done]. by split.
  - assert (exited (mkRuleWatcher dir cur pend us gen wk true) = false) as He by (by destruct wk).
    injection Hst as <-. rewrite orb_false_r. unfold bridge_batch, force_reload. cbn [rw_bridge]. rewrite He.
    destruct batch as [[|n]|e]; (split; [|done]); by split.
  - assert (exited (mkRuleWatcher dir cur pend us gen wk true) = false) as He by (by destruct wk).
    injection Hst as <-. rewrite orb_false_r. unfold force_reload. rewrite He. split; [|done]. by split.
  - unfold worker_take in Hst. cbn in Hst. destruct wk; try done. destruct pend; [|done]. injection Hst as <-.
    rewrite orb_false_r. split; [|done]. by split.
  - unfold worker_load in Hst. cbn in Hst. destruct wk; try done. rewrite orb_false_r.
    destruct (load_dir dir disk) as [next|e] eqn:Hl; cbn in Hst.
    2:{ injection Hst as <-. split; [|done]. split; try done. cbn. by rewrite Hl. }
    pose proof (load_dir_wf _ _ _ Hl) as Hwf'. destruct (is_noop (diff cur next)) eqn:Hn; injection Hst as <-; (split; [|done]); split; try done; cbn; rewrite ?Hl.
    + intros _ _ _ set [= <-]. by apply diff_noop in Hn; [|apply Hwf|apply Hwf'].
    + intros _ _ _ set [= <-]. done.
    + intros _. unfold sending. cbn. rewrite fmap_app. apply last_snoc_keep.
  - unfold worker_send in Hst. cbn -[Nat.ltb] in Hst. destruct wk as [| |init u|]; try done.
    destruct (length us <? UPDATES_CAPACITY)%nat; [|done]. cbn in Hst. injection Hst as <-. rewrite orb_false_r. cbn in Hseen, Hlast.
    destruct init; (split; [|done]); split; try done; cbn; try (intros ? ? _; by apply Hseen); by rewrite app_nil_r.
  - destruct us as [|u us]; [done|]. injection Hst as <-. rewrite orb_false_r. split; [|done]. by split.
  - injection Hst as <-. rewrite orb_true_r. split; [|done]. by split.
Qed.

Lemma reload_run_inv sts : forall ext s s',
  reload_run cfg s sts = Some s' -> reloads_inv ext s ->
  reloads_inv (ext || existsb external sts) s' /\ rw_dir (rl_watcher s') = rw_dir (rl_watcher s).
Proof.
  induction sts as [|st sts IH]; intros ext s s' Hr Hi; cbn in Hr.
  { injection Hr as <-. by rewrite orb_false_r. }
  destruct (reload_step cfg s st) as [s1|] eqn:Hs; [|done]. cbn in Hr.
  destruct (reload_step_inv _ _ _ _ Hs Hi) as [Hi1 Hd1]. destruct (IH _ _ _ Hr Hi1) as [Hi2 Hd2].
  cbn [existsb]. rewrite orb_assoc. by rewrite Hd2.
Qed.

Lemma reload_run_app sts1 sts2 s : reload_run cfg s (sts1 ++ sts2) = (s ← reload_run cfg s sts1; reload_run cfg s sts2).
Proof.
  revert s. induction sts1 as [|st sts IH]; intros s; cbn; [done|]. destruct (reload_step cfg s st) as [s1|]; cbn; [apply IH|done].
Qed.

(** ** A quiet point can be reached *)

Definition settles (s : Reloads) : Prop :=
  exists sts s', reload_run cfg s sts = Some s' /\ quiescent s' /\ rl_disk s' = rl_disk s /\ existsb external sts = false.

Lemma settles_step s st s1 :
  reload_step cfg s st = Some s1 -> external st = false -> rl_disk s1 = rl_disk s -> settles s1 -> settles s.
Proof.
  intros Hs He Hd (sts & s' & Hr & Hq & Hd' & He'). exists (st :: sts), s'. cbn. rewrite Hs. cbn.
  split; [done|]. split; [done|]. split; [congruence|]. by rewrite He, He'.
Qed.

(** The supervisor empties the channel. *)
Lemma settles_drain (wd : World) disk un dir cur pend us gen wk br : forall sv,
  (forall sv, settles (mkReloads disk un (mkRuleWatcher dir cur pend [] gen wk br) sv)) ->
  settles (mkReloads disk un (mkRuleWatcher dir cur pend us gen wk br) sv).
Proof.
  induction us as [|u us IH]; intros sv Hs; [done|].
  eapply (settles_step _ (RsApply wd)); [done|done|done|]. by apply IH.
Qed.

Lemma settles_idle disk dir cur gen sv : settles (mkReloads disk false (mkRuleWatcher dir cur false [] gen WIdle true) sv).
Proof. by exists [], (mkReloads disk false (mkRuleWatcher dir cur false [] gen WIdle true) sv). Qed.

Lemma settles_loading (wd : World) disk dir cur gen sv : settles (mkReloads disk false (mkRuleWatcher dir cur false [] gen WLoading true) sv).
Proof.
  destruct (load_dir dir disk) as [next|e] eqn:Hl.
  - destruct (is_noop (diff cur next)) eqn:Hn.
    + eapply (settles_step _ RsLoad); [unfold reload_step, worker_load; cbn; rewrite Hl; cbn; by rewrite Hn|done|done|]. apply settles_idle.
    + eapply (settles_step _ RsLoad); [unfold reload_step, worker_load; cbn; rewrite Hl; cbn; by rewrite Hn|done|done|].
      eapply (settles_step _ RsSend); [done|done|done|]. eapply (settles_step _ (RsApply wd)); [done|done|done|]. apply settles_idle.
  - eapply (settles_step _ RsLoad); [unfold reload_step, worker_load; cbn; by rewrite Hl|done|done|]. apply settles_idle.
Qed.

(** From an idle task: the event of the file system, and one more reload. *)
Lemma settles_request (wd : World) disk un dir cur pend gen sv : settles (mkReloads disk un (mkRuleWatcher dir cur pend [] gen WIdle true) sv).
Proof.
  eapply (settles_step _ (RsNotify (Ok 1%nat))); [done|done|done|]. eapply (settles_step _ RsTake); [done|done|done|]. by apply settles_loading.
Qed.

Lemma settles_always (wd : World) ext s : reloads_inv ext s -> settles s.
Proof.
  intros [Hwf [Hex Hbr] _ _]. destruct s as [disk un [dir cur pend us gen wk br] sv]. cbn in *. subst br.
  apply (settles_drain wd). clear sv. intros sv. destruct wk as [| |init u|]; [by apply settles_request| | |done].
  - destruct (load_dir dir disk) as [next|e] eqn:Hl.
    + destruct (is_noop (diff cur next)) eqn:Hn;
        (eapply (settles_step _ RsLoad); [unfold reload_step, worker_load; cbn; rewrite Hl; cbn; by rewrite Hn|done|done|]); [by apply settles_request|].
      eapply (settles_step _ RsSend); [done|done|done|]. apply (settles_drain wd). intros. by apply settles_request.
    + eapply (settles_step _ RsLoad); [unfold reload_step, worker_load; cbn; by rewrite Hl|done|done|]. by apply settles_request.
  - eapply (settles_step _ RsSend); [done|done|done|]. destruct init; apply (settles_drain wd); intros; by apply settles_request.
Qed.

(** A set pushed over the control socket stays when the files are reloaded:
    the watcher compares the files with what it last read from them, and a
    reload of unchanged files is dropped. *)
Lemma reload_keeps_pushed_set s wd set :
  quiescent s -> reloads_inv true s -> same_set (rw_current (rl_watcher s)) set -> load_dir (rw_dir (rl_watcher s)) (rl_disk s) = Ok set ->
  forall pushed, exists s', reload_run cfg s [RsExternal wd pushed; RsForce; RsTake; RsLoad] = Some s' /\ quiescent s'
    /\ current_set (rl_supervisor s') = pushed /\ rw_completion (rl_watcher s') = wrap 64 (rw_completion (rl_watcher s) + 1).
Proof.
  intros (Hu & Hp & Hw & Hq) [Hwf _ _ _] Hsame Hl pushed. destruct s as [disk un [dir cur pend us gen wk br] sv]. cbn in *. subst.
  assert (is_noop (diff cur set) = true) as Hn by (apply diff_noop; [apply Hwf|by eapply load_dir_wf, Hl|apply Hsame]).
  unfold reload_run, reload_step, force_reload, worker_take, worker_load. cbn -[apply_set].
  rewrite Hl. cbn -[apply_set]. rewrite Hn. cbn -[apply_set]. eexists. split; [done|]. by split.
Qed.

(** A request made while an older reload is being delivered is reported done
    by that one, before the directory is read again. *)
Lemma reload_reported_early s init u :
  rw_worker (rl_watcher s) = WSending init u -> init = false -> length (rw_updates (rl_watcher s)) = 0%nat ->
  0 <= rw_completion (rl_watcher s) < 2 ^ 64 - 1 ->
  forall d, exists s', reload_run cfg s [RsWrite d; RsForce; RsSend] = Some s'
    /\ wait_over (rw_completion (rl_watcher s)) (rl_watcher s') = true
    /\ rw_pending (rl_watcher s') = true /\ rw_current (rl_watcher s') = rw_current (rl_watcher s).
Proof.
  destruct s as [disk un [dir cur pend us gen wk br] sv]. cbn. intros -> -> Hlen Hg d. destruct us; [|done].
  eexists. split; [done|]. split; [|done]. cbn. unfold wait_over. cbn. apply negb_true_iff, Z.eqb_neq. unfold wrap. rewrite Z.mod_small by lia. lia.
Qed.

End Facts.

Module RulesWatchProps.

(** C16: The running rules follow the files.  From a directory that loads, over
    any interleaving of writes, file-system events (lost, merged or repeated),
    reload requests, pushes from elsewhere and the steps of the reload task and
    the supervisor: the set the task last read is valid; when nothing is on its
    way any more, it holds the rules and routes of the directory as it is now
    whenever the directory loads, and, when nothing was pushed from elsewhere,
    it is the supervisor's set.  And from every such point, without further
    writes or pushes, a point where nothing is on its way can be reached. *)
Theorem running_rules_follow_files `{Extern} `{UrlLib} `{!RuleToml} `{TlsLib} `{HttpLib} cfg dir d s sts s' (wd : World) :
  reloads_start dir d = Ok s -> reload_run cfg s sts = Some s' ->
  rule_set_wf (rw_current (rl_watcher s'))
  /\ (quiescent s' ->
       (forall set, load_dir dir (rl_disk s') = Ok set -> same_set (rw_current (rl_watcher s')) set)
       /\ (existsb external sts = false -> current_set (rl_supervisor s') = rw_current (rl_watcher s')))
  /\ settles cfg s'.
Proof.
  intros Hstart Hrun. destruct (start_inv _ _ _ Hstart) as [Hi Hd]. destruct (reload_run_inv _ _ _ _ _ Hrun Hi) as [Hi' Hd'].
  rewrite Hd in Hd'. split; [apply Hi'|]. split; [|by eapply settles_always].
  intros (Hu & Hp & Hw & Hq). split.
  - intros set Hl. rewrite <- Hd' in Hl. eapply ri_seen; try done. by rewrite Hw.
  - intros He. cbn in Hi'. rewrite He in Hi'. pose proof (ri_last _ _ Hi' eq_refl) as Hlast. unfold sending in Hlast. rewrite Hw, Hq in Hlast.
    by injection Hlast.
Qed.

Import CertProps HttpForwardProps ReloadProps.

(** A file of this format holds the name of one rule. *)
#[local] Instance name_toml : RuleToml := {|
  rule_file_from_str text :=
    if Str.is_empty text then Err "empty"
    else Ok (mkRuleFile [RuleSetProps.demo_rule text (Z.of_nat (Str.len text))] []) |}.

Definition demo_dir : Directory := Ok [Some (mkDirEntry "b.TOML" true (Ok "web")); None; Some (mkDirEntry ".toml" true (Ok "")); Some (mkDirEntry "x" true (Ok ""))].
Definition demo_dir' : Directory := Ok [Some (mkDirEntry "b.toml" true (Ok "web")); Some (mkDirEntry "a.toml" true (Ok "game"))].
Definition demo_reloads : list ReloadStep :=
  [RsSend; RsApply demo_world; RsWrite demo_dir'; RsNotify (Ok 2%nat); RsForce; RsTake; RsLoad; RsSend; RsApply demo_world].

Definition is_quiet (s : Reloads) : bool :=
  negb (rl_unnoticed s) && negb (rw_pending (rl_watcher s))
  && match rw_worker (rl_watcher s), rw_updates (rl_watcher s) with WIdle, [] => true | _, _ => false end.
Lemma is_quiet_quiescent s : is_quiet s = true -> quiescent s.
Proof.
  unfold is_quiet, quiescent. rewrite !andb_true_iff, !negb_true_iff. intros [[-> ->] Hw]. by destruct (rw_worker _), (rw_updates _).
Qed.

Lemma running_rules_follow_files_witness :
  exists s s', reloads_start "/etc/conf.d" demo_dir = Ok s /\ reload_run demo_sv_config s demo_reloads = Some s'
    /\ rules (current_set (rl_supervisor s')) ≡ₚ [RuleSetProps.demo_rule "web" 3; RuleSetProps.demo_rule "game" 4].
Proof.
  assert (exists s, reloads_start "/etc/conf.d" demo_dir = Ok s) as [s Hs] by (eexists; vm_compute; reflexivity).
  assert (match reload_run demo_sv_config s demo_reloads with
          | Some s' => is_quiet s' = true /\ load_dir "/etc/conf.d" (rl_disk s') = Ok (mkRuleSet [RuleSetProps.demo_rule "game" 4; RuleSetProps.demo_rule "web" 3] [])
          | None => False
          end) as Hrun.
  { vm_compute in Hs. injection Hs as <-. vm_compute. done. }
  destruct (reload_run demo_sv_config s demo_reloads) as [s'|] eqn:Hr; [|done]. destruct Hrun as [Hq%is_quiet_quiescent Hl].
  destruct (running_rules_follow_files demo_sv_config _ _ _ _ _ demo_world Hs Hr) as (_ & Hquiet & _).
  destruct (Hquiet Hq) as [Hsame Hcur]. exists s, s'. split; [done|]. split; [done|]. rewrite (Hcur eq_refl).
  destruct (Hsame _ Hl) as [-> _]. cbn. apply perm_swap.
Defined.

End RulesWatchProps.
