(* ===== verification/Enrollment.v ===== *)
(** * Enrollment ([ratatoskr/src/enrollment.rs], [yggdrasilctl/src/identity.rs])

    The request and grant files two operators exchange, and the commands that
    write and read them beside the identity file and the daemon's
    configuration.  The file system is a value; [writable] says which paths can
    be created and written. *)

From S2P Require Import Prelude RustStd External Instances RuleTypes Error ControlFrame PubKey Auth Rule RuleSet LanCidrs NetFmt Certs Config Acme.

Definition FORMAT_VERSION : Z := 1.

(** The one table of a request file and of a grant file. *)
Record RequestFile := mkRequest { rq_version : Z; rq_pubkey : PubKey; rq_fingerprint : string; rq_issued_at : Z; rq_note : string }.
Record GrantFile := mkGrant {
  gr_version : Z;
  gr_accept_pubkey : PubKey;
  gr_accept_fingerprint : string;
  gr_accept_endpoint : string;
  gr_dial_pubkey : PubKey;
  gr_dial_fingerprint : string;
  gr_issued_at : Z;
  gr_note : string
}.

(** A [toml::Value]; the values the commands do not look at are opaque. *)
Inductive Toml :=
  | TomlString (s : string)
  | TomlTable (t : gmap string Toml)
  | TomlOther (text : string).

(** The crates toml and serde. *)
Class EnrollToml `{Extern} := {
  request_to_string : RequestFile -> option string;
  request_from_str : string -> result toml_error RequestFile;
  grant_to_string : GrantFile -> option string;
  grant_from_str : string -> result toml_error GrantFile;
  doc_to_string : Toml -> option string;
  doc_from_str : string -> result toml_error Toml
}.

(** What is written is text, and reads back. *)
Class EnrollTomlLaws `{EnrollToml} : Prop := {
  request_roundtrip f t : request_to_string f = Some t -> request_from_str t = Ok f /\ Utf8.from_utf8 (Str.to_bytes t) = Some t;
  grant_roundtrip f t : grant_to_string f = Some t -> grant_from_str t = Ok f /\ Utf8.from_utf8 (Str.to_bytes t) = Some t;
  doc_roundtrip d t : doc_to_string d = Some t -> doc_from_str t = Ok d /\ Utf8.from_utf8 (Str.to_bytes t) = Some t
}.

Section Enrollment.
Context `{Extern} `{!Hex} `{Blake2} `{!EnrollToml}.

(** ** The files *)

Definition request_new (pubkey : PubKey) (issued_at : Z) (note : string) : RequestFile :=
  mkRequest FORMAT_VERSION pubkey (fingerprint pubkey) issued_at note.

Definition request_from_toml (text : string) : Result RequestFile :=
  f ← map_err (TomlParse "<request>") (request_from_str text);
  if negb (rq_version f =? FORMAT_VERSION) then Err (InvalidEnrollmentToken (RequestVersionUnsupported (rq_version f)))
  else
    let expected := fingerprint (rq_pubkey f) in
    if negb (bool_decide (expected = rq_fingerprint f)) then Err (InvalidEnrollmentToken (RequestFingerprintMismatch (rq_fingerprint f) expected))
    else Ok f.

Definition grant_new (request : RequestFile) (accept_pubkey : PubKey) (accept_endpoint : string) (issued_at : Z) (note : string) : GrantFile :=
  mkGrant FORMAT_VERSION accept_pubkey (fingerprint accept_pubkey) accept_endpoint (rq_pubkey request) (fingerprint (rq_pubkey request)) issued_at note.

Definition grant_from_toml (text : string) : Result GrantFile :=
  f ← map_err (TomlParse "<grant>") (grant_from_str text);
  if negb (gr_version f =? FORMAT_VERSION) then Err (InvalidEnrollmentToken (GrantVersionUnsupported (gr_version f)))
  else
    let exp_a := fingerprint (gr_accept_pubkey f) in
    if negb (bool_decide (exp_a = gr_accept_fingerprint f)) then Err (InvalidEnrollmentToken (GrantAcceptFingerprintMismatch (gr_accept_fingerprint f) exp_a))
    else
      let exp_d := fingerprint (gr_dial_pubkey f) in
      if negb (bool_decide (exp_d = gr_dial_fingerprint f)) then Err (InvalidEnrollmentToken (GrantDialFingerprintMismatch (gr_dial_fingerprint f) exp_d))
      else if Str.is_empty (Str.trim (gr_accept_endpoint f)) then Err (InvalidEnrollmentToken GrantEndpointEmpty)
      else Ok f.

(** ** The commands *)

Inductive CliError :=
  | NoIdentity | IdentityUnreadable (e : option Error.Error) | EnrollmentUnreadable (e : option Error.Error)
  | WrongGrant (dial local : PubKey) | EndpointShape | ConfigUnreadable | NotATable | Serialise
  | WriteFailed (path : string) | AlreadyExists (path : string)
  | NeedForce | NotATty | FingerprintTypedWrong (expected : string) | GenerateFailed
  | NoConfig | NoSection.

Variable writable : string -> bool.
Variable umask : Z.

(** [read_to_string]: a file that is there and is text. *)
Definition read_to_string (fs : Fs) (path : string) : option string := f ← fs !! path; Utf8.from_utf8 (contents f).

Definition path_exists (fs : Fs) (path : string) : bool := bool_decide (is_Some (fs !! path)).

Definition load_from_file (fs : Fs) (path : string) : result CliError StaticKeyPair :=
  match fs !! path with
  | Some f => map_err (fun e => IdentityUnreadable (Some e)) (from_identity_bytes (contents f))
  | None => Err (IdentityUnreadable None)
  end.

Definition request_read (fs : Fs) (path : string) : result CliError RequestFile :=
  text ← ok_or (EnrollmentUnreadable None) (read_to_string fs path);
  map_err (fun e => EnrollmentUnreadable (Some e)) (request_from_toml text).
Definition grant_read (fs : Fs) (path : string) : result CliError GrantFile :=
  text ← ok_or (EnrollmentUnreadable None) (read_to_string fs path);
  map_err (fun e => EnrollmentUnreadable (Some e)) (grant_from_toml text).

Definition DEFAULT_IDENTITY_FILE : string := "/etc/yggdrasil/identity.key".

Definition get (k : string) (v : Toml) : option Toml := match v with TomlTable t => t !! k | _ => None end.
Definition as_str (v : Toml) : option string := match v with TomlString s => Some s | _ => None end.

Definition resolve_identity_file (explicit : option string) (fs : Fs) (config_path : string) : result CliError string :=
  match explicit with
  | Some p => Ok p
  | None =>
      if path_exists fs config_path then
        text ← ok_or ConfigUnreadable (read_to_string fs config_path);
        Ok match doc_from_str text with
           | Ok doc => default DEFAULT_IDENTITY_FILE (s ← get "server" doc; v ← get "identity_file" s; as_str v)
           | Err _ => DEFAULT_IDENTITY_FILE
           end
      else Ok DEFAULT_IDENTITY_FILE
  end.

Definition load_config_doc (fs : Fs) (path : string) : result CliError Toml :=
  if path_exists fs path then
    text ← ok_or ConfigUnreadable (read_to_string fs path);
    map_err (fun _ => ConfigUnreadable) (doc_from_str text)
  else Ok (TomlTable ∅).

(** [Path::with_extension] of a path with a file name. *)
Definition with_extension (path ext : string) : string :=
  let rl := rev (Str.to_list path) in
  let name_len := (length rl - length (Str.drop_while (fun c => negb (bool_decide (c = Path.SEP))) rl))%nat in
  let stem :=
    match Str.drop_while (fun c => negb (bool_decide (c = "."%char))) (take name_len rl) with
    | [] | [_] => rl
    | _ :: rest => rest ++ drop name_len rl
    end in
  Str.of_list (rev stem) +:+ "." +:+ ext.

Definition save_config_doc (fs : Fs) (path : string) (doc : Toml) : Fs * result CliError unit :=
  match doc_to_string doc with
  | None => (fs, Err Serialise)
  | Some serialised =>
      let tmp := with_extension path "toml.tmp" in
      let mode := default (created_mode umask) (file_mode <$> fs !! tmp) in
      if writable tmp then
        let f := mkFile (Str.to_bytes serialised) mode in
        if writable path then (<[path := f]> (delete tmp fs), Ok tt) else (<[tmp := f]> fs, Err (WriteFailed path))
      else (fs, Err (WriteFailed tmp))
  end.

Definition write_file_secret (fs : Fs) (path : string) (bytes : list byte) : Fs * result CliError unit :=
  if negb (writable path) then (fs, Err (WriteFailed path))
  else if path_exists fs path then (fs, Err (AlreadyExists path))
  else (<[path := mkFile bytes 384]> fs, Ok tt).

Definition load_identity (explicit : option string) (fs : Fs) (config_path : string) : result CliError StaticKeyPair :=
  identity_file ← resolve_identity_file explicit fs config_path;
  if path_exists fs identity_file then load_from_file fs identity_file else Err NoIdentity.

Definition show (explicit : option string) (fs : Fs) (config_path : string) : result CliError (string * string) :=
  kp ← load_identity explicit fs config_path;
  Ok (to_string (public_key kp), fingerprint (public_key kp)).

(** What [export-request] writes to the file or prints. *)
Definition export_request (identity : option string) (out : option string) (note : string) (now : Z) (config_path : string) (fs : Fs) :
    Fs * result CliError string :=
  match kp ← load_identity identity fs config_path; ok_or Serialise (request_to_string (request_new (public_key kp) now note)) with
  | Err e => (fs, Err e)
  | Ok toml_str =>
      match out with
      | None => (fs, Ok toml_str)
      | Some path => let '(fs, r) := write_file_secret fs path (Str.to_bytes toml_str) in (fs, _ ← r; Ok toml_str)
      end
  end.

(** A section of the configuration with some of its keys written. *)
Definition set_keys (section : string) (kvs : list (string * string)) (doc : Toml) : result CliError Toml :=
  match doc with
  | TomlTable top =>
      match default (TomlTable ∅) (top !! section) with
      | TomlTable t => Ok (TomlTable (<[section := TomlTable (foldl (fun t kv => <[fst kv := TomlString (snd kv)]> t) t kvs)]> top))
      | _ => Err NotATable
      end
  | _ => Err NotATable
  end.

Definition write_section (section : string) (kvs : list (string * string)) (config_path : string) (fs : Fs) : Fs * result CliError unit :=
  match doc ← load_config_doc fs config_path; set_keys section kvs doc with
  | Err e => (fs, Err e)
  | Ok doc => save_config_doc fs config_path doc
  end.

(** [update_downstream_pubkey] of [control/handlers/accept.rs], the daemon's
    own rewrite when a peer is approved. *)
Definition update_downstream_pubkey (config_path tagged_pubkey : string) (fs : Fs) : Fs * result CliError unit :=
  match text ← ok_or ConfigUnreadable (read_to_string fs config_path);
        doc ← map_err (fun _ => ConfigUnreadable) (doc_from_str text);
        set_keys "accept" [("pubkey", tagged_pubkey)] doc with
  | Err e => (fs, Err e)
  | Ok doc => save_config_doc fs config_path doc
  end.

Definition add_dial (from : string) (identity : option string) (config_path : string) (fs : Fs) : Fs * result CliError unit :=
  match kp ← load_identity identity fs config_path; grant ← grant_read fs from; Ok (public_key kp, grant) with
  | Err e => (fs, Err e)
  | Ok (local_pubkey, grant) =>
      if negb (bool_decide (gr_dial_pubkey grant = local_pubkey)) then (fs, Err (WrongGrant (gr_dial_pubkey grant) local_pubkey))
      else write_section "dial" [("pubkey", to_string (gr_accept_pubkey grant)); ("endpoint", gr_accept_endpoint grant)] config_path fs
  end.

Definition add_accept (from my_endpoint out : string) (identity : option string) (note : string) (now : Z) (config_path : string) (fs : Fs) :
    Fs * result CliError unit :=
  match kp ← load_identity identity fs config_path;
        _ ← reject (negb (has_char ":" my_endpoint)) EndpointShape;
        req ← request_read fs from;
        text ← ok_or Serialise (grant_to_string (grant_new req (public_key kp) my_endpoint now note));
        Ok (rq_pubkey req, text) with
  | Err e => (fs, Err e)
  | Ok (dial_pubkey, grant_toml) =>
      match write_file_secret fs out (Str.to_bytes grant_toml) with
      | (fs, Err e) => (fs, Err e)
      | (fs, Ok _) => write_section "accept" [("pubkey", to_string dial_pubkey)] config_path fs
      end
  end.

Definition remove_top_section (section config_path : string) (fs : Fs) : Fs * result CliError unit :=
  if path_exists fs config_path then
    match load_config_doc fs config_path with
    | Err e => (fs, Err e)
    | Ok (TomlTable top) =>
        if bool_decide (is_Some (top !! section)) then save_config_doc fs config_path (TomlTable (delete section top)) else (fs, Err NoSection)
    | Ok _ => (fs, Err NotATable)
    end
  else (fs, Err NoConfig).

(** What the operator types at the prompt; [None]: no terminal. *)
Definition confirm (kp : StaticKeyPair) (yes : bool) (typed : option string) : result CliError unit :=
  if yes then Ok tt
  else
    let current_short := Str.of_list (firstn 8 (Str.to_list (fingerprint (public_key kp)))) in
    match typed with
    | None => Err NotATty
    | Some line =>
        if bool_decide (Str.to_ascii_lowercase (Str.trim line) = Str.to_ascii_lowercase current_short) then Ok tt
        else Err (FingerprintTypedWrong current_short)
    end.

(** [generated]: the key pair snow makes, if it does. *)
Definition rotate (identity : option string) (force yes : bool) (typed : option string) (generated : option StaticKeyPair) (config_path : string) (fs : Fs) :
    Fs * result CliError PubKey :=
  match resolve_identity_file identity fs config_path with
  | Err e => (fs, Err e)
  | Ok identity_file =>
      let cleared :=
        if path_exists fs identity_file then
          _ ← reject (negb force) NeedForce;
          current_kp ← load_from_file fs identity_file;
          _ ← confirm current_kp yes typed;
          Ok (delete identity_file fs)
        else Ok fs in
      match cleared with
      | Err e => (fs, Err e)
      | Ok fs =>
          match generated with
          | None => (fs, Err GenerateFailed)
          | Some kp =>
              let '(fs, r) := write_file_secret fs identity_file (to_identity_bytes kp) in
              (fs, _ ← r; Ok (public_key kp))
          end
      end
  end.

End Enrollment.

(** ** Facts *)

(** The string at a key of a section. *)
Definition section_str (section key : string) (doc : Toml) : option string := t ← get section doc; v ← get key t; as_str v.

Section Facts.
Context `{Extern} `{!Hex} `{Blake2} `{!EnrollToml} `{!EnrollTomlLaws}.

Lemma request_from_toml_new pk now note text :
  request_to_string (request_new pk now note) = Some text -> request_from_toml text = Ok (request_new pk now note).
Proof.
  intros [Hr _]%request_roundtrip. unfold request_from_toml. rewrite Hr. cbn. by rewrite bool_decide_true.
Qed.

Lemma grant_from_toml_new req pk ep now note text :
  blank ep = false -> grant_to_string (grant_new req pk ep now note) = Some text -> grant_from_toml text = Ok (grant_new req pk ep now note).
Proof.
  intros Hep [Hr _]%grant_roundtrip. unfold grant_from_toml. rewrite Hr. cbn -[Str.is_empty Str.trim]. rewrite !bool_decide_true by done. cbn -[Str.is_empty Str.trim].
  unfold blank in Hep. by rewrite Hep.
Qed.

Lemma load_identity_wf identity fs config_path kp : load_identity identity fs config_path = Ok kp -> StaticKeyPair_wf kp.
Proof.
  unfold load_identity, load_from_file. rewrite result_bind_ok. intros (p & _ & Hk). destruct (path_exists fs p); [|done].
  destruct (fs !! p) as [f|]; [|done]. destruct (from_identity_bytes (contents f)) as [kp'|] eqn:Hf; [|done]. injection Hk as ->.
  by apply from_identity_bytes_inv in Hf as [? _].
Qed.

Lemma save_config_ok writable umask fs path doc fs' :
  save_config_doc writable umask fs path doc = (fs', Ok tt) ->
  load_config_doc fs' path = Ok doc /\ (forall p, p <> path -> p <> with_extension path "toml.tmp" -> fs' !! p = fs !! p)
  /\ file_mode <$> fs' !! path = Some (default (created_mode umask) (file_mode <$> fs !! with_extension path "toml.tmp")).
Proof.
  unfold save_config_doc. destruct (doc_to_string doc) as [text|] eqn:Ht; [|done]. destruct (writable (with_extension path "toml.tmp")); [|done].
  destruct (writable path); [|done]. intros [= <-]. apply doc_roundtrip in Ht as [Hd Hu]. split_and!.
  - unfold load_config_doc, path_exists, read_to_string. rewrite lookup_insert_eq, bool_decide_true by done. cbn [mbind option_bind contents].
    rewrite Hu. cbn. by rewrite Hd.
  - intros p Hp Htmp. by rewrite lookup_insert_ne, lookup_delete_ne by done.
  - by rewrite lookup_insert_eq.
Qed.

Lemma foldl_keys_other kvs : forall (t : gmap string Toml) k, k ∉ kvs.*1 -> foldl (fun t kv => <[fst kv := TomlString (snd kv)]> t) t kvs !! k = t !! k.
Proof.
  induction kvs as [|[k' v] kvs IH]; intros t k Hk; [done|]. cbn in *. rewrite IH by set_solver. apply lookup_insert_ne. set_solver.
Qed.
Lemma foldl_keys_set kvs : forall (t : gmap string Toml) k v,
  NoDup kvs.*1 -> (k, v) ∈ kvs -> foldl (fun t kv => <[fst kv := TomlString (snd kv)]> t) t kvs !! k = Some (TomlString v).
Proof.
  induction kvs as [|[k' v'] kvs IH]; intros t k v; [by intros _ ?%not_elem_of_nil|]. cbn.
  intros [Hn Hnd]%NoDup_cons [[= -> ->]|Hin]%elem_of_cons; [|by apply IH]. rewrite foldl_keys_other by done. apply lookup_insert_eq.
Qed.

(** A written section has the keys, and the rest of the configuration is as it
    was. *)
Lemma write_section_ok writable umask section kvs path fs fs' :
  NoDup kvs.*1 -> write_section writable umask section kvs path fs = (fs', Ok tt) ->
  exists top t', load_config_doc fs path = Ok (TomlTable top) /\ load_config_doc fs' path = Ok (TomlTable (<[section := TomlTable t']> top))
    /\ (forall k v, (k, v) ∈ kvs -> t' !! k = Some (TomlString v))
    /\ (forall k, k ∉ kvs.*1 -> t' !! k = (get section (TomlTable top) ≫= get k))
    /\ (forall p, p <> path -> p <> with_extension path "toml.tmp" -> fs' !! p = fs !! p).
Proof.
  intros Hnd. unfold write_section. destruct (load_config_doc fs path) as [doc|]; [|done]. cbn [mbind result_bind].
  destruct doc as [|top|]; try done. unfold set_keys.
  destruct (default (TomlTable ∅) (top !! section)) as [|t|] eqn:Hd; try done. intros (Hl & Hp & _)%save_config_ok.
  eexists _, _. split; [done|]. split; [done|]. split; [intros; by apply foldl_keys_set|]. split; [|done].
  intros k Hk. rewrite foldl_keys_other by done. cbn. destruct (top !! section) as [x|]; cbn in *; [by subst|]. by injection Hd as <-.
Qed.

(** An approved peer is still the enrolled one when the daemon reads its
    configuration again. *)
Lemma approved_pin_kept `{!HexLaws} writable umask path pk fs fs' :
  PubKey_wf pk -> update_downstream_pubkey writable umask path (to_string pk) fs = (fs', Ok tt) ->
  exists doc s, load_config_doc fs' path = Ok doc /\ section_str "accept" "pubkey" doc = Some s /\ from_str s = Ok pk.
Proof.
  intros Hwf. unfold update_downstream_pubkey. destruct (read_to_string fs path) as [text|]; [|done]. cbn [mbind result_bind ok_or].
  destruct (doc_from_str text) as [doc|]; [|done]. cbn [mbind result_bind map_err]. destruct doc as [|top|]; try done.
  unfold set_keys. destruct (default (TomlTable ∅) (top !! "accept")) as [|t|]; try done. intros (Hl & _)%save_config_ok.
  eexists _, (to_string pk). split; [done|]. split; [|by apply from_str_to_string]. unfold section_str, get. rewrite lookup_insert_eq. cbn.
  by rewrite lookup_insert_eq.
Qed.

(** Confirming a rotation takes one digit of the fingerprint. *)
Lemma confirm_one_digit kp c rest :
  Str.to_list (x25519_fingerprint_hex (raw_bytes (public_key kp))) = c :: rest ->
  forall line, Str.trim line = Str.of_list (Str.to_list "x25519:" ++ [c]) -> confirm kp false (Some line) = Ok tt.
Proof.
  intros Hh line Hline. unfold confirm. rewrite Hline.
  assert (firstn 8 (Str.to_list (fingerprint (public_key kp))) = Str.to_list "x25519:" ++ [c]) as ->.
  { destruct kp as [sec pub]. cbn in Hh. unfold fingerprint. cbn [public_key]. rewrite Str.to_list_app, Hh. done. }
  by rewrite bool_decide_true.
Qed.

(** A rotation that cannot make a key has already removed the old one. *)
Lemma rotate_loses_identity writable path config_path fs kp :
  fs !! path = Some kp -> is_ok (from_identity_bytes (contents kp)) = true ->
  rotate writable (Some path) true true None None config_path fs = (delete path fs, Err GenerateFailed).
Proof.
  intros Hp Hk. unfold rotate, resolve_identity_file, path_exists, load_from_file. rewrite Hp, bool_decide_true by done.
  cbn. by destruct (from_identity_bytes (contents kp)).
Qed.

(** A configuration file is replaced by one with the mode of a new file,
    whatever its mode was. *)
Lemma rewritten_config_mode writable umask section kvs path fs fs' :
  write_section writable umask section kvs path fs = (fs', Ok tt) -> fs !! with_extension path "toml.tmp" = None ->
  file_mode <$> fs' !! path = Some (created_mode umask).
Proof.
  unfold write_section. destruct (load_config_doc fs path ≫= _) as [doc|]; [|done]. intros (_ & _ & Hm)%save_config_ok Hn. by rewrite Hm, Hn.
Qed.

Lemma add_dial_granted writable umask from identity config_path fs kp grant :
  load_identity identity fs config_path = Ok kp -> grant_read fs from = Ok grant ->
  add_dial writable umask from identity config_path fs =
    if bool_decide (gr_dial_pubkey grant = public_key kp)
    then write_section writable umask "dial" [("pubkey", to_string (gr_accept_pubkey grant)); ("endpoint", gr_accept_endpoint grant)] config_path fs
    else (fs, Err (WrongGrant (gr_dial_pubkey grant) (public_key kp))).
Proof. intros Hk Hg. unfold add_dial. rewrite Hk, Hg. cbn. by case_bool_decide. Qed.

Lemma add_accept_ok writable umask from ep out identity note now config_path fs fs' :
  add_accept writable umask from ep out identity note now config_path fs = (fs', Ok tt) ->
  exists kp req text, load_identity identity fs config_path = Ok kp /\ request_read fs from = Ok req
    /\ grant_to_string (grant_new req (public_key kp) ep now note) = Some text
    /\ write_section writable umask "accept" [("pubkey", to_string (rq_pubkey req))] config_path (<[out := mkFile (Str.to_bytes text) 384]> fs) = (fs', Ok tt).
Proof.
  unfold add_accept. destruct (load_identity identity fs config_path) as [kp|]; [|done]. cbn [mbind result_bind].
  destruct (reject _ _); [|done]. cbn [mbind result_bind]. destruct (request_read fs from) as [req|]; [|done]. cbn [mbind result_bind].
  destruct (grant_to_string _) as [text|] eqn:Ht; [|done]. cbn [mbind result_bind ok_or]. unfold write_file_secret.
  destruct (negb _); [done|]. destruct (path_exists fs out); [done|]. intros Hw. by exists kp, req, text.
Qed.

Lemma read_text fs path f text :
  fs !! path = Some f -> contents f = Str.to_bytes text -> Utf8.from_utf8 (Str.to_bytes text) = Some text -> read_to_string fs path = Some text.
Proof. intros Hf Hc Hu. unfold read_to_string. rewrite Hf. cbn. by rewrite Hc. Qed.

End Facts.

Module EnrollmentProps.

(** C17: The exchange of files enrolls the two nodes with each other.  When the
    dialling side exports a request, the file reaches the accepting side, that
    side's [add-accept] succeeds and its grant reaches the dialling side: then
    [add-dial] there does nothing but write its [[dial]] section; the two
    configurations name each other's public key, in a form that parses back to
    the very key of the identity file, with the endpoint the accepting operator
    gave, and every other section, and every other key of the two sections, is
    as it was.  On a node with any other key the same grant is refused and
    nothing is written. *)
Theorem enrollment_pins `{Extern} `{!Hex} `{!HexLaws} `{Blake2} `{!EnrollToml} `{!EnrollTomlLaws}
    wD uD wU uU idD idU cfgD cfgU out noteD nowD fsD fsD1 text kpD
    from ep outU noteU nowU fsU fsU1 kpU fU
    grantfile fsD2 fD
    (Hexport : export_request wD idD out noteD nowD cfgD fsD = (fsD1, Ok text)) (HkD : load_identity idD fsD cfgD = Ok kpD)
    (Hcarry : fsU !! from = Some fU) (HfU : contents fU = Str.to_bytes text) (HkU : load_identity idU fsU cfgU = Ok kpU) (Hep : blank ep = false)
    (Hout : outU <> cfgU /\ outU <> with_extension cfgU "toml.tmp")
    (Haccept : add_accept wU uU from ep outU idU noteU nowU cfgU fsU = (fsU1, Ok tt))
    (Hback : fsD2 !! grantfile = Some fD) (HfD : Some (contents fD) = contents <$> fsU1 !! outU) :
  (exists top t, load_config_doc (<[outU := mkFile (contents fD) 384]> fsU) cfgU = Ok (TomlTable top)
     /\ load_config_doc fsU1 cfgU = Ok (TomlTable (<["accept" := TomlTable t]> top))
     /\ t !! "pubkey" = Some (TomlString (to_string (public_key kpD))) /\ from_str (to_string (public_key kpD)) = Ok (public_key kpD)
     /\ forall k, k <> "pubkey" -> t !! k = (get "accept" (TomlTable top) ≫= get k))
  /\ (load_identity idD fsD2 cfgD = Ok kpD ->
       let written := [("pubkey", to_string (public_key kpU)); ("endpoint", ep)] in
       add_dial wD uD grantfile idD cfgD fsD2 = write_section wD uD "dial" written cfgD fsD2
       /\ from_str (to_string (public_key kpU)) = Ok (public_key kpU)
       /\ forall fsD3, add_dial wD uD grantfile idD cfgD fsD2 = (fsD3, Ok tt) ->
          exists top t, load_config_doc fsD2 cfgD = Ok (TomlTable top) /\ load_config_doc fsD3 cfgD = Ok (TomlTable (<["dial" := TomlTable t]> top))
            /\ t !! "pubkey" = Some (TomlString (to_string (public_key kpU))) /\ t !! "endpoint" = Some (TomlString ep)
            /\ forall k, k <> "pubkey" -> k <> "endpoint" -> t !! k = (get "dial" (TomlTable top) ≫= get k))
  /\ (forall kp', load_identity idD fsD2 cfgD = Ok kp' -> public_key kp' <> public_key kpD ->
       add_dial wD uD grantfile idD cfgD fsD2 = (fsD2, Err (WrongGrant (public_key kpD) (public_key kp')))).
Proof.
  assert (request_to_string (request_new (public_key kpD) nowD noteD) = Some text) as Hreq.
  { unfold export_request in Hexport. rewrite HkD in Hexport. cbn [mbind result_bind] in Hexport.
    destruct (request_to_string _) as [t|]; cbn in Hexport; [|done]. destruct out as [path|]; [|by injection Hexport as _ ->].
    destruct (write_file_secret _ _ _ _) as [? [[]|]]; cbn in Hexport; [by injection Hexport as _ ->|done]. }
  apply add_accept_ok in Haccept as (kp & req & gtext & Hkp & Hrd & Hg & Hw). rewrite HkU in Hkp. injection Hkp as <-.
  assert (req = request_new (public_key kpD) nowD noteD) as ->.
  { unfold request_read in Hrd. rewrite (read_text _ _ _ _ Hcarry HfU) in Hrd by by eapply request_roundtrip, Hreq.
    cbn in Hrd. rewrite (request_from_toml_new _ _ _ _ Hreq) in Hrd. by injection Hrd as <-. }
  apply write_section_ok in Hw as (top & t & Hl0 & Hl1 & Hk & Hother & Hrest); [|repeat constructor; set_solver].
  assert (contents fD = Str.to_bytes gtext) as HfD'.
  { destruct Hout. rewrite Hrest, lookup_insert_eq in HfD by done. by injection HfD. }
  assert (grant_read fsD2 grantfile = Ok (grant_new (request_new (public_key kpD) nowD noteD) (public_key kpU) ep nowU noteU)) as Hgr.
  { unfold grant_read. rewrite (read_text _ _ _ _ Hback HfD') by by eapply grant_roundtrip, Hg.
    cbn [mbind result_bind ok_or]. by rewrite (grant_from_toml_new _ _ _ _ _ _ Hep Hg). }
  pose proof (load_identity_wf _ _ _ _ HkD) as [_ HwfD]. pose proof (load_identity_wf _ _ _ _ HkU) as [_ HwfU]. split; [|split].
  - exists top, t. rewrite HfD'. split; [done|]. split; [done|]. split; [apply Hk; left|]. split; [by apply from_str_to_string|].
    intros k Hk'. apply Hother. cbn. set_solver.
  - intros HkD2. cbn zeta. pose proof (add_dial_granted wD uD _ _ _ _ _ _ HkD2 Hgr) as Hd. cbn [grant_new gr_dial_pubkey gr_accept_pubkey gr_accept_endpoint rq_pubkey request_new] in Hd.
    rewrite bool_decide_true in Hd by done. split; [done|]. split; [by apply from_str_to_string|]. intros fsD3 Hdial. rewrite Hd in Hdial.
    apply write_section_ok in Hdial as (top' & t' & ? & ? & Hk2 & Hother2 & _); [|repeat constructor; set_solver].
    exists top', t'. split; [done|]. split; [done|]. split; [apply Hk2; left|]. split; [apply Hk2; right; left|]. intros k ? ?. apply Hother2. cbn. set_solver.
  - intros kp' Hkp' Hne. rewrite (add_dial_granted wD uD _ _ _ _ _ _ Hkp' Hgr). cbn. by rewrite bool_decide_false.
Qed.

Definition demo_home : StaticKeyPair := KeyPair (replicate 32 x01) (replicate 32 x02).
Definition demo_vps : StaticKeyPair := KeyPair (replicate 32 x03) (replicate 32 x04).
Definition demo_request : RequestFile := request_new (public_key demo_home) 7 "home".
Definition demo_grant : GrantFile := grant_new demo_request (public_key demo_vps) "vps:443" 9 "ok".
Definition demo_accept : Toml := TomlTable {["accept" := TomlTable {["pubkey" := TomlString (to_string (public_key demo_home))]}]}.

Definition is_demo_accept (d : Toml) : bool :=
  match d with
  | TomlTable m =>
      match map_to_list m with
      | [(s, TomlTable t)] =>
          match map_to_list t with
          | [(k, TomlString v)] => bool_decide (s = "accept" /\ k = "pubkey" /\ v = to_string (public_key demo_home))
          | _ => false
          end
      | _ => false
      end
  | _ => false
  end.

#[local] Instance RequestFile_eq_dec : EqDecision RequestFile.
Proof. solve_decision. Defined.
#[local] Instance GrantFile_eq_dec : EqDecision GrantFile.
Proof. solve_decision. Defined.

(** A serialiser that knows the three documents of one exchange. *)
#[local] Instance demo_enroll_toml : EnrollToml := {|
  request_to_string f := if decide (f = demo_request) then Some "R" else None;
  request_from_str t := if bool_decide (t = "R") then Ok demo_request else Err "request";
  grant_to_string f := if decide (f = demo_grant) then Some "G" else None;
  grant_from_str t := if bool_decide (t = "G") then Ok demo_grant else Err "grant";
  doc_to_string d := if is_demo_accept d then Some "A" else None;
  doc_from_str t := if bool_decide (t = "A") then Ok demo_accept else Err "document" |}.

Lemma singleton_of_list {A} (m : gmap string A) k v : map_to_list m = [(k, v)] -> m = {[k := v]}.
Proof. intros Hm. rewrite <- (list_to_map_to_list m), Hm. cbn. by rewrite insert_empty. Qed.

#[local] Instance demo_enroll_laws : EnrollTomlLaws.
Proof.
  split; cbn.
  - intros f t. destruct (decide _); [|done]. intros [= <-]. by subst.
  - intros f t. destruct (decide _); [|done]. intros [= <-]. by subst.
  - intros d t. destruct (is_demo_accept d) eqn:Hd; [|done]. intros [= <-]. split; [|done]. unfold is_demo_accept in Hd. cbn. f_equal.
    destruct d as [|m|]; try done. destruct (map_to_list m) as [|[s [|t|]] [|]] eqn:Hm; try done.
    destruct (map_to_list t) as [|[k [v| |]] [|]] eqn:Ht; try done. apply bool_decide_eq_true in Hd as (-> & -> & ->).
    apply singleton_of_list in Hm as ->. by apply singleton_of_list in Ht as ->.
Qed.

Definition demo_fs_home : Fs := <["id" := mkFile (to_identity_bytes demo_home) 384]> (<["grant" := mkFile (Str.to_bytes "G") 384]> ∅).
Definition demo_fs_vps : Fs := <["id" := mkFile (to_identity_bytes demo_vps) 384]> (<["request" := mkFile (Str.to_bytes "R") 384]> ∅).
Definition demo_accepted : Fs * result CliError unit :=
  add_accept (fun _ => true) 18 "request" "vps:443" "grant" (Some "id") "ok" 9 "config.toml" demo_fs_vps.

Lemma enrollment_pins_witness :
  add_dial (fun _ => true) 18 "grant" (Some "id") "config.toml" demo_fs_home =
    write_section (fun _ => true) 18 "dial" [("pubkey", to_string (X25519 (replicate 32 x04))); ("endpoint", "vps:443")] "config.toml" demo_fs_home
  /\ exists top, load_config_doc (fst demo_accepted) "config.toml" = Ok (TomlTable top) /\ is_Some (top !! "accept").
Proof.
  assert (snd demo_accepted = Ok tt) as Hok by by vm_compute.
  assert (contents <$> fst demo_accepted !! "grant" = Some (Str.to_bytes "G")) as Hg by by vm_compute.
  destruct (enrollment_pins (fun _ => true) 18 (fun _ => true) 18 (Some "id") (Some "id") "config.toml" "config.toml" None "home" 7 demo_fs_home demo_fs_home
    "R" demo_home "request" "vps:443" "grant" "ok" 9 demo_fs_vps (fst demo_accepted) demo_vps (mkFile (Str.to_bytes "R") 384) "grant" demo_fs_home
    (mkFile (Str.to_bytes "G") 384)) as ((top & t & _ & Hl & _) & Hd & _).
  - unfold export_request. replace (load_identity (Some "id") demo_fs_home "config.toml") with (Ok (E := CliError) demo_home) by (symmetry; by vm_compute).
    cbn [mbind result_bind request_to_string demo_enroll_toml]. by rewrite decide_True.
  - by vm_compute.
  - by vm_compute.
  - done.
  - by vm_compute.
  - by vm_compute.
  - split; [done|by vm_compute].
  - change (demo_accepted = (fst demo_accepted, Ok tt)). rewrite <- Hok. apply surjective_pairing.
  - by vm_compute.
  - by rewrite Hg.
  - split; [apply Hd; by vm_compute|]. eexists. split; [exact Hl|]. rewrite lookup_insert_eq. by eexists.
Defined.

End EnrollmentProps.
